(** * colony: rule resolution, placeholder and secret substitution, parser

    A shallow embedding of the resolution pipeline of colony
    (parser.js, resolver.js, strings.js, secrets.js, util.js, dotenv.js,
    index.js) and the properties of its specification.

    Conventions of the embedding.
    - A JS string is a [string]; every [ascii] stands for the UTF-16 code
      unit of the same number, so the model covers texts whose code units
      are below 256.
    - [undefined] is [None]; a value that may be [undefined] is an [option].
    - A JS [Map] whose iteration order is observed (the candidates by key,
      the trace, the secret references, the cache) is an association list
      in insertion order.  Objects that are only read by key (ctx, vars,
      env, the provider registry, the resolved secrets) are [gmap]s.
    - Arrays and objects have an identity: every node carries the serial
      number of its allocation, and the code that creates one draws a fresh
      serial from the allocation counter (the monad [M]).  [Set.has] and
      [===] compare arrays and objects by that identity.
    - Property reads see own properties only: key segments are taken not
      to name members inherited from [Object.prototype].
    - [Date.now()] and [process.env] are explicit arguments. *)

From Stdlib Require Import ZArith List String Ascii Lia Bool Arith.
From Stdlib Require Import Sorting.Sorted Sorting.Permutation.
From Stdlib Require Import Numbers.DecimalString.
From stdpp Require Import gmap strings.
Import ListNotations.

Local Open Scope string_scope.
Local Open Scope list_scope.

#[local] Unset Default Proof Using.

(* ===================================================================== *)
(** * Part I: the program *)
(* ===================================================================== *)

(** ** JavaScript strings *)

Module Js.

Definition code (c : ascii) : nat := nat_of_ascii c.

(** WhiteSpace and LineTerminator code units below 256: TAB, LF, VT, FF,
    CR, SP, NBSP.  This is the class [\s] and what [trim] strips. *)
Definition isSpace (c : ascii) : bool :=
  let n := code c in
  (((9 <=? n) && (n <=? 13)) || (n =? 32) || (n =? 160))%nat.

(** LineTerminator: what [.] does not match. *)
Definition isLineTerminator (c : ascii) : bool :=
  let n := code c in ((n =? 10) || (n =? 13))%nat.

Definition isUpper (c : ascii) : bool :=
  let n := code c in ((65 <=? n) && (n <=? 90))%nat.

Definition isDigit (c : ascii) : bool :=
  let n := code c in ((48 <=? n) && (n <=? 57))%nat.

Definition isUnderscore (c : ascii) : bool := (code c =? 95)%nat.

(** [[A-Z0-9_]] *)
Definition isIdentChar (c : ascii) : bool :=
  isUpper c || isDigit c || isUnderscore c.

Fixpoint trimStart (s : string) : string :=
  match s with
  | String c s' => if isSpace c then trimStart s' else s
  | EmptyString => EmptyString
  end.

Fixpoint rev (s : string) : string :=
  match s with
  | EmptyString => EmptyString
  | String c s' => rev s' +:+ String c EmptyString
  end.

Definition trimEnd (s : string) : string := rev (trimStart (rev s)).

(** [s.trim()] *)
Definition trim (s : string) : string := trimEnd (trimStart s).

(** [s.startsWith(p)] *)
Definition startsWith (p s : string) : bool := String.prefix p s.

(** [s.endsWith(p)] *)
Definition endsWith (p s : string) : bool := String.prefix (rev p) (rev s).

(** [s.slice(n)] for [0 <= n] *)
Fixpoint drop (n : nat) (s : string) : string :=
  match n, s with
  | O, _ => s
  | S n', String _ s' => drop n' s'
  | S _, EmptyString => EmptyString
  end.

(** [s.includes(p)] *)
Fixpoint includes (p s : string) : bool :=
  String.prefix p s ||
  match s with
  | EmptyString => false
  | String _ s' => includes p s'
  end.

(** [parts.join(sep)] *)
Fixpoint join (sep : string) (parts : list string) : string :=
  match parts with
  | [] => ""
  | [p] => p
  | p :: rest => p +:+ sep +:+ join sep rest
  end.

(** [s.split(sep)] for a one-unit separator: the pieces between the
    separators, [cur] being the piece under construction. *)
Fixpoint splitOn (sep : ascii) (cur s : string) : list string :=
  match s with
  | EmptyString => [cur]
  | String c s' =>
      if Ascii.eqb c sep then cur :: splitOn sep "" s'
      else splitOn sep (cur +:+ String c "") s'
  end.

Definition LF : ascii := ascii_of_nat 10.
Definition CR : ascii := ascii_of_nat 13.

(** [text.split(/\r?\n/)]: the separator is a line feed together with a
    carriage return standing right before it. *)
Fixpoint splitLines (cur s : string) : list string :=
  match s with
  | EmptyString => [cur]
  | String c s' =>
      if Ascii.eqb c LF then cur :: splitLines "" s'
      else
        match s' with
        | String c' s'' =>
            if Ascii.eqb c CR && Ascii.eqb c' LF
            then cur :: splitLines "" s''
            else splitLines (cur +:+ String c "") s'
        | EmptyString => splitLines (cur +:+ String c "") s'
        end
  end.

(** ASCII part of [s.toUpperCase()]. *)
Definition upperChar (c : ascii) : ascii :=
  let n := code c in
  if ((97 <=? n) && (n <=? 122))%nat then ascii_of_nat (n - 32) else c.

Fixpoint toUpperCase (s : string) : string :=
  match s with
  | EmptyString => EmptyString
  | String c s' => String (upperChar c) (toUpperCase s')
  end.

(** Decimal rendering of a non-negative integer, as template literals
    and [String(n)] give it. *)
Definition ofNat (n : nat) : string :=
  NilZero.string_of_uint (Nat.to_uint n).

(** *** Global regular-expression scans

    A [matcher] says whether the regular expression matches at the start
    of a string, and then gives the captured groups and the number of
    code units of the match (at least one).  [scan] is the left-to-right
    walk of a [g]-flagged regular expression: at a match it emits the
    match and resumes right after it, otherwise it emits the code unit
    and moves on by one.  [skip] counts the units of the current match
    still to be passed over. *)
Definition matcher (G : Type) : Type := string -> option (G * nat).

Inductive piece (G : Type) : Type :=
| Lit (c : ascii)
| Match (matched : string) (groups : G).
Arguments Lit {G} c.
Arguments Match {G} matched groups.

Fixpoint scan {G : Type} (rx : matcher G) (skip : nat) (s : string)
  : list (piece G) :=
  match s with
  | EmptyString => []
  | String c s' =>
      match skip with
      | S k => scan rx k s'
      | O =>
          match rx s with
          | Some (g, S k) =>
              Match (String.substring 0 (S k) s) g :: scan rx k s'
          | _ => Lit c :: scan rx 0 s'
          end
      end
  end.

(** The source text of a piece, and of a list of pieces. *)
Definition pieceText {G : Type} (p : piece G) : string :=
  match p with
  | Lit c => String c ""
  | Match m _ => m
  end.

Definition unscan {G : Type} (ps : list (piece G)) : string :=
  fold_right (fun p acc => pieceText p +:+ acc) "" ps.

(** The longest prefix of code units satisfying [p], and what follows. *)
Fixpoint span (p : ascii -> bool) (s : string) : string * string :=
  match s with
  | String c s' =>
      if p c then let '(a, b) := span p s' in (String c a, b) else ("", s)
  | EmptyString => ("", "")
  end.

(** *** Insertion-ordered maps with string keys

    The own properties of an object, and a [Map] with string keys:
    entries in insertion order, every key once. *)
Definition omap (V : Type) : Type := list (string * V).

(** [m.get(k)], [obj[k]] *)
Fixpoint mapGet {V : Type} (m : omap V) (k : string) : option V :=
  match m with
  | [] => None
  | (k', v) :: r => if String.eqb k' k then Some v else mapGet r k
  end.

(** [m.set(k, v)], [obj[k] = v]: an existing key keeps its place, a new
    one comes last. *)
Fixpoint mapSet {V : Type} (m : omap V) (k : string) (v : V) : omap V :=
  match m with
  | [] => [(k, v)]
  | (k', v') :: r =>
      if String.eqb k' k then (k', v) :: r else (k', v') :: mapSet r k v
  end.

(** [m.delete(k)] *)
Fixpoint mapDelete {V : Type} (m : omap V) (k : string) : omap V :=
  match m with
  | [] => []
  | (k', v') :: r =>
      if String.eqb k' k then r else (k', v') :: mapDelete r k
  end.

(** [m.has(k)] *)
Definition mapHas {V : Type} (m : omap V) (k : string) : bool :=
  match mapGet m k with Some _ => true | None => false end.

End Js.

(** ** Values and the allocation counter *)

Module Heap.

(** The identity of an array or object: the serial number of its
    allocation. *)
Definition ref : Type := nat.

(** A computation that allocates: it takes the next free serial and
    returns the one free afterwards. *)
Definition M (A : Type) : Type := ref -> A * ref.

Definition ret {A : Type} (a : A) : M A := fun n => (a, n).

Definition bind {A B : Type} (m : M A) (k : A -> M B) : M B :=
  fun n => let '(a, n') := m n in k a n'.

(** A new array or object. *)
Definition alloc : M ref := fun n => (n, S n).

(** [xs.map(f)] for an allocating [f], left to right. *)
Definition mapM {A B : Type} (f : A -> M B) : list A -> M (list B) :=
  fix go (l : list A) : M (list B) :=
    match l with
    | [] => ret []
    | x :: r => bind (f x) (fun y => bind (go r) (fun ys => ret (y :: ys)))
    end.

(** The same, threading a second state [S] (the warnings array). *)
Definition mapMS {A B S : Type} (f : A -> S -> M (B * S))
  : list A -> S -> M (list B * S) :=
  fix go (l : list A) (s : S) : M (list B * S) :=
    match l with
    | [] => ret ([], s)
    | x :: r =>
        bind (f x s) (fun y =>
        bind (go r (snd y)) (fun ys => ret (fst y :: fst ys, snd ys)))
    end.

End Heap.

Notation "'let*' x ':=' m 'in' k" := (Heap.bind m (fun x => k))
  (at level 10, x pattern, m at level 100, k at level 200).

Module Value.
Import Heap.

(** Numbers up to SameValueZero: the integer-valued literals, and NaN,
    which SameValueZero (unlike [===]) equates with itself. *)
Inductive number : Type :=
| Num (z : Z)
| NaN.

(** A decoded literal, or a node of the resolved tree. *)
#[local] Unset Elimination Schemes.
Inductive value : Type :=
| VNull
| VBool (b : bool)
| VNum (n : number)
| VStr (s : string)
| VArr (id : ref) (items : list value)
| VObj (id : ref) (props : list (string * value)).
#[local] Set Elimination Schemes.

Definition props : Type := list (string * value).

(** [Array.isArray(x)] *)
Definition isArray (x : value) : bool :=
  match x with VArr _ _ => true | _ => false end.

(** util.js [isPlainObject]: [x !== null && typeof x === "object" &&
    !Array.isArray(x)] *)
Definition isPlainObject (x : value) : bool :=
  match x with VObj _ _ => true | _ => false end.

(** [obj[k]] on own properties, and [obj[k] = v].  The properties are
    the own data properties of the object: the members it inherits and
    the name __proto__ are outside this model, and the statements that
    depend on them exclude such names ([Terms.plainPath],
    [Terms.inherited], [Terms.ownKey]). *)
Definition propGet (ps : props) (k : string) : option value :=
  Js.mapGet ps k.

Definition propSet (ps : props) (k : string) (v : value) : props :=
  Js.mapSet ps k v.

(** The array index a property key denotes, if it is the canonical
    decimal form of one. *)
Definition arrayIndex (k : string) : option nat :=
  match NilZero.uint_of_string k with
  | Some u =>
      let n := Nat.of_uint u in
      if String.eqb (Js.ofNat n) k then Some n else None
  | None => None
  end.

(** [arr[k]] *)
Definition itemGet (items : list value) (k : string) : option value :=
  if String.eqb k "length" then Some (VNum (Num (Z.of_nat (length items))))
  else match arrayIndex k with
       | Some i => nth_error items i
       | None => None
       end.

(** SameValueZero, the equality of [Set.prototype.has]: primitives by
    value, arrays and objects by identity. *)
Definition number_eqb (a b : number) : bool :=
  match a, b with
  | Num x, Num y => Z.eqb x y
  | NaN, NaN => true
  | _, _ => false
  end.

Definition sameValueZero (a b : value) : bool :=
  match a, b with
  | VNull, VNull => true
  | VBool x, VBool y => Bool.eqb x y
  | VNum x, VNum y => number_eqb x y
  | VStr x, VStr y => String.eqb x y
  | VArr i _, VArr j _ => Nat.eqb i j
  | VObj i _, VObj j _ => Nat.eqb i j
  | _, _ => false
  end.

(** [structuredClone(v)]: a deep copy, every node of it newly
    allocated. *)
Fixpoint structuredClone (v : value) : M value :=
  match v with
  | VArr _ items =>
      let* id := alloc in
      let* items' := mapM structuredClone items in
      ret (VArr id items')
  | VObj _ ps =>
      let* id := alloc in
      let* ps' := mapM (fun kv : string * value =>
                          let* v' := structuredClone (snd kv) in
                          ret (fst kv, v')) ps in
      ret (VObj id ps')
  | _ => ret v
  end.

End Value.

(** ** util.js *)

Module Util.
Import Heap Value.

(** [getDeep(obj, pathSegs)] *)
Fixpoint getDeep (cur : value) (pathSegs : list string) : option value :=
  match pathSegs with
  | [] => Some cur
  | k :: rest =>
      match cur with
      | VObj _ ps =>
          match propGet ps k with
          | Some v => getDeep v rest
          | None => None
          end
      | VArr _ items =>
          match itemGet items k with
          | Some v => getDeep v rest
          | None => None
          end
      | _ => None
      end
  end.

(** The loop of [setDeep] on the properties of [cur]: the last segment
    is assigned; on the way down a property that is not a plain object
    is replaced by a new empty object, and a plain object is updated in
    place (it keeps its identity). *)
Fixpoint setProps (ps : props) (pathSegs : list string) (v : value)
  : M props :=
  match pathSegs with
  | [] => ret ps
  | k :: rest =>
      match rest with
      | [] => ret (propSet ps k v)
      | _ :: _ =>
          match propGet ps k with
          | Some (VObj id sub) =>
              let* sub' := setProps sub rest v in
              ret (propSet ps k (VObj id sub'))
          | _ =>
              let* id := alloc in
              let* sub' := setProps [] rest v in
              ret (propSet ps k (VObj id sub'))
          end
      end
  end.

(** [setDeep(obj, pathSegs, value)]; [obj] is the tree under
    construction, mutated in place. *)
Definition setDeep (obj : value) (pathSegs : list string) (v : value)
  : M value :=
  match obj with
  | VObj id ps => let* ps' := setProps ps pathSegs v in ret (VObj id ps')
  | _ => ret obj
  end.

(** The loop of [deepMerge] over [Object.entries(b)]:
    [out[k] = k in out ? deepMerge(out[k], v) : v]. *)
Definition mergeEntries (merge : value -> value -> M value)
  : props -> props -> M props :=
  fix entries (pb : props) (out : props) {struct pb} : M props :=
    match pb with
    | [] => ret out
    | kv :: r =>
        match propGet out (fst kv) with
        | Some cur =>
            let* m := merge cur (snd kv) in
            entries r (propSet out (fst kv) m)
        | None => entries r (propSet out (fst kv) (snd kv))
        end
    end.

(** [deepMerge(a, b)]; [{ ...a }] is a new object with the properties
    of [a]. *)
Fixpoint deepMerge (a b : value) {struct b} : M value :=
  match a, b with
  | VObj _ pa, VObj _ pb =>
      let* id := alloc in
      let* out := mergeEntries deepMerge pb pa in
      ret (VObj id out)
  | _, _ => ret b
  end.

End Util.

(** ** Warnings (the [Warning] union of the type declarations) *)

Module Warn.

(** One constructor per [type]; the fields are the ones the code fills
    in ([var], [pattern], [provider], [key]) and what the message is
    rendered from. *)
Inductive warning : Type :=
| blocked_env_var (var : string)
| blocked_var (var : string)
| unknown_var (var : string) (span : string)
| unknown_ctx (var : string) (span : string)
| unknown_interpolation (pattern : string)
| blocked_secret (provider key : string)
| secret_not_found (provider key : string)
| secret_fetch_error (provider key : string) (errMessage : option string)
| unknown_provider (provider key : string).

Definition quote : string := String (ascii_of_nat 34) "".

Definition message (w : warning) : string :=
  match w with
  | blocked_env_var k =>
      "Access to environment variable " +:+ quote +:+ k +:+ quote
      +:+ " blocked by allowedEnvVars whitelist"
  | blocked_var k =>
      "Access to custom variable " +:+ quote +:+ k +:+ quote
      +:+ " blocked by allowedVars whitelist"
  | unknown_var k m =>
      "Unknown VAR " +:+ quote +:+ k +:+ quote +:+ " in interpolation " +:+ m
  | unknown_ctx k m =>
      "Unknown ctx dimension " +:+ quote +:+ k +:+ quote
      +:+ " in interpolation " +:+ m
  | unknown_interpolation m => "Unknown interpolation pattern: " +:+ m
  | blocked_secret p k =>
      "Access to secret " +:+ quote +:+ p +:+ ":" +:+ k +:+ quote
      +:+ " blocked by allowedSecrets"
  | secret_not_found p k =>
      "Secret " +:+ quote +:+ p +:+ ":" +:+ k +:+ quote +:+ " not found"
  | secret_fetch_error p k m =>
      "Failed to fetch " +:+ quote +:+ p +:+ ":" +:+ k +:+ quote +:+ ": "
      +:+ default "undefined" m
  | unknown_provider p _ =>
      "No provider registered for " +:+ quote +:+ p +:+ quote
  end.

End Warn.

(** ** strings.js: placeholder substitution *)

Module Strings.
Import Heap Value Warn.

Record options : Type := mkOptions {
  ctx : gmap string string;
  vars : gmap string string;
  env : option (gmap string string);
  processEnv : gmap string string;
  allowedEnvVars : option (list string);
  allowedVars : option (list string)
}.

Definition isCloseBrace (c : ascii) : bool := (Js.code c =? 125)%nat.

(** [/\$\{([^}]+)\}/] at the start of [s]: the group [exprRaw] and the
    length of the match. *)
Definition placeholderAt : Js.matcher string := fun s =>
  match s with
  | String d (String b r) =>
      if ((Js.code d =? 36) && (Js.code b =? 123))%nat then
        let '(inner, rest) := Js.span (fun c => negb (isCloseBrace c)) r in
        match inner, rest with
        | String _ _, String _ _ => Some (inner, String.length inner + 3)
        | _, _ => None
        end
      else None
  | _ => None
  end.

(** [RX_SECRET_PROVIDER = /^[A-Z][A-Z0-9_]*:/] *)
Definition RX_SECRET_PROVIDER (expr : string) : bool :=
  match expr with
  | String c r =>
      Js.isUpper c && Js.startsWith ":" (snd (Js.span Js.isIdentChar r))
  | EmptyString => false
  end.

(** [allowed !== null && !allowed.includes(k)] *)
Definition blocked (allowed : option (list string)) (k : string) : bool :=
  match allowed with
  | Some l => negb (existsb (String.eqb k) l)
  | None => false
  end.

(** [env ? { ...process.env, ...env } : process.env] *)
Definition envSource (o : options) : gmap string string :=
  match env o with
  | Some e => e ∪ processEnv o
  | None => processEnv o
  end.

(** The replacement callback of [interpolate]: the text that replaces
    the span [matched], and the warnings after it. *)
Definition replacePlaceholder (o : options) (matched exprRaw : string)
  (warnings : list warning) : string * list warning :=
  let expr := Js.trim exprRaw in
  if Js.startsWith "ENV:" expr then
    let k := Js.trim (Js.drop 4 expr) in
    if blocked (allowedEnvVars o) k
    then ("", warnings ++ [blocked_env_var k])
    else (default "" (envSource o !! k), warnings)
  else if Js.startsWith "VAR:" expr then
    let k := Js.trim (Js.drop 4 expr) in
    if blocked (allowedVars o) k
    then ("", warnings ++ [blocked_var k])
    else
      match vars o !! k with
      | None => ("", warnings ++ [unknown_var k matched])
      | Some v => (v, warnings)
      end
  else if Js.startsWith "ctx." expr then
    let k := Js.trim (Js.drop 4 expr) in
    match ctx o !! k with
    | None => ("", warnings ++ [unknown_ctx k matched])
    | Some v => (v, warnings)
    end
  else if RX_SECRET_PROVIDER expr then (matched, warnings)
  else ("", warnings ++ [unknown_interpolation matched]).

(** One step of [s.replace(rx, callback)]. *)
Definition replacePiece (o : options) (acc : string * list warning)
  (p : Js.piece string) : string * list warning :=
  match p with
  | Js.Lit c => (fst acc +:+ String c "", snd acc)
  | Js.Match m exprRaw =>
      let '(r, ws) := replacePlaceholder o m exprRaw (snd acc) in
      (fst acc +:+ r, ws)
  end.

(** [interpolate(s, opts)]; the warnings are pushed onto the caller's
    array. *)
Definition interpolate (o : options) (s : string) (warnings : list warning)
  : string * list warning :=
  fold_left (replacePiece o) (Js.scan placeholderAt 0 s) ("", warnings).

(** [applyInterpolationDeep(value, opts)]: [value.map] makes a new
    array, and every entry of [Object.entries(value)] becomes a property
    of the new object [out], in the same order. *)
Fixpoint applyInterpolationDeep (o : options) (v : value)
  (warnings : list warning) : M (value * list warning) :=
  match v with
  | VStr s =>
      let '(s', ws) := interpolate o s warnings in ret (VStr s', ws)
  | VArr _ items =>
      let* id := alloc in
      let* r := mapMS (applyInterpolationDeep o) items warnings in
      ret (VArr id (fst r), snd r)
  | VObj _ ps =>
      let* id := alloc in
      let* r := mapMS (fun (kv : string * value) ws =>
                         let* r := applyInterpolationDeep o (snd kv) ws in
                         ret ((fst kv, fst r), snd r)) ps warnings in
      ret (VObj id (fst r), snd r)
  | _ => ret (v, warnings)
  end.

End Strings.

(** ** resolver.js *)

Module Resolver.
Import Heap Value Warn Util.

(** The operator of a rule: [=], [:=], [|=], [+=], [-=]. *)
Inductive operator : Type :=
| OpSet
| OpSetIfMissing
| OpMerge
| OpAppend
| OpRemove.

(** A rule as the parser records it. *)
Record rule : Type := mkRule {
  filePath : string;
  line : nat;
  col : nat;
  keyRaw : string;
  keySegments : list string;
  op : operator;
  value : Value.value
}.

(** A rule of [indexed]: [{ ...r, scope, keyPath, keyPathStr }]. *)
Record indexedRule : Type := mkIndexed {
  base : rule;
  scope : list string;
  keyPath : list string;
  keyPathStr : string
}.

Inductive result (A : Type) : Type :=
| Ok (a : A)
| Throw (message : string).
Arguments Ok {A} a.
Arguments Throw {A} message.

(** [packTrace(rule, spec)] *)
Record traceInfo : Type := mkTrace {
  t_op : operator;
  t_scope : list string;
  t_specificity : nat;
  t_filePath : string;
  t_line : nat;
  t_col : nat;
  t_keyRaw : string;
  t_source : string
}.

Definition packTrace (r : indexedRule) (spec : nat) : traceInfo :=
  {| t_op := op (base r);
     t_scope := scope r;
     t_specificity := spec;
     t_filePath := filePath (base r);
     t_line := line (base r);
     t_col := col (base r);
     t_keyRaw := keyRaw (base r);
     t_source := filePath (base r) +:+ ":" +:+ Js.ofNat (line (base r))
                 +:+ ":" +:+ Js.ofNat (col (base r)) |}.

(** [matches(ruleScope, ctxScope)]; a position the context lacks reads
    as [String(undefined)]. *)
Fixpoint matches (ruleScope ctxScope : list string) : bool :=
  match ruleScope with
  | [] => true
  | r :: ruleScope' =>
      let c := hd "undefined" ctxScope in
      if String.eqb r "*" then matches ruleScope' (tl ctxScope)
      else if String.eqb r c then matches ruleScope' (tl ctxScope)
      else false
  end.

(** [specificity(ruleScope)] *)
Fixpoint specificity (ruleScope : list string) : nat :=
  match ruleScope with
  | [] => 0
  | seg :: rest =>
      if String.eqb seg "*" then specificity rest else S (specificity rest)
  end.

(** [clone(v)] *)
Fixpoint clone (v : Value.value) : M Value.value :=
  match v with
  | VArr _ items =>
      let* id := alloc in
      let* items' := mapM clone items in
      ret (VArr id items')
  | VObj _ _ => structuredClone v
  | _ => ret v
  end.

(** The first loop: one rule of [rules] indexed, or the error thrown. *)
Definition indexRule (dims : list string) (r : rule) : result indexedRule :=
  let scope := firstn (length dims) (keySegments r) in
  let keyPath := skipn (length dims) (keySegments r) in
  if negb (length scope =? length dims)%nat || (length keyPath =? 0)%nat
  then Throw (filePath r +:+ ":" +:+ Js.ofNat (line r) +:+ ": Key must have "
              +:+ Js.ofNat (length dims)
              +:+ " scope segments + at least one key segment: " +:+ keyRaw r)
  else Ok {| base := r; scope := scope; keyPath := keyPath;
             keyPathStr := Js.join "." keyPath |}.

Fixpoint indexRules (dims : list string) (rules : list rule)
  : result (list indexedRule) :=
  match rules with
  | [] => Ok []
  | r :: rest =>
      match indexRule dims r with
      | Throw m => Throw m
      | Ok i =>
          match indexRules dims rest with
          | Throw m => Throw m
          | Ok rest' => Ok (i :: rest')
          end
      end
  end.

(** [dims.map((d) => String(ctx[d] ?? ""))] *)
Definition ctxScopeOf (dims : list string) (ctx : gmap string string)
  : list string :=
  map (fun d => default "" (ctx !! d)) dims.

Definition isPostOp (o : operator) : bool :=
  match o with OpAppend | OpRemove => true | _ => false end.

(** [candidatesByKey]: a [Map] from [keyPathStr] to the candidates, in
    the order the keys were first met. *)
Definition candidates : Type := Js.omap (list indexedRule).

(** [if (!candidatesByKey.has(k)) candidatesByKey.set(k, []);
     candidatesByKey.get(k).push(r)] *)
Definition pushCandidate (cs : candidates) (k : string) (r : indexedRule)
  : candidates :=
  let cs' := if Js.mapHas cs k then cs else Js.mapSet cs k [] in
  Js.mapSet cs' k (default [] (Js.mapGet cs' k) ++ [r]).

(** The second loop: the matching rules, split into candidates by key
    and deferred operations. *)
Definition partitionStep (ctxScope : list string)
  (acc : candidates * list indexedRule) (r : indexedRule)
  : candidates * list indexedRule :=
  if negb (matches (scope r) ctxScope) then acc
  else if isPostOp (op (base r)) then (fst acc, snd acc ++ [r])
  else (pushCandidate (fst acc) (keyPathStr r) r, snd acc).

Definition partitionRules (ctxScope : list string)
  (indexed : list indexedRule) : candidates * list indexedRule :=
  fold_left (partitionStep ctxScope) indexed ([], []).

(** The winner loop over [cand[1..]], from [winner = cand[0]] and
    [best = specificity(winner.scope)]. *)
Definition winnerStep (acc : indexedRule * nat) (c : indexedRule)
  : indexedRule * nat :=
  let s := specificity (scope c) in
  if (snd acc <? s)%nat then (c, s)
  else if (s =? snd acc)%nat then (c, snd acc)
  else acc.

Definition selectWinner (cand : list indexedRule)
  : option (indexedRule * nat) :=
  match cand with
  | [] => None
  | c0 :: rest => Some (fold_left winnerStep rest (c0, specificity (scope c0)))
  end.

(** [trace]: a [Map] from key to trace entry. *)
Definition traceMap : Type := Js.omap traceInfo.

Definition traceSet (t : traceMap) (k : string) (i : traceInfo) : traceMap :=
  Js.mapSet t k i.

Definition traceGet (t : traceMap) (k : string) : option traceInfo :=
  Js.mapGet t k.

(** The body of the loop over [candidatesByKey.entries()] once the
    winner is known. *)
Definition applyWinner (key : string) (winner : indexedRule) (best : nat)
  (st : Value.value * traceMap) : M (Value.value * traceMap) :=
  let '(out, trace) := st in
  let existing := getDeep out (keyPath winner) in
  match op (base winner) with
  | OpSetIfMissing =>
      match existing with
      | None =>
          let* v := clone (value (base winner)) in
          let* out' := setDeep out (keyPath winner) v in
          ret (out', traceSet trace key (packTrace winner best))
      | Some _ => ret (out, trace)
      end
  | OpMerge =>
      let* out' :=
        match existing with
        | None =>
            let* v := clone (value (base winner)) in
            setDeep out (keyPath winner) v
        | Some e =>
            if isPlainObject e && isPlainObject (value (base winner)) then
              let* m := deepMerge e (value (base winner)) in
              setDeep out (keyPath winner) m
            else
              let* v := clone (value (base winner)) in
              setDeep out (keyPath winner) v
        end in
      ret (out', traceSet trace key (packTrace winner best))
  | _ =>
      let* v := clone (value (base winner)) in
      let* out' := setDeep out (keyPath winner) v in
      ret (out', traceSet trace key (packTrace winner best))
  end.

Fixpoint applyCandidates (cs : candidates) (st : Value.value * traceMap)
  : M (Value.value * traceMap) :=
  match cs with
  | [] => ret st
  | (key, cand) :: rest =>
      match selectWinner cand with
      | Some (winner, best) =>
          let* st' := applyWinner key winner best st in
          applyCandidates rest st'
      | None => applyCandidates rest st
      end
  end.

(** [postOps.sort((a, b) => specificity(a.scope) - specificity(b.scope))]:
    ascending, and stable as [Array.prototype.sort] is. *)
Fixpoint insertBySpecificity (r : indexedRule) (sorted : list indexedRule)
  : list indexedRule :=
  match sorted with
  | [] => [r]
  | x :: xs =>
      if (specificity (scope r) <=? specificity (scope x))%nat
      then r :: x :: xs
      else x :: insertBySpecificity r xs
  end.

Definition sortPostOps (postOps : list indexedRule) : list indexedRule :=
  fold_right insertBySpecificity [] postOps.

(** [Array.isArray(val) ? val : [val]] *)
Definition asArray (val : Value.value) : M Value.value :=
  match val with
  | VArr _ _ => ret val
  | _ => let* id := alloc in ret (VArr id [val])
  end.

Definition elements (arr : Value.value) : list Value.value :=
  match arr with
  | VArr _ items => items
  | _ => []
  end.

(** [new Set(items).has(x)] *)
Definition setHas (items : list Value.value) (x : Value.value) : bool :=
  existsb (sameValueZero x) items.

(** The body of the loop over the sorted [postOps]. *)
Definition applyPostOp (r : indexedRule) (st : Value.value * traceMap)
  : M (Value.value * traceMap) :=
  let '(out, trace) := st in
  let key := keyPathStr r in
  let best := specificity (scope r) in
  let existing := getDeep out (keyPath r) in
  let* val := clone (value (base r)) in
  match op (base r) with
  | OpAppend =>
      let* add := asArray val in
      let* out' :=
        match existing with
        | None => setDeep out (keyPath r) add
        | Some (VArr _ items) =>
            let* id := alloc in
            setDeep out (keyPath r) (VArr id (items ++ elements add))
        | Some e =>
            let* single := alloc in
            let* id := alloc in
            setDeep out (keyPath r) (VArr id ([e] ++ elements add))
        end in
      ret (out', traceSet trace key (packTrace r best))
  | OpRemove =>
      let* remove := asArray val in
      match existing with
      | Some (VArr _ items) =>
          let* id := alloc in
          let* out' :=
            setDeep out (keyPath r)
              (VArr id (List.filter (fun x => negb (setHas (elements remove) x))
                          items)) in
          ret (out', traceSet trace key (packTrace r best))
      | _ => ret (out, trace)
      end
  | _ => ret (out, trace)
  end.

Fixpoint applyPostOps (ops : list indexedRule) (st : Value.value * traceMap)
  : M (Value.value * traceMap) :=
  match ops with
  | [] => ret st
  | r :: rest => let* st' := applyPostOp r st in applyPostOps rest st'
  end.

(** What [resolveRules] returns: the configuration, its [_trace], and
    the caller's [warnings] array. *)
Record resolved : Type := mkResolved {
  cfg : Value.value;
  trace : traceMap;
  warnings : list warning
}.

(** [resolveRules({ rules, dims, ctx, vars, env, allowedEnvVars,
    allowedVars, warnings })]; [o] carries [ctx], [vars], [env] and the
    allow lists.  The result holds the data of the tree; the methods the
    code defines on it (get, explain, toJSON, keys, diff, _trace), which
    are not enumerable, are not properties of [cfg]: [get] and [explain]
    are [getByPath] and [explainByPath] below. *)
Definition resolveRules (rules : list rule) (dims : list string)
  (o : Strings.options) (warnings : list warning) : M (result resolved) :=
  match indexRules dims rules with
  | Throw m => ret (Throw m)
  | Ok indexed =>
      let ctxScope := ctxScopeOf dims (Strings.ctx o) in
      let '(candidatesByKey, postOps) := partitionRules ctxScope indexed in
      let* root := alloc in
      let* st := applyCandidates candidatesByKey (VObj root [], []) in
      let* st' := applyPostOps (sortPostOps postOps) st in
      let* final := Strings.applyInterpolationDeep o (fst st') warnings in
      ret (Ok {| cfg := fst final; trace := snd st'; warnings := snd final |})
  end.

(** [getByPath(obj, p)]: [String(p).split(".").filter(Boolean)] then
    [getDeep]. *)
Definition getByPath (obj : Value.value) (p : string) : option Value.value :=
  getDeep obj
    (List.filter (fun s => negb (String.eqb s "")) (Js.splitOn "." "" p)).

(** [explainByPath(trace, p)]: [trace.get(key) ?? null] *)
Definition explainByPath (t : traceMap) (p : string) : option traceInfo :=
  traceGet t p.

End Resolver.

(** ** secrets.js *)

Module Secrets.
Import Heap Value Warn.

(** *** The cache *)

(** A cache entry [{ value, expires }]. *)
Record entry : Type := mkEntry {
  e_value : string;
  e_expires : Z
}.

(** [SecretCache]: [maxSize] and the [Map] [cache]. *)
Record SecretCache : Type := mkCache {
  maxSize : nat;
  cache : Js.omap entry
}.

(** [new SecretCache(maxSize)] *)
Definition newCache (maxSize : nat) : SecretCache :=
  {| maxSize := maxSize; cache := [] |}.

(** [cache.get(key)] at the instant [now]: the value or [undefined],
    and the cache afterwards. *)
Definition get (c : SecretCache) (now : Z) (key : string)
  : option string * SecretCache :=
  match Js.mapGet (cache c) key with
  | None => (None, c)
  | Some e =>
      if (e_expires e <? now)%Z
      then (None, {| maxSize := maxSize c;
                     cache := Js.mapDelete (cache c) key |})
      else (Some (e_value e),
            {| maxSize := maxSize c;
               cache := Js.mapSet (Js.mapDelete (cache c) key) key e |})
  end.

(** [this.cache.keys().next().value] *)
Definition firstKey (m : Js.omap entry) : option string :=
  match m with
  | [] => None
  | (k, _) :: _ => Some k
  end.

(** [cache.set(key, value, ttl)] at the instant [now]. *)
Definition set (c : SecretCache) (now : Z) (key value : string) (ttl : Z)
  : SecretCache :=
  let m :=
    if (maxSize c <=? length (cache c))%nat then
      match firstKey (cache c) with
      | Some k0 => Js.mapDelete (cache c) k0
      | None => cache c
      end
    else cache c in
  {| maxSize := maxSize c;
     cache := Js.mapSet m key {| e_value := value;
                                 e_expires := (now + ttl)%Z |} |}.

Definition isStar (c : ascii) : bool := (Js.code c =? 42)%nat.

(** [new RegExp("^" + globToRegex(pattern) + "$").test(s)]:
    [globToRegex] escapes every metacharacter but [*], which becomes
    [.*], a run of code units that are not line terminators. *)
Fixpoint globTest (pattern : string) : string -> bool :=
  match pattern with
  | EmptyString => fun s => match s with EmptyString => true | _ => false end
  | String c p' =>
      if isStar c then
        fix star (s : string) : bool :=
          globTest p' s ||
          match s with
          | String d s' => negb (Js.isLineTerminator d) && star s'
          | EmptyString => false
          end
      else
        fun s =>
          match s with
          | String d s' => Ascii.eqb c d && globTest p' s'
          | EmptyString => false
          end
  end.

(** [cache.invalidate(pattern)]; [None] and the empty string are the
    falsy patterns. *)
Definition invalidate (c : SecretCache) (pattern : option string)
  : SecretCache :=
  match pattern with
  | None | Some EmptyString => {| maxSize := maxSize c; cache := [] |}
  | Some p =>
      {| maxSize := maxSize c;
         cache := List.filter (fun kv => negb (globTest p (fst kv))) (cache c) |}
  end.

(** *** Secret references *)

(** [RX_SECRET], at the start of [s]: a dollar sign and an opening
    brace, the group [[A-Z][A-Z0-9_]*] (provider), a colon, the group
    [[^}]+] (key) and a closing brace.  Gives the two groups and the
    length of the match. *)
Definition secretAt : Js.matcher (string * string) := fun s =>
  match s with
  | String d (String b (String c r)) =>
      if ((Js.code d =? 36) && (Js.code b =? 123))%nat && Js.isUpper c then
        let '(ident, rest) := Js.span Js.isIdentChar r in
        match rest with
        | String colon r2 =>
            if (Js.code colon =? 58)%nat then
              let '(key, rest2) :=
                Js.span (fun x => negb (Strings.isCloseBrace x)) r2 in
              match key, rest2 with
              | String _ _, String _ _ =>
                  Some ((String c ident, key),
                        String.length ident + String.length key + 5)
              | _, _ => None
              end
            else None
        | EmptyString => None
        end
      else None
  | _ => None
  end.

(** [RESERVED = new Set(["ENV", "VAR"])] *)
Definition RESERVED (provider : string) : bool :=
  String.eqb provider "ENV" || String.eqb provider "VAR".

(** [`${provider}:${key.trim()}`] *)
Definition fullKeyOf (provider key : string) : string :=
  provider +:+ ":" +:+ Js.trim key.

(** [refs]: a [Map] from full key to [{ provider, key }]. *)
Definition refMap : Type := Js.omap (string * string).

(** One turn of the [exec] loop. *)
Definition addRef (refs : refMap) (p : Js.piece (string * string)) : refMap :=
  match p with
  | Js.Lit _ => refs
  | Js.Match _ (provider, key) =>
      if RESERVED provider then refs
      else
        let fullKey := fullKeyOf provider key in
        if Js.mapHas refs fullKey then refs
        else Js.mapSet refs fullKey (provider, Js.trim key)
  end.

(** [collectSecretRefs(value, refs)] *)
Fixpoint collectSecretRefs (v : value) (refs : refMap) : refMap :=
  match v with
  | VStr s => fold_left addRef (Js.scan secretAt 0 s) refs
  | VArr _ items =>
      fold_left (fun acc item => collectSecretRefs item acc) items refs
  | VObj _ ps =>
      fold_left (fun acc kv => collectSecretRefs (snd kv) acc) ps refs
  | _ => refs
  end.

(** [fullKey.split(":")[1]], rendered by [regex.test] *)
Definition keyOnly (fullKey : string) : string :=
  nth 1 (Js.splitOn ":" "" fullKey) "undefined".

(** [isAllowed(fullKey, allowedSecrets)] *)
Definition isAllowed (fullKey : string) (allowedSecrets : option (list string))
  : bool :=
  match allowedSecrets with
  | None => true
  | Some patterns =>
      existsb (fun pattern =>
                 String.eqb pattern fullKey
                 || globTest pattern fullKey
                 || (negb (Js.includes ":" pattern)
                     && globTest pattern (keyOnly fullKey)))
              patterns
  end.

(** *** Providers *)

(** What the [catch] handler reads of a rejection. *)
Record fetchError : Type := mkFetchError {
  err_code : option string;
  err_name : option string;
  err_message : option string
}.

(** How the promise of [provider.fetch(key)] settles. *)
Inductive settled : Type :=
| Fulfilled (val : option string)
| Rejected (err : fetchError).

Record provider : Type := mkProvider {
  prefix : string;
  fetch : string -> settled
}.

(** The [onNotFound] option. *)
Inductive policy : Type :=
| OnEmpty
| OnWarn
| OnError.

Record options : Type := mkOptions {
  providers : list provider;
  allowedSecrets : option (list string);
  cacheOpt : option SecretCache;
  cacheTtl : Z;
  onNotFound : policy;
  globalRegistry : gmap string provider
}.

(** What a [catch] handler throws. *)
Inductive thrown : Type :=
| ThrowError (message : string)
| Rethrow (err : fetchError).

(** [new Map(globalRegistry)] and then the local providers. *)
Definition registryOf (o : options) : gmap string provider :=
  fold_left (fun reg p => <[Js.toUpperCase (prefix p) := p]> reg)
    (providers o) (globalRegistry o).

(** The state the loop and the handlers share. *)
Record state : Type := mkState {
  st_warnings : list warning;
  st_cache : option SecretCache;
  st_resolved : gmap string string;
  st_pending : list (string * string * string * settled)
}.

(** One turn of the loop over [refs]: allow list, cache, provider,
    fetch. *)
Definition visitRef (o : options) (now : Z) (st : state)
  (ref : string * (string * string)) : state :=
  let '(fullKey, (provider, key)) := ref in
  if negb (isAllowed fullKey (allowedSecrets o)) then
    {| st_warnings := st_warnings st ++ [blocked_secret provider key];
       st_cache := st_cache st;
       st_resolved := <[fullKey := ""]> (st_resolved st);
       st_pending := st_pending st |}
  else
    let '(cached, cache') :=
      match st_cache st with
      | Some c => let '(r, c') := get c now fullKey in (r, Some c')
      | None => (None, None)
      end in
    match cached with
    | Some v =>
        {| st_warnings := st_warnings st;
           st_cache := cache';
           st_resolved := <[fullKey := v]> (st_resolved st);
           st_pending := st_pending st |}
    | None =>
        match registryOf o !! provider with
        | None =>
            {| st_warnings := st_warnings st ++ [unknown_provider provider key];
               st_cache := cache';
               st_resolved := <[fullKey := ""]> (st_resolved st);
               st_pending := st_pending st |}
        | Some providerInstance =>
            {| st_warnings := st_warnings st;
               st_cache := cache';
               st_resolved := st_resolved st;
               st_pending := st_pending st
                 ++ [(fullKey, provider, key, fetch providerInstance key)] |}
        end
    end.

(** [err.code === "NOT_FOUND" || err.name === "ResourceNotFoundException"
    || err.message?.includes("not found")] *)
Definition isNotFound (err : fetchError) : bool :=
  match err_code err with Some c => String.eqb c "NOT_FOUND" | None => false end
  || match err_name err with
     | Some n => String.eqb n "ResourceNotFoundException"
     | None => false
     end
  || match err_message err with
     | Some m => Js.includes "not found" m
     | None => false
     end.

(** The [then] and [catch] handlers of one queued fetch. *)
Definition settle (o : options) (now : Z) (st : state)
  (f : string * string * string * settled) : state + thrown :=
  let '(fullKey, provider, key, outcome) := f in
  match outcome with
  | Fulfilled val =>
      let strVal := default "" val in
      inl {| st_warnings := st_warnings st;
             st_cache :=
               match st_cache st with
               | Some c => Some (set c now fullKey strVal (cacheTtl o))
               | None => None
               end;
             st_resolved := <[fullKey := strVal]> (st_resolved st);
             st_pending := st_pending st |}
  | Rejected err =>
      if isNotFound err then
        match onNotFound o with
        | OnError => inr (ThrowError ("COLONY: Secret not found: " +:+ fullKey))
        | _ =>
            inl {| st_warnings := st_warnings st ++ [secret_not_found provider key];
                   st_cache := st_cache st;
                   st_resolved := <[fullKey := ""]> (st_resolved st);
                   st_pending := st_pending st |}
        end
      else
        match onNotFound o with
        | OnError => inr (Rethrow err)
        | _ =>
            inl {| st_warnings := st_warnings st
                     ++ [secret_fetch_error provider key (err_message err)];
                   st_cache := st_cache st;
                   st_resolved := <[fullKey := ""]> (st_resolved st);
                   st_pending := st_pending st |}
        end
  end.

(** [await Promise.all(fetchPromises)]: the handlers run in the order
    the fetches were queued; the first one that throws rejects the
    whole call, and what the later handlers do is not followed. *)
Fixpoint settleAll (o : options) (now : Z) (st : state)
  (fs : list (string * string * string * settled)) : state * option thrown :=
  match fs with
  | [] => (st, None)
  | f :: rest =>
      match settle o now st f with
      | inl st' => settleAll o now st' rest
      | inr e => (st, Some e)
      end
  end.

(** The replacement callback of [replaceSecrets]. *)
Definition replaceSecret (resolved : gmap string string)
  (p : Js.piece (string * string)) : string :=
  match p with
  | Js.Lit c => String c ""
  | Js.Match m (provider, key) =>
      if RESERVED provider then m
      else default "" (resolved !! fullKeyOf provider key)
  end.

Definition replaceSecretsString (resolved : gmap string string) (s : string)
  : string :=
  fold_left (fun acc p => acc +:+ replaceSecret resolved p)
    (Js.scan secretAt 0 s) "".

(** [replaceSecrets(value, resolved)] *)
Fixpoint replaceSecrets (resolved : gmap string string) (v : value) : M value :=
  match v with
  | VStr s => ret (VStr (replaceSecretsString resolved s))
  | VArr _ items =>
      let* id := alloc in
      let* items' := mapM (replaceSecrets resolved) items in
      ret (VArr id items')
  | VObj _ ps =>
      let* id := alloc in
      let* ps' := mapM (fun kv : string * value =>
                          let* v' := replaceSecrets resolved (snd kv) in
                          ret (fst kv, v')) ps in
      ret (VObj id ps')
  | _ => ret v
  end.

(** What the caller of [applySecretsDeep] observes: the value returned
    or the error the promise rejects with, the [warnings] array and the
    cache. *)
Record outcome : Type := mkOutcome {
  returned : value + thrown;
  out_warnings : list warning;
  out_cache : option SecretCache
}.

(** [applySecretsDeep(value, options)] at the instant [now]. *)
Definition applySecretsDeep (v : value) (o : options)
  (warnings : list warning) (now : Z) : M outcome :=
  let refs := collectSecretRefs v [] in
  if (length refs =? 0)%nat then
    ret {| returned := inl v; out_warnings := warnings;
           out_cache := cacheOpt o |}
  else
    let st0 := {| st_warnings := warnings; st_cache := cacheOpt o;
                  st_resolved := ∅; st_pending := [] |} in
    let st1 := fold_left (visitRef o now) refs st0 in
    match settleAll o now st1 (st_pending st1) with
    | (st2, Some e) =>
        ret {| returned := inr e; out_warnings := st_warnings st2;
               out_cache := st_cache st2 |}
    | (st2, None) =>
        let* v' := replaceSecrets (st_resolved st2) v in
        ret {| returned := inl v'; out_warnings := st_warnings st2;
               out_cache := st_cache st2 |}
    end.

End Secrets.

(** ** parser.js *)

Module Parser.
Import Value Resolver.

(** The arguments [formatParseError] is called with; the thrown
    [Error] renders them, with the lines around, as
    [filePath:lineNo: message]. *)
Record parseError : Type := mkParseError {
  pe_message : string;
  pe_line : nat;
  pe_col : option nat;
  pe_filePath : string
}.

Inductive presult (A : Type) : Type :=
| Parsed (a : A)
| Failed (e : parseError).
Arguments Parsed {A} a.
Arguments Failed {A} e.

(** What [parseColony] returns: [{ dims, includes, requires,
    envDefaults, rules }]. *)
Record parsed : Type := mkParsed {
  dims : option (list string);
  includes : list string;
  requires : list string;
  envDefaults : Js.omap string;
  rules : list rule
}.

Definition pushRule (p : parsed) (r : rule) : parsed :=
  {| dims := dims p; includes := includes p; requires := requires p;
     envDefaults := envDefaults p; rules := rules p ++ [r] |}.

Definition isSlash (c : ascii) : bool := (Js.code c =? 47)%nat.
Definition isBackslash (c : ascii) : bool := (Js.code c =? 92)%nat.
Definition isDot (c : ascii) : bool := (Js.code c =? 46)%nat.

(** The [while] loop of [stripBlockComments] on one line, from the
    position where [s] starts: [inComment] and [commentDepth] come in
    from the lines before and go out to the lines after. *)
Fixpoint stripLine (s : string) (cleanLine : string) (inComment : bool)
  (commentDepth : nat) : string * bool * nat :=
  match s with
  | EmptyString => (cleanLine, inComment, commentDepth)
  | String c s' =>
      if inComment then
        match s' with
        | String c' s'' =>
            if isSlash c && Secrets.isStar c'
            then stripLine s'' cleanLine true (S commentDepth)
            else if Secrets.isStar c && isSlash c'
            then stripLine s'' cleanLine
                   (negb (commentDepth - 1 =? 0)%nat) (commentDepth - 1)
            else stripLine s' cleanLine true commentDepth
        | EmptyString => stripLine s' cleanLine true commentDepth
        end
      else
        match s' with
        | String c' s'' =>
            if isSlash c && Secrets.isStar c'
            then stripLine s'' cleanLine true 1
            else stripLine s' (cleanLine +:+ String c "") false commentDepth
        | EmptyString =>
            stripLine s' (cleanLine +:+ String c "") false commentDepth
        end
  end.

Fixpoint stripLines (lines : list string) (inComment : bool)
  (commentDepth : nat) : list string :=
  match lines with
  | [] => []
  | l :: rest =>
      let '(cleanLine, inComment', depth') :=
        stripLine l "" inComment commentDepth in
      cleanLine :: stripLines rest inComment' depth'
  end.

(** [stripBlockComments(text)]: the cleaned text and [lineMap]. *)
Definition stripBlockComments (text : string) : string * list nat :=
  let lines := Js.splitLines "" text in
  (Js.join (String Js.LF "") (stripLines lines false 0),
   map S (seq 0 (length lines))).

(** The loop of [parseKeyPath] from the position where [s] starts. *)
Fixpoint parseKeyPathFrom (s : string) (current : string)
  (segments : list string) : list string :=
  let push (cur : string) :=
    match Js.trim cur with
    | EmptyString => segments
    | t => segments ++ [t]
    end in
  match s with
  | EmptyString => push current
  | String c s' =>
      match s' with
      | String c' s'' =>
          if isBackslash c && isDot c'
          then parseKeyPathFrom s'' (current +:+ ".") segments
          else if isDot c then parseKeyPathFrom s' "" (push current)
          else parseKeyPathFrom s' (current +:+ String c "") segments
      | EmptyString =>
          if isDot c then parseKeyPathFrom s' "" (push current)
          else parseKeyPathFrom s' (current +:+ String c "") segments
      end
  end.

(** [parseKeyPath(keyRaw)] *)
Definition parseKeyPath (keyRaw : string) : list string :=
  parseKeyPathFrom keyRaw "" [].

(** The operator alternation [:=], [|=], [+=], [-=], [=] at the start of
    [s], and what follows it. *)
Definition operatorAt (s : string) : option (operator * string) :=
  match s with
  | String c r =>
      let n := Js.code c in
      match r with
      | String e r' =>
          if (Js.code e =? 61)%nat then
            if (n =? 58)%nat then Some (OpSetIfMissing, r')
            else if (n =? 124)%nat then Some (OpMerge, r')
            else if (n =? 43)%nat then Some (OpAppend, r')
            else if (n =? 45)%nat then Some (OpRemove, r')
            else if (n =? 61)%nat then Some (OpSet, r)
            else None
          else if (n =? 61)%nat then Some (OpSet, r)
          else None
      | EmptyString => if (n =? 61)%nat then Some (OpSet, r) else None
      end
  | EmptyString => None
  end.

(** The tail of the heredoc pattern at the start of [s]: white space,
    the operator, white space, two [<] signs, the delimiter
    [[A-Z_][A-Z0-9_]*] and the end of the line.  The operator and the
    delimiter. *)
Definition heredocTail (s : string) : option (operator * string) :=
  match operatorAt (Js.trimStart s) with
  | Some (o, rest) =>
      match Js.trimStart rest with
      | String a (String b (String c d)) =>
          if ((Js.code a =? 60) && (Js.code b =? 60))%nat
             && (Js.isUpper c || Js.isUnderscore c)
             && forallb Js.isIdentChar (list_ascii_of_string d)
          then Some (o, String c d)
          else None
      | _ => None
      end
  | None => None
  end.

(** The heredoc pattern on a trimmed line: the shortest non-empty key
    (no line terminator in it) after which the tail matches.  [key] is
    what the lazy group has taken so far. *)
Fixpoint heredocFrom (key : string) (s : string)
  : option (string * operator * string) :=
  match s with
  | EmptyString => None
  | String c s' =>
      if Js.isLineTerminator c then None
      else
        match heredocTail s' with
        | Some (o, d) => Some (key +:+ String c "", o, d)
        | None => heredocFrom (key +:+ String c "") s'
        end
  end.

Definition heredocMatch (trimmed : string)
  : option (string * operator * string) :=
  heredocFrom "" trimmed.

(** The variables of [parseColony]. *)
Record state : Type := mkState {
  out : parsed;
  buf : string;
  bufStartLine : nat;
  bufStartOriginalLine : nat;
  inHeredoc : bool;
  heredocDelimiter : string;
  heredocContent : string;
  heredocStartLine : nat;
  heredocKey : string;
  heredocOp : operator
}.

Definition initial : state :=
  {| out := {| dims := None; includes := []; requires := [];
               envDefaults := []; rules := [] |};
     buf := ""; bufStartLine := 0; bufStartOriginalLine := 0;
     inHeredoc := false; heredocDelimiter := ""; heredocContent := "";
     heredocStartLine := 0; heredocKey := ""; heredocOp := OpSet |}.

Section Statements.

(** The interpretation of one statement by [flush], after the buffer
    is trimmed and found non-empty: the directives, the rule pattern
    and the decoding of the literal (JSON5).  It takes the statement
    and the line it starts at, and extends the result or throws. *)
Variable statement : string -> nat -> parsed -> presult parsed.

Variable filePath : string.

(** [flush()] *)
Definition flush (st : state) : presult state :=
  let raw := Js.trim (buf st) in
  let cleared (p : parsed) :=
    {| out := p; buf := "";
       bufStartLine := bufStartLine st;
       bufStartOriginalLine := bufStartOriginalLine st;
       inHeredoc := inHeredoc st;
       heredocDelimiter := heredocDelimiter st;
       heredocContent := heredocContent st;
       heredocStartLine := heredocStartLine st;
       heredocKey := heredocKey st;
       heredocOp := heredocOp st |} in
  match raw with
  | EmptyString => Parsed (cleared (out st))
  | _ =>
      match statement raw (bufStartOriginalLine st) (out st) with
      | Parsed p => Parsed (cleared p)
      | Failed e => Failed e
      end
  end.

(** [getOriginalLine(lineNo)]: [lineMap[lineNo - 1] || lineNo] *)
Definition getOriginalLine (lineMap : list nat) (lineNo : nat) : nat :=
  match lineNo with
  | O => lineNo
  | S k =>
      match nth_error lineMap k with
      | Some (S n) => S n
      | _ => lineNo
      end
  end.

(** The body of the loop over the lines, for the line [line] of
    number [lineNo]. *)
Definition step (lineMap : list nat) (st : state) (lineNo : nat)
  (line : string) : presult state :=
  let originalLineNo := getOriginalLine lineMap lineNo in
  let trimmed := Js.trim line in
  if inHeredoc st then
    if String.eqb trimmed (heredocDelimiter st) then
      match parseKeyPath (heredocKey st) with
      | [] =>
          Failed {| pe_message := "Empty key in heredoc";
                    pe_line := heredocStartLine st;
                    pe_col := Some 0;
                    pe_filePath := filePath |}
      | keySegments =>
          Parsed
            {| out := pushRule (out st)
                        {| Resolver.filePath := filePath;
                           line := heredocStartLine st;
                           col := 0;
                           keyRaw := heredocKey st;
                           keySegments := keySegments;
                           op := heredocOp st;
                           value := VStr (heredocContent st) |};
               buf := buf st;
               bufStartLine := bufStartLine st;
               bufStartOriginalLine := bufStartOriginalLine st;
               inHeredoc := false;
               heredocDelimiter := heredocDelimiter st;
               heredocContent := "";
               heredocStartLine := heredocStartLine st;
               heredocKey := heredocKey st;
               heredocOp := heredocOp st |}
      end
    else
      Parsed
        {| out := out st;
           buf := buf st;
           bufStartLine := bufStartLine st;
           bufStartOriginalLine := bufStartOriginalLine st;
           inHeredoc := true;
           heredocDelimiter := heredocDelimiter st;
           heredocContent :=
             heredocContent st
             +:+ (match heredocContent st with
                  | EmptyString => ""
                  | _ => String Js.LF ""
                  end)
             +:+ line;
           heredocStartLine := heredocStartLine st;
           heredocKey := heredocKey st;
           heredocOp := heredocOp st |}
  else if String.eqb trimmed "" || Js.startsWith "#" trimmed
          || Js.startsWith "//" trimmed
  then Parsed st
  else
    match heredocMatch trimmed with
    | Some (key, o, delimiter) =>
        Parsed
          {| out := out st;
             buf := buf st;
             bufStartLine := bufStartLine st;
             bufStartOriginalLine := bufStartOriginalLine st;
             inHeredoc := true;
             heredocDelimiter := delimiter;
             heredocContent := "";
             heredocStartLine := originalLineNo;
             heredocKey := Js.trim key;
             heredocOp := o |}
    | None =>
        let st' :=
          {| out := out st;
             buf := buf st
                    +:+ (match buf st with
                         | EmptyString => ""
                         | _ => String Js.LF ""
                         end)
                    +:+ line;
             bufStartLine :=
               match buf st with
               | EmptyString => lineNo
               | _ => bufStartLine st
               end;
             bufStartOriginalLine :=
               match buf st with
               | EmptyString => originalLineNo
               | _ => bufStartOriginalLine st
               end;
             inHeredoc := false;
             heredocDelimiter := heredocDelimiter st;
             heredocContent := heredocContent st;
             heredocStartLine := heredocStartLine st;
             heredocKey := heredocKey st;
             heredocOp := heredocOp st |} in
        if Js.endsWith ";" trimmed then flush st' else Parsed st'
    end.

(** The loop over [lines], from the line of number [lineNo]. *)
Fixpoint run (lineMap : list nat) (st : state) (lineNo : nat)
  (lines : list string) : presult state :=
  match lines with
  | [] => Parsed st
  | l :: rest =>
      match step lineMap st lineNo l with
      | Parsed st' => run lineMap st' (S lineNo) rest
      | Failed e => Failed e
      end
  end.

(** What follows the loop. *)
Definition finish (st : state) : presult parsed :=
  if inHeredoc st then
    Failed {| pe_message := "Unterminated heredoc (missing "
                            +:+ heredocDelimiter st +:+ ")";
              pe_line := heredocStartLine st;
              pe_col := None;
              pe_filePath := filePath |}
  else
    match Js.trim (buf st) with
    | EmptyString => Parsed (out st)
    | _ =>
        Failed {| pe_message := "Unterminated statement (missing ';')";
                  pe_line := bufStartOriginalLine st;
                  pe_col := None;
                  pe_filePath := filePath |}
    end.

(** [parseColony(text, { filePath })] *)
Definition parseColony (text : string) : presult parsed :=
  let '(cleanedText, lineMap) := stripBlockComments text in
  let lines := Js.splitLines "" cleanedText in
  match run lineMap initial 1 lines with
  | Parsed st => finish st
  | Failed e => Failed e
  end.

End Statements.

End Parser.

(** ** index.js: the rules handed to the resolver *)

Module Loader.

(** [parsed.flatMap((p) => p.rules)]: the rules of the parsed units, in
    the order the units were loaded. *)
Definition allRules (parsed : list Parser.parsed) : list Resolver.rule :=
  flat_map Parser.rules parsed.

End Loader.

(** ** Vocabulary of the properties *)

Module Spec.
Import Heap Value Resolver.

(** A primary candidate for [key] under the context: the rule matches,
    its operator is not deferred, and its key path is [key]. *)
Definition isCandidate (ctxScope : list string) (key : string)
  (r : indexedRule) : bool :=
  matches (scope r) ctxScope
  && negb (isPostOp (op (base r)))
  && String.eqb (keyPathStr r) key.

(** A deferred operation under the context. *)
Definition isDeferred (ctxScope : list string) (r : indexedRule) : bool :=
  matches (scope r) ctxScope && isPostOp (op (base r)).

Definition spec (r : indexedRule) : nat := specificity (scope r).

(** The specificity of the specification: the number of the scope
    tokens of the rule that are not the wildcard. *)
Definition nonWildcards (r : indexedRule) : nat :=
  length (List.filter (fun token => negb (String.eqb token "*")) (scope r)).

(** The candidates recorded for a key, none if the key is absent. *)
Definition group (cs : candidates) (k : string) : list indexedRule :=
  default [] (Js.mapGet cs k).

(** The state of the winner loop: after the candidates [done], when the
    loop holds [(w, b)], [b] is the specificity of [w], no candidate
    before [w] is more specific and every candidate after it is less
    specific. *)
Definition winnerOf (done : list indexedRule) (acc : indexedRule * nat)
  : Prop :=
  snd acc = spec (fst acc)
  /\ exists l1 l2,
       done = l1 ++ fst acc :: l2
       /\ Forall (fun r => spec r <= spec (fst acc)) l1
       /\ Forall (fun r => spec r < spec (fst acc)) l2.

(** The structure of a value: what is left of it when the identities
    of its arrays and objects are forgotten. *)
#[local] Unset Elimination Schemes.
Inductive json : Type :=
| JNull
| JBool (b : bool)
| JNum (n : number)
| JStr (s : string)
| JArr (items : list json)
| JObj (props : list (string * json)).
#[local] Set Elimination Schemes.

Fixpoint erase (v : Value.value) : json :=
  match v with
  | VNull => JNull
  | VBool b => JBool b
  | VNum n => JNum n
  | VStr s => JStr s
  | VArr _ items => JArr (map erase items)
  | VObj _ ps => JObj (map (fun kv => (fst kv, erase (snd kv))) ps)
  end.


(** [Array.isArray(val) ? val : [val]], as a list. *)
Definition operandItems (val : Value.value) : list Value.value :=
  match val with
  | VArr _ items => items
  | _ => [val]
  end.

(** *** Placeholders *)

Definition dollar : ascii := ascii_of_nat 36.
Definition openBrace : ascii := ascii_of_nat 123.
Definition closeBrace : ascii := ascii_of_nat 125.

(** The text of a placeholder span: the dollar sign, the braces and the
    inner expression between them. *)
Definition spanText (exprRaw : string) : string :=
  String dollar (String openBrace (exprRaw +:+ String closeBrace "")).

(** The pieces [interpolate] cuts a string into. *)
Definition placeholders (s : string) : list (Js.piece string) :=
  Js.scan Strings.placeholderAt 0 s.

(** The inner expression of a span is of the secret-provider shape and
    its prefix is neither ENV nor VAR. *)
Definition reserved (exprRaw : string) : bool :=
  Strings.RX_SECRET_PROVIDER (Js.trim exprRaw)
  && negb (Js.startsWith "ENV:" (Js.trim exprRaw))
  && negb (Js.startsWith "VAR:" (Js.trim exprRaw)).

(** What a piece contributes to the output of [interpolate], and the
    warnings it records. *)
Definition pieceOut (o : Strings.options) (p : Js.piece string) : string :=
  match p with
  | Js.Lit c => String c ""
  | Js.Match m e => fst (Strings.replacePlaceholder o m e [])
  end.

Definition pieceWarn (o : Strings.options) (p : Js.piece string)
  : list Warn.warning :=
  match p with
  | Js.Lit _ => []
  | Js.Match m e => snd (Strings.replacePlaceholder o m e [])
  end.

Definition concat (parts : list string) : string :=
  fold_right String.append "" parts.



(** A string whose placeholder spans are all left to the secret
    stage. *)
Definition onlyReserved (s : string) : bool :=
  forallb (fun p => match p with
                    | Js.Lit _ => true
                    | Js.Match _ e => reserved e
                    end)
    (placeholders s).



(** *** Heredocs *)

(** The state when a heredoc has started on line [lineNo]. *)
Definition heredocStarted (st : Parser.state) (lineNo : nat) (key : string)
  (o : operator) (delimiter : string) : Parser.state :=
  {| Parser.out := Parser.out st;
     Parser.buf := Parser.buf st;
     Parser.bufStartLine := Parser.bufStartLine st;
     Parser.bufStartOriginalLine := Parser.bufStartOriginalLine st;
     Parser.inHeredoc := true;
     Parser.heredocDelimiter := delimiter;
     Parser.heredocContent := "";
     Parser.heredocStartLine := lineNo;
     Parser.heredocKey := key;
     Parser.heredocOp := o |}.

(** The same state with [content] gathered. *)
Definition heredocGathered (st : Parser.state) (content : string)
  : Parser.state :=
  {| Parser.out := Parser.out st;
     Parser.buf := Parser.buf st;
     Parser.bufStartLine := Parser.bufStartLine st;
     Parser.bufStartOriginalLine := Parser.bufStartOriginalLine st;
     Parser.inHeredoc := true;
     Parser.heredocDelimiter := Parser.heredocDelimiter st;
     Parser.heredocContent := content;
     Parser.heredocStartLine := Parser.heredocStartLine st;
     Parser.heredocKey := Parser.heredocKey st;
     Parser.heredocOp := Parser.heredocOp st |}.

(** The rule of a heredoc: the content is the value, as a string. *)
Definition heredocRule (filePath : string) (lineNo : nat) (key : string)
  (o : operator) (content : string) : rule :=
  {| filePath := filePath; line := lineNo; col := 0; keyRaw := key;
     keySegments := Parser.parseKeyPath key; op := o;
     value := VStr content |}.

(** The state when the heredoc started on line [lineNo] is closed. *)
Definition heredocClosed (filePath : string) (st : Parser.state)
  (lineNo : nat) (key : string) (o : operator) (delimiter content : string)
  : Parser.state :=
  {| Parser.out :=
       Parser.pushRule (Parser.out st)
         (heredocRule filePath lineNo key o content);
     Parser.buf := Parser.buf st;
     Parser.bufStartLine := Parser.bufStartLine st;
     Parser.bufStartOriginalLine := Parser.bufStartOriginalLine st;
     Parser.inHeredoc := false;
     Parser.heredocDelimiter := delimiter;
     Parser.heredocContent := "";
     Parser.heredocStartLine := lineNo;
     Parser.heredocKey := key;
     Parser.heredocOp := o |}.

(** What the content lines add up to, from what is gathered so far. *)
Definition gather (sofar : string) (content : list string) : string :=
  fold_left (fun c l => c +:+ match c with
                              | EmptyString => ""
                              | _ => String Js.LF ""
                              end +:+ l) content sofar.

(** The lines the parser walks: the lines of the text once the block
    comments are stripped. *)
Definition cleanedLines (text : string) : list string :=
  Js.splitLines "" (fst (Parser.stripBlockComments text)).

(** A line that opens a heredoc for [key], [o] and [delimiter]: it is
    neither blank nor a line comment, and the heredoc pattern matches
    it, trimmed. *)
Definition opensHeredoc (line key : string) (o : operator)
  (delimiter : string) : Prop :=
  String.eqb (Js.trim line) "" = false
  /\ Js.startsWith "#" (Js.trim line) = false
  /\ Js.startsWith "//" (Js.trim line) = false
  /\ exists rawKey,
       Parser.heredocMatch (Js.trim line) = Some (rawKey, o, delimiter)
       /\ key = Js.trim rawKey.

(** The content lines do not start with an empty line. *)
Definition startsNonEmpty (content : list string) : Prop :=
  match content with
  | [] => True
  | l :: _ => l <> ""
  end.

(** *** Secrets *)

(** The warning is [unknown_provider] for the pair (provider, key). *)
Definition isUnknownProvider (provider key : string) (w : Warn.warning)
  : bool :=
  match w with
  | Warn.unknown_provider p k => String.eqb p provider && String.eqb k key
  | _ => false
  end.

Definition countUnknownProvider (provider key : string)
  (ws : list Warn.warning) : nat :=
  length (List.filter (isUnknownProvider provider key) ws).

(** A lookup of [fullKey] in the cache at the instant [now] would miss:
    there is no cache, or no entry, or the entry has expired. *)
Definition cacheMiss (c : option Secrets.SecretCache) (now : Z)
  (fullKey : string) : Prop :=
  match c with
  | None => True
  | Some c =>
      match Js.mapGet (Secrets.cache c) fullKey with
      | None => True
      | Some e => (Secrets.e_expires e < now)%Z
      end
  end.

(** The references collected so far: every full key once, each the
    provider, a colon and the key, and no reserved prefix. *)
Definition refsOk (refs : Secrets.refMap) : Prop :=
  List.NoDup (map fst refs)
  /\ Forall (fun e => fst e = fst (snd e) +:+ ":" +:+ snd (snd e)
                      /\ Secrets.RESERVED (fst (snd e)) = false) refs.

(** The full key of a queued fetch. *)
Definition pendingKey (f : string * string * string * Secrets.settled)
  : string :=
  fst (fst (fst f)).

(** What the turns for other references leave untouched: the number of
    [unknown_provider] warnings for the pair, what the full key is
    resolved to, and no fetch queued for the full key. *)
Definition untouched (fullKey provider key : string) (st : Secrets.state)
  (count : nat) (res : option string) : Prop :=
  countUnknownProvider provider key (Secrets.st_warnings st) = count
  /\ Secrets.st_resolved st !! fullKey = res
  /\ Forall (fun f => pendingKey f <> fullKey) (Secrets.st_pending st).

(** The keys of the cache, oldest first. *)
Definition cacheKeys (c : Secrets.SecretCache) : list string :=
  map fst (Secrets.cache c).

(** *** Identities *)

(** What an allocating computation started at [n] returns, and the
    counter it leaves, satisfy [Q]; the counter never goes back. *)
Definition post {A : Type} (m : M A) (n : ref) (Q : A -> ref -> Prop)
  : Prop :=
  n <= snd (m n) /\ Q (fst (m n)) (snd (m n)).

(** Every array and object of [v] was allocated before [n]. *)
Fixpoint below (n : ref) (v : Value.value) : bool :=
  match v with
  | VArr id items => (id <? n)%nat && forallb (below n) items
  | VObj id ps => (id <? n)%nat && forallb (fun kv => below n (snd kv)) ps
  | _ => true
  end.

(** Every array and object of [v] was allocated at [n] or later. *)
Fixpoint fresh (n : ref) (v : Value.value) : bool :=
  match v with
  | VArr id items => (n <=? id)%nat && forallb (fresh n) items
  | VObj id ps => (n <=? id)%nat && forallb (fun kv => fresh n (snd kv)) ps
  | _ => true
  end.

(** The values of the rules were allocated before [n]. *)
Definition rulesBelow (n : ref) (rules : list rule) : Prop :=
  Forall (fun r => below n (value r) = true) rules.

(** A string, number, boolean or null. *)
Definition isScalar (v : Value.value) : bool :=
  match v with
  | VArr _ _ | VObj _ _ => false
  | _ => true
  end.

(** What a clone keeps of the original: scalars are the same value,
    arrays and objects are new. *)
Definition cloned (n : ref) (y y' : Value.value) : Prop :=
  isScalar y' = isScalar y
  /\ (isScalar y = true -> y' = y)
  /\ fresh n y' = true.

Definition made (lo hi : ref) (y : Value.value) : Prop :=
  fresh lo y = true /\ below hi y = true.

(** The properties of an object were allocated before [n]. *)
Definition propsBelow (n : ref) (ps : Value.props) : Prop :=
  forallb (fun kv => below n (snd kv)) ps = true.

(** The value of a rule was allocated before [n]. *)
Definition ruleBelow (n : ref) (r : indexedRule) : Prop :=
  below n (value (base r)) = true.

(** Removal as the specification words it: an element goes when it is
    a scalar equal to one of the removal items of the operand; mappings
    and sequences stay. *)
Definition removeScalars (operand : Value.value) (items : list Value.value)
  : list Value.value :=
  List.filter
    (fun x => negb (isScalar x
                    && existsb (sameValueZero x) (operandItems operand)))
    items.

(** A Remove rule applied by [removeScalars]. *)
Definition applyRemoveScalars (r : indexedRule)
  (st : Value.value * traceMap) : M (Value.value * traceMap) :=
  let '(out, trace) := st in
  let* val := clone (value (base r)) in
  let* remove := asArray val in
  match Util.getDeep out (keyPath r) with
  | Some (VArr _ items) =>
      let* id := alloc in
      let* out' :=
        Util.setDeep out (keyPath r)
          (VArr id (removeScalars (value (base r)) items)) in
      ret (out', traceSet trace (keyPathStr r)
                   (packTrace r (specificity (scope r))))
  | _ => ret (out, trace)
  end.

(** The tree, the trace and the counter when the deferred rules
    [applied] have been applied after the winners. *)
Definition stateAfter (cs : candidates) (applied : list indexedRule)
  : M (Value.value * traceMap) :=
  let* root := alloc in
  let* st := applyCandidates cs (VObj root [], []) in
  applyPostOps applied st.

End Spec.

(** ** The examples of the specification *)

Module Examples.
Import Value Resolver.

(** A rule statement [keyRaw op value;] on line [line] of an in-memory
    unit, as the parser records it. *)
Definition statement (line : nat) (keyRaw : string) (o : operator)
  (v : Value.value) : rule :=
  {| filePath := "<memory>"; line := line; col := 0; keyRaw := keyRaw;
     keySegments := Parser.parseKeyPath keyRaw; op := o; value := v |}.

(** A context, with no variables, no environment and no allow list. *)
Definition under (ctx : gmap string string) : Strings.options :=
  {| Strings.ctx := ctx; Strings.vars := ∅; Strings.env := None;
     Strings.processEnv := ∅; Strings.allowedEnvVars := None;
     Strings.allowedVars := None |}.

Definition env_region (env region : string) : gmap string string :=
  <["env" := env]> (<["region" := region]> ∅).

(** The three statements [*.timeout = 1000;], [prod.*.timeout = 2000;],
    [prod.us.timeout = 3000;], one per line. *)
Definition timeout_rules : list rule :=
  [ statement 1 "*.timeout" OpSet (VNum (Num 1000));
    statement 2 "prod.*.timeout" OpSet (VNum (Num 2000));
    statement 3 "prod.us.timeout" OpSet (VNum (Num 3000)) ].

(** The same with one scope token per dimension in the first rule:
    [*.*.timeout = 1000;]. *)
Definition timeout_rules_scoped : list rule :=
  [ statement 1 "*.*.timeout" OpSet (VNum (Num 1000));
    statement 2 "prod.*.timeout" OpSet (VNum (Num 2000));
    statement 3 "prod.us.timeout" OpSet (VNum (Num 3000)) ].

(** [*.list = ["a"];], [prod.list += "b";], [prod.list -= "a";]; [a] is
    the identity of the array literal. *)
Definition list_rules (a : Heap.ref) : list rule :=
  [ statement 1 "*.list" OpSet (VArr a [VStr "a"]);
    statement 2 "prod.list" OpAppend (VStr "b");
    statement 3 "prod.list" OpRemove (VStr "a") ].


(** A statement interpreter that takes no statement: what [flush] does
    with a buffer that is no directive and does not match the rule
    pattern. *)
Definition invalidStatement (filePath : string) (raw : string) (line : nat)
  (p : Parser.parsed) : Parser.presult Parser.parsed :=
  Parser.Failed {| Parser.pe_message := "Invalid statement";
                   Parser.pe_line := line;
                   Parser.pe_col := None;
                   Parser.pe_filePath := filePath |}.

Definition newline : string := String Js.LF "".

(** The heredoc of the parser's tests. *)
Definition templateText : string :=
  "*.template = <<EOF" +:+ newline +:+ "line 1" +:+ newline
  +:+ "line 2" +:+ newline +:+ "EOF".

(** A heredoc with a block comment in its content. *)
Definition commentedText : string :=
  "*.sql = <<SQL" +:+ newline +:+ "SELECT /* all */ 1" +:+ newline +:+ "SQL".

(** A heredoc that is never closed. *)
Definition unterminatedText : string :=
  "*.key = <<EOF" +:+ newline +:+ "no end".

(** Two rules of the same specificity for one key, in one unit. *)
Definition tie_units : list Parser.parsed :=
  [ {| Parser.dims := None; Parser.includes := []; Parser.requires := [];
       Parser.envDefaults := [];
       Parser.rules :=
         [ statement 1 "prod.*.db.host" OpSet (VStr "first");
           statement 2 "*.us.db.host" OpSet (VStr "second") ] |} ].

(** A rule with its scope and key path under [n] dimensions. *)
Definition indexed (n : nat) (r : rule) : indexedRule :=
  {| base := r;
     scope := firstn n (keySegments r);
     keyPath := skipn n (keySegments r);
     keyPathStr := Js.join "." (skipn n (keySegments r)) |}.

Definition tie_indexed : list indexedRule :=
  map (indexed 2) (Loader.allRules tie_units).

(** A sequence of two strings and a mapping, and the removal of one of
    the strings and of an equal mapping. *)
Definition remove_rules : list rule :=
  [ statement 1 "*.list" OpSet
      (VArr 0 [VStr "a"; VStr "b"; VObj 1 [("x", VNum (Num 1))]]);
    statement 2 "prod.list" OpRemove
      (VArr 2 [VStr "a"; VObj 3 [("x", VNum (Num 1))]]) ].

Definition prod : gmap string string := <["env" := "prod"]> ∅.

(** A provider registered under AWS whose fetch is rejected with the
    error code NOT_FOUND. *)
Definition missingSecretProvider : Secrets.provider :=
  {| Secrets.prefix := "AWS";
     Secrets.fetch := fun _ =>
       Secrets.Rejected {| Secrets.err_code := Some "NOT_FOUND";
                           Secrets.err_name := Some "Error";
                           Secrets.err_message := Some "no such secret" |} |}.

(** Secret options with that provider alone, no allow list, no cache,
    and the policy [p]. *)
Definition missingSecretOptions (p : Secrets.policy) : Secrets.options :=
  {| Secrets.providers := [missingSecretProvider];
     Secrets.allowedSecrets := None;
     Secrets.cacheOpt := None;
     Secrets.cacheTtl := 300000;
     Secrets.onNotFound := p;
     Secrets.globalRegistry := ∅ |}.

End Examples.

(** ** Induction on values *)

Section ValueInduction.
Import Value.

Variable P : value -> Prop.
Hypothesis HNull : P VNull.
Hypothesis HBool : forall b, P (VBool b).
Hypothesis HNum : forall n, P (VNum n).
Hypothesis HStr : forall s, P (VStr s).
Hypothesis HArr : forall id items, Forall P items -> P (VArr id items).
Hypothesis HObj :
  forall id ps, Forall (fun kv => P (snd kv)) ps -> P (VObj id ps).

(** Induction on a value, with the hypothesis on every item of an array
    and every property of an object. *)
Fixpoint value_induction (v : value) : P v :=
  match v with
  | VNull => HNull
  | VBool b => HBool b
  | VNum n => HNum n
  | VStr s => HStr s
  | VArr id items =>
      HArr id items
        ((fix all (l : list value) : Forall P l :=
            match l with
            | [] => @List.Forall_nil _ _
            | x :: r => @List.Forall_cons _ _ _ _ (value_induction x) (all r)
            end) items)
  | VObj id ps =>
      HObj id ps
        ((fix all (l : list (string * value))
            : Forall (fun kv => P (snd kv)) l :=
            match l with
            | [] => @List.Forall_nil _ _
            | x :: r => @List.Forall_cons _ _ _ _ (value_induction (snd x)) (all r)
            end) ps)
  end.

End ValueInduction.

(** ** dotenv.js *)

Module Dotenv.

Definition isEquals (c : ascii) : bool := (Js.code c =? 61)%nat.

Definition doubleQuote : string := String (ascii_of_nat 34) "".
Definition singleQuote : string := String (ascii_of_nat 39) "".

(** The assignment pattern on a trimmed line (a lazy non-empty group
    of code units other than the equals sign, white space, the equals
    sign, white space, and a group of code units other than line
    terminators up to the end): the two groups.  The first equals sign
    of the line ends the first group, which is not empty; the lazy group
    is the text before that sign less white space at its end, which the
    trim that follows removes anyway, so the text before the sign stands
    for it.  The second group is what follows the sign and the white
    space after it, and holds no line terminator. *)
Definition assignmentAt (line : string) : option (string * string) :=
  let '(pre, rest) := Js.span (fun c => negb (isEquals c)) line in
  match pre, rest with
  | String _ _, String _ after =>
      let value := Js.trimStart after in
      if forallb (fun c => negb (Js.isLineTerminator c))
           (list_ascii_of_string value)
      then Some (pre, value)
      else None
  | _, _ => None
  end.

(** [value.startsWith(q) && value.endsWith(q)] *)
Definition quotedBy (q value : string) : bool :=
  Js.startsWith q value && Js.endsWith q value.

(** [value.slice(1, -1)] *)
Definition slice1 (value : string) : string :=
  Js.rev (Js.drop 1 (Js.rev (Js.drop 1 value))).

(** A pattern that is a plain text, at the start of [s]. *)
Definition literalAt (pat : string) : Js.matcher unit := fun s =>
  if String.prefix pat s then Some (tt, String.length pat) else None.

(** [s.replace(/pat/g, rep)] for a pattern that is a plain text. *)
Definition replaceAll (pat rep s : string) : string :=
  fold_left (fun acc p => acc +:+ match p with
                                  | Js.Lit c => String c ""
                                  | Js.Match _ _ => rep
                                  end)
    (Js.scan (literalAt pat) 0 s) "".

(** The chain of replacements of the escape sequences. *)
Definition unescape (value : string) : string :=
  replaceAll "\\" "\"
    (replaceAll ("\" +:+ doubleQuote) doubleQuote
       (replaceAll "\t" (String (ascii_of_nat 9) "")
          (replaceAll "\r" (String Js.CR "")
             (replaceAll "\n" (String Js.LF "") value)))).

(** [value.indexOf(pat)], as the text before the first occurrence. *)
Fixpoint before (pat s : string) : option string :=
  if String.prefix pat s then Some ""
  else match s with
       | String c s' => option_map (String c) (before pat s')
       | EmptyString => None
       end.

(** What becomes of the trimmed second group: the quotes go, or the
    inline comment does. *)
Definition unquote (value : string) : string :=
  if quotedBy doubleQuote value || quotedBy singleQuote value then
    let inner := slice1 value in
    if Js.startsWith doubleQuote inner then unescape inner else inner
  else
    match before " #" value with
    | Some kept => Js.trim kept
    | None => value
    end.

(** The body of the loop for one line: the key and the value it
    assigns, if any. *)
Definition parseLine (raw : string) : option (string * string) :=
  let line := Js.trim raw in
  if String.eqb line "" || Js.startsWith "#" line then None
  else
    match assignmentAt line with
    | None => None
    | Some (g1, g2) => Some (Js.trim g1, unquote (Js.trim g2))
    end.

(** [result[key] = value] on an object literal, for a string [value]:
    the key [__proto__] names the accessor inherited from
    [Object.prototype], whose setter ignores a string, so that
    assignment adds no property. *)
Definition setProperty (result : Js.omap string) (key value : string)
  : Js.omap string :=
  if String.eqb key "__proto__" then result else Js.mapSet result key value.

Definition addLine (result : Js.omap string) (raw : string) : Js.omap string :=
  match parseLine raw with
  | Some (key, value) => setProperty result key value
  | None => result
  end.

(** [parseDotenv(content)] *)
Definition parseDotenv (content : string) : Js.omap string :=
  fold_left addLine (Js.splitLines "" content) [].

(** How [fs.readFile] ends for one path: the content, the error
    [ENOENT], or another error. *)
Inductive readResult : Type :=
| Content (text : string)
| Missing
| ReadError (message : string).

(** [Object.assign(result, vars)] *)
Definition assign (result vars : Js.omap string) : Js.omap string :=
  fold_left (fun r kv => setProperty r (fst kv) (snd kv)) vars result.

(** [loadDotenvFiles(filePaths)], given how the read of each path
    ends: the merged variables, or the error rethrown. *)
Fixpoint loadDotenvFiles (reads : list readResult) (result : Js.omap string)
  : Js.omap string + string :=
  match reads with
  | [] => inl result
  | Content text :: rest => loadDotenvFiles rest (assign result (parseDotenv text))
  | Missing :: rest => loadDotenvFiles rest result
  | ReadError message :: _ => inr message
  end.

End Dotenv.

(** ** resolver.js: the methods of a resolved configuration *)

Module Config.
Import Heap Value Util Resolver.

(** [a === b]: primitives by value (NaN differs from itself), arrays
    and objects by identity. *)
Definition strictEquals (a b : Value.value) : bool :=
  match a, b with
  | VNull, VNull => true
  | VBool x, VBool y => Bool.eqb x y
  | VNum (Num x), VNum (Num y) => Z.eqb x y
  | VStr x, VStr y => String.eqb x y
  | VArr i _, VArr j _ => Nat.eqb i j
  | VObj i _, VObj j _ => Nat.eqb i j
  | _, _ => false
  end.

(** [Object.keys(v)] of an array or object. *)
Definition keysOf (v : Value.value) : list string :=
  match v with
  | VArr _ items => map Js.ofNat (seq 0 (length items))
  | VObj _ ps => map fst ps
  | _ => []
  end.

(** [v[k]] of an array or object. *)
Definition member (v : Value.value) (k : string) : option Value.value :=
  match v with
  | VArr _ items => itemGet items k
  | VObj _ ps => propGet ps k
  | _ => None
  end.

(** [deepEqual(a, b)] for a value [a]; the object [a] holds every key
    once, so that [a[k]] is the value listed with [k].  Where the code
    compares with a missing member of [b], which is [undefined], the
    result is [false]. *)
Fixpoint deepEqual (a b : Value.value) : bool :=
  strictEquals a b
  || match a, b with
     | VArr _ xs, VArr _ ys =>
         (length xs =? length ys)%nat
         && (fix every (xs ys : list Value.value) : bool :=
               match xs, ys with
               | [], _ => true
               | x :: xs', y :: ys' => deepEqual x y && every xs' ys'
               | _ :: _, [] => false
               end) xs ys
     | VArr _ xs, VObj _ _ =>
         (length xs =? length (keysOf b))%nat
         && (fix every (i : nat) (xs : list Value.value) : bool :=
               match xs with
               | [] => true
               | x :: xs' =>
                   match member b (Js.ofNat i) with
                   | Some y => deepEqual x y
                   | None => false
                   end && every (S i) xs'
               end) 0 xs
     | VObj _ pa, (VArr _ _ | VObj _ _) =>
         (length pa =? length (keysOf b))%nat
         && (fix every (ps : list (string * Value.value)) : bool :=
               match ps with
               | [] => true
               | kv :: ps' =>
                   match member b (fst kv) with
                   | Some y => deepEqual (snd kv) y
                   | None => false
                   end && every ps'
               end) pa
     | _, _ => false
     end.

(** [deepEqual] on what [getByPath] returns, which may be
    [undefined]. *)
Definition deepEqualOpt (a b : option Value.value) : bool :=
  match a, b with
  | None, None => true
  | Some x, Some y => deepEqual x y
  | _, _ => false
  end.

(** [keys.sort()]: ascending in the order of the code units. *)
Fixpoint insertSorted (k : string) (sorted : list string) : list string :=
  match sorted with
  | [] => [k]
  | x :: xs => if String.leb k x then k :: x :: xs else x :: insertSorted k xs
  end.

Definition sortStrings (keys : list string) : list string :=
  fold_right insertSorted [] keys.

(** [collectKeys(obj, prefix)] for the object with the properties
    [ps]. *)
Definition pathOf (prefix k : string) : string :=
  match prefix with
  | EmptyString => k
  | _ => prefix +:+ "." +:+ k
  end.

Fixpoint collectKeysOf (v : Value.value) (path : string) : list string :=
  match v with
  | VObj _ ps =>
      sortStrings
        ((fix entries (ps : list (string * Value.value)) : list string :=
            match ps with
            | [] => []
            | kv :: r =>
                collectKeysOf (snd kv) (pathOf path (fst kv)) ++ entries r
            end) ps)
  | _ => [path]
  end.

Definition collectKeys (ps : props) (prefix : string) : list string :=
  sortStrings
    (flat_map (fun kv => collectKeysOf (snd kv) (pathOf prefix (fst kv))) ps).

(** [new Set(keys)]: every key once, in the order of its first
    occurrence; and [set.has(k)]. *)
Definition setOf (keys : list string) : list string :=
  fold_left (fun acc k => if existsb (String.eqb k) acc then acc
                          else acc ++ [k]) keys [].

Definition has (set : list string) (k : string) : bool :=
  existsb (String.eqb k) set.

(** An entry of [changed]. *)
Record change : Type := mkChange {
  key : string;
  from : option Value.value;
  to : option Value.value
}.

(** [changed.sort((x, y) => x.key.localeCompare(y.key))]: a stable
    sort; [localeLe x y] stands for [x.localeCompare(y) <= 0], the
    collation being the one of the host. *)
Fixpoint insertChange (localeLe : string -> string -> bool) (c : change)
  (sorted : list change) : list change :=
  match sorted with
  | [] => [c]
  | x :: xs =>
      if localeLe (key x) (key c) then x :: insertChange localeLe c xs
      else c :: x :: xs
  end.

Definition sortChanges (localeLe : string -> string -> bool)
  (changes : list change) : list change :=
  fold_left (fun sorted c => insertChange localeLe c sorted) changes [].

Record diff : Type := mkDiff {
  added : list string;
  removed : list string;
  changed : list change
}.

(** The own properties of a configuration object. *)
Definition entriesOf (cfg : Value.value) : props :=
  match cfg with
  | VObj _ ps => ps
  | _ => []
  end.

(** [diffConfigs(a, b)] for two plain objects [a] and [b]. *)
Definition diffConfigs (localeLe : string -> string -> bool)
  (a b : Value.value) : diff :=
  let aKeys := setOf (collectKeys (entriesOf a) "") in
  let bKeys := setOf (collectKeys (entriesOf b) "") in
  {| added := sortStrings (List.filter (fun k => negb (has aKeys k)) bKeys);
     removed := sortStrings (List.filter (fun k => negb (has bKeys k)) aKeys);
     changed :=
       sortChanges localeLe
         (flat_map (fun k =>
                      if has bKeys k then
                        let aVal := getByPath a k in
                        let bVal := getByPath b k in
                        if deepEqualOpt aVal bVal then []
                        else [{| key := k; from := aVal; to := bVal |}]
                      else [])
            aKeys) |}.

(** [toJSON()] of the configuration object [cfg]: a new object with a
    clone of every property. *)
Definition toJSON (cfg : Value.value) : M Value.value :=
  let* id := alloc in
  let* ps := mapM (fun kv : string * Value.value =>
                     let* v := clone (snd kv) in ret (fst kv, v))
               (entriesOf cfg) in
  ret (VObj id ps).

End Config.

(** ** parser.js: the statements *)

Module Statement.
Import Value Resolver Parser.

Definition isSemicolon (c : ascii) : bool := (Js.code c =? 59)%nat.
Definition isEquals (c : ascii) : bool := (Js.code c =? 61)%nat.
Definition isMinus (c : ascii) : bool := (Js.code c =? 45)%nat.
Definition isPoint (c : ascii) : bool := (Js.code c =? 46)%nat.

Definition doubleQuote : string := String (ascii_of_nat 34) "".
Definition singleQuote : string := String (ascii_of_nat 39) "".

(** [s[s.length - 1]] *)
Fixpoint lastChar (s : string) : option ascii :=
  match s with
  | EmptyString => None
  | String c EmptyString => Some c
  | String _ s' => lastChar s'
  end.

(** [s.slice(0, -1)] *)
Fixpoint dropLast (s : string) : string :=
  match s with
  | EmptyString => ""
  | String _ EmptyString => ""
  | String c s' => String c (dropLast s')
  end.

(** The pattern of the directives [@dims], [@require] and
    [@envDefaults] on a statement: the name at the start, white space
    (greedy, at least one unit), a greedy non-empty group of units other
    than the semicolon, and a semicolon; what follows is not looked at.
    The white space run is followed by the longest run with no
    semicolon, which a semicolon must end.  When that run is empty the
    semicolon stands right after the white space: the white space then
    gives its last unit back to the group, if it has two units at
    least. *)
Definition directiveGroup (name raw : string) : option string :=
  if Js.startsWith name raw then
    let '(ws, rest) := Js.span Js.isSpace (Js.drop (String.length name) raw) in
    let '(g, tail) := Js.span (fun c => negb (isSemicolon c)) rest in
    match ws, tail with
    | String _ _, String _ _ =>
        match g with
        | String _ _ => Some g
        | EmptyString =>
            match ws with
            | String _ (String _ _) =>
                option_map (fun c => String c "") (lastChar ws)
            | _ => None
            end
        end
    | _, _ => None
    end
  else None.

(** The text of [s] before its last semicolon. *)
Fixpoint beforeLast (s : string) : option string :=
  match s with
  | EmptyString => None
  | String c s' =>
      match beforeLast s' with
      | Some g => Some (String c g)
      | None => if isSemicolon c then Some "" else None
      end
  end.

(** The pattern of [@include]: the name, white space (greedy, at least
    one unit), a greedy non-empty group of units other than line
    terminators, and a semicolon.  The group runs to the last semicolon
    of the line that follows the white space; when that semicolon is the
    first unit of the line, the white space gives its last unit back to
    the group, if it has two units at least and that unit is no line
    terminator. *)
Definition includeGroup (raw : string) : option string :=
  if Js.startsWith "@include" raw then
    let '(ws, rest) := Js.span Js.isSpace (Js.drop 8 raw) in
    let '(run, _) := Js.span (fun c => negb (Js.isLineTerminator c)) rest in
    match ws with
    | EmptyString => None
    | String _ ws' =>
        match beforeLast run with
        | None => None
        | Some (String c g) => Some (String c g)
        | Some EmptyString =>
            match ws', lastChar ws with
            | String _ _, Some c =>
                if Js.isLineTerminator c then None else Some (String c "")
            | _, _ => None
            end
        end
    end
  else None.

(** The end of the rule pattern on what follows the operator: white
    space (greedy), a greedy non-empty group of any units, white space,
    a semicolon and the end of the statement.  The group is what stands
    between the white space and the last unit, which is a semicolon;
    when nothing stands there, the white space gives its last unit back
    to the group. *)
Definition valueGroup (after : string) : option string :=
  let '(ws, v) := Js.span Js.isSpace after in
  if Js.endsWith ";" v then
    match dropLast v with
    | String c g => Some (String c g)
    | EmptyString => option_map (fun c => String c "") (lastChar ws)
    end
  else None.

(** The rule pattern after its first group: white space, the operator
    and the end of the pattern. *)
Definition ruleTail (s : string) : option (operator * string) :=
  match operatorAt (Js.trimStart s) with
  | Some (o, after) =>
      match valueGroup after with
      | Some g => Some (o, g)
      | None => None
      end
  | None => None
  end.

(** The rule pattern on a statement: the shortest non-empty first group
    (no line terminator in it) after which the rest matches.  [key] is
    what the lazy group has taken so far. *)
Fixpoint ruleFrom (key : string) (s : string)
  : option (string * operator * string) :=
  match s with
  | EmptyString => None
  | String c s' =>
      if Js.isLineTerminator c then None
      else
        match ruleTail s' with
        | Some (o, g) => Some (key +:+ String c "", o, g)
        | None => ruleFrom (key +:+ String c "") s'
        end
  end.

Definition ruleMatch (raw : string) : option (string * operator * string) :=
  ruleFrom "" raw.

(** [stripQuotes(s)] *)
Definition stripQuotes (s : string) : string :=
  if (Js.startsWith doubleQuote s && Js.endsWith doubleQuote s)
     || (Js.startsWith singleQuote s && Js.endsWith singleQuote s)
  then dropLast (Js.drop 1 s)
  else s.

(** [group.split(",").map((s) => s.trim()).filter(Boolean)] *)
Definition names (group : string) : list string :=
  List.filter (fun s => negb (String.eqb s ""))
    (map Js.trim (Js.splitOn "," "" group)).

(** [envDefaults[k] = v] on an object literal, for a string [v]: the key
    [__proto__] names the accessor inherited from [Object.prototype],
    whose setter ignores a string. *)
Definition setDefault (envDefaults : Js.omap string) (k v : string)
  : Js.omap string :=
  if String.eqb k "__proto__" then envDefaults else Js.mapSet envDefaults k v.

(** The loop over the entries of [@envDefaults]: the defaults with the
    entries assigned, or the first entry with no equals sign. *)
Fixpoint envEntries (parts : list string) (envDefaults : Js.omap string)
  : string + Js.omap string :=
  match parts with
  | [] => inr envDefaults
  | p :: rest =>
      match Js.span (fun c => negb (isEquals c)) p with
      | (k, String _ vRaw) =>
          envEntries rest
            (setDefault envDefaults (Js.trim k) (stripQuotes (Js.trim vRaw)))
      | (_, EmptyString) => inl p
      end
  end.

(** [/^-?\d+(\.\d+)?$/] *)
Definition isNumeral (r : string) : bool :=
  let body := match r with
              | String c r' => if isMinus c then r' else r
              | EmptyString => r
              end in
  match Js.span Js.isDigit body with
  | (String _ _, EmptyString) => true
  | (String _ _, String c frac) =>
      isPoint c && negb (String.eqb frac "")
      && forallb Js.isDigit (list_ascii_of_string frac)
  | _ => false
  end.

(** [looksJsonish]: the first and the last unit of [r] are a pair of
    braces, of brackets, or the same quote. *)
Definition looksJsonish (r : string) : bool :=
  match r, lastChar r with
  | String c _, Some e =>
      let a := Js.code c in
      let b := Js.code e in
      ((a =? 123) && (b =? 125) || (a =? 91) && (b =? 93)
       || (a =? 34) && (b =? 34) || (a =? 39) && (b =? 39))%nat
  | _, _ => false
  end.

Section Interpret.

(** [Number(r)] on a decimal numeral, and [JSON5.parse(r)]: the value,
    or the message of the error thrown. *)
Variable numberOf : string -> number.
Variable JSON5_parse : string -> string + Value.value.

Variable parseOnlyDirectives : bool.
Variable filePath : string.

(** [parseValue(raw, { filePath, line, lines })] *)
Definition parseValue (raw : string) (line : nat) : presult Value.value :=
  let r := Js.trim raw in
  if String.eqb r "true" then Parsed (VBool true)
  else if String.eqb r "false" then Parsed (VBool false)
  else if String.eqb r "null" then Parsed VNull
  else if isNumeral r then Parsed (VNum (numberOf r))
  else if looksJsonish r then
    match JSON5_parse r with
    | inr v => Parsed v
    | inl message =>
        Failed {| pe_message := "Bad JSON5 value: " +:+ message;
                  pe_line := line;
                  pe_col := None;
                  pe_filePath := filePath |}
    end
  else Parsed (VStr r).

(** The body of [flush] for the trimmed, non-empty buffer [raw] of a
    statement that starts on line [line]: the result so far extended,
    or the error thrown. *)
Definition interpret (raw : string) (line : nat) (p : parsed)
  : presult parsed :=
  match directiveGroup "@dims" raw with
  | Some g =>
      Parsed {| dims := Some (names g); includes := includes p;
                requires := requires p; envDefaults := envDefaults p;
                rules := rules p |}
  | None =>
  match includeGroup raw with
  | Some g =>
      Parsed {| dims := dims p;
                includes := includes p ++ [stripQuotes (Js.trim g)];
                requires := requires p; envDefaults := envDefaults p;
                rules := rules p |}
  | None =>
  match directiveGroup "@require" raw with
  | Some g =>
      Parsed {| dims := dims p; includes := includes p;
                requires := requires p ++ names g;
                envDefaults := envDefaults p; rules := rules p |}
  | None =>
  match directiveGroup "@envDefaults" raw with
  | Some g =>
      match envEntries (names g) (envDefaults p) with
      | inr defaults =>
          Parsed {| dims := dims p; includes := includes p;
                    requires := requires p; envDefaults := defaults;
                    rules := rules p |}
      | inl entry =>
          Failed {| pe_message := "Bad @envDefaults entry: " +:+ entry;
                    pe_line := line;
                    pe_col := None;
                    pe_filePath := filePath |}
      end
  | None =>
  if parseOnlyDirectives then Parsed p
  else
    match ruleMatch raw with
    | None =>
        Failed {| pe_message := "Invalid statement";
                  pe_line := line;
                  pe_col := None;
                  pe_filePath := filePath |}
    | Some (g1, o, g3) =>
        let keyRaw := Js.trim g1 in
        match parseKeyPath keyRaw with
        | [] =>
            Failed {| pe_message := "Empty key";
                      pe_line := line;
                      pe_col := Some 0;
                      pe_filePath := filePath |}
        | keySegments =>
            match parseValue (Js.trim g3) line with
            | Parsed v =>
                Parsed (pushRule p
                          {| Resolver.filePath := filePath;
                             Resolver.line := line;
                             col := 0;
                             keyRaw := keyRaw;
                             keySegments := keySegments;
                             op := o;
                             value := v |})
            | Failed e => Failed e
            end
        end
    end
  end end end end.

End Interpret.

End Statement.

(** ** secrets.js: the global registry of providers *)

Module Registry.
Import Secrets.

(** [registerSecretProvider(provider)]: the registry afterwards, or the
    error thrown.  A provider of the model always has a [fetch]
    function, so it is invalid when its prefix is the empty string. *)
Definition registerSecretProvider (globalRegistry : gmap string provider)
  (p : provider) : Resolver.result (gmap string provider) :=
  match prefix p with
  | EmptyString =>
      Resolver.Throw "Invalid provider: must have prefix and fetch()"
  | _ => Resolver.Ok (<[Js.toUpperCase (prefix p) := p]> globalRegistry)
  end.

(** [unregisterSecretProvider(prefix)]: whether a provider was removed,
    and the registry afterwards. *)
Definition unregisterSecretProvider (globalRegistry : gmap string provider)
  (prefix : string) : bool * gmap string provider :=
  (match globalRegistry !! Js.toUpperCase prefix with
   | Some _ => true
   | None => false
   end,
   delete (Js.toUpperCase prefix) globalRegistry).

(** [clearSecretProviders()] *)
Definition clearSecretProviders (globalRegistry : gmap string provider)
  : gmap string provider := ∅.

(** [hasGlobalProviders()] *)
Definition hasGlobalProviders (globalRegistry : gmap string provider) : bool :=
  negb (size globalRegistry =? 0)%nat.

End Registry.

(** ** index.js: the loader

    [loadColony] once the files of the include expansion are read and
    parsed: [parsed] holds the units in the order of the files, and
    [warnings] what the expansion has recorded.  The [schema] hook is
    taken to be absent. *)

Module Index.
Import Heap Value Resolver.

(** What [loadColony] reads of the process and of the module state. *)
Record world : Type := mkWorld {
  processEnv : gmap string string;
  cwd : string;
  globalRegistry : gmap string Secrets.provider;
  now : Z
}.

(** [opts.secrets]; [cacheEnabled] is [cache.enabled !== false]. *)
Record secretsOptions : Type := mkSecretsOptions {
  providers : list Secrets.provider;
  allowedSecrets : option (list string);
  cacheEnabled : bool;
  cacheMaxSize : option nat;
  cacheTtl : option Z;
  onNotFound : option Secrets.policy
}.

(** What [loadColony] reads of [opts], the entry apart; an absent
    [ctx], [vars] or [secrets] is the empty one. *)
Record options : Type := mkOptions {
  dims : option (list string);
  ctx : gmap string string;
  vars : gmap string string;
  allowedEnvVars : option (list string);
  allowedVars : option (list string);
  secrets : secretsOptions
}.

(** [mergeEnvDefaults(list)]; the assignment [out[k] = v] of a string
    does nothing for the key [__proto__]. *)
Definition mergeEnvDefaults (list : list (Js.omap string))
  : gmap string string :=
  fold_left
    (fun out m =>
       fold_left
         (fun out kv =>
            if String.eqb (fst kv) "__proto__" then out
            else <[fst kv := snd kv]> out)
         m out)
    list ∅.

(** [p.dims?.length] *)
Definition hasDims (p : Parser.parsed) : bool :=
  match Parser.dims p with
  | Some (_ :: _) => true
  | _ => false
  end.

(** The dimensions: [opts.dims] when it is a non-empty array, else the
    dimensions of the first unit that declares some, else [["env"]]. *)
Definition dimsOf (opts : options) (parsed : list Parser.parsed)
  : list string :=
  match dims opts with
  | Some (d :: ds) => d :: ds
  | _ =>
      match List.find hasDims parsed with
      | Some p => default ["env"] (Parser.dims p)
      | None => ["env"]
      end
  end.

(** [{ ...envDefaults, env: process.env.NODE_ENV ?? "dev", ...opts.ctx }] *)
Definition ctxOf (w : world) (opts : options) (parsed : list Parser.parsed)
  : gmap string string :=
  ctx opts
  ∪ <["env" := default "dev" (processEnv w !! "NODE_ENV")]>
      (mergeEnvDefaults (map Parser.envDefaults parsed)).

(** [{ ROOT: process.cwd(), ...(opts.vars ?? {}) }] *)
Definition varsOf (w : world) (opts : options) : gmap string string :=
  vars opts ∪ {["ROOT" := cwd w]}.

(** The options [resolveRules] is called with; [env] is not passed. *)
Definition resolveOptions (w : world) (opts : options)
  (parsed : list Parser.parsed) : Strings.options :=
  {| Strings.ctx := ctxOf w opts parsed;
     Strings.vars := varsOf w opts;
     Strings.env := None;
     Strings.processEnv := processEnv w;
     Strings.allowedEnvVars := allowedEnvVars opts;
     Strings.allowedVars := allowedVars opts |}.

(** The options [applySecretsDeep] is called with. *)
Definition secretOptions (w : world) (opts : options) : Secrets.options :=
  let s := secrets opts in
  {| Secrets.providers := providers s;
     Secrets.allowedSecrets := allowedSecrets s;
     Secrets.cacheOpt :=
       if cacheEnabled s
       then Some (Secrets.newCache (default 100 (cacheMaxSize s)))
       else None;
     Secrets.cacheTtl := default 300000%Z (cacheTtl s);
     Secrets.onNotFound := default Secrets.OnWarn (onNotFound s);
     Secrets.globalRegistry := globalRegistry w |}.

(** [secretsOpts.providers?.length || hasGlobalProviders()] *)
Definition appliesSecrets (w : world) (opts : options) : bool :=
  negb (length (providers (secrets opts)) =? 0)%nat
  || Registry.hasGlobalProviders (globalRegistry w).

(** The configuration returned: the tree, and what the methods copied
    by [copyConfigMethods] close over, which is the tree [resolveRules]
    made ([source]), its trace, and the warnings. *)
Record config : Type := mkConfig {
  tree : Value.value;
  source : Value.value;
  trace : traceMap;
  warnings : list Warn.warning
}.

(** [cfg.get(p)] *)
Definition get (c : config) (p : string) : option Value.value :=
  getByPath (source c) p.

Inductive failure : Type :=
| Message (message : string)
| Thrown (e : Secrets.thrown).

Inductive loaded : Type :=
| Loaded (c : config)
| Failed (e : failure).

(** The required keys that [get] does not find. *)
Definition missingKeys (c : config) (requires : list string) : list string :=
  List.filter (fun reqKey => match get c reqKey with
                             | None => true
                             | Some _ => false
                             end) requires.

(** The message of the error of [@require]. *)
Definition requireError (missing : list string) : string :=
  "COLONY @require failed (missing keys):" +:+ String Js.LF ""
  +:+ Js.join (String Js.LF "") (map (fun k => "  - " +:+ k) missing).

(** The enforcement of [@require], and the return. *)
Definition enforce (c : config) (requires : list string) : loaded :=
  match missingKeys c requires with
  | [] => Loaded c
  | missing => Failed (Message (requireError missing))
  end.

(** [loadColony(opts)] from the parsed units on. *)
Definition loadParsed (w : world) (opts : options)
  (parsed : list Parser.parsed) (warnings : list Warn.warning) : M loaded :=
  let requires := flat_map Parser.requires parsed in
  let* r := resolveRules (Loader.allRules parsed) (dimsOf opts parsed)
              (resolveOptions w opts parsed) warnings in
  match r with
  | Throw message => ret (Failed (Message message))
  | Ok res =>
      if appliesSecrets w opts then
        let* s := Secrets.applySecretsDeep (Resolver.cfg res)
                    (secretOptions w opts) (Resolver.warnings res) (now w) in
        match Secrets.returned s with
        | inr e => ret (Failed (Thrown e))
        | inl secretified =>
            ret (enforce {| tree := secretified;
                            source := Resolver.cfg res;
                            trace := Resolver.trace res;
                            warnings := Secrets.out_warnings s |}
                   requires)
        end
      else
        ret (enforce {| tree := Resolver.cfg res;
                        source := Resolver.cfg res;
                        trace := Resolver.trace res;
                        warnings := Resolver.warnings res |}
               requires)
  end.

End Index.

(** ** Further vocabulary of the properties *)

Module Terms.
Import Heap Value Resolver.

(** The rule has more key segments than there are dimensions: a scope
    and at least one key segment. *)
Definition wellScoped (dims : list string) (r : rule) : Prop :=
  length dims < length (keySegments r).

(** The message of the error [resolveRules] throws for the rule. *)
Definition scopeError (dims : list string) (r : rule) : string :=
  filePath r +:+ ":" +:+ Js.ofNat (line r) +:+ ": Key must have "
  +:+ Js.ofNat (length dims)
  +:+ " scope segments + at least one key segment: " +:+ keyRaw r.

(** The scope of the rule under [dims] matches the context scope. *)
Definition inContext (dims ctxScope : list string) (r : rule) : bool :=
  matches (firstn (length dims) (keySegments r)) ctxScope.

(** A trace entry is the packed trace of a rule of [indexed] that
    matches the context and has the entry's key as its key path. *)
Definition tracedFrom (ctxScope : list string) (indexed : list indexedRule)
  (e : string * traceInfo) : Prop :=
  exists r,
    In r indexed
    /\ matches (scope r) ctxScope = true
    /\ keyPathStr r = fst e
    /\ snd e = packTrace r (specificity (scope r)).

Definition noneOf (c : ascii) (s : string) : bool :=
  forallb (fun x => negb (Ascii.eqb x c)) (list_ascii_of_string s).


(** Two option records that differ at most in the environment, with
    the same allow list [names] of environment variables, on which the
    two environments agree. *)
Definition sameButEnv (names : list string) (o o' : Strings.options) : Prop :=
  Strings.ctx o = Strings.ctx o'
  /\ Strings.vars o = Strings.vars o'
  /\ Strings.allowedVars o = Strings.allowedVars o'
  /\ Strings.allowedEnvVars o = Some names
  /\ Strings.allowedEnvVars o' = Some names
  /\ (forall k, In k names ->
                Strings.envSource o !! k = Strings.envSource o' !! k).

(** The code units of a string as literal pieces of a scan. *)
Definition literals {G : Type} (s : string) : list (Js.piece G) :=
  map Js.Lit (list_ascii_of_string s).

(** The invariant of the cache: every key once, and no more entries
    than [maxSize]. *)
Definition cacheOk (c : Secrets.SecretCache) : Prop :=
  List.NoDup (Spec.cacheKeys c)
  /\ length (Secrets.cache c) <= Secrets.maxSize c.

(** No line terminator in the string: what a [*] of a glob pattern
    matches. *)
Definition oneLine (s : string) : bool :=
  forallb (fun c => negb (Js.isLineTerminator c)) (list_ascii_of_string s).

Definition star : ascii := ascii_of_nat 42.
Definition colon : ascii := ascii_of_nat 58.

(** A lookup of [fullKey] in the cache at the instant [now] would hit
    and give [v]. *)
Definition cacheHit (c : option Secrets.SecretCache) (now : Z)
  (fullKey v : string) : Prop :=
  match c with
  | None => False
  | Some c =>
      match Js.mapGet (Secrets.cache c) fullKey with
      | None => False
      | Some e => (now <= Secrets.e_expires e)%Z /\ Secrets.e_value e = v
      end
  end.

(** The state of the loop of [applySecretsDeep] over the references of
    [v], before the fetches settle. *)
Definition visited (v : Value.value) (o : Secrets.options)
  (warnings : list Warn.warning) (now : Z) : Secrets.state :=
  fold_left (Secrets.visitRef o now) (Secrets.collectSecretRefs v [])
    {| Secrets.st_warnings := warnings;
       Secrets.st_cache := Secrets.cacheOpt o;
       Secrets.st_resolved := ∅;
       Secrets.st_pending := [] |}.

(** Every code unit of the string is white space. *)
Definition allSpace (s : string) : bool :=
  forallb Js.isSpace (list_ascii_of_string s).

(** The number of line feeds of a string. *)
Fixpoint lineFeeds (s : string) : nat :=
  match s with
  | EmptyString => 0
  | String c s' => (if Ascii.eqb c Js.LF then 1 else 0) + lineFeeds s'
  end.

Definition dot : ascii := ascii_of_nat 46.
Definition backslash : ascii := ascii_of_nat 92.

(** A piece of a key with no dot and no backslash in it. *)
Definition plainKey (s : string) : bool :=
  noneOf dot s && noneOf backslash s.

(** [if (current.trim()) segments.push(current.trim())] *)
Definition pushSegment (segments : list string) (cur : string) : list string :=
  match Js.trim cur with
  | EmptyString => segments
  | t => segments ++ [t]
  end.

(** A line that goes into the statement buffer and does not end the
    statement: it is neither blank nor a line comment, it opens no
    heredoc, and it does not end with a semicolon. *)
Definition statementLine (line : string) : Prop :=
  Js.trim line <> ""
  /\ Js.startsWith "#" (Js.trim line) = false
  /\ Js.startsWith "//" (Js.trim line) = false
  /\ Parser.heredocMatch (Js.trim line) = None
  /\ Js.endsWith ";" (Js.trim line) = false.

(** The same for the line that ends the statement. *)
Definition lastLine (line : string) : Prop :=
  Js.trim line <> ""
  /\ Js.startsWith "#" (Js.trim line) = false
  /\ Js.startsWith "//" (Js.trim line) = false
  /\ Parser.heredocMatch (Js.trim line) = None
  /\ Js.endsWith ";" (Js.trim line) = true.

(** The state with [body] in the statement buffer, begun on line
    [lineNo]. *)
Definition buffered (st : Parser.state) (lineNo : nat) (body : string)
  : Parser.state :=
  {| Parser.out := Parser.out st;
     Parser.buf := body;
     Parser.bufStartLine := lineNo;
     Parser.bufStartOriginalLine := lineNo;
     Parser.inHeredoc := false;
     Parser.heredocDelimiter := Parser.heredocDelimiter st;
     Parser.heredocContent := Parser.heredocContent st;
     Parser.heredocStartLine := Parser.heredocStartLine st;
     Parser.heredocKey := Parser.heredocKey st;
     Parser.heredocOp := Parser.heredocOp st |}.

(** No string of the list occurs twice. *)
Fixpoint distinct (keys : list string) : bool :=
  match keys with
  | [] => true
  | k :: rest => negb (existsb (String.eqb k) rest) && distinct rest
  end.

(** A tree with no NaN in it, every object of which holds every key
    once. *)
Fixpoint regular (v : Value.value) : bool :=
  match v with
  | VNum NaN => false
  | VArr _ items => forallb regular items
  | VObj _ ps =>
      distinct (map fst ps) && forallb (fun kv => regular (snd kv)) ps
  | _ => true
  end.

(** The keys of a configuration object, as [keys()] lists them. *)
Definition keysOfConfig (cfg : Value.value) : list string :=
  Config.collectKeys (Config.entriesOf cfg) "".

Definition equals : ascii := ascii_of_nat 61.

(** The assignments of the lines of a dotenv text, in the order of the
    lines. *)
Definition assignments (content : string) : list (string * string) :=
  flat_map (fun raw => match Dotenv.parseLine raw with
                       | Some kv => [kv]
                       | None => []
                       end)
    (Js.splitLines "" content).

(** The value of the last pair of the list that has the key. *)
Definition lastOf (pairs : list (string * string)) (key : string)
  : option string :=
  option_map snd (List.find (fun kv => String.eqb (fst kv) key) (rev pairs)).

(** A value that is not between two double quotes or two single
    quotes. *)
Definition unquoted (value : string) : bool :=
  negb (Dotenv.quotedBy Dotenv.doubleQuote value
        || Dotenv.quotedBy Dotenv.singleQuote value).

Definition semicolon : ascii := ascii_of_nat 59.

(** The text of an operator. *)
Definition opText (o : operator) : string :=
  match o with
  | OpSet => "="
  | OpSetIfMissing => ":="
  | OpMerge => "|="
  | OpAppend => "+="
  | OpRemove => "-="
  end.

(** The last code unit of the string, if any, is none of the units
    that make an operator with an equals sign after them. *)
Definition endsPlain (k : string) : bool :=
  match Statement.lastChar k with
  | Some c =>
      let n := Js.code c in
      negb ((n =? 58) || (n =? 124) || (n =? 43) || (n =? 45))%nat
  | None => true
  end.

(** A text that can stand for the key in a rule statement: not empty,
    on one line, with no equals sign, and not ending with a unit that
    the equals sign would make an operator of. *)
Definition keyText (k : string) : bool :=
  negb (String.eqb k "") && noneOf equals k && oneLine k && endsPlain k.

(** What an entry of [@envDefaults] assigns: the trimmed text before
    its first equals sign, and the trimmed text after it without its
    quotes. *)
Definition entryOf (part : string) : option (string * string) :=
  match Js.span (fun c => negb (Statement.isEquals c)) part with
  | (k, String _ vRaw) =>
      Some (Js.trim k, Statement.stripQuotes (Js.trim vRaw))
  | (_, EmptyString) => None
  end.

(** The assignments of the entries, in their order. *)
Definition entries (parts : list string) : list (string * string) :=
  flat_map (fun part => match entryOf part with
                        | Some kv => [kv]
                        | None => []
                        end) parts.

(** The names of the members every object inherits from
    [Object.prototype]. *)
Definition objectMembers : list string :=
  ["__proto__"; "constructor"; "hasOwnProperty"; "isPrototypeOf";
   "propertyIsEnumerable"; "toLocaleString"; "toString"; "valueOf";
   "__defineGetter__"; "__defineSetter__"; "__lookupGetter__";
   "__lookupSetter__"].

(** The names of the properties that [resolveRules] and [loadColony]
    define on a configuration. *)
Definition configMembers : list string :=
  ["get"; "explain"; "toJSON"; "keys"; "diff"; "_trace"; "_warnings"].

Definition named (names : list string) (k : string) : bool :=
  existsb (String.eqb k) names.

(** The name is the one of a member inherited from [Object.prototype]. *)
Definition inherited (k : string) : bool := named objectMembers k.

(** No segment of the path is [__proto__], the one name an assignment
    does not make an own property of. *)
Definition plainPath (path : list string) : bool :=
  forallb (fun k => negb (String.eqb k "__proto__")) path.

(** The path reads own data only on its way down the tree: a segment
    read on an object is not the name of an inherited member, nor one of
    [reserved] on the tree itself, and a segment read on an array is an
    index or [length]. *)
Fixpoint ownPath (reserved : list string) (cur : Value.value)
  (segs : list string) : bool :=
  match segs with
  | [] => true
  | k :: rest =>
      match cur with
      | VObj _ ps =>
          negb (named (reserved ++ objectMembers) k)
          && match Value.propGet ps k with
             | Some v => ownPath [] v rest
             | None => true
             end
      | VArr _ items =>
          (String.eqb k "length"
           || match Value.arrayIndex k with Some _ => true | None => false end)
          && match Value.itemGet items k with
             | Some v => ownPath [] v rest
             | None => true
             end
      | _ => true
      end
  end.

(** The same for the dotted path that [get] is given, on a
    configuration. *)
Definition ownKey (cfg : Value.value) (p : string) : bool :=
  ownPath configMembers cfg
    (List.filter (fun s => negb (String.eqb s "")) (Js.splitOn "." "" p)).

(** Every code unit of the text is below 128, where the model of
    [toUpperCase] is the one of JS. *)
Definition asciiText (s : string) : bool :=
  forallb (fun c => (Js.code c <? 128)%nat) (list_ascii_of_string s).

(** The last of the providers whose prefix, in upper case, is [P]. *)
Definition localProvider (providers : list Secrets.provider) (P : string)
  : option Secrets.provider :=
  List.find (fun p => String.eqb (Js.toUpperCase (Secrets.prefix p)) P)
    (rev providers).

End Terms.

(** ** Further examples *)

Module Samples.
Import Value Resolver.

(** A process with [NODE_ENV] set to [test], and no global provider. *)
Definition world : Index.world :=
  {| Index.processEnv := <["NODE_ENV" := "test"]> ∅;
     Index.cwd := "/srv/app";
     Index.globalRegistry := ∅;
     Index.now := 0 |}.

(** Options with a context only. *)
Definition options (ctx : gmap string string) : Index.options :=
  {| Index.dims := None;
     Index.ctx := ctx;
     Index.vars := ∅;
     Index.allowedEnvVars := None;
     Index.allowedVars := None;
     Index.secrets :=
       {| Index.providers := [];
          Index.allowedSecrets := None;
          Index.cacheEnabled := true;
          Index.cacheMaxSize := None;
          Index.cacheTtl := None;
          Index.onNotFound := None |} |}.

(** A unit with one dimension, defaults for [env] and [region], one
    rule, and the required key [required]. *)
Definition unit (required : string) : Parser.parsed :=
  {| Parser.dims := Some ["env"];
     Parser.includes := [];
     Parser.requires := [required];
     Parser.envDefaults := [("env", "prod"); ("region", "eu")];
     Parser.rules :=
       [Examples.statement 1 "*.db.host" OpSet (VStr "localhost")] |}.


(** Two rules for one key in one unit, the more specific one first. *)
Definition specific_first_units : list Parser.parsed :=
  [ {| Parser.dims := None; Parser.includes := []; Parser.requires := [];
       Parser.envDefaults := [];
       Parser.rules :=
         [ Examples.statement 1 "prod.us.db.host" OpSet (VStr "first");
           Examples.statement 2 "*.us.db.host" OpSet (VStr "second") ] |} ].

Definition specific_first_indexed : list indexedRule :=
  map (Examples.indexed 2) (Loader.allRules specific_first_units).


End Samples.

(* ===================================================================== *)
(** * Part II: properties *)
(* ===================================================================== *)

(** ** Insertion-ordered maps *)

Section OMapFacts.
Context {V : Type}.
Implicit Types (m : Js.omap V) (k : string) (v : V).

Lemma mapGet_mapSet_eq m k v : Js.mapGet (Js.mapSet m k v) k = Some v.
Proof.
  induction m as [|[k' v'] m IH]; simpl.
  - now rewrite String.eqb_refl.
  - destruct (String.eqb k' k) eqn:E; simpl; rewrite E; auto.
Qed.

Lemma mapGet_mapSet_ne m k k' v :
  k <> k' -> Js.mapGet (Js.mapSet m k v) k' = Js.mapGet m k'.
Proof.
  intros Hne. induction m as [|[k0 v0] m IH]; simpl.
  - destruct (String.eqb k k') eqn:E; auto.
    apply String.eqb_eq in E. contradiction.
  - destruct (String.eqb k0 k) eqn:E; simpl.
    + apply String.eqb_eq in E. subst k0.
      destruct (String.eqb k k') eqn:E'; auto.
      apply String.eqb_eq in E'. contradiction.
    + now rewrite IH.
Qed.

Lemma mapSet_keys_in m k v :
  Js.mapGet m k <> None -> map fst (Js.mapSet m k v) = map fst m.
Proof.
  induction m as [|[k0 v0] m IH]; simpl; intros H.
  - contradiction.
  - destruct (String.eqb k0 k) eqn:E; simpl; auto.
    now rewrite IH.
Qed.

Lemma mapSet_keys_new m k v :
  Js.mapGet m k = None -> map fst (Js.mapSet m k v) = map fst m ++ [k].
Proof.
  induction m as [|[k0 v0] m IH]; simpl; intros H; auto.
  destruct (String.eqb k0 k) eqn:E; simpl; [discriminate|].
  now rewrite IH.
Qed.

Lemma mapGet_None_notin m k : Js.mapGet m k = None -> ~ In k (map fst m).
Proof.
  induction m as [|[k0 v0] m IH]; simpl; intros H; [tauto|].
  destruct (String.eqb k0 k) eqn:E; [discriminate|].
  apply String.eqb_neq in E. intros [Heq|Hin]; [contradiction|].
  now apply IH.
Qed.

Lemma mapGet_notin_None m k : ~ In k (map fst m) -> Js.mapGet m k = None.
Proof.
  induction m as [|[k0 v0] m IH]; simpl; intros H; auto.
  destruct (String.eqb k0 k) eqn:E.
  - apply String.eqb_eq in E. tauto.
  - apply IH. tauto.
Qed.

Lemma mapSet_NoDup m k v :
  List.NoDup (map fst m) -> List.NoDup (map fst (Js.mapSet m k v)).
Proof.
  intros Hnd. destruct (Js.mapGet m k) eqn:E.
  - rewrite mapSet_keys_in; auto. congruence.
  - rewrite mapSet_keys_new; auto.
    apply List.NoDup_app; auto.
    + constructor; [simpl; tauto | constructor].
    + intros x Hx [<-|[]]. now apply mapGet_None_notin in E.
Qed.

Lemma mapGet_In m k v :
  List.NoDup (map fst m) -> In (k, v) m -> Js.mapGet m k = Some v.
Proof.
  induction m as [|[k0 v0] m IH]; simpl; intros Hnd Hin; [tauto|].
  apply List.NoDup_cons_iff in Hnd. destruct Hnd as [Hnotin Hnd].
  destruct Hin as [Heq|Hin].
  - inversion Heq; subst. now rewrite String.eqb_refl.
  - destruct (String.eqb k0 k) eqn:E.
    + apply String.eqb_eq in E. subst k0.
      exfalso. apply Hnotin.
      change k with (fst (k, v)). now apply in_map.
    + now apply IH.
Qed.

Lemma mapGet_Some_In m k v : Js.mapGet m k = Some v -> In (k, v) m.
Proof.
  induction m as [|[k0 v0] m IH]; simpl; intros H; [discriminate|].
  destruct (String.eqb k0 k) eqn:E.
  - apply String.eqb_eq in E. inversion H; subst. now left.
  - right. now apply IH.
Qed.

End OMapFacts.

(** ** The candidates of a key and the winner *)

Section WinnerFacts.
Import Resolver Spec.

Variable ctxScope : list string.

Lemma group_pushCandidate cs k r k' :
  group (pushCandidate cs k r) k'
  = if String.eqb k k' then group cs k ++ [r] else group cs k'.
Proof.
  unfold group, pushCandidate, Js.mapHas.
  destruct (Js.mapGet cs k) eqn:G; simpl.
  - rewrite G. simpl. destruct (String.eqb k k') eqn:E.
    + apply String.eqb_eq in E. subst k'. now rewrite mapGet_mapSet_eq.
    + apply String.eqb_neq in E. now rewrite mapGet_mapSet_ne.
  - rewrite mapGet_mapSet_eq. simpl. destruct (String.eqb k k') eqn:E.
    + apply String.eqb_eq in E. subst k'. now rewrite mapGet_mapSet_eq.
    + apply String.eqb_neq in E.
      now rewrite !mapGet_mapSet_ne by assumption.
Qed.

Lemma pushCandidate_NoDup cs k r :
  List.NoDup (map fst cs) -> List.NoDup (map fst (pushCandidate cs k r)).
Proof.
  intros H. unfold pushCandidate.
  apply mapSet_NoDup. destruct (Js.mapHas cs k); auto.
  now apply mapSet_NoDup.
Qed.

Lemma mapSet_nonempty (cs : candidates) k l :
  l <> [] -> Forall (fun kc => snd kc <> []) cs ->
  Forall (fun kc => snd kc <> []) (Js.mapSet cs k l).
Proof.
  intros Hl. induction cs as [|[k0 l0] cs IH]; simpl; intros H.
  - constructor; auto.
  - inversion H; subst.
    destruct (String.eqb k0 k); constructor; auto.
Qed.

Lemma pushCandidate_nonempty cs k r :
  Forall (fun kc => snd kc <> []) cs ->
  Forall (fun kc => snd kc <> []) (pushCandidate cs k r).
Proof.
  intros H. unfold pushCandidate, Js.mapHas.
  destruct (Js.mapGet cs k) eqn:G.
  - rewrite G. simpl. apply mapSet_nonempty; auto.
    intros E. now apply app_eq_nil in E as [_ E].
  - rewrite mapGet_mapSet_eq. simpl.
    assert (Js.mapSet (Js.mapSet cs k []) k [r] = Js.mapSet cs k [r]) as ->.
    { clear. induction cs as [|[k0 l0] cs IH]; simpl.
      - now rewrite String.eqb_refl.
      - destruct (String.eqb k0 k) eqn:E; simpl; rewrite E; auto;
          now rewrite IH. }
    apply mapSet_nonempty; auto; discriminate.
Qed.

(** The state of the second loop after any number of rules. *)
Lemma partition_invariant indexed acc :
  List.NoDup (map fst (fst acc)) ->
  Forall (fun kc => snd kc <> []) (fst acc) ->
  let res := fold_left (partitionStep ctxScope) indexed acc in
  List.NoDup (map fst (fst res))
  /\ Forall (fun kc => snd kc <> []) (fst res)
  /\ (forall k, group (fst res) k
                = group (fst acc) k ++ List.filter (isCandidate ctxScope k) indexed)
  /\ snd res = snd acc ++ List.filter (isDeferred ctxScope) indexed.
Proof.
  revert acc. induction indexed as [|r rest IH]; intros acc Hnd Hne; simpl.
  - repeat split; auto; intros; now rewrite app_nil_r.
  - assert (Hstep :
      List.NoDup (map fst (fst (partitionStep ctxScope acc r)))
      /\ Forall (fun kc => snd kc <> []) (fst (partitionStep ctxScope acc r))).
    { unfold partitionStep.
      destruct (matches (scope r) ctxScope); simpl; auto.
      destruct (isPostOp (op (base r))); simpl; auto.
      split; [now apply pushCandidate_NoDup | now apply pushCandidate_nonempty]. }
    destruct Hstep as [Hnd' Hne'].
    destruct (IH _ Hnd' Hne') as (I1 & I2 & I3 & I4).
    repeat split; auto.
    + intros k. rewrite I3. simpl filter.
      unfold partitionStep, isCandidate.
      destruct (matches (scope r) ctxScope); simpl; auto.
      destruct (isPostOp (op (base r))); simpl; auto.
      rewrite group_pushCandidate.
      destruct (String.eqb (keyPathStr r) k) eqn:E; simpl; auto.
      apply String.eqb_eq in E. subst k. now rewrite <- app_assoc.
    + rewrite I4. simpl filter. unfold partitionStep, isDeferred.
      destruct (matches (scope r) ctxScope); simpl; auto.
      destruct (isPostOp (op (base r))); simpl; auto.
      now rewrite <- app_assoc.
Qed.

(** An entry of [candidatesByKey] holds, in their order, the primary
    candidates of its key; there is at least one. *)
Lemma partition_entry indexed key cand :
  In (key, cand) (fst (partitionRules ctxScope indexed)) ->
  cand = List.filter (isCandidate ctxScope key) indexed /\ cand <> [].
Proof.
  intros Hin. unfold partitionRules in *.
  destruct (partition_invariant indexed ([], [])
              (List.NoDup_nil _) (List.Forall_nil _)) as (Hnd & Hne & Hgrp & _).
  split.
  - specialize (Hgrp key). simpl in Hgrp.
    unfold group in Hgrp at 1.
    rewrite (mapGet_In _ _ _ Hnd Hin) in Hgrp. exact Hgrp.
  - rewrite List.Forall_forall in Hne. exact (Hne _ Hin).
Qed.

(** The deferred operations are the matching [+=] and [-=] rules, in
    their order. *)
Lemma partition_postOps indexed :
  snd (partitionRules ctxScope indexed) = List.filter (isDeferred ctxScope) indexed.
Proof.
  unfold partitionRules.
  destruct (partition_invariant indexed ([], [])
              (List.NoDup_nil _) (List.Forall_nil _)) as (_ & _ & _ & H).
  exact H.
Qed.

Lemma winnerStep_invariant done acc c :
  winnerOf done acc -> winnerOf (done ++ [c]) (winnerStep acc c).
Proof.
  intros (Hb & l1 & l2 & Hd & H1 & H2).
  unfold winnerStep. fold (spec c).
  destruct (Nat.ltb_spec (snd acc) (spec c)) as [Hlt|Hge].
  - split; [reflexivity|]. exists done, []. simpl.
    repeat split; auto. subst done.
    apply Forall_app. split.
    + eapply List.Forall_impl; [|exact H1]. simpl. intros; lia.
    + constructor; [lia|].
      eapply List.Forall_impl; [|exact H2]. simpl. intros; lia.
  - destruct (Nat.eqb_spec (spec c) (snd acc)) as [Heq|Hne].
    + split; [simpl; lia|]. exists done, []. simpl.
      repeat split; auto. subst done.
      apply Forall_app. split.
      * eapply List.Forall_impl; [|exact H1]. simpl. intros; lia.
      * constructor; [lia|].
        eapply List.Forall_impl; [|exact H2]. simpl. intros; lia.
    + split; [exact Hb|]. exists l1, (l2 ++ [c]).
      repeat split; auto.
      * subst done. now rewrite <- app_assoc.
      * apply Forall_app. split; auto. constructor; [lia|constructor].
Qed.

Lemma winner_fold rest done acc :
  winnerOf done acc -> winnerOf (done ++ rest) (fold_left winnerStep rest acc).
Proof.
  revert done acc. induction rest as [|c rest IH]; intros done acc H; simpl.
  - now rewrite app_nil_r.
  - replace (done ++ c :: rest) with ((done ++ [c]) ++ rest)
      by now rewrite <- app_assoc.
    apply IH. now apply winnerStep_invariant.
Qed.

Lemma selectWinner_spec cand :
  cand <> [] ->
  exists winner best,
    selectWinner cand = Some (winner, best) /\ winnerOf cand (winner, best).
Proof.
  destruct cand as [|c0 rest]; [congruence|]. intros _.
  simpl. destruct (fold_left winnerStep rest (c0, specificity (scope c0)))
    as [w b] eqn:E.
  exists w, b. split; auto. rewrite <- E.
  apply (winner_fold rest [c0]).
  split; [reflexivity|]. exists [], []. simpl. repeat split; constructor.
Qed.

(** A position in a filtered list is a position in the list. *)
Lemma filter_split {A : Type} (f : A -> bool) (l : list A) l1 w l2 :
  List.filter f l = l1 ++ w :: l2 ->
  exists before after,
    l = before ++ w :: after
    /\ List.filter f before = l1 /\ List.filter f after = l2 /\ f w = true.
Proof.
  revert l1. induction l as [|x l IH]; intros l1 H; simpl in H.
  - destruct l1; discriminate.
  - destruct (f x) eqn:Fx.
    + destruct l1 as [|y l1]; simpl in H.
      * inversion H; subst. exists [], l. simpl. auto.
      * inversion H; subst.
        destruct (IH _ H2) as (b & a & -> & Hb & Ha & Hw).
        exists (y :: b), a. simpl. rewrite Fx, Hb. auto.
    + destruct (IH _ H) as (b & a & -> & Hb & Ha & Hw).
      exists (x :: b), a. simpl. rewrite Fx. auto.
Qed.

End WinnerFacts.

Lemma indexRules_base dims rules indexed :
  Resolver.indexRules dims rules = Resolver.Ok indexed ->
  map Resolver.base indexed = rules.
Proof.
  revert indexed. induction rules as [|r rest IH]; intros indexed H; simpl in H.
  - now inversion H.
  - unfold Resolver.indexRule in H.
    destruct (negb _ || _); [discriminate|].
    destruct (Resolver.indexRules dims rest); [|discriminate].
    inversion H; subst. simpl. f_equal. now apply IH.
Qed.

(** The measure of the code is the count of the specification. *)
Lemma specificity_count scope :
  Resolver.specificity scope
  = length (List.filter (fun token => negb (String.eqb token "*")) scope).
Proof.
  induction scope as [|seg rest IH]; [reflexivity|].
  cbn [Resolver.specificity List.filter].
  destruct (String.eqb seg "*"); cbn [negb length]; now rewrite IH.
Qed.

Lemma spec_nonWildcards r : Spec.spec r = Spec.nonWildcards r.
Proof. apply specificity_count. Qed.

(** C1. Under every context, the winner picked from the candidates of a
    key is one of the matching primary rules of that key; its
    specificity, the number of its scope tokens that are not the
    wildcard, is the one the winner loop reports; no matching primary
    rule of the key has more such tokens, and among those with as many
    as the winner none comes later in the rule order, which is the order
    of the rules of the parsed units taken in load order. *)
Theorem C1_winner_most_specific_then_latest :
  forall (units : list Parser.parsed) (dims : list string)
         (ctx : gmap string string) (indexed : list Resolver.indexedRule)
         (key : string) (cand : list Resolver.indexedRule),
    Resolver.indexRules dims (Loader.allRules units) = Resolver.Ok indexed ->
    In (key, cand)
       (fst (Resolver.partitionRules (Resolver.ctxScopeOf dims ctx) indexed)) ->
    map Resolver.base indexed = flat_map Parser.rules units
    /\ exists winner best before after,
         Resolver.selectWinner cand = Some (winner, best)
         /\ best = Spec.nonWildcards winner
         /\ indexed = before ++ winner :: after
         /\ Spec.isCandidate (Resolver.ctxScopeOf dims ctx) key winner = true
         /\ (forall r, In r before ->
               Spec.isCandidate (Resolver.ctxScopeOf dims ctx) key r = true ->
               Spec.nonWildcards r <= Spec.nonWildcards winner)
         /\ (forall r, In r after ->
               Spec.isCandidate (Resolver.ctxScopeOf dims ctx) key r = true ->
               Spec.nonWildcards r < Spec.nonWildcards winner).
Proof.
  intros units dims ctx indexed key cand Hidx Hin.
  split; [exact (indexRules_base _ _ _ Hidx)|].
  destruct (partition_entry _ _ _ _ Hin) as [Hcand Hne].
  destruct (selectWinner_spec cand Hne) as (w & b & Hsel & Hb & l1 & l2 & Hd & H1 & H2).
  simpl in *.
  rewrite Hcand in Hd.
  destruct (filter_split _ _ _ _ _ Hd) as (before & after & Hl & Hbf & Haf & Hw).
  exists w, b, before, after.
  split; [exact Hsel|].
  split; [rewrite <- spec_nonWildcards; exact Hb|].
  split; [exact Hl|]. split; [exact Hw|]. split.
  - intros r Hr Hc. rewrite <- !spec_nonWildcards.
    rewrite List.Forall_forall in H1. apply H1.
    rewrite <- Hbf. apply filter_In. auto.
  - intros r Hr Hc. rewrite <- !spec_nonWildcards.
    rewrite List.Forall_forall in H2. apply H2.
    rewrite <- Haf. apply filter_In. auto.
Qed.

(** ** The example of two dimensions *)

(** C2, as stated, fails: the rule [*.timeout] has two segments, and with
    two dimensions both are scope, so that no key segment is left; the
    resolver refuses the rule set. *)
Lemma C2_timeout_rules_refused :
  fst (Resolver.resolveRules Examples.timeout_rules ["env"; "region"]
         (Examples.under (Examples.env_region "prod" "eu")) [] 0)
  = Resolver.Throw
      "<memory>:1: Key must have 2 scope segments + at least one key segment: *.timeout".
Proof. vm_compute. reflexivity. Qed.

(** C2, amended. With one scope token per declared dimension in every
    rule ([*.*.timeout = 1000; prod.*.timeout = 2000;
    prod.us.timeout = 3000;]) and the dimensions env and region, the
    resolution succeeds; timeout is 2000 under env prod, region eu, and
    3000 under env prod, region us. *)
Theorem C2_timeout_by_specificity :
  forall n : Heap.ref,
    (exists r,
        fst (Resolver.resolveRules Examples.timeout_rules_scoped ["env"; "region"]
               (Examples.under (Examples.env_region "prod" "eu")) [] n)
        = Resolver.Ok r
        /\ Resolver.getByPath (Resolver.cfg r) "timeout"
           = Some (Value.VNum (Value.Num 2000)))
    /\ (exists r,
        fst (Resolver.resolveRules Examples.timeout_rules_scoped ["env"; "region"]
               (Examples.under (Examples.env_region "prod" "us")) [] n)
        = Resolver.Ok r
        /\ Resolver.getByPath (Resolver.cfg r) "timeout"
           = Some (Value.VNum (Value.Num 3000))).
Proof.
  intros n. split; eexists; split; vm_compute; reflexivity.
Qed.

(** ** Deferred operations *)

Section PostOpFacts.
Import Heap Value Util Resolver Spec.

Lemma insertBySpecificity_perm r l :
  Permutation (r :: l) (insertBySpecificity r l).
Proof.
  induction l as [|x xs IH]; simpl; auto.
  destruct (specificity (scope r) <=? specificity (scope x))%nat; auto.
  eapply perm_trans; [apply perm_swap|]. now constructor.
Qed.

Lemma sortPostOps_perm l : Permutation l (sortPostOps l).
Proof.
  induction l as [|r l IH]; simpl; auto.
  eapply perm_trans; [|apply insertBySpecificity_perm]. now constructor.
Qed.





Lemma setProps_step ps k k2 rest v :
  setProps ps (k :: k2 :: rest) v
  = match propGet ps k with
    | Some (VObj id sub) =>
        let* sub' := setProps sub (k2 :: rest) v in
        ret (propSet ps k (VObj id sub'))
    | _ =>
        let* id := alloc in
        let* sub' := setProps [] (k2 :: rest) v in
        ret (propSet ps k (VObj id sub'))
    end.
Proof. reflexivity. Qed.

Lemma setProps_get path : forall ps v n id,
  path <> [] ->
  getDeep (VObj id (fst (setProps ps path v n))) path = Some v.
Proof.
  induction path as [|k rest IH]; intros ps v n id Hne; [congruence|].
  destruct rest as [|k2 rest].
  - simpl. unfold propGet, propSet. now rewrite mapGet_mapSet_eq.
  - rewrite setProps_step.
    assert (Hsub : forall id2 sub m,
      getDeep (VObj id (fst ((let* sub' := setProps sub (k2 :: rest) v in
                              ret (propSet ps k (VObj id2 sub'))) m)))
              (k :: k2 :: rest) = Some v).
    { intros id2 sub m. unfold bind, ret.
      specialize (IH sub v m id2).
      destruct (setProps sub (k2 :: rest) v m) as [sub' n1].
      cbn [fst getDeep] in *. unfold propGet, propSet.
      rewrite mapGet_mapSet_eq. apply IH. discriminate. }
    destruct (propGet ps k) as [[| | | | |id2 sub]|]; try apply Hsub;
      unfold bind at 1, alloc; apply Hsub.
Qed.

Lemma setDeep_get out path v n :
  isPlainObject out = true -> path <> [] ->
  getDeep (fst (setDeep out path v n)) path = Some v.
Proof.
  destruct out as [| | | | |id ps]; try discriminate. intros _ Hne.
  unfold setDeep, bind, ret.
  pose proof (setProps_get path ps v n id Hne) as H.
  destruct (setProps ps path v n) as [ps' n']. exact H.
Qed.


(** A Remove against a value that is not an array changes neither the
    tree nor the trace. *)
Lemma applyPostOp_remove_noop r out trace n :
  op (base r) = OpRemove ->
  (forall id items, getDeep out (keyPath r) <> Some (VArr id items)) ->
  fst (applyPostOp r (out, trace) n) = (out, trace).
Proof.
  intros Hop Hna. unfold applyPostOp. rewrite Hop.
  unfold bind at 1. destruct (clone (value (base r)) n) as [val n1].
  unfold bind at 1. destruct (asArray val n1) as [remove n2].
  destruct (getDeep out (keyPath r)) as [[| | | |id items|]|]; try reflexivity.
  exfalso. now apply (Hna id items).
Qed.


End PostOpFacts.



(** ** Identities of arrays and objects *)

Section HeapFacts.
Import Heap Value Util Resolver Spec.

Lemma post_ret {A} (a : A) n (Q : A -> ref -> Prop) :
  Q a n -> post (ret a) n Q.
Proof. intros H. split; simpl; auto. Qed.

Lemma post_alloc n (Q : ref -> ref -> Prop) : Q n (S n) -> post alloc n Q.
Proof. intros H. split; simpl; auto. Qed.

Lemma post_bind {A B} (m : M A) (k : A -> M B) n (Q : B -> ref -> Prop) :
  post m n (fun a n1 => post (k a) n1 Q) -> post (bind m k) n Q.
Proof.
  unfold post, bind. destruct (m n) as [a n1]. simpl.
  intros (H1 & H2 & H3). split; auto. lia.
Qed.

Lemma post_weaken {A} (m : M A) n (Q Q' : A -> ref -> Prop) :
  post m n Q -> (forall a n', n <= n' -> Q a n' -> Q' a n') -> post m n Q'.
Proof. unfold post. intros [H1 H2] H. split; auto. Qed.

Lemma post_run {A} (m : M A) n (Q : A -> ref -> Prop) a n' :
  post m n Q -> m n = (a, n') -> n <= n' /\ Q a n'.
Proof. unfold post. intros H E. now rewrite E in H. Qed.

Lemma below_mono n m v : n <= m -> below n v = true -> below m v = true.
Proof.
  intros Hle. induction v as [| | | |id items IH|id ps IH] using value_induction;
    simpl; auto; rewrite !andb_true_iff, !forallb_forall;
    intros [Hid Hall]; (split; [apply Nat.ltb_lt in Hid; apply Nat.ltb_lt; lia|]);
    rewrite List.Forall_forall in IH; intros x Hx; apply IH; auto.
Qed.

Lemma fresh_mono n m v : m <= n -> fresh n v = true -> fresh m v = true.
Proof.
  intros Hle. induction v as [| | | |id items IH|id ps IH] using value_induction;
    simpl; auto; rewrite !andb_true_iff, !forallb_forall;
    intros [Hid Hall]; (split; [apply Nat.leb_le in Hid; apply Nat.leb_le; lia|]);
    rewrite List.Forall_forall in IH; intros x Hx; apply IH; auto.
Qed.

Lemma made_mono lo lo' hi hi' y :
  lo' <= lo -> hi <= hi' -> made lo hi y -> made lo' hi' y.
Proof.
  intros H1 H2 [Hf Hb]. split; [eapply fresh_mono|eapply below_mono]; eauto.
Qed.

Lemma post_mapM {A B} (f : A -> M B) (R : ref -> A -> B -> Prop)
  (G : ref -> ref -> B -> Prop) l :
  (forall lo lo' x y, lo' <= lo -> R lo x y -> R lo' x y) ->
  (forall lo lo' hi hi' y, lo' <= lo -> hi <= hi' -> G lo hi y -> G lo' hi' y) ->
  Forall (fun x => forall m, post (f x) m (fun y m' => R m x y /\ G m m' y)) l ->
  forall n,
    post (mapM f l) n (fun ys n' => Forall2 (R n) l ys /\ Forall (G n n') ys).
Proof.
  intros HR HG. induction 1 as [|x l Hx Hl IH]; intros n.
  - apply post_ret. split; constructor.
  - cbn [mapM]. apply post_bind.
    eapply post_weaken; [apply Hx|]. intros y n1 Hle1 [HRy HGy].
    apply post_bind. eapply post_weaken; [apply IH|].
    intros ys n2 Hle2 [HRs HGs]. apply post_ret. split.
    + constructor; auto.
      eapply Forall2_impl; [exact HRs|]. intros; eapply HR; [|eassumption]; lia.
    + constructor.
      * eapply HG; [| |exact HGy]; lia.
      * eapply List.Forall_impl; [|exact HGs]. intros; eapply HG; [| |eassumption]; lia.
Qed.

End HeapFacts.

Section CloneFacts.
Import Heap Value Util Resolver Spec.

Lemma cloned_mono lo lo' x y : lo' <= lo -> cloned lo x y -> cloned lo' x y.
Proof.
  intros Hle (H1 & H2 & H3). repeat split; auto.
  eapply fresh_mono; eauto.
Qed.

Lemma forallb_Forall_made lo hi ys :
  Forall (made lo hi) ys ->
  forallb (fresh lo) ys = true /\ forallb (below hi) ys = true.
Proof.
  induction 1 as [|y ys [Hf Hb] _ [IH1 IH2]]; simpl; auto.
  now rewrite Hf, Hb, IH1, IH2.
Qed.

Lemma fresh_weaken_all {A} (g : A -> Value.value) n ys :
  forallb (fun y => fresh (S n) (g y)) ys = true ->
  forallb (fun y => fresh n (g y)) ys = true.
Proof.
  rewrite !forallb_forall. intros H y Hy.
  eapply fresh_mono; [|apply H, Hy]. lia.
Qed.

Lemma structuredClone_post v : forall n,
  post (structuredClone v) n
    (fun v' n' => (cloned n v v' /\ erase v' = erase v) /\ made n n' v').
Proof.
  induction v as [|b|z|s|id items IH|id ps IH] using value_induction; intros n;
    try (apply post_ret; repeat split; reflexivity).
  - cbn [structuredClone]. apply post_bind, post_alloc, post_bind.
    eapply post_weaken.
    { apply (post_mapM structuredClone
               (fun lo x y => cloned lo x y /\ erase y = erase x) made).
      - intros lo lo' x y Hle [Hc He]. split; auto. eapply cloned_mono; eauto.
      - apply made_mono.
      - exact IH. }
    intros ys n' Hle [HR HG]. apply post_ret.
    apply forallb_Forall_made in HG as [Hf Hb].
    apply (fresh_weaken_all (fun y => y)) in Hf.
    assert (Hfresh : fresh n (VArr n ys) = true).
    { simpl. rewrite Nat.leb_refl. exact Hf. }
    assert (Hbelow : below n' (VArr n ys) = true).
    { simpl. rewrite Hb, andb_true_r. apply Nat.ltb_lt. lia. }
    assert (Herase : erase (VArr n ys) = erase (VArr id items)).
    { simpl. f_equal. clear -HR.
      induction HR as [|x y l l' [_ He] _ IHR]; simpl; auto.
      now rewrite He, IHR. }
    split; [split; [split; [reflexivity | split; [discriminate | exact Hfresh]]
                   | exact Herase]
           | split; assumption].
  - cbn [structuredClone]. apply post_bind, post_alloc, post_bind.
    eapply post_weaken.
    { apply (post_mapM
               (fun kv : string * Value.value =>
                  let* v' := structuredClone (snd kv) in ret (fst kv, v'))
               (fun lo x y => fst y = fst x /\ erase (snd y) = erase (snd x))
               (fun lo hi y => made lo hi (snd y))).
      - auto.
      - intros lo lo' hi hi' y H1 H2. apply made_mono; auto.
      - eapply List.Forall_impl; [|exact IH]. intros [k x] Hx m. simpl in *.
        apply post_bind. eapply post_weaken; [apply Hx|].
        intros y n1 Hle [[_ He] Hm]. apply post_ret. simpl. auto. }
    intros ys n' Hle [HR HG]. apply post_ret.
    assert (Hf : forallb (fun kv => fresh (S n) (snd kv)) ys = true
                 /\ forallb (fun kv => below n' (snd kv)) ys = true).
    { clear -HG. induction HG as [|y ys [Hf Hb] _ [IH1 IH2]]; simpl; auto.
      now rewrite Hf, Hb, IH1, IH2. }
    destruct Hf as [Hf Hb].
    apply (fresh_weaken_all snd) in Hf.
    assert (Hfresh : fresh n (VObj n ys) = true).
    { simpl. rewrite Nat.leb_refl. exact Hf. }
    assert (Hbelow : below n' (VObj n ys) = true).
    { simpl. rewrite Hb, andb_true_r. apply Nat.ltb_lt. lia. }
    assert (Herase : erase (VObj n ys) = erase (VObj id ps)).
    { simpl. f_equal. clear -HR.
      induction HR as [|x y l l' [Hk He] _ IHR]; simpl; auto.
      now rewrite Hk, He, IHR. }
    split; [split; [split; [reflexivity | split; [discriminate | exact Hfresh]]
                   | exact Herase]
           | split; assumption].
Qed.

(** A clone has the structure of the original and is made of new
    arrays and objects; its items are the clones of the items. *)
Lemma clone_post v : forall n,
  post (clone v) n
    (fun v' n' =>
       (cloned n v v' /\ erase v' = erase v
        /\ Forall2 (cloned n) (operandItems v) (operandItems v'))
       /\ made n n' v').
Proof.
  induction v as [|b|z|s|id items IH|id ps IH] using value_induction; intros n;
    try (apply post_ret; repeat split; try reflexivity;
         repeat constructor; reflexivity).
  - cbn [clone]. apply post_bind, post_alloc, post_bind.
    eapply post_weaken.
    { apply (post_mapM clone
               (fun lo x y => cloned lo x y /\ erase y = erase x) made).
      - intros lo lo' x y Hle [Hc He]. split; auto. eapply cloned_mono; eauto.
      - apply made_mono.
      - eapply List.Forall_impl; [|exact IH]. intros x Hx m. simpl in *.
        eapply post_weaken; [apply Hx|].
        intros y n1 Hle [(Hc & He & _) Hm]. auto. }
    intros ys n' Hle [HR HG]. apply post_ret.
    apply forallb_Forall_made in HG as [Hf Hb].
    apply (fresh_weaken_all (fun y => y)) in Hf.
    assert (Hfresh : fresh n (VArr n ys) = true).
    { simpl. rewrite Nat.leb_refl. exact Hf. }
    assert (Hbelow : below n' (VArr n ys) = true).
    { simpl. rewrite Hb, andb_true_r. apply Nat.ltb_lt. lia. }
    assert (Herase : erase (VArr n ys) = erase (VArr id items)).
    { simpl. f_equal. clear -HR.
      induction HR as [|x y l l' [_ He] _ IHR]; simpl; auto.
      now rewrite He, IHR. }
    split; [split; [split; [reflexivity | split; [discriminate | exact Hfresh]]
                   | split; [exact Herase|]]
           | split; assumption].
    simpl. eapply Forall2_impl; [exact HR|]. intros x y [Hc _].
    eapply cloned_mono; [|exact Hc]. lia.
  - change (clone (VObj id ps)) with (structuredClone (VObj id ps)).
    eapply post_weaken; [apply structuredClone_post|].
    intros v' n' Hle [[Hc He] Hm].
    split; [split; [exact Hc | split; [exact He|]] | exact Hm].
    destruct v'; try (destruct Hc as [Hs _]; discriminate Hs);
      try discriminate He.
    simpl. repeat constructor; apply Hc.
Qed.

Lemma sameValueZero_cloned m x y y' :
  below m x = true -> cloned m y y' ->
  sameValueZero x y' = isScalar x && sameValueZero x y.
Proof.
  intros Hx (Hs & Heq & Hf).
  destruct (isScalar y) eqn:Sy.
  - rewrite (Heq eq_refl). destruct x, y; try discriminate; reflexivity.
  - destruct x, y, y'; try discriminate; try reflexivity; simpl in *;
      apply andb_true_iff in Hx as [Hx _]; apply andb_true_iff in Hf as [Hf _];
      apply Nat.ltb_lt in Hx; apply Nat.leb_le in Hf;
      apply Nat.eqb_neq; lia.
Qed.

(** Membership in the set of cloned removal items, for an element that
    was there before the clone. *)
Lemma setHas_clone m x operand val n' :
  below m x = true -> clone operand m = (val, n') ->
  setHas (operandItems val) x
  = isScalar x && existsb (sameValueZero x) (operandItems operand).
Proof.
  intros Hx E.
  destruct (post_run _ _ _ _ _ (clone_post operand m) E) as [_ [(_ & _ & HR) _]].
  unfold setHas. induction HR as [|y y' l l' Hc _ IH]; simpl.
  - now rewrite andb_false_r.
  - rewrite IH, (sameValueZero_cloned m x y y' Hx Hc).
    destruct (isScalar x); reflexivity.
Qed.

End CloneFacts.

Section TreeFacts.
Import Heap Value Util Resolver Spec.

Lemma propsBelow_mono n m ps : n <= m -> propsBelow n ps -> propsBelow m ps.
Proof.
  unfold propsBelow. rewrite !forallb_forall. intros Hle H x Hx.
  eapply below_mono; eauto.
Qed.

Lemma mapGet_below n ps k v :
  propsBelow n ps -> Js.mapGet ps k = Some v -> below n v = true.
Proof.
  unfold propsBelow. rewrite forallb_forall. intros H G.
  apply mapGet_Some_In in G. exact (H _ G).
Qed.

Lemma mapSet_below n ps k v :
  propsBelow n ps -> below n v = true -> propsBelow n (Js.mapSet ps k v).
Proof.
  unfold propsBelow. intros H Hv.
  induction ps as [|[k0 v0] ps IH]; simpl in *.
  - now rewrite Hv.
  - apply andb_true_iff in H as [H0 H].
    destruct (String.eqb k0 k); simpl.
    + now rewrite Hv, H.
    + now rewrite H0, IH.
Qed.

Lemma getDeep_below n path : forall cur e,
  below n cur = true -> getDeep cur path = Some e -> below n e = true.
Proof.
  induction path as [|k rest IH]; intros cur e Hb G; simpl in G.
  - now inversion G; subst.
  - destruct cur as [| | | |id items|id ps]; try discriminate;
      simpl in Hb; apply andb_true_iff in Hb as [_ Hb].
    + destruct (itemGet items k) as [v|] eqn:I; [|discriminate].
      apply (IH v); auto. unfold itemGet in I.
      destruct (String.eqb k "length"); [now inversion I|].
      destruct (arrayIndex k); [|discriminate].
      apply nth_error_In in I. rewrite forallb_forall in Hb. auto.
    + destruct (propGet ps k) as [v|] eqn:I; [|discriminate].
      apply (IH v); auto. eapply mapGet_below; eauto.
Qed.

Lemma setProps_post path : forall ps v n,
  propsBelow n ps -> below n v = true ->
  post (setProps ps path v) n (fun ps' n' => propsBelow n' ps').
Proof.
  induction path as [|k rest IH]; intros ps v n Hps Hv.
  - apply post_ret. exact Hps.
  - destruct rest as [|k2 rest].
    + apply post_ret. now apply mapSet_below.
    + rewrite setProps_step.
      assert (Hnew : post (let* id := alloc in
                           let* sub' := setProps [] (k2 :: rest) v in
                           ret (propSet ps k (VObj id sub'))) n
                       (fun ps' n' => propsBelow n' ps')).
      { apply post_bind, post_alloc, post_bind.
        eapply post_weaken.
        { apply IH; [reflexivity|]. eapply below_mono; [|exact Hv]. lia. }
        intros sub' n' Hle Hsub. apply post_ret.
        apply mapSet_below.
        - eapply propsBelow_mono; [|exact Hps]. lia.
        - simpl. rewrite Hsub, andb_true_r. apply Nat.ltb_lt. lia. }
      destruct (propGet ps k) as [[| | | | |id sub]|] eqn:G; try exact Hnew.
      pose proof (mapGet_below _ _ _ _ Hps G) as Hsub. simpl in Hsub.
      apply andb_true_iff in Hsub as [Hid Hsub].
      apply post_bind. eapply post_weaken; [apply IH; eauto|].
      intros sub' n' Hle Hsub'. apply post_ret.
      apply mapSet_below.
      * eapply propsBelow_mono; [|exact Hps]. lia.
      * simpl. rewrite Hsub', andb_true_r.
        apply Nat.ltb_lt in Hid. apply Nat.ltb_lt. lia.
Qed.

Lemma setDeep_post out path v n :
  below n out = true -> below n v = true ->
  post (setDeep out path v) n (fun out' n' => below n' out' = true).
Proof.
  intros Hout Hv. destruct out as [| | | | |id ps];
    try (apply post_ret; exact Hout).
  simpl in Hout. apply andb_true_iff in Hout as [Hid Hps].
  unfold setDeep. apply post_bind.
  eapply post_weaken; [apply setProps_post; eauto|].
  intros ps' n' Hle Hps'. apply post_ret. simpl.
  rewrite Hps', andb_true_r. apply Nat.ltb_lt in Hid. apply Nat.ltb_lt. lia.
Qed.

Lemma deepMerge_post b : forall a n,
  below n a = true -> below n b = true ->
  post (deepMerge a b) n (fun m n' => below n' m = true).
Proof.
  induction b as [|x|z|s|id items IH|id pb IH] using value_induction;
    intros a n Ha Hb; try (destruct a; apply post_ret; exact Hb).
  destruct a as [| | | | |ida pa]; try (apply post_ret; exact Hb).
  cbn [deepMerge]. apply post_bind, post_alloc, post_bind.
  simpl in Ha, Hb.
  apply andb_true_iff in Ha as [_ Ha]. apply andb_true_iff in Hb as [_ Hb].
  assert (Hloop : forall out m,
    n <= m -> propsBelow m out ->
    post (mergeEntries deepMerge pb out) m (fun out' n' => propsBelow n' out')).
  { clear Ha. revert Hb. induction IH as [|[k v] pb Hv _ IHpb];
      intros Hb out m Hle Hout.
    - apply post_ret. exact Hout.
    - simpl in Hb. apply andb_true_iff in Hb as [Hbv Hb]. simpl in Hv.
      cbn [mergeEntries fst snd].
      destruct (propGet out k) as [cur|] eqn:G.
      + apply post_bind. eapply post_weaken.
        { apply Hv; [eapply mapGet_below; eauto|].
          eapply below_mono; [|exact Hbv]. lia. }
        intros mv n1 Hle1 Hmv.
        eapply post_weaken.
        { apply IHpb; auto; [lia|]. apply mapSet_below; auto.
          eapply propsBelow_mono; [|exact Hout]. lia. }
        auto.
      + apply IHpb; auto. apply mapSet_below; auto.
        eapply below_mono; [|exact Hbv]. lia. }
  eapply post_weaken.
  { apply Hloop; [lia|]. eapply propsBelow_mono; [|exact Ha]. lia. }
  intros out n' Hle Hout. apply post_ret. simpl.
  rewrite Hout, andb_true_r. apply Nat.ltb_lt. lia.
Qed.

End TreeFacts.

Section RunFacts.
Import Heap Value Util Resolver Spec.

Lemma clone_below v n :
  post (clone v) n (fun v' n' => below n' v' = true).
Proof.
  eapply post_weaken; [apply clone_post|].
  intros v' n' _ [_ [_ Hb]]. exact Hb.
Qed.

Lemma setDeep_clone_post out path v n :
  below n out = true ->
  post (let* c := clone v in setDeep out path c) n
    (fun out' n' => below n' out' = true).
Proof.
  intros Hout. apply post_bind.
  eapply post_weaken; [apply clone_below|].
  intros c n1 Hle Hc. apply setDeep_post; auto.
  eapply below_mono; eauto.
Qed.

Lemma applyWinner_post key winner best out trace n :
  below n out = true -> ruleBelow n winner ->
  post (applyWinner key winner best (out, trace)) n
    (fun st n' => below n' (fst st) = true).
Proof.
  intros Hout Hr. unfold applyWinner.
  assert (Hset : forall t : traceMap,
    post (let* v := clone (value (base winner)) in
          let* out' := setDeep out (keyPath winner) v in
          ret (out', t)) n (fun st n' => below n' (fst st) = true)).
  { intros t. apply post_bind.
    eapply post_weaken; [apply clone_below|].
    intros c n1 Hle Hc. apply post_bind.
    eapply post_weaken.
    { apply setDeep_post; eauto. eapply below_mono; eauto. }
    intros out' n2 _ Hout'. apply post_ret. exact Hout'. }
  destruct (op (base winner)); try apply Hset.
  - destruct (getDeep out (keyPath winner)); [apply post_ret; exact Hout|].
    apply Hset.
  - apply post_bind.
    eapply post_weaken with (Q := fun out' n' => below n' out' = true).
    2:{ intros out' n' _ H. apply post_ret. exact H. }
    destruct (getDeep out (keyPath winner)) as [e|] eqn:G.
    + destruct (isPlainObject e && isPlainObject (value (base winner))).
      * apply post_bind. eapply post_weaken.
        { apply deepMerge_post; [exact (getDeep_below _ _ _ _ Hout G) | exact Hr]. }
        intros m n1 Hle Hm. apply setDeep_post; auto.
        eapply below_mono; eauto.
      * now apply setDeep_clone_post.
    + now apply setDeep_clone_post.
Qed.

Lemma selectWinner_In cand winner best :
  selectWinner cand = Some (winner, best) -> In winner cand.
Proof.
  intros H. destruct cand as [|c0 rest]; [discriminate|].
  destruct (selectWinner_spec (c0 :: rest)) as (w & b & Hs & _ & l1 & l2 & Hd & _);
    [discriminate|].
  rewrite H in Hs. inversion Hs; subst. simpl in Hd. rewrite Hd.
  apply in_or_app. right. now left.
Qed.

Lemma ruleBelow_mono n m r : n <= m -> ruleBelow n r -> ruleBelow m r.
Proof. intros Hle H. eapply below_mono; eauto. Qed.

Lemma applyCandidates_post cs : forall st n,
  below n (fst st) = true ->
  Forall (fun kc => Forall (ruleBelow n) (snd kc)) cs ->
  post (applyCandidates cs st) n (fun st' n' => below n' (fst st') = true).
Proof.
  induction cs as [|[key cand] cs IH]; intros [out trace] n Hout Hcs.
  - apply post_ret. exact Hout.
  - inversion Hcs as [|? ? Hcand Hrest]; subst. simpl in Hcand.
    cbn [applyCandidates].
    destruct (selectWinner cand) as [[winner best]|] eqn:S.
    + apply post_bind. eapply post_weaken.
      { apply applyWinner_post; auto.
        rewrite List.Forall_forall in Hcand. apply Hcand.
        eapply selectWinner_In; eauto. }
      intros st' n1 Hle Hst'. apply IH; auto.
      eapply List.Forall_impl; [|exact Hrest]. intros kc Hkc.
      eapply List.Forall_impl; [|exact Hkc]. intros r. now apply ruleBelow_mono.
    + now apply IH.
Qed.

Lemma asArray_post val n :
  below n val = true ->
  post (asArray val) n (fun a n' => below n' a = true).
Proof.
  intros Hv.
  assert (Hwrap : post (let* id := alloc in ret (VArr id [val])) n
                    (fun a n' => below n' a = true)).
  { apply post_bind, post_alloc, post_ret. simpl.
    rewrite (below_mono n (S n) val), andb_true_r; auto.
    apply Nat.ltb_lt. lia. }
  destruct val; try exact Hwrap. apply post_ret. exact Hv.
Qed.

Lemma elements_below n a :
  below n a = true -> forallb (below n) (elements a) = true.
Proof.
  destruct a; simpl; auto. intros H. now apply andb_true_iff in H as [_ H].
Qed.

Lemma applyPostOp_post r out trace n :
  below n out = true ->
  post (applyPostOp r (out, trace)) n (fun st n' => below n' (fst st) = true).
Proof.
  intros Hout. unfold applyPostOp. apply post_bind.
  eapply post_weaken; [apply clone_below|].
  intros val n1 Hle1 Hval.
  assert (Hout1 : below n1 out = true) by (eapply below_mono; eauto).
  destruct (op (base r)); try (apply post_ret; exact Hout1).
  - apply post_bind. eapply post_weaken; [apply asArray_post; exact Hval|].
    intros add n2 Hle2 Hadd.
    assert (Hout2 : below n2 out = true) by (eapply below_mono; eauto).
    apply post_bind.
    eapply post_weaken with (Q := fun out' n' => below n' out' = true).
    2:{ intros out' n' _ H. apply post_ret. exact H. }
    pose proof (elements_below _ _ Hadd) as Hel.
    destruct (getDeep out (keyPath r)) as [e|] eqn:G.
    + pose proof (getDeep_below _ _ _ _ Hout2 G) as He.
      assert (Hcat : forall l m, n2 <= m -> m <= S (S n2) ->
               forallb (below n2) l = true ->
               post (let* id := alloc in
                     setDeep out (keyPath r) (VArr id (l ++ elements add))) m
                 (fun out' n' => below n' out' = true)).
      { intros l m Hm1 Hm2 Hl. apply post_bind, post_alloc.
        apply setDeep_post; [eapply below_mono; [|exact Hout2]; lia|].
        simpl. apply andb_true_iff. split; [apply Nat.ltb_lt; lia|].
        rewrite forallb_app. apply andb_true_iff. split.
        - rewrite forallb_forall in *. intros x Hx.
          eapply below_mono; [|apply Hl, Hx]. lia.
        - rewrite forallb_forall in *. intros x Hx.
          eapply below_mono; [|apply Hel, Hx]. lia. }
      destruct e as [| | | |ide items|ide pe];
        try (apply post_bind, post_alloc; apply Hcat; [lia|lia|];
             unfold forallb; rewrite He; reflexivity).
      apply Hcat; [lia|lia|].
      simpl in He. now apply andb_true_iff in He as [_ He].
    + now apply setDeep_post.
  - apply post_bind. eapply post_weaken; [apply asArray_post; exact Hval|].
    intros remove n2 Hle2 Hrem.
    assert (Hout2 : below n2 out = true) by (eapply below_mono; eauto).
    destruct (getDeep out (keyPath r)) as [e|] eqn:G;
      [|apply post_ret; exact Hout2].
    pose proof (getDeep_below _ _ _ _ Hout2 G) as He.
    destruct e as [| | | |ide items|ide pe]; try (apply post_ret; exact Hout2).
    apply post_bind, post_alloc, post_bind.
    eapply post_weaken.
    { apply setDeep_post; [eapply below_mono; [|exact Hout2]; lia|].
      simpl. apply andb_true_iff. split; [apply Nat.ltb_lt; lia|].
      simpl in He. apply andb_true_iff in He as [_ He].
      rewrite forallb_forall in *. intros x Hx.
      apply filter_In in Hx as [Hx _].
      eapply below_mono; [|apply He, Hx]. lia. }
    intros out' n' _ H. apply post_ret. exact H.
Qed.

Lemma applyPostOps_post ops : forall st n,
  below n (fst st) = true ->
  post (applyPostOps ops st) n (fun st' n' => below n' (fst st') = true).
Proof.
  induction ops as [|r ops IH]; intros [out trace] n Hout.
  - apply post_ret. exact Hout.
  - cbn [applyPostOps]. apply post_bind.
    eapply post_weaken; [now apply applyPostOp_post|].
    intros st' n1 _ H. now apply IH.
Qed.

(** Whatever deferred rules have been applied, every array and object
    of the tree was allocated before the counter. *)
Lemma stateAfter_post cs applied n :
  Forall (fun kc => Forall (ruleBelow n) (snd kc)) cs ->
  post (stateAfter cs applied) n (fun st n' => below n' (fst st) = true).
Proof.
  intros Hcs. unfold stateAfter. apply post_bind, post_alloc, post_bind.
  eapply post_weaken.
  { apply applyCandidates_post.
    - simpl. rewrite andb_true_r. apply Nat.ltb_lt. lia.
    - eapply List.Forall_impl; [|exact Hcs]. intros kc Hkc.
      eapply List.Forall_impl; [|exact Hkc]. intros r.
      apply ruleBelow_mono. lia. }
  intros st n1 _ Hst. now apply applyPostOps_post.
Qed.

(** On a tree allocated before the counter, the code's Remove is the
    removal of equal scalars. *)
Lemma bind_run {A B} (m : M A) (k : A -> M B) n :
  bind m k n = k (fst (m n)) (snd (m n)).
Proof. unfold bind. now destruct (m n). Qed.

Lemma applyPostOp_removeScalars r out trace n :
  op (base r) = OpRemove -> below n out = true ->
  applyPostOp r (out, trace) n = applyRemoveScalars r (out, trace) n.
Proof.
  intros Hop Hout. unfold applyPostOp, applyRemoveScalars. rewrite Hop.
  rewrite !(bind_run (clone (value (base r)))). cbv beta.
  destruct (clone (value (base r)) n) as [val n1] eqn:E. cbn [fst snd].
  rewrite !(bind_run (asArray val)). cbv beta.
  assert (Hel : elements (fst (asArray val n1)) = operandItems val).
  { destruct val; reflexivity. }
  destruct (asArray val n1) as [remove n2]. cbn [fst snd] in *. rewrite Hel.
  destruct (getDeep out (keyPath r)) as [[| | | |ide items|]|] eqn:G;
    try reflexivity.
  assert (Hf : List.filter (fun x => negb (setHas (operandItems val) x)) items
               = removeScalars (value (base r)) items).
  { unfold removeScalars. apply filter_ext_in. intros x Hx. f_equal.
    eapply setHas_clone; [|exact E].
    pose proof (getDeep_below _ _ _ _ Hout G) as He. simpl in He.
    apply andb_true_iff in He as [_ He].
    rewrite forallb_forall in He. auto. }
  now rewrite Hf.
Qed.

End RunFacts.

Section RemoveFacts.
Import Heap Value Util Resolver Spec.

Lemma sameValueZero_scalar_refl x :
  isScalar x = true -> sameValueZero x x = true.
Proof.
  destruct x as [|b|[z|]|s| |]; simpl; try discriminate; auto; intros _.
  - now destruct b.
  - apply Z.eqb_refl.
  - apply String.eqb_refl.
Qed.

Lemma sameValueZero_scalar_eq x y :
  isScalar x = true -> sameValueZero x y = true -> x = y.
Proof.
  destruct x as [|b|[z|]|s| |], y as [|b'|[z'|]|s'| |];
    simpl; try discriminate; auto; intros _ H.
  - apply Bool.eqb_prop in H. now subst.
  - apply Z.eqb_eq in H. now subst.
  - apply String.eqb_eq in H. now subst.
Qed.

Lemma applyPostOps_app ops1 : forall ops2 st n,
  applyPostOps (ops1 ++ ops2) st n
  = (let* st1 := applyPostOps ops1 st in applyPostOps ops2 st1) n.
Proof.
  induction ops1 as [|r ops1 IH]; intros ops2 st n; simpl.
  - reflexivity.
  - rewrite !bind_run. cbv beta. rewrite IH. now rewrite bind_run.
Qed.

Lemma stateAfter_app cs prefix r suffix n :
  stateAfter cs (prefix ++ r :: suffix) n
  = (let* st := stateAfter cs prefix in
     let* st1 := applyPostOp r st in
     applyPostOps suffix st1) n.
Proof.
  unfold stateAfter, bind, alloc.
  destruct (applyCandidates cs (VObj n [], []) (S n)) as [st0 n0].
  rewrite applyPostOps_app. unfold bind.
  destruct (applyPostOps prefix st0 n0) as [st1 n1]. reflexivity.
Qed.

Lemma resolveRules_stateAfter rules dims o ws n indexed :
  indexRules dims rules = Ok indexed ->
  let ctxScope := ctxScopeOf dims (Strings.ctx o) in
  resolveRules rules dims o ws n
  = (let* st' :=
       stateAfter (fst (partitionRules ctxScope indexed))
         (sortPostOps (List.filter (isDeferred ctxScope) indexed)) in
     let* final := Strings.applyInterpolationDeep o (fst st') ws in
     ret (Ok {| cfg := fst final; trace := snd st';
                warnings := snd final |})) n.
Proof.
  intros Hidx ctxScope. unfold resolveRules. rewrite Hidx. fold ctxScope.
  pose proof (partition_postOps ctxScope indexed) as Hp.
  destruct (partitionRules ctxScope indexed) as [cs ps].
  simpl in Hp. subst ps. unfold stateAfter, bind, alloc. cbn [fst].
  destruct (applyCandidates cs (VObj n [], []) (S n)) as [st0 n0].
  destruct (applyPostOps _ st0 n0) as [st1 n1]. reflexivity.
Qed.

Lemma indexed_below n dims rules indexed :
  rulesBelow n rules -> indexRules dims rules = Ok indexed ->
  Forall (ruleBelow n) indexed.
Proof.
  intros Hr Hidx. apply indexRules_base in Hidx. subst rules.
  unfold rulesBelow in Hr. now apply Forall_map in Hr.
Qed.

Lemma candidates_below n ctxScope indexed :
  Forall (ruleBelow n) indexed ->
  Forall (fun kc => Forall (ruleBelow n) (snd kc))
    (fst (partitionRules ctxScope indexed)).
Proof.
  intros H. apply List.Forall_forall. intros [key cand] Hin.
  apply partition_entry in Hin as [-> _]. simpl.
  apply List.Forall_forall. intros r Hr. apply filter_In in Hr as [Hr _].
  rewrite List.Forall_forall in H. auto.
Qed.

End RemoveFacts.

Section RemovedTreeFacts.
Import Heap Value Util Resolver Spec.

(** The tree under construction stays an object. *)
Lemma setDeep_object out path v n :
  isPlainObject out = true ->
  isPlainObject (fst (setDeep out path v n)) = true.
Proof.
  destruct out; try discriminate. intros _.
  unfold setDeep. now rewrite bind_run.
Qed.

Lemma applyWinner_object key winner best st n :
  isPlainObject (fst st) = true ->
  isPlainObject (fst (fst (applyWinner key winner best st n))) = true.
Proof.
  destruct st as [out trace]. cbn [fst]. intros H. unfold applyWinner.
  destruct (op (base winner));
    destruct (getDeep out (keyPath winner)) as [e|];
    try destruct (isPlainObject e && isPlainObject (value (base winner)));
    repeat (rewrite bind_run; cbn [fst snd ret]);
    try exact H; now apply setDeep_object.
Qed.

Lemma applyCandidates_object cs : forall st n,
  isPlainObject (fst st) = true ->
  isPlainObject (fst (fst (applyCandidates cs st n))) = true.
Proof.
  induction cs as [|[key cand] cs IH]; intros st n H; [exact H|].
  cbn [applyCandidates]. destruct (selectWinner cand) as [[w b]|].
  - rewrite bind_run. apply IH. now apply applyWinner_object.
  - now apply IH.
Qed.

Lemma applyPostOp_object r st n :
  isPlainObject (fst st) = true ->
  isPlainObject (fst (fst (applyPostOp r st n))) = true.
Proof.
  destruct st as [out trace]. cbn [fst]. intros H. unfold applyPostOp.
  rewrite bind_run.
  destruct (op (base r)); cbn [fst snd ret]; try exact H.
  - rewrite bind_run.
    destruct (getDeep out (keyPath r)) as [[| | | |id items|]|];
      repeat (rewrite bind_run; cbn [fst snd ret]);
      now apply setDeep_object.
  - rewrite bind_run.
    destruct (getDeep out (keyPath r)) as [[| | | |id items|]|];
      repeat (rewrite bind_run; cbn [fst snd ret]);
      try exact H; now apply setDeep_object.
Qed.

Lemma applyPostOps_object ops : forall st n,
  isPlainObject (fst st) = true ->
  isPlainObject (fst (fst (applyPostOps ops st n))) = true.
Proof.
  induction ops as [|r ops IH]; intros st n H; [exact H|].
  cbn [applyPostOps]. rewrite bind_run. apply IH.
  now apply applyPostOp_object.
Qed.

Lemma stateAfter_object cs applied n :
  isPlainObject (fst (fst (stateAfter cs applied n))) = true.
Proof.
  unfold stateAfter. rewrite !bind_run.
  apply applyPostOps_object, applyCandidates_object. reflexivity.
Qed.

(** An indexed rule has a key path. *)
Lemma indexRules_keyPath dims rules : forall indexed,
  indexRules dims rules = Ok indexed ->
  Forall (fun r => keyPath r <> []) indexed.
Proof.
  induction rules as [|r rest IH]; intros indexed H; cbn [indexRules] in H.
  - injection H as <-. constructor.
  - unfold indexRule in H.
    destruct (negb _ || (length (skipn (length dims) (keySegments r)) =? 0)%nat)
      eqn:E; [discriminate|].
    destruct (indexRules dims rest) as [rest'|]; [|discriminate].
    injection H as <-. constructor; [|now apply IH].
    cbn [keyPath]. apply orb_false_iff in E. destruct E as [_ E].
    apply Nat.eqb_neq in E. intros E'. now rewrite E' in E.
Qed.

(** What the tree holds at the key of a Remove applied by
    [removeScalars]. *)
Lemma applyRemoveScalars_tree r out trace n id0 items :
  isPlainObject out = true -> keyPath r <> [] ->
  getDeep out (keyPath r) = Some (VArr id0 items) ->
  exists id,
    getDeep (fst (fst (applyRemoveScalars r (out, trace) n))) (keyPath r)
    = Some (VArr id (removeScalars (value (base r)) items)).
Proof.
  intros Hobj Hne Hget. unfold applyRemoveScalars.
  rewrite !bind_run, Hget. rewrite !bind_run. cbn [fst snd ret].
  eexists. now apply setDeep_get.
Qed.

End RemovedTreeFacts.

(** C10. In every resolution whose rule values were allocated before the
    run, a Remove rule acts as the removal of equal scalars: the state it
    finds comes from the winners and the deferred rules sorted before it,
    and on that state the code (membership of the element in the set of
    the cloned removal items, under SameValueZero) gives what
    [removeScalars] gives.  After the rule, the tree holds at its key a
    new sequence of the elements that [removeScalars] keeps, when it held
    a sequence there, and is as it was otherwise (objects are modelled
    without their prototype link, so this is stated for rules whose keys
    have no segment __proto__); so the removal of "a" and of a mapping
    from the sequence "a", "b", mapping leaves "b" and the mapping.  So
    an element goes only if it is a scalar
    equal to a removal item, every scalar equal to a removal item goes, no
    mapping or sequence element is ever removed, and the sequence is left
    as it was when its elements are mappings and sequences or when the
    operand is a mapping. *)
Theorem C10_remove_deletes_equal_scalars_only :
  (forall rules dims o ws n indexed prefix r suffix st m,
      Spec.rulesBelow n rules ->
      Resolver.indexRules dims rules = Resolver.Ok indexed ->
      let ctxScope := Resolver.ctxScopeOf dims (Strings.ctx o) in
      let cs := fst (Resolver.partitionRules ctxScope indexed) in
      Resolver.sortPostOps (List.filter (Spec.isDeferred ctxScope) indexed)
      = prefix ++ r :: suffix ->
      Resolver.op (Resolver.base r) = Resolver.OpRemove ->
      Spec.stateAfter cs prefix n = (st, m) ->
      Resolver.resolveRules rules dims o ws n
      = (let* st' :=
           (let* st0 := Spec.stateAfter cs prefix in
            let* st1 := Resolver.applyPostOp r st0 in
            Resolver.applyPostOps suffix st1) in
         let* final := Strings.applyInterpolationDeep o (fst st') ws in
         Heap.ret (Resolver.Ok {| Resolver.cfg := fst final;
                                  Resolver.trace := snd st';
                                  Resolver.warnings := snd final |})) n
      /\ Resolver.applyPostOp r st m = Spec.applyRemoveScalars r st m
      /\ (Forall (fun x => Terms.plainPath (Resolver.keyPath x) = true)
             indexed ->
          forall id0 items,
             Util.getDeep (fst st) (Resolver.keyPath r)
             = Some (Value.VArr id0 items) ->
             exists id,
               Util.getDeep (fst (fst (Resolver.applyPostOp r st m)))
                 (Resolver.keyPath r)
               = Some (Value.VArr id
                         (Spec.removeScalars
                            (Resolver.value (Resolver.base r)) items)))
      /\ (Forall (fun x => Terms.plainPath (Resolver.keyPath x) = true)
             indexed ->
          (forall id0 items,
              Util.getDeep (fst st) (Resolver.keyPath r)
              <> Some (Value.VArr id0 items)) ->
          fst (Resolver.applyPostOp r st m) = st))
  /\ (exists r,
         fst (Resolver.resolveRules Examples.remove_rules ["env"]
                (Examples.under Examples.prod) [] 4)
         = Resolver.Ok r
         /\ option_map Spec.erase (Resolver.getByPath (Resolver.cfg r) "list")
            = Some (Spec.JArr
                      [Spec.JStr "b";
                       Spec.JObj [("x", Spec.JNum (Value.Num 1))]]))
  /\ (forall operand items x,
         In x items -> ~ In x (Spec.removeScalars operand items) ->
         Spec.isScalar x = true /\ In x (Spec.operandItems operand))
  /\ (forall operand items x,
         Spec.isScalar x = true -> In x (Spec.operandItems operand) ->
         ~ In x (Spec.removeScalars operand items))
  /\ (forall operand items x,
         In x items -> Spec.isScalar x = false ->
         In x (Spec.removeScalars operand items))
  /\ (forall operand items,
         Forall (fun x => Spec.isScalar x = false) items ->
         Spec.removeScalars operand items = items)
  /\ (forall operand items,
         Value.isPlainObject operand = true ->
         Spec.removeScalars operand items = items).
Proof.
  split; [|split; [|split; [|split; [|split; [|split]]]]].
  - intros rules dims o ws n indexed prefix r suffix st m Hb Hidx ctxScope cs
      Hsort Hop Hst.
    split.
    { rewrite (resolveRules_stateAfter _ _ _ _ _ _ Hidx). fold ctxScope cs.
      rewrite Hsort. rewrite !(bind_run (Spec.stateAfter cs (prefix ++ r :: suffix))).
      rewrite stateAfter_app.
      now rewrite !(bind_run (let* st0 := Spec.stateAfter cs prefix in _)). }
    pose proof (stateAfter_post cs prefix n
                  (candidates_below _ _ _ (indexed_below _ _ _ _ Hb Hidx))) as Hp.
    destruct (post_run _ _ _ _ _ Hp Hst) as [_ Hbelow].
    assert (Hobj : Value.isPlainObject (fst st) = true).
    { pose proof (stateAfter_object cs prefix n) as H.
      now rewrite Hst in H. }
    assert (Hkey : Resolver.keyPath r <> []).
    { pose proof (indexRules_keyPath _ _ _ Hidx) as Hall.
      rewrite List.Forall_forall in Hall. apply Hall.
      assert (Hin : In r (Resolver.sortPostOps
                            (List.filter (Spec.isDeferred ctxScope) indexed)))
        by (rewrite Hsort; apply in_elt).
      apply (Permutation_in _ (Permutation_sym (sortPostOps_perm _))) in Hin.
      now apply filter_In in Hin. }
    destruct st as [out trace]. cbn [fst] in *.
    pose proof (applyPostOp_removeScalars r out trace m Hop Hbelow) as Heq.
    split; [exact Heq|]. split.
    + intros _ id0 items Hget. rewrite Heq.
      now apply (applyRemoveScalars_tree r out trace m id0 items).
    + intros _ Hnone. now apply applyPostOp_remove_noop.
  - eexists. split; vm_compute; reflexivity.
  - intros operand items x Hin Hout. unfold Spec.removeScalars in Hout.
    rewrite filter_In in Hout.
    destruct (Spec.isScalar x) eqn:Sx.
    + split; auto.
      destruct (existsb (Value.sameValueZero x) (Spec.operandItems operand)) eqn:E.
      * apply existsb_exists in E as (y & Hy & Hxy).
        now rewrite (sameValueZero_scalar_eq x y Sx Hxy).
      * exfalso. apply Hout. now split.
    + exfalso. apply Hout. now split.
  - intros operand items x Sx Hx Hin. unfold Spec.removeScalars in Hin.
    apply filter_In in Hin as [_ Hin]. rewrite Sx in Hin. simpl in Hin.
    apply negb_true_iff in Hin.
    assert (existsb (Value.sameValueZero x) (Spec.operandItems operand) = true).
    { apply existsb_exists. exists x. split; auto.
      now apply sameValueZero_scalar_refl. }
    congruence.
  - intros operand items x Hin Sx. unfold Spec.removeScalars.
    apply filter_In. split; auto. now rewrite Sx.
  - intros operand items Hall. unfold Spec.removeScalars.
    induction Hall as [|x items Sx _ IH]; simpl; auto.
    now rewrite Sx, IH.
  - intros operand items Hobj. unfold Spec.removeScalars.
    destruct operand; try discriminate. simpl.
    induction items as [|x items IH]; simpl; auto.
    assert (Spec.isScalar x && (Value.sameValueZero x (Value.VObj id props) || false)
            = false) as ->.
    { destruct x; reflexivity. }
    simpl. now rewrite IH.
Qed.

(** ** Scans and placeholders *)

Section ScanFacts.
Import Heap Value Warn Strings Spec.

Lemma append_cons c (a b : string) : String c a +:+ b = String c (a +:+ b).
Proof. reflexivity. Qed.

Lemma append_nil_l (b : string) : "" +:+ b = b.
Proof. reflexivity. Qed.

Lemma append_nil_r (s : string) : s +:+ "" = s.
Proof.
  induction s as [|c s IH]; [reflexivity|]. now rewrite append_cons, IH.
Qed.

Lemma append_assoc (a b c : string) : (a +:+ b) +:+ c = a +:+ (b +:+ c).
Proof.
  induction a as [|x a IH]; [reflexivity|]. now rewrite !append_cons, IH.
Qed.

Lemma substring_drop k : forall s, String.substring 0 k s +:+ Js.drop k s = s.
Proof.
  induction k as [|k IH]; intros [|c s]; try reflexivity.
  cbn [String.substring Js.drop]. now rewrite append_cons, IH.
Qed.

Lemma drop_nil k : Js.drop k "" = "".
Proof. now destruct k. Qed.

Lemma unscan_cons {G} (p : Js.piece G) ps :
  Js.unscan (p :: ps) = Js.pieceText p +:+ Js.unscan ps.
Proof. reflexivity. Qed.

(** The pieces of a scan, put back together, are the string. *)
Lemma unscan_scan {G} (rx : Js.matcher G) s : forall skip,
  Js.unscan (Js.scan rx skip s) = Js.drop skip s.
Proof.
  induction s as [|c s IH]; intros skip.
  - now rewrite drop_nil.
  - cbn [Js.scan]. destruct skip as [|k].
    + destruct (rx (String c s)) as [[g [|k]]|];
        rewrite unscan_cons, IH; try reflexivity.
      cbn [Js.pieceText String.substring Js.drop].
      now rewrite append_cons, substring_drop.
    + rewrite IH. reflexivity.
Qed.

Lemma span_app p s : fst (Js.span p s) +:+ snd (Js.span p s) = s.
Proof.
  induction s as [|c s IH]; [reflexivity|]. cbn [Js.span].
  destruct (p c); [|reflexivity].
  destruct (Js.span p s) as [a b]. cbn [fst snd] in *.
  now rewrite append_cons, IH.
Qed.

(** What follows the longest prefix does not satisfy the predicate. *)
Lemma span_stop p s : forall a c b,
  Js.span p s = (a, String c b) -> p c = false.
Proof.
  induction s as [|x s IH]; intros a c b H; cbn [Js.span] in H.
  - discriminate.
  - destruct (p x) eqn:Px.
    + destruct (Js.span p s) as [a' b'] eqn:Sp. inversion H; subst.
      eapply IH; eauto.
    + inversion H; subst. exact Px.
Qed.

Lemma substring_prefix a : forall b,
  String.substring 0 (String.length a) (a +:+ b) = a.
Proof.
  induction a as [|c a IH]; intros b.
  - destruct b; reflexivity.
  - rewrite append_cons. cbn [String.length String.substring]. now rewrite IH.
Qed.

Lemma length_append (a b : string) :
  String.length (a +:+ b) = String.length a + String.length b.
Proof.
  induction a as [|c a IH]; [reflexivity|].
  rewrite append_cons. cbn [String.length]. now rewrite IH.
Qed.

Lemma code_eq c n : (Js.code c =? n)%nat = true -> n < 256 -> c = ascii_of_nat n.
Proof.
  intros H Hn. apply Nat.eqb_eq in H. unfold Js.code in H.
  rewrite <- H. now rewrite ascii_nat_embedding.
Qed.

Lemma placeholderAt_text s e n :
  placeholderAt s = Some (e, n) ->
  n = S (S (S (String.length e))) /\ String.substring 0 n s = spanText e.
Proof.
  unfold placeholderAt. destruct s as [|d [|b r]]; try discriminate.
  destruct ((Js.code d =? 36) && (Js.code b =? 123))%nat eqn:E; [|discriminate].
  apply andb_true_iff in E as [Ed Eb].
  apply code_eq in Ed; [|lia]. apply code_eq in Eb; [|lia]. subst d b.
  pose proof (span_app (fun c => negb (isCloseBrace c)) r) as Happ.
  destruct (Js.span (fun c => negb (isCloseBrace c)) r) as [inner rest] eqn:Sp.
  simpl in Happ.
  destruct inner as [|i0 inner]; [discriminate|].
  destruct rest as [|r0 rest]; [discriminate|].
  intros H. inversion H; subst e n. clear H.
  split; [simpl; lia|].
  assert (Hr0 : r0 = closeBrace).
  { pose proof (span_stop _ _ _ _ _ Sp) as Hstop.
    apply negb_false_iff in Hstop. apply code_eq in Hstop; [exact Hstop|lia]. }
  subst r0. unfold spanText. rewrite <- Happ.
  assert (HN : S (String.length inner + 3)
               = S (S (String.length (String i0 inner +:+ String closeBrace ""))))
    by (rewrite length_append; simpl; lia).
  change (String.length (String i0 inner) + 3)
    with (S (String.length inner + 3)).
  rewrite HN. cbn [String.substring]. unfold dollar, openBrace. f_equal. f_equal.
  change (String closeBrace rest) with (String closeBrace "" +:+ rest).
  rewrite <- append_assoc. apply substring_prefix.
Qed.

(** Every span the scan finds reads [${exprRaw}]. *)
Lemma placeholders_text s : forall skip m e,
  In (Js.Match m e) (Js.scan placeholderAt skip s) -> m = spanText e.
Proof.
  induction s as [|c s IH]; intros skip m e Hin; [contradiction|].
  cbn [Js.scan] in Hin. destruct skip as [|k]; [|eauto].
  destruct (placeholderAt (String c s)) as [[g [|k]]|] eqn:E.
  - destruct Hin as [Heq|Hin]; [discriminate|eauto].
  - destruct Hin as [Heq|Hin]; [|eauto].
    inversion Heq; subst. now apply placeholderAt_text in E as [_ E].
  - destruct Hin as [Heq|Hin]; [discriminate|eauto].
Qed.

End ScanFacts.

(** ** Placeholder substitution *)

Section InterpolateFacts.
Import Heap Value Warn Strings Spec.

Variable o : Strings.options.

(** The replacement of a span does not depend on the warnings recorded
    so far, and its warnings come after them. *)
Lemma replacePlaceholder_warnings m e ws :
  replacePlaceholder o m e ws
  = (fst (replacePlaceholder o m e []), ws ++ snd (replacePlaceholder o m e [])).
Proof.
  unfold replacePlaceholder.
  repeat match goal with
         | |- context [if ?b then _ else _] => destruct b
         | |- context [match ?x with Some _ => _ | None => _ end] => destruct x
         end; cbn [fst snd]; now rewrite ?app_nil_r.
Qed.

Lemma replacePiece_fold ps : forall acc ws,
  fold_left (replacePiece o) ps (acc, ws)
  = (acc +:+ concat (map (pieceOut o) ps), ws ++ flat_map (pieceWarn o) ps).
Proof.
  induction ps as [|p ps IH]; intros acc ws; cbn [fold_left map flat_map concat fold_right].
  - now rewrite append_nil_r, app_nil_r.
  - fold (concat (map (pieceOut o) ps)).
    destruct p as [c|m e]; cbn [replacePiece fst snd pieceOut pieceWarn].
    + rewrite IH. now rewrite append_assoc.
    + rewrite (replacePlaceholder_warnings m e ws). rewrite IH.
      now rewrite append_assoc, <- app_assoc.
Qed.

(** The output of [interpolate] is made of the pieces of the string,
    each replaced on its own. *)
Lemma interpolate_pieces s ws :
  interpolate o s ws
  = (concat (map (pieceOut o) (placeholders s)),
     ws ++ flat_map (pieceWarn o) (placeholders s)).
Proof. unfold interpolate. now rewrite replacePiece_fold. Qed.

Lemma upper_not_ctx expr :
  RX_SECRET_PROVIDER expr = true -> Js.startsWith "ctx." expr = false.
Proof.
  destruct expr as [|c r]; [discriminate|]. unfold RX_SECRET_PROVIDER.
  intros H. apply andb_true_iff in H as [Hu _].
  unfold Js.startsWith. cbn [String.prefix].
  destruct (ascii_dec "c" c) as [<-|]; [discriminate|reflexivity].
Qed.

(** A span of the secret-provider shape whose prefix is neither ENV nor
    VAR is replaced by itself and records nothing. *)
Lemma replacePlaceholder_reserved m e ws :
  reserved e = true -> replacePlaceholder o m e ws = (m, ws).
Proof.
  unfold reserved. rewrite !andb_true_iff, !negb_true_iff.
  intros [[Hs He] Hv]. unfold replacePlaceholder.
  now rewrite He, Hv, (upper_not_ctx _ Hs), Hs.
Qed.

Lemma concat_unscan (ps : list (Js.piece string)) :
  Forall (fun p => pieceOut o p = Js.pieceText p) ps ->
  concat (map (pieceOut o) ps) = Js.unscan ps.
Proof.
  induction 1 as [|p ps Hp _ IH]; [reflexivity|].
  cbn [map concat fold_right]. fold (concat (map (pieceOut o) ps)).
  now rewrite unscan_cons, Hp, IH.
Qed.

(** A string whose spans are all left to the secret stage comes out as
    it went in, and nothing is recorded. *)
Lemma interpolate_onlyReserved s ws :
  onlyReserved s = true -> interpolate o s ws = (s, ws).
Proof.
  intros H. rewrite interpolate_pieces.
  unfold onlyReserved in H. rewrite forallb_forall in H.
  f_equal.
  - rewrite concat_unscan.
    + unfold placeholders. now rewrite unscan_scan.
    + apply List.Forall_forall. intros [c|m e] Hp; [reflexivity|].
      cbn [pieceOut Js.pieceText].
      now rewrite (replacePlaceholder_reserved m e [] (H _ Hp)).
  - rewrite <- (app_nil_r ws) at 2. f_equal.
    induction (placeholders s) as [|p ps IH]; [reflexivity|].
    cbn [flat_map]. rewrite IH by (intros x Hx; apply H; now right).
    destruct p as [c|m e]; [reflexivity|]. cbn [pieceWarn].
    now rewrite (replacePlaceholder_reserved m e [] (H _ (or_introl eq_refl))).
Qed.





End InterpolateFacts.

(** C6. Placeholder substitution cuts a string into its placeholder
    spans and the code units between them, and replaces every span on its
    own.  A span whose inner expression, trimmed, is of the
    secret-provider shape (an uppercase identifier and a colon) with a
    prefix other than ENV and VAR reads [${...}] around that expression;
    it goes into the output as it stands and records no warning.  A string
    with no other spans comes out unchanged. *)
Theorem C6_secret_shaped_spans_left_intact :
  forall (o : Strings.options) (s : string) (ws : list Warn.warning),
    Js.unscan (Spec.placeholders s) = s
    /\ Strings.interpolate o s ws
       = (Spec.concat (map (Spec.pieceOut o) (Spec.placeholders s)),
          ws ++ flat_map (Spec.pieceWarn o) (Spec.placeholders s))
    /\ (forall m e,
           In (Js.Match m e) (Spec.placeholders s) ->
           Spec.reserved e = true ->
           m = Spec.spanText e
           /\ Spec.pieceOut o (Js.Match m e) = m
           /\ Spec.pieceWarn o (Js.Match m e) = [])
    /\ (Spec.onlyReserved s = true -> Strings.interpolate o s ws = (s, ws)).
Proof.
  intros o s ws. split; [|split; [|split]].
  - unfold Spec.placeholders. now rewrite unscan_scan.
  - apply interpolate_pieces.
  - intros m e Hin Hr. split; [eapply placeholders_text; exact Hin|].
    cbn [Spec.pieceOut Spec.pieceWarn].
    now rewrite (replacePlaceholder_reserved o m e [] Hr).
  - apply interpolate_onlyReserved.
Qed.

(** ** Secret substitution on a tree without references *)

Section NoSecretFacts.
Import Heap Value Warn Secrets Spec.







End NoSecretFacts.



(** ** The secret cache *)

Section CacheFacts.
Import Secrets Spec.

Lemma mapSet_absent {V} (m : Js.omap V) k v :
  Js.mapGet m k = None -> Js.mapSet m k v = m ++ [(k, v)].
Proof.
  induction m as [|[k0 v0] m IH]; simpl; intros H; [reflexivity|].
  destruct (String.eqb k0 k); [discriminate|]. now rewrite IH.
Qed.

Lemma mapGet_mapDelete_ne {V} (m : Js.omap V) k k' :
  k <> k' -> Js.mapGet (Js.mapDelete m k) k' = Js.mapGet m k'.
Proof.
  intros Hne. induction m as [|[k0 v0] m IH]; simpl; [reflexivity|].
  destruct (String.eqb k0 k) eqn:E; simpl.
  - apply String.eqb_eq in E. subst k0.
    destruct (String.eqb k k') eqn:E'; [|reflexivity].
    apply String.eqb_eq in E'. contradiction.
  - now rewrite IH.
Qed.

Lemma mapGet_mapDelete_eq {V} (m : Js.omap V) k :
  List.NoDup (map fst m) -> Js.mapGet (Js.mapDelete m k) k = None.
Proof.
  induction m as [|[k0 v0] m IH]; simpl; intros Hnd; [reflexivity|].
  apply List.NoDup_cons_iff in Hnd as [Hnotin Hnd].
  destruct (String.eqb k0 k) eqn:E; simpl.
  - apply String.eqb_eq in E. subst k0. now apply mapGet_notin_None.
  - rewrite E. now apply IH.
Qed.

(** When the cache is full, [set] with a new key drops the first entry
    of the map, and the new entry comes last. *)
Lemma set_full_evicts_first c now k v ttl k0 e0 rest :
  cache c = (k0, e0) :: rest ->
  maxSize c <= length (cache c) ->
  ~ In k (cacheKeys c) ->
  cache (set c now k v ttl)
  = rest ++ [(k, {| e_value := v; e_expires := (now + ttl)%Z |})].
Proof.
  intros Hc Hfull Hk. unfold set.
  apply Nat.leb_le in Hfull. rewrite Hfull, Hc. cbn [firstKey cache].
  cbn [Js.mapDelete]. rewrite String.eqb_refl.
  apply mapSet_absent. apply mapGet_notin_None.
  unfold cacheKeys in Hk. rewrite Hc in Hk. simpl in Hk. tauto.
Qed.

(** When there is room, [set] with a new key adds the entry last. *)
Lemma set_room_appends c now k v ttl :
  length (cache c) < maxSize c ->
  ~ In k (cacheKeys c) ->
  cache (set c now k v ttl)
  = cache c ++ [(k, {| e_value := v; e_expires := (now + ttl)%Z |})].
Proof.
  intros Hroom Hk. unfold set.
  apply Nat.leb_gt in Hroom. rewrite Hroom. cbn [cache].
  apply mapSet_absent. now apply mapGet_notin_None.
Qed.

(** A successful [get] moves the entry to the end of the map. *)
Lemma get_hit_moves_last c now k e :
  List.NoDup (cacheKeys c) ->
  Js.mapGet (cache c) k = Some e -> (now <= e_expires e)%Z ->
  get c now k
  = (Some (e_value e),
     {| maxSize := maxSize c; cache := Js.mapDelete (cache c) k ++ [(k, e)] |}).
Proof.
  intros Hnd Hget Hlive. unfold get. rewrite Hget.
  apply Z.ltb_ge in Hlive. rewrite Hlive.
  now rewrite mapSet_absent by now apply mapGet_mapDelete_eq.
Qed.

End CacheFacts.

(** C3, as stated, fails: a successful get does reset the position of the
    entry.  With room for two, after key1 and key2 are inserted and key1
    is read, inserting key3 evicts key2 and keeps key1. *)
Lemma C3_get_refreshes_eviction_position :
  let c2 := Secrets.set (Secrets.set (Secrets.newCache 2) 0 "key1" "value1" 60000)
              0 "key2" "value2" 60000 in
  let read := Secrets.get c2 0 "key1" in
  let c3 := Secrets.set (snd read) 0 "key3" "value3" 60000 in
  fst read = Some "value1"
  /\ Spec.cacheKeys c3 = ["key1"; "key3"]
  /\ fst (Secrets.get c3 0 "key2") = None.
Proof. vm_compute. repeat split. Qed.

(** C3, amended. When the cache is full, inserting a new key evicts the
    first entry of the map's order, which is the order of insertion as
    long as nothing is read: with room for two, inserting three distinct
    keys evicts exactly the first one.  A successful get moves its entry
    to the end of that order, so the entry evicted is the one least
    recently inserted or read: with key1 read between the insertions of
    key2 and key3, key2 is evicted and key1 stays. *)
Theorem C3_eviction_removes_first_in_map_order :
  (forall c now k v ttl k0 e0 rest,
      Secrets.cache c = (k0, e0) :: rest ->
      Secrets.maxSize c <= length (Secrets.cache c) ->
      ~ In k (Spec.cacheKeys c) ->
      Secrets.cache (Secrets.set c now k v ttl)
      = rest ++ [(k, {| Secrets.e_value := v;
                        Secrets.e_expires := (now + ttl)%Z |})])
  /\ (forall c now k e,
         List.NoDup (Spec.cacheKeys c) ->
         Js.mapGet (Secrets.cache c) k = Some e ->
         (now <= Secrets.e_expires e)%Z ->
         Secrets.get c now k
         = (Some (Secrets.e_value e),
            {| Secrets.maxSize := Secrets.maxSize c;
               Secrets.cache := Js.mapDelete (Secrets.cache c) k ++ [(k, e)] |}))
  /\ (forall k1 k2 k3 v1 v2 v3 t1 t2 t3 now1 now2 now3,
         k1 <> k2 -> k1 <> k3 -> k2 <> k3 ->
         Spec.cacheKeys
           (Secrets.set
              (Secrets.set (Secrets.set (Secrets.newCache 2) now1 k1 v1 t1)
                 now2 k2 v2 t2)
              now3 k3 v3 t3)
         = [k2; k3])
  /\ (forall k1 k2 k3 v1 v2 v3 t1 t2 t3 now1 now2 now now3,
         k1 <> k2 -> k1 <> k3 -> k2 <> k3 ->
         (now <= now1 + t1)%Z ->
         let c2 := Secrets.set (Secrets.set (Secrets.newCache 2) now1 k1 v1 t1)
                     now2 k2 v2 t2 in
         fst (Secrets.get c2 now k1) = Some v1
         /\ Spec.cacheKeys (Secrets.set (snd (Secrets.get c2 now k1)) now3 k3 v3 t3)
            = [k1; k3]).
Proof.
  split; [|split; [|split]].
  - exact set_full_evicts_first.
  - exact get_hit_moves_last.
  - intros k1 k2 k3 v1 v2 v3 t1 t2 t3 now1 now2 now3 H12 H13 H23.
    apply String.eqb_neq in H12, H13, H23.
    unfold Spec.cacheKeys, Secrets.set, Secrets.newCache. simpl.
    rewrite H12. simpl. rewrite String.eqb_refl. simpl. now rewrite H23.
  - intros k1 k2 k3 v1 v2 v3 t1 t2 t3 now1 now2 now now3 H12 H13 H23 Hlive c2.
    set (e1 := {| Secrets.e_value := v1; Secrets.e_expires := (now1 + t1)%Z |}).
    set (e2 := {| Secrets.e_value := v2; Secrets.e_expires := (now2 + t2)%Z |}).
    assert (Hc2 : c2 = {| Secrets.maxSize := 2;
                          Secrets.cache := [(k1, e1); (k2, e2)] |}).
    { subst c2. unfold Secrets.set, Secrets.newCache. simpl.
      apply String.eqb_neq in H12. now rewrite H12. }
    rewrite Hc2.
    rewrite (get_hit_moves_last _ now k1 e1).
    + cbn [fst snd]. split; [reflexivity|].
      unfold Spec.cacheKeys.
      rewrite (set_full_evicts_first _ now3 k3 v3 t3 k2 e2 [(k1, e1)]).
      * reflexivity.
      * cbn [Secrets.cache Js.mapDelete]. rewrite String.eqb_refl. reflexivity.
      * cbn [Secrets.cache Secrets.maxSize Js.mapDelete].
        rewrite String.eqb_refl. simpl. lia.
      * unfold Spec.cacheKeys. cbn [Secrets.cache Js.mapDelete].
        rewrite String.eqb_refl. simpl. intros [H|[H|[]]]; congruence.
    + unfold Spec.cacheKeys. simpl.
      constructor; [simpl; intros [H|[]]; congruence|].
      constructor; [simpl; tauto|constructor].
    + simpl. now rewrite String.eqb_refl.
    + exact Hlive.
Qed.

(** ** Fetch failures *)

(** C4 at the policy [empty]: a fetch rejected as not found makes the
    reference resolve to the empty string, and a [secret_not_found]
    warning is recorded all the same, as under [warn]; under [error] the
    substitution is aborted with the error. *)
Theorem C4_not_found_under_empty_records_a_warning :
  fst (Secrets.applySecretsDeep (Value.VStr "${AWS:k}")
         (Examples.missingSecretOptions Secrets.OnEmpty) [] 0 0)
  = {| Secrets.returned := inl (Value.VStr "");
       Secrets.out_warnings := [Warn.secret_not_found "AWS" "k"];
       Secrets.out_cache := None |}
  /\ fst (Secrets.applySecretsDeep (Value.VStr "${AWS:k}")
            (Examples.missingSecretOptions Secrets.OnWarn) [] 0 0)
     = {| Secrets.returned := inl (Value.VStr "");
          Secrets.out_warnings := [Warn.secret_not_found "AWS" "k"];
          Secrets.out_cache := None |}
  /\ fst (Secrets.applySecretsDeep (Value.VStr "${AWS:k}")
            (Examples.missingSecretOptions Secrets.OnError) [] 0 0)
     = {| Secrets.returned :=
            inr (Secrets.ThrowError "COLONY: Secret not found: AWS:k");
          Secrets.out_warnings := [];
          Secrets.out_cache := None |}.
Proof. repeat split; vm_compute; reflexivity. Qed.

(** ** References without a provider *)

Section UnknownProviderFacts.
Import Heap Value Warn Secrets Spec.

Lemma addRef_ok refs p : refsOk refs -> refsOk (addRef refs p).
Proof.
  intros [Hnd Hall]. destruct p as [c|m [provider key]]; cbn [addRef];
    [now split|].
  destruct (RESERVED provider) eqn:R; [now split|].
  unfold Js.mapHas.
  destruct (Js.mapGet refs (fullKeyOf provider key)) eqn:G; [now split|].
  split; [now apply mapSet_NoDup|].
  rewrite mapSet_absent by exact G.
  apply Forall_app. split; [exact Hall|].
  constructor; [|constructor]. cbn [fst snd]. now split.
Qed.

Lemma addRef_fold_ok ps : forall refs,
  refsOk refs -> refsOk (fold_left addRef ps refs).
Proof.
  induction ps as [|p ps IH]; intros refs H; [exact H|].
  cbn [fold_left]. apply IH. now apply addRef_ok.
Qed.

Lemma collectSecretRefs_ok v : forall refs,
  refsOk refs -> refsOk (collectSecretRefs v refs).
Proof.
  induction v as [|b|z|s|id items IH|id ps IH] using value_induction;
    intros refs H; try exact H.
  - cbn [collectSecretRefs]. now apply addRef_fold_ok.
  - cbn [collectSecretRefs]. revert refs H.
    induction IH as [|x items Hx _ IHitems]; intros refs H; [exact H|].
    cbn [fold_left]. apply IHitems. now apply Hx.
  - cbn [collectSecretRefs]. revert refs H.
    induction IH as [|x ps Hx _ IHps]; intros refs H; [exact H|].
    cbn [fold_left]. apply IHps. now apply Hx.
Qed.

Variable o : options.
Variable now : Z.
Variables provider key : string.

#[local] Abbreviation fullKey := (provider +:+ ":" +:+ key).

Lemma count_app ws w :
  countUnknownProvider provider key (ws ++ [w])
  = countUnknownProvider provider key ws
    + (if isUnknownProvider provider key w then 1 else 0).
Proof.
  unfold countUnknownProvider. rewrite List.filter_app, List.length_app. simpl.
  now destruct (isUnknownProvider provider key w).
Qed.

Lemma append_colon_inj (p p' k k' : string) :
  p +:+ ":" +:+ k = p' +:+ ":" +:+ k' -> p = p' -> k = k'.
Proof.
  intros H ->. induction p' as [|c p' IH].
  - now inversion H.
  - rewrite !append_cons in H. inversion H. auto.
Qed.

(** The [get] of another key leaves a miss a miss. *)
Lemma get_other_miss c fk :
  fk <> fullKey -> cacheMiss (Some c) now fullKey ->
  cacheMiss (Some (snd (get c now fk))) now fullKey.
Proof.
  intros Hne Hmiss. unfold get.
  destruct (Js.mapGet (cache c) fk) as [e|]; [|exact Hmiss].
  destruct (e_expires e <? now)%Z; unfold cacheMiss in *; cbn [snd cache].
  - now rewrite mapGet_mapDelete_ne.
  - now rewrite mapGet_mapSet_ne, mapGet_mapDelete_ne.
Qed.


(** The turn of another reference. *)
Lemma visitRef_other st e count res :
  fst e <> fullKey ->
  fst e = fst (snd e) +:+ ":" +:+ snd (snd e) ->
  untouched fullKey provider key st count res ->
  untouched fullKey provider key (visitRef o now st e) count res
  /\ (cacheMiss (st_cache st) now fullKey ->
      cacheMiss (st_cache (visitRef o now st e)) now fullKey).
Proof.
  destruct e as [fk [p k]]. cbn [fst snd]. intros Hne Hfk (Hc & Hr & Hp).
  unfold visitRef.
  destruct (negb (isAllowed fk (allowedSecrets o))).
  { split; [|auto]. repeat split; cbn [st_warnings st_resolved st_pending]; auto.
    - rewrite count_app. cbn [isUnknownProvider]. lia.
    - now rewrite lookup_insert_ne. }
  assert (Hcache : cacheMiss (st_cache st) now fullKey ->
            cacheMiss (match st_cache st with
                       | Some c => Some (snd (get c now fk))
                       | None => None
                       end) now fullKey).
  { destruct (st_cache st) as [c|]; [|auto]. now apply get_other_miss. }
  destruct (st_cache st) as [c|].
  - destruct (get c now fk) as [[v|] c'] eqn:G; cbn [snd] in Hcache.
    + split; [|exact Hcache].
      repeat split; cbn [st_warnings st_resolved st_pending]; auto.
      now rewrite lookup_insert_ne.
    + destruct (registryOf o !! p) as [inst|].
      * split; [|exact Hcache].
        repeat split; cbn [st_warnings st_resolved st_pending]; auto.
        apply Forall_app; split; auto; now repeat constructor.
      * split; [|exact Hcache].
        repeat split; cbn [st_warnings st_resolved st_pending]; auto.
        -- rewrite count_app. cbn [isUnknownProvider].
           destruct (String.eqb p provider && String.eqb k key) eqn:E; [|lia].
           apply andb_true_iff in E as [E1 E2].
           apply String.eqb_eq in E1, E2. subst p k. congruence.
        -- now rewrite lookup_insert_ne.
  - destruct (registryOf o !! p) as [inst|].
    + split; [|auto].
      repeat split; cbn [st_warnings st_resolved st_pending]; auto.
      apply Forall_app; split; auto; now repeat constructor.
    + split; [|auto].
      repeat split; cbn [st_warnings st_resolved st_pending]; auto.
      * rewrite count_app. cbn [isUnknownProvider].
        destruct (String.eqb p provider && String.eqb k key) eqn:E; [|lia].
        apply andb_true_iff in E as [E1 E2].
        apply String.eqb_eq in E1, E2. subst p k. congruence.
      * now rewrite lookup_insert_ne.
Qed.

Lemma visitRef_others l : forall st count res,
  Forall (fun e => fst e <> fullKey
                   /\ fst e = fst (snd e) +:+ ":" +:+ snd (snd e)) l ->
  untouched fullKey provider key st count res ->
  untouched fullKey provider key (fold_left (visitRef o now) l st) count res
  /\ (cacheMiss (st_cache st) now fullKey ->
      cacheMiss (st_cache (fold_left (visitRef o now) l st)) now fullKey).
Proof.
  induction l as [|e l IH]; intros st count res Hl Hst; [now split|].
  inversion Hl as [|? ? [He1 He2] Hl']; subst. cbn [fold_left].
  destruct (visitRef_other st e count res He1 He2 Hst) as [H1 H2].
  destruct (IH _ count res Hl' H1) as [H3 H4]. split; auto.
Qed.


Lemma settle_other st f st' count res :
  pendingKey f <> fullKey ->
  settle o now st f = inl st' ->
  untouched fullKey provider key st count res ->
  untouched fullKey provider key st' count res.
Proof.
  destruct f as [[[fk p] k] outcome]. unfold pendingKey. cbn [fst].
  intros Hne Hs (Hc & Hr & Hp). unfold settle in Hs.
  destruct outcome as [val|err].
  - inversion Hs; subst.
    repeat split; cbn [st_warnings st_resolved st_pending]; auto.
    now rewrite lookup_insert_ne.
  - destruct (isNotFound err), (onNotFound o); inversion Hs; subst;
      repeat split; cbn [st_warnings st_resolved st_pending]; auto;
      try (rewrite count_app; cbn [isUnknownProvider]; lia);
      now rewrite lookup_insert_ne.
Qed.

Lemma settleAll_others fs : forall st count res,
  Forall (fun f => pendingKey f <> fullKey) fs ->
  untouched fullKey provider key st count res ->
  untouched fullKey provider key (fst (settleAll o now st fs)) count res.
Proof.
  induction fs as [|f fs IH]; intros st count res Hfs Hst; [exact Hst|].
  inversion Hfs; subst. cbn [settleAll].
  destruct (settle o now st f) as [st'|e] eqn:S; [|exact Hst].
  apply IH; auto. eapply settle_other; eauto.
Qed.


Lemma replaceSecret_resolved_empty resolved m key' :
  RESERVED provider = false -> Js.trim key' = key ->
  resolved !! fullKey = Some "" ->
  replaceSecret resolved (Js.Match m (provider, key')) = "".
Proof.
  intros Hres Hk Hr. cbn [replaceSecret]. rewrite Hres.
  unfold fullKeyOf. rewrite Hk. now rewrite Hr.
Qed.

End UnknownProviderFacts.

Lemma NoDup_split_keys {V} (before after : Js.omap V) k v :
  List.NoDup (map fst (before ++ (k, v) :: after)) ->
  Forall (fun e => fst e <> k) before /\ Forall (fun e => fst e <> k) after.
Proof.
  rewrite map_app. cbn [map fst]. intros H.
  apply List.NoDup_remove_2 in H.
  split; apply List.Forall_forall; intros e He Heq; apply H, in_or_app;
    [left|right]; rewrite <- Heq; now apply in_map.
Qed.



(** ** Heredocs *)

Section HeredocFacts.
Import Value Resolver Parser Spec.

Variable statement : string -> nat -> parsed -> presult parsed.
Variable filePath : string.
Variable lineMap : list nat.

Lemma run_app l1 : forall l2 st n,
  run statement filePath lineMap st n (l1 ++ l2)
  = match run statement filePath lineMap st n l1 with
    | Parsed st' => run statement filePath lineMap st' (n + length l1) l2
    | Failed e => Failed e
    end.
Proof.
  induction l1 as [|l l1 IH]; intros l2 st n; cbn [app run length].
  - now rewrite Nat.add_0_r.
  - destruct (step statement filePath lineMap st n l); [|reflexivity].
    rewrite IH. now replace (S n + length l1) with (n + S (length l1)) by lia.
Qed.

(** The line that opens a heredoc. *)
Lemma step_opens st lineNo line key o delimiter :
  inHeredoc st = false ->
  opensHeredoc line key o delimiter ->
  step statement filePath lineMap st lineNo line
  = Parsed (heredocStarted st (getOriginalLine lineMap lineNo) key o delimiter).
Proof.
  intros Hin (Hblank & Hhash & Hslash & rawKey & Hmatch & ->).
  unfold step. rewrite Hin, Hblank, Hhash, Hslash. cbn [orb].
  now rewrite Hmatch.
Qed.

(** A line within the heredoc. *)
Lemma step_content st lineNo line :
  inHeredoc st = true ->
  Js.trim line <> heredocDelimiter st ->
  step statement filePath lineMap st lineNo line
  = Parsed (heredocGathered st (gather (heredocContent st) [line])).
Proof.
  intros Hin Hne. unfold step. rewrite Hin.
  apply String.eqb_neq in Hne. now rewrite Hne.
Qed.

Lemma run_content content : forall st lineNo,
  inHeredoc st = true ->
  Forall (fun l => Js.trim l <> heredocDelimiter st) content ->
  run statement filePath lineMap st lineNo content
  = Parsed (match content with
            | [] => st
            | _ => heredocGathered st (gather (heredocContent st) content)
            end).
Proof.
  induction content as [|l content IH]; intros st lineNo Hin Hall; [reflexivity|].
  inversion Hall as [|? ? Hl Hrest]; subst. cbn [run].
  rewrite step_content by assumption.
  rewrite IH by (auto; exact Hrest). f_equal.
  destruct content; reflexivity.
Qed.

(** The line that closes the heredoc. *)
Lemma step_closes st lineNo line :
  inHeredoc st = true ->
  Js.trim line = heredocDelimiter st ->
  parseKeyPath (heredocKey st) <> [] ->
  step statement filePath lineMap st lineNo line
  = Parsed (heredocClosed filePath st (heredocStartLine st) (heredocKey st)
              (heredocOp st) (heredocDelimiter st) (heredocContent st)).
Proof.
  intros Hin Heq Hkey. unfold step. rewrite Hin, Heq, String.eqb_refl.
  unfold heredocClosed, heredocRule.
  destruct (parseKeyPath (heredocKey st)); [congruence|reflexivity].
Qed.

Lemma gather_nonempty content : forall sofar,
  sofar <> "" ->
  gather sofar content
  = sofar +:+ Spec.concat (map (fun l => String Js.LF "" +:+ l) content).
Proof.
  induction content as [|l content IH]; intros sofar Hne; cbn [gather fold_left].
  - cbn [map Spec.concat fold_right]. now rewrite append_nil_r.
  - fold (gather (sofar +:+ match sofar with
                             | EmptyString => ""
                             | _ => String Js.LF ""
                             end +:+ l) content).
    destruct sofar as [|c sofar]; [congruence|].
    rewrite IH by (rewrite append_cons; discriminate).
    cbn [map Spec.concat fold_right]. now rewrite !append_assoc.
Qed.

Lemma join_lines l content :
  Js.join (String Js.LF "") (l :: content)
  = l +:+ Spec.concat (map (fun l => String Js.LF "" +:+ l) content).
Proof.
  revert l. induction content as [|l' content IH]; intros l.
  - cbn [Js.join map Spec.concat fold_right]. now rewrite append_nil_r.
  - change (Js.join (String Js.LF "") (l :: l' :: content))
      with (l +:+ String Js.LF "" +:+ Js.join (String Js.LF "") (l' :: content)).
    rewrite IH. cbn [map Spec.concat fold_right]. now rewrite append_assoc.
Qed.

(** Content that starts with a non-empty line is gathered as its lines
    joined by line feeds. *)
Lemma gather_join content :
  startsNonEmpty content ->
  gather "" content = Js.join (String Js.LF "") content.
Proof.
  destruct content as [|l content]; [reflexivity|]. cbn [startsNonEmpty].
  intros Hl. cbn [gather fold_left].
  fold (gather ("" +:+ "" +:+ l) content). rewrite !append_nil_l.
  rewrite gather_nonempty by assumption. now rewrite join_lines.
Qed.

End HeredocFacts.

Lemma nth_error_lineMap len : forall start k x,
  nth_error (map S (seq start len)) k = Some x -> x = S (start + k).
Proof.
  induction len as [|len IH]; intros start k x H; [now destruct k|].
  destruct k as [|k]; simpl in H.
  - inversion H. lia.
  - apply IH in H. lia.
Qed.

(** The line map of [stripBlockComments] maps every line to itself. *)
Lemma getOriginalLine_id text lineNo :
  Parser.getOriginalLine (snd (Parser.stripBlockComments text)) lineNo = lineNo.
Proof.
  unfold Parser.getOriginalLine, Parser.stripBlockComments. cbn [snd].
  destruct lineNo as [|k]; [reflexivity|].
  destruct (nth_error _ k) as [[|x]|] eqn:E; try reflexivity.
  apply nth_error_lineMap in E. lia.
Qed.

(** C9, as stated, fails: block comments are stripped from the whole
    text before the lines are walked, heredoc content included, so the
    value is not always the content lines as written. *)
Lemma C9_block_comment_stripped_from_heredoc :
  Parser.parseColony (Examples.invalidStatement "<memory>") "<memory>"
    Examples.commentedText
  = Parser.Parsed
      {| Parser.dims := None; Parser.includes := []; Parser.requires := [];
         Parser.envDefaults := [];
         Parser.rules :=
           [Spec.heredocRule "<memory>" 1 "*.sql" Resolver.OpSet "SELECT  1"] |}
  /\ "SELECT  1" <> "SELECT /* all */ 1".
Proof. split; [vm_compute; reflexivity|discriminate]. Qed.

(** C9, amended. The lines the parser walks are those of the text with
    its block comments stripped.  When, outside a heredoc, a line that is
    neither blank nor a line comment reads, trimmed, as a key, an
    operator and [<<DELIM] (DELIM an uppercase identifier starting with a
    letter or an underscore), and is followed by content lines, none of
    whose trimmed text is DELIM, the first of which is not empty, and then
    by a line whose trimmed text is DELIM, the parser adds a rule for the
    key, at the line of the opening, whose value is the string of those
    content lines joined by line feeds, with no literal decoding; parsing
    goes on after the closing line.  When the lines end before a closing
    line, parsing fails with the error of an unterminated heredoc at the
    line of the opening. *)
Theorem C9_heredoc_value_is_the_cleaned_content :
  (forall statement filePath text pre header content term post st1 key o delimiter,
      let lineMap := snd (Parser.stripBlockComments text) in
      Spec.cleanedLines text = pre ++ header :: content ++ term :: post ->
      Parser.run statement filePath lineMap Parser.initial 1 pre = Parser.Parsed st1 ->
      Parser.inHeredoc st1 = false ->
      Spec.opensHeredoc header key o delimiter ->
      Parser.parseKeyPath key <> [] ->
      Forall (fun l => Js.trim l <> delimiter) content ->
      Js.trim term = delimiter ->
      Spec.startsNonEmpty content ->
      let closed :=
        Spec.heredocClosed filePath st1 (S (length pre)) key o delimiter
          (Js.join (String Js.LF "") content) in
      Parser.parseColony statement filePath text
      = match Parser.run statement filePath lineMap closed
                (S (length pre) + length content + 2) post with
        | Parser.Parsed st => Parser.finish filePath st
        | Parser.Failed e => Parser.Failed e
        end
      /\ (post = [] -> Js.trim (Parser.buf st1) = "" ->
          Parser.parseColony statement filePath text
          = Parser.Parsed
              (Parser.pushRule (Parser.out st1)
                 (Spec.heredocRule filePath (S (length pre)) key o
                    (Js.join (String Js.LF "") content)))))
  /\ (forall statement filePath text pre header content st1 key o delimiter,
         let lineMap := snd (Parser.stripBlockComments text) in
         Spec.cleanedLines text = pre ++ header :: content ->
         Parser.run statement filePath lineMap Parser.initial 1 pre
         = Parser.Parsed st1 ->
         Parser.inHeredoc st1 = false ->
         Spec.opensHeredoc header key o delimiter ->
         Forall (fun l => Js.trim l <> delimiter) content ->
         Parser.parseColony statement filePath text
         = Parser.Failed
             {| Parser.pe_message :=
                  "Unterminated heredoc (missing " +:+ delimiter +:+ ")";
                Parser.pe_line := S (length pre);
                Parser.pe_col := None;
                Parser.pe_filePath := filePath |})
  /\ Parser.parseColony (Examples.invalidStatement "<memory>") "<memory>"
       Examples.templateText
     = Parser.Parsed
         {| Parser.dims := None; Parser.includes := []; Parser.requires := [];
            Parser.envDefaults := [];
            Parser.rules :=
              [Spec.heredocRule "<memory>" 1 "*.template" Resolver.OpSet
                 ("line 1" +:+ Examples.newline +:+ "line 2")] |}
  /\ Parser.parseColony (Examples.invalidStatement "<memory>") "<memory>"
       Examples.unterminatedText
     = Parser.Failed
         {| Parser.pe_message := "Unterminated heredoc (missing EOF)";
            Parser.pe_line := 1;
            Parser.pe_col := None;
            Parser.pe_filePath := "<memory>" |}.
Proof.
  split; [|split; [|split; vm_compute; reflexivity]].
  - intros statement filePath text pre header content term post st1 key o
      delimiter lineMap Hlines Hpre Hin Hopen Hkey Hcontent Hterm Hstart closed.
    assert (Hparse : Parser.parseColony statement filePath text
              = match Parser.run statement filePath lineMap closed
                        (S (length pre) + length content + 2) post with
                | Parser.Parsed st => Parser.finish filePath st
                | Parser.Failed e => Parser.Failed e
                end).
    { unfold Parser.parseColony.
      pose proof (getOriginalLine_id text) as Hid. fold lineMap in Hid.
      unfold Spec.cleanedLines in Hlines.
      destruct (Parser.stripBlockComments text) as [cleaned lm].
      cbn [fst snd] in *. subst lineMap. rewrite Hlines.
      rewrite run_app, Hpre. cbn [Parser.run].
      rewrite (step_opens _ _ _ _ _ _ key o delimiter Hin Hopen), Hid.
      rewrite run_app.
      rewrite run_content by (reflexivity || exact Hcontent).
      assert (Hstep : forall st,
        Parser.inHeredoc st = true ->
        Parser.heredocDelimiter st = delimiter ->
        Parser.heredocKey st = key ->
        Parser.run statement filePath lm st
          (S (1 + length pre) + length content) (term :: post)
        = Parser.run statement filePath lm
            (Spec.heredocClosed filePath st (Parser.heredocStartLine st) key
               (Parser.heredocOp st) delimiter (Parser.heredocContent st))
            (S (S (1 + length pre) + length content)) post).
      { intros st H1 H2 H3. cbn [Parser.run].
        rewrite step_closes; rewrite ?H2, ?H3; auto. }
      rewrite Hstep; try reflexivity; try (destruct content; reflexivity).
      replace (S (S (1 + length pre) + length content))
        with (S (length pre) + length content + 2) by lia.
      subst closed.
      destruct content as [|l content]; [reflexivity|].
      cbn [Spec.heredocGathered Spec.heredocStarted Parser.heredocContent
             Parser.heredocStartLine Parser.heredocOp].
      rewrite (gather_join (l :: content) Hstart). reflexivity. }
    split; [exact Hparse|].
    intros -> Hbuf. rewrite Hparse. cbn [Parser.run].
    unfold Parser.finish. subst closed.
    cbn [Spec.heredocClosed Parser.inHeredoc Parser.buf Parser.out].
    now rewrite Hbuf.
  - intros statement filePath text pre header content st1 key o delimiter lineMap
      Hlines Hpre Hin Hopen Hcontent.
    unfold Parser.parseColony.
    pose proof (getOriginalLine_id text) as Hid. fold lineMap in Hid.
    unfold Spec.cleanedLines in Hlines.
    destruct (Parser.stripBlockComments text) as [cleaned lm].
    cbn [fst snd] in *. subst lineMap. rewrite Hlines.
    rewrite run_app, Hpre. cbn [Parser.run].
    rewrite (step_opens _ _ _ _ _ _ key o delimiter Hin Hopen), Hid.
    rewrite run_content by (reflexivity || exact Hcontent).
    destruct content; unfold Parser.finish; cbn; reflexivity.
Qed.

(* ===================================================================== *)
(** * Part III: the properties at concrete inputs *)
(* ===================================================================== *)

Lemma C1_winner_most_specific_then_latest_witness :
  Resolver.indexRules ["env"; "region"]
    (Loader.allRules Samples.specific_first_units)
  = Resolver.Ok Samples.specific_first_indexed
  /\ In ("db.host", Samples.specific_first_indexed)
        (fst (Resolver.partitionRules
                (Resolver.ctxScopeOf ["env"; "region"]
                   (Examples.env_region "prod" "us"))
                Samples.specific_first_indexed))
  /\ Resolver.selectWinner Samples.specific_first_indexed
     = Some (Examples.indexed 2
               (Examples.statement 1 "prod.us.db.host" Resolver.OpSet
                  (Value.VStr "first")), 2)
  /\ exists winner best before after,
       Resolver.selectWinner Samples.specific_first_indexed
       = Some (winner, best)
       /\ best = Spec.nonWildcards winner
       /\ Samples.specific_first_indexed = before ++ winner :: after
       /\ Spec.isCandidate
            (Resolver.ctxScopeOf ["env"; "region"] (Examples.env_region "prod" "us"))
            "db.host" winner = true
       /\ (forall r, In r before ->
             Spec.isCandidate
               (Resolver.ctxScopeOf ["env"; "region"]
                  (Examples.env_region "prod" "us")) "db.host" r = true ->
             Spec.nonWildcards r <= Spec.nonWildcards winner)
       /\ (forall r, In r after ->
             Spec.isCandidate
               (Resolver.ctxScopeOf ["env"; "region"]
                  (Examples.env_region "prod" "us")) "db.host" r = true ->
             Spec.nonWildcards r < Spec.nonWildcards winner).
Proof.
  assert (H1 : Resolver.indexRules ["env"; "region"]
                 (Loader.allRules Samples.specific_first_units)
               = Resolver.Ok Samples.specific_first_indexed)
    by (vm_compute; reflexivity).
  assert (H2 : In ("db.host", Samples.specific_first_indexed)
                 (fst (Resolver.partitionRules
                         (Resolver.ctxScopeOf ["env"; "region"]
                            (Examples.env_region "prod" "us"))
                         Samples.specific_first_indexed)))
    by (vm_compute; left; reflexivity).
  split; [exact H1|]. split; [exact H2|]. split; [reflexivity|].
  exact (proj2 (C1_winner_most_specific_then_latest
                  Samples.specific_first_units ["env"; "region"]
                  (Examples.env_region "prod" "us")
                  Samples.specific_first_indexed
                  "db.host" Samples.specific_first_indexed H1 H2)).
Defined.

Lemma C3_eviction_removes_first_in_map_order_witness :
  Spec.cacheKeys
    (Secrets.set
       (Secrets.set (Secrets.set (Secrets.newCache 2) 0 "key1" "value1" 60000)
          0 "key2" "value2" 60000)
       0 "key3" "value3" 60000)
  = ["key2"; "key3"]
  /\ (let c2 := Secrets.set (Secrets.set (Secrets.newCache 2) 0 "key1" "value1" 60000)
                  0 "key2" "value2" 60000 in
      fst (Secrets.get c2 5 "key1") = Some "value1"
      /\ Spec.cacheKeys
           (Secrets.set (snd (Secrets.get c2 5 "key1")) 9 "key3" "value3" 60000)
         = ["key1"; "key3"])
  /\ Secrets.cache
       (Secrets.set
          {| Secrets.maxSize := 1;
             Secrets.cache := [("old", {| Secrets.e_value := "v";
                                          Secrets.e_expires := 7 |})] |}
          3 "new" "w" 10)
     = [] ++ [("new", {| Secrets.e_value := "w"; Secrets.e_expires := (3 + 10)%Z |})]
  /\ Secrets.get
       {| Secrets.maxSize := 1;
          Secrets.cache := [("old", {| Secrets.e_value := "v";
                                       Secrets.e_expires := 7 |})] |}
       3 "old"
     = (Some "v",
        {| Secrets.maxSize := 1;
           Secrets.cache :=
             Js.mapDelete [("old", {| Secrets.e_value := "v";
                                      Secrets.e_expires := 7%Z |})] "old"
             ++ [("old", {| Secrets.e_value := "v"; Secrets.e_expires := 7%Z |})] |}).
Proof.
  destruct C3_eviction_removes_first_in_map_order as (Hset & Hget & H3 & H4).
  split; [|split; [|split]].
  - apply H3; discriminate.
  - apply H4; discriminate.
  - apply (Hset _ 3%Z "new" "w" 10%Z "old"
             {| Secrets.e_value := "v"; Secrets.e_expires := 7 |} []).
    + reflexivity.
    + simpl. lia.
    + vm_compute. intros [H|[]]. discriminate.
  - apply (Hget {| Secrets.maxSize := 1;
                   Secrets.cache := [("old", {| Secrets.e_value := "v";
                                                Secrets.e_expires := 7 |})] |}
             3%Z "old" {| Secrets.e_value := "v"; Secrets.e_expires := 7 |}).
    + vm_compute. constructor; [simpl; tauto|constructor].
    + reflexivity.
    + simpl. lia.
Defined.


Lemma C6_secret_shaped_spans_left_intact_witness :
  In (Js.Match "${AWS:db#password}" "AWS:db#password")
     (Spec.placeholders "host=${ctx.env} pw=${AWS:db#password}")
  /\ Spec.reserved "AWS:db#password" = true
  /\ ("${AWS:db#password}" = Spec.spanText "AWS:db#password"
      /\ Spec.pieceOut (Examples.under Examples.prod)
           (Js.Match "${AWS:db#password}" "AWS:db#password")
         = "${AWS:db#password}"
      /\ Spec.pieceWarn (Examples.under Examples.prod)
           (Js.Match "${AWS:db#password}" "AWS:db#password") = [])
  /\ Strings.interpolate (Examples.under Examples.prod) "pw=${ VAULT:a/b }" []
     = ("pw=${ VAULT:a/b }", []).
Proof.
  assert (H1 : In (Js.Match "${AWS:db#password}" "AWS:db#password")
                 (Spec.placeholders "host=${ctx.env} pw=${AWS:db#password}")).
  { vm_compute. do 10 right. left. reflexivity. }
  assert (H2 : Spec.reserved "AWS:db#password" = true) by reflexivity.
  split; [exact H1|]. split; [exact H2|]. split.
  - exact (proj1 (proj2 (proj2 (C6_secret_shaped_spans_left_intact
             (Examples.under Examples.prod)
             "host=${ctx.env} pw=${AWS:db#password}" [])))
             "${AWS:db#password}" "AWS:db#password" H1 H2).
  - apply (proj2 (proj2 (proj2 (C6_secret_shaped_spans_left_intact
             (Examples.under Examples.prod) "pw=${ VAULT:a/b }" [])))).
    reflexivity.
Defined.



Lemma C9_heredoc_value_is_the_cleaned_content_witness :
  Spec.cleanedLines Examples.templateText
  = [] ++ "*.template = <<EOF" :: ["line 1"; "line 2"] ++ "EOF" :: []
  /\ Spec.opensHeredoc "*.template = <<EOF" "*.template" Resolver.OpSet "EOF"
  /\ Parser.parseColony (Examples.invalidStatement "<memory>") "<memory>"
       Examples.templateText
     = Parser.Parsed
         (Parser.pushRule (Parser.out Parser.initial)
            (Spec.heredocRule "<memory>" 1 "*.template" Resolver.OpSet
               (Js.join (String Js.LF "") ["line 1"; "line 2"])))
  /\ Spec.cleanedLines Examples.unterminatedText
     = [] ++ "*.key = <<EOF" :: ["no end"]
  /\ Parser.parseColony (Examples.invalidStatement "<memory>") "<memory>"
       Examples.unterminatedText
     = Parser.Failed
         {| Parser.pe_message := "Unterminated heredoc (missing " +:+ "EOF" +:+ ")";
            Parser.pe_line := 1;
            Parser.pe_col := None;
            Parser.pe_filePath := "<memory>" |}.
Proof.
  destruct C9_heredoc_value_is_the_cleaned_content as (Hclosed & Hopen & _).
  assert (H1 : Spec.cleanedLines Examples.templateText
               = [] ++ "*.template = <<EOF" :: ["line 1"; "line 2"] ++ "EOF" :: [])
    by (vm_compute; reflexivity).
  assert (H2 : Spec.opensHeredoc "*.template = <<EOF" "*.template"
                 Resolver.OpSet "EOF").
  { repeat split; try (vm_compute; reflexivity).
    exists "*.template". split; vm_compute; reflexivity. }
  assert (H3 : Spec.cleanedLines Examples.unterminatedText
               = [] ++ "*.key = <<EOF" :: ["no end"]) by (vm_compute; reflexivity).
  split; [exact H1|]. split; [exact H2|]. split; [|split; [exact H3|]].
  - apply (proj2 (Hclosed (Examples.invalidStatement "<memory>") "<memory>"
                    Examples.templateText [] "*.template = <<EOF"
                    ["line 1"; "line 2"] "EOF" [] Parser.initial
                    "*.template" Resolver.OpSet "EOF" H1 eq_refl eq_refl H2
                    ltac:(vm_compute; discriminate)
                    ltac:(repeat constructor; vm_compute; discriminate)
                    eq_refl ltac:(simpl; discriminate))).
    + reflexivity.
    + reflexivity.
  - apply (Hopen (Examples.invalidStatement "<memory>") "<memory>"
             Examples.unterminatedText [] "*.key = <<EOF" ["no end"]
             Parser.initial "*.key" Resolver.OpSet "EOF" H3 eq_refl eq_refl).
    + repeat split; try (vm_compute; reflexivity).
      exists "*.key". split; vm_compute; reflexivity.
    + repeat constructor. vm_compute. discriminate.
Defined.

Lemma C10_remove_deletes_equal_scalars_only_witness :
  (let indexed := map (Examples.indexed 1) Examples.remove_rules in
   let ctxScope := Resolver.ctxScopeOf ["env"] Examples.prod in
   let cs := fst (Resolver.partitionRules ctxScope indexed) in
   let r := Examples.indexed 1
              (Examples.statement 2 "prod.list" Resolver.OpRemove
                 (Value.VArr 2 [Value.VStr "a";
                                Value.VObj 3 [("x", Value.VNum (Value.Num 1))]])) in
   Spec.rulesBelow 4 Examples.remove_rules
   /\ Resolver.indexRules ["env"] Examples.remove_rules = Resolver.Ok indexed
   /\ Resolver.sortPostOps (List.filter (Spec.isDeferred ctxScope) indexed)
      = [] ++ r :: []
   /\ Resolver.applyPostOp r (fst (Spec.stateAfter cs [] 4))
        (snd (Spec.stateAfter cs [] 4))
      = Spec.applyRemoveScalars r (fst (Spec.stateAfter cs [] 4))
          (snd (Spec.stateAfter cs [] 4))
   /\ Util.getDeep (fst (fst (Spec.stateAfter cs [] 4))) (Resolver.keyPath r)
      = Some (Value.VArr 5
                [Value.VStr "a"; Value.VStr "b";
                 Value.VObj 6 [("x", Value.VNum (Value.Num 1))]])
   /\ exists id,
        Util.getDeep
          (fst (fst (Resolver.applyPostOp r (fst (Spec.stateAfter cs [] 4))
                       (snd (Spec.stateAfter cs [] 4)))))
          (Resolver.keyPath r)
        = Some (Value.VArr id
                  (Spec.removeScalars (Resolver.value (Resolver.base r))
                     [Value.VStr "a"; Value.VStr "b";
                      Value.VObj 6 [("x", Value.VNum (Value.Num 1))]])))
  /\ In (Value.VObj 1 [("x", Value.VNum (Value.Num 1))])
        (Spec.removeScalars
           (Value.VArr 2 [Value.VStr "a";
                          Value.VObj 3 [("x", Value.VNum (Value.Num 1))]])
           [Value.VStr "a"; Value.VStr "b";
            Value.VObj 1 [("x", Value.VNum (Value.Num 1))]])
  /\ ~ In (Value.VStr "a")
         (Spec.removeScalars
            (Value.VArr 2 [Value.VStr "a";
                           Value.VObj 3 [("x", Value.VNum (Value.Num 1))]])
            [Value.VStr "a"; Value.VStr "b";
             Value.VObj 1 [("x", Value.VNum (Value.Num 1))]])
  /\ Spec.removeScalars (Value.VObj 3 [("x", Value.VNum (Value.Num 1))])
       [Value.VStr "a"; Value.VObj 1 [("x", Value.VNum (Value.Num 1))]]
     = [Value.VStr "a"; Value.VObj 1 [("x", Value.VNum (Value.Num 1))]]
  /\ Spec.removeScalars (Value.VStr "a")
       [Value.VObj 1 []; Value.VArr 5 [Value.VStr "a"]]
     = [Value.VObj 1 []; Value.VArr 5 [Value.VStr "a"]].
Proof.
  destruct C10_remove_deletes_equal_scalars_only
    as (Hrun & _ & Honly & Hgone & Hkept & Hsame & Hobj).
  split; [|split; [|split; [|split]]].
  - intros indexed ctxScope cs r.
    assert (H1 : Spec.rulesBelow 4 Examples.remove_rules)
      by (repeat constructor).
    assert (H2 : Resolver.indexRules ["env"] Examples.remove_rules
                 = Resolver.Ok indexed) by (vm_compute; reflexivity).
    assert (H3 : Resolver.sortPostOps
                   (List.filter (Spec.isDeferred ctxScope) indexed)
                 = [] ++ r :: []) by (vm_compute; reflexivity).
    split; [exact H1|]. split; [exact H2|]. split; [exact H3|].
    destruct (Hrun Examples.remove_rules ["env"]
                (Examples.under Examples.prod) [] 4 indexed [] r []
                (fst (Spec.stateAfter cs [] 4)) (snd (Spec.stateAfter cs [] 4))
                H1 H2 H3 eq_refl (surjective_pairing _))
      as (_ & Hcode & Htree & _).
    split; [exact Hcode|].
    assert (H4 : Util.getDeep (fst (fst (Spec.stateAfter cs [] 4)))
                   (Resolver.keyPath r)
                 = Some (Value.VArr 5
                           [Value.VStr "a"; Value.VStr "b";
                            Value.VObj 6 [("x", Value.VNum (Value.Num 1))]]))
      by (vm_compute; reflexivity).
    split; [exact H4|].
    exact (Htree ltac:(repeat constructor) _ _ H4).
  - apply Hkept; [|reflexivity]. simpl. tauto.
  - apply Hgone; [reflexivity|]. simpl. tauto.
  - apply Hobj. reflexivity.
  - apply Hsame. repeat constructor.
Defined.

(* ===================================================================== *)
(** * Part IV: further properties *)
(* ===================================================================== *)

(** ** Rules, scopes and traces *)

Section IndexFacts.
Import Resolver Terms.

Lemma indexRule_ok dims r :
  wellScoped dims r ->
  indexRule dims r
  = Ok {| base := r;
          scope := firstn (length dims) (keySegments r);
          keyPath := skipn (length dims) (keySegments r);
          keyPathStr := Js.join "." (skipn (length dims) (keySegments r)) |}.
Proof.
  unfold wellScoped, indexRule. intros H.
  rewrite List.length_firstn, List.length_skipn.
  replace (Nat.min (length dims) (length (keySegments r)) =? length dims)%nat
    with true by (symmetry; apply Nat.eqb_eq; lia).
  replace (length (keySegments r) - length dims =? 0)%nat
    with false by (symmetry; apply Nat.eqb_neq; lia).
  reflexivity.
Qed.

Lemma indexRule_throw dims r :
  length (keySegments r) <= length dims ->
  indexRule dims r = Throw (scopeError dims r).
Proof.
  unfold indexRule, scopeError. intros H.
  rewrite List.length_firstn, List.length_skipn.
  replace (length (keySegments r) - length dims =? 0)%nat
    with true by (symmetry; apply Nat.eqb_eq; lia).
  rewrite orb_true_r. reflexivity.
Qed.

Lemma indexRules_ok dims rules :
  Forall (wellScoped dims) rules ->
  indexRules dims rules
  = Ok (map (fun r =>
               {| base := r;
                  scope := firstn (length dims) (keySegments r);
                  keyPath := skipn (length dims) (keySegments r);
                  keyPathStr :=
                    Js.join "." (skipn (length dims) (keySegments r)) |}) rules).
Proof.
  induction 1 as [|r rest Hr _ IH]; [reflexivity|].
  simpl. rewrite (indexRule_ok _ _ Hr), IH. reflexivity.
Qed.

Lemma indexRules_wellScoped dims rules indexed :
  indexRules dims rules = Ok indexed -> Forall (wellScoped dims) rules.
Proof.
  revert indexed. induction rules as [|r rest IH]; intros indexed H.
  - constructor.
  - simpl in H.
    destruct (Nat.le_gt_cases (length (keySegments r)) (length dims)) as [Hle|Hgt].
    + rewrite (indexRule_throw _ _ Hle) in H. discriminate.
    + constructor; [exact Hgt|].
      destruct (indexRule dims r); [|discriminate].
      destruct (indexRules dims rest) eqn:E; [|discriminate].
      eapply IH. reflexivity.
Qed.

Lemma indexRules_throw dims good r rest :
  Forall (wellScoped dims) good ->
  length (keySegments r) <= length dims ->
  indexRules dims (good ++ r :: rest) = Throw (scopeError dims r).
Proof.
  intros Hgood Hr. induction Hgood as [|g good Hg _ IH]; simpl.
  - rewrite (indexRule_throw _ _ Hr). reflexivity.
  - rewrite (indexRule_ok _ _ Hg), IH. reflexivity.
Qed.

End IndexFacts.

(** X1. [resolveRules] accepts a rule set exactly when every rule has
    more key segments than there are dimensions.  Then every rule is
    split into a scope of one segment per dimension and a non-empty key
    path, whose dotted form is the key.  Otherwise the call throws, before
    anything is allocated, the error of the first rule that is too
    short. *)
Theorem X1_rules_need_scope_and_key :
  (forall dims rules,
      (exists indexed, Resolver.indexRules dims rules = Resolver.Ok indexed)
      <-> Forall (Terms.wellScoped dims) rules)
  /\ (forall dims rules indexed,
         Resolver.indexRules dims rules = Resolver.Ok indexed ->
         Forall2 (fun r i =>
                    Resolver.base i = r
                    /\ Resolver.scope i ++ Resolver.keyPath i
                       = Resolver.keySegments r
                    /\ length (Resolver.scope i) = length dims
                    /\ Resolver.keyPath i <> []
                    /\ Resolver.keyPathStr i
                       = Js.join "." (Resolver.keyPath i))
           rules indexed)
  /\ (forall dims good r rest o ws n,
         Forall (Terms.wellScoped dims) good ->
         length (Resolver.keySegments r) <= length dims ->
         Resolver.resolveRules (good ++ r :: rest) dims o ws n
         = (Resolver.Throw (Terms.scopeError dims r), n)).
Proof.
  split; [|split].
  - intros dims rules. split.
    + intros [indexed H]. eapply indexRules_wellScoped; eauto.
    + intros H. eexists. apply indexRules_ok; exact H.
  - intros dims rules indexed H.
    pose proof (indexRules_wellScoped _ _ _ H) as Hw.
    rewrite (indexRules_ok _ _ Hw) in H. injection H as <-.
    induction Hw as [|r rest Hr _ IH]; simpl; constructor; [|exact IH].
    unfold Terms.wellScoped in Hr. simpl.
    split; [reflexivity|]. split; [apply List.firstn_skipn|].
    split; [rewrite List.length_firstn; lia|].
    split; [|reflexivity].
    intros E. apply (f_equal (@length _)) in E.
    rewrite List.length_skipn in E. simpl in E. lia.
  - intros dims good r rest o ws n Hgood Hr.
    unfold Resolver.resolveRules.
    rewrite (indexRules_throw _ _ _ _ Hgood Hr). reflexivity.
Qed.

Section MatchFacts.
Import Resolver.

Lemma specificity_le scope : specificity scope <= length scope.
Proof.
  induction scope as [|seg rest IH]; simpl; [lia|].
  destruct (String.eqb seg "*"); lia.
Qed.

Lemma matches_pointwise scope : forall ctxScope,
  length scope = length ctxScope ->
  (matches scope ctxScope = true
   <-> Forall2 (fun r c => r = "*" \/ r = c) scope ctxScope).
Proof.
  induction scope as [|r rest IH]; intros [|c ctxScope] Hlen;
    simpl in Hlen; try discriminate.
  - simpl. split; [constructor|reflexivity].
  - injection Hlen as Hlen. simpl. specialize (IH ctxScope Hlen).
    destruct (String.eqb r "*") eqn:Estar.
    + apply String.eqb_eq in Estar. rewrite IH. split.
      * intros H. constructor; [left; exact Estar|exact H].
      * intros H. inversion H; assumption.
    + apply String.eqb_neq in Estar.
      destruct (String.eqb r c) eqn:Ec.
      * apply String.eqb_eq in Ec. rewrite IH. split.
        -- intros H. constructor; [right; exact Ec|exact H].
        -- intros H. inversion H; assumption.
      * apply String.eqb_neq in Ec. split; [discriminate|].
        intros H. inversion H as [|? ? ? ? [E|E] _]; contradiction.
Qed.

Lemma matches_wildcards scope : forall ctxScope,
  specificity scope = 0 -> matches scope ctxScope = true.
Proof.
  induction scope as [|r rest IH]; intros ctxScope H; [reflexivity|].
  simpl in *. destruct (String.eqb r "*"); [|discriminate].
  apply IH. exact H.
Qed.

Lemma matches_specific scope : forall ctxScope,
  specificity scope = length scope ->
  length scope = length ctxScope ->
  matches scope ctxScope = true -> ctxScope = scope.
Proof.
  induction scope as [|r rest IH]; intros [|c ctxScope] Hs Hlen Hm;
    simpl in Hlen; try discriminate; [reflexivity|].
  injection Hlen as Hlen. simpl in Hs, Hm.
  pose proof (specificity_le rest) as Hle.
  destruct (String.eqb r "*"); [lia|].
  destruct (String.eqb r c) eqn:Ec; [|discriminate].
  apply String.eqb_eq in Ec. subst c. f_equal.
  apply IH; [lia|exact Hlen|exact Hm].
Qed.

Lemma matches_missing_dimension dims : forall ctx scope i d,
  nth_error dims i = Some d ->
  ctx !! d = None ->
  length scope = length dims ->
  matches scope (ctxScopeOf dims ctx) = true ->
  nth_error scope i = Some "*" \/ nth_error scope i = Some "".
Proof.
  induction dims as [|d0 dims IH]; intros ctx scope i d Hi Hd Hlen Hm.
  - destruct i; discriminate.
  - destruct scope as [|r rest]; [discriminate|].
    injection Hlen as Hlen. simpl in Hm.
    destruct i as [|i].
    + injection Hi as ->. rewrite Hd in Hm. simpl in Hm. simpl.
      destruct (String.eqb r "*") eqn:Estar.
      * apply String.eqb_eq in Estar. left. congruence.
      * destruct (String.eqb r "") eqn:E; [|discriminate].
        apply String.eqb_eq in E. right. congruence.
    + simpl. simpl in Hi.
      destruct (String.eqb r "*");
        [|destruct (String.eqb r (default "" (ctx !! d0))); [|discriminate]];
        eapply IH; eauto.
Qed.

End MatchFacts.

(** X2. A rule scope matches the context scope exactly when every
    segment is the wildcard or equals the context value at its
    position.  Its specificity is at most its length; a scope of
    wildcards alone matches every context, a scope with no wildcard
    matches one context only, and at a dimension the context does not
    define (read as the empty string) a matching scope holds the
    wildcard or the empty segment. *)
Theorem X2_scope_matching :
  (forall scope ctxScope,
      length scope = length ctxScope ->
      (Resolver.matches scope ctxScope = true
       <-> Forall2 (fun r c => r = "*" \/ r = c) scope ctxScope))
  /\ (forall scope, Resolver.specificity scope <= length scope)
  /\ (forall scope ctxScope,
         Resolver.specificity scope = 0 ->
         Resolver.matches scope ctxScope = true)
  /\ (forall scope ctxScope,
         Resolver.specificity scope = length scope ->
         length scope = length ctxScope ->
         Resolver.matches scope ctxScope = true -> ctxScope = scope)
  /\ (forall dims ctx scope i d,
         nth_error dims i = Some d ->
         ctx !! d = None ->
         length scope = length dims ->
         Resolver.matches scope (Resolver.ctxScopeOf dims ctx) = true ->
         nth_error scope i = Some "*" \/ nth_error scope i = Some "").
Proof.
  split; [exact matches_pointwise|].
  split; [exact specificity_le|].
  split; [exact matches_wildcards|].
  split; [exact matches_specific|exact matches_missing_dimension].
Qed.

Section ContextFacts.
Import Heap Value Resolver Terms.

Lemma partition_skips ctxScope indexed : forall acc,
  fold_left (partitionStep ctxScope)
    (List.filter (fun r => matches (scope r) ctxScope) indexed) acc
  = fold_left (partitionStep ctxScope) indexed acc.
Proof.
  induction indexed as [|r rest IH]; intros acc; [reflexivity|].
  simpl. destruct (matches (scope r) ctxScope) eqn:E.
  - simpl. apply IH.
  - rewrite IH. f_equal. unfold partitionStep. rewrite E. reflexivity.
Qed.

Lemma filter_indexed dims ctxScope rules :
  List.filter (fun r => matches (scope r) ctxScope)
    (map (fun r =>
            {| base := r;
               scope := firstn (length dims) (keySegments r);
               keyPath := skipn (length dims) (keySegments r);
               keyPathStr :=
                 Js.join "." (skipn (length dims) (keySegments r)) |}) rules)
  = map (fun r =>
           {| base := r;
              scope := firstn (length dims) (keySegments r);
              keyPath := skipn (length dims) (keySegments r);
              keyPathStr :=
                Js.join "." (skipn (length dims) (keySegments r)) |})
      (List.filter (inContext dims ctxScope) rules).
Proof.
  induction rules as [|r rest IH]; [reflexivity|].
  simpl. unfold inContext at 1.
  destruct (matches (firstn (length dims) (keySegments r)) ctxScope);
    simpl; rewrite IH; reflexivity.
Qed.

Lemma Forall_filter_keep {A} (P : A -> Prop) f l :
  Forall P l -> Forall P (List.filter f l).
Proof.
  induction 1 as [|x l Hx _ IH]; simpl; [constructor|].
  destruct (f x); [constructor|]; assumption.
Qed.

Lemma resolveRules_in_context rules dims o ws n :
  Forall (wellScoped dims) rules ->
  resolveRules rules dims o ws n
  = resolveRules
      (List.filter (inContext dims (ctxScopeOf dims (Strings.ctx o))) rules)
      dims o ws n.
Proof.
  intros Hw. unfold resolveRules.
  rewrite (indexRules_ok _ _ Hw).
  rewrite (indexRules_ok _ _ (Forall_filter_keep _ _ _ Hw)).
  rewrite <- filter_indexed.
  unfold partitionRules. rewrite partition_skips. reflexivity.
Qed.

End ContextFacts.

(** X3. Resolution depends only on the rules whose scope matches the
    context: leaving the other rules out of a well-formed rule set gives
    the same configuration, trace, warnings and allocations.  When no
    rule matches, the configuration is the empty object, the trace is
    empty and the warnings are as they were. *)
Theorem X3_rules_out_of_context_are_ignored :
  (forall rules dims o ws n,
      Forall (Terms.wellScoped dims) rules ->
      Resolver.resolveRules rules dims o ws n
      = Resolver.resolveRules
          (List.filter
             (Terms.inContext dims (Resolver.ctxScopeOf dims (Strings.ctx o)))
             rules)
          dims o ws n)
  /\ (forall rules dims o ws n,
         Forall (Terms.wellScoped dims) rules ->
         Forall (fun r =>
                   Terms.inContext dims
                     (Resolver.ctxScopeOf dims (Strings.ctx o)) r = false)
           rules ->
         Resolver.resolveRules rules dims o ws n
         = (Resolver.Ok {| Resolver.cfg := Value.VObj (S n) [];
                           Resolver.trace := [];
                           Resolver.warnings := ws |}, S (S n))).
Proof.
  split.
  - exact resolveRules_in_context.
  - intros rules dims o ws n Hw Hnone.
    rewrite (resolveRules_in_context _ _ _ _ _ Hw).
    replace (List.filter _ rules) with (@nil Resolver.rule); [reflexivity|].
    clear Hw. induction Hnone as [|r rest Hr _ IH]; [reflexivity|].
    simpl. rewrite Hr. exact IH.
Qed.

Section TraceFacts.
Import Heap Value Util Resolver Terms Spec.

Variable P : string * traceInfo -> Prop.

Lemma Forall_mapSet (m : traceMap) k v :
  Forall P m -> P (k, v) -> Forall P (Js.mapSet m k v).
Proof.
  intros Hm Hv. induction Hm as [|[k' v'] m Hx Hm IH]; simpl.
  - constructor; [exact Hv|constructor].
  - destruct (String.eqb k' k) eqn:E.
    + apply String.eqb_eq in E. subst k'. constructor; assumption.
    + constructor; assumption.
Qed.

Lemma applyWinner_trace key winner best out trace n :
  P (key, packTrace winner best) -> Forall P trace ->
  Forall P (snd (fst (applyWinner key winner best (out, trace) n))).
Proof.
  intros Hp Ht. unfold applyWinner.
  destruct (op (base winner)); destruct (getDeep out (keyPath winner));
    rewrite ?bind_run; simpl; try exact Ht;
    apply Forall_mapSet; assumption.
Qed.

Lemma applyCandidates_trace cs : forall st n,
  (forall key cand winner best,
      In (key, cand) cs -> selectWinner cand = Some (winner, best) ->
      P (key, packTrace winner best)) ->
  Forall P (snd st) ->
  Forall P (snd (fst (applyCandidates cs st n))).
Proof.
  induction cs as [|[key cand] rest IH]; intros st n Hcs Hst; [exact Hst|].
  simpl. destruct (selectWinner cand) as [[winner best]|] eqn:E.
  - rewrite bind_run. apply IH.
    + intros. eapply Hcs; [right|]; eassumption.
    + destruct st as [out trace]. apply applyWinner_trace; [|exact Hst].
      eapply Hcs; [left; reflexivity|exact E].
  - apply IH; [|exact Hst]. intros. eapply Hcs; [right|]; eassumption.
Qed.

Lemma applyPostOp_trace r out trace n :
  P (keyPathStr r, packTrace r (specificity (scope r))) -> Forall P trace ->
  Forall P (snd (fst (applyPostOp r (out, trace) n))).
Proof.
  intros Hp Ht. unfold applyPostOp. rewrite bind_run.
  destruct (op (base r)); simpl; try exact Ht.
  - rewrite !bind_run. simpl. apply Forall_mapSet; assumption.
  - rewrite bind_run.
    destruct (getDeep out (keyPath r)) as [[| | | | |]|]; simpl; try exact Ht.
    rewrite !bind_run. simpl. apply Forall_mapSet; assumption.
Qed.

Lemma applyPostOps_trace ops : forall st n,
  Forall (fun r => P (keyPathStr r, packTrace r (specificity (scope r)))) ops ->
  Forall P (snd st) ->
  Forall P (snd (fst (applyPostOps ops st n))).
Proof.
  induction ops as [|r rest IH]; intros st n Hops Hst; [exact Hst|].
  inversion Hops as [|? ? Hr Hrest]; subst.
  simpl. rewrite bind_run. apply IH; [exact Hrest|].
  destruct st as [out trace]. apply applyPostOp_trace; assumption.
Qed.

End TraceFacts.

Section TraceOrigin.
Import Heap Value Util Resolver Terms Spec.

Lemma resolveRules_trace rules dims o ws n indexed res n' :
  indexRules dims rules = Ok indexed ->
  resolveRules rules dims o ws n = (Ok res, n') ->
  Forall (tracedFrom (ctxScopeOf dims (Strings.ctx o)) indexed) (trace res).
Proof.
  intros Hidx Hres. unfold resolveRules in Hres. rewrite Hidx in Hres.
  set (ctxScope := ctxScopeOf dims (Strings.ctx o)) in *.
  destruct (partitionRules ctxScope indexed) as [cs postOps] eqn:Epart.
  rewrite !bind_run in Hres. simpl in Hres.
  injection Hres as <- _. simpl.
  apply applyPostOps_trace.
  - assert (Hpost : postOps = List.filter (isDeferred ctxScope) indexed).
    { rewrite <- (partition_postOps ctxScope indexed), Epart. reflexivity. }
    apply List.Forall_forall. intros r Hr.
    apply (Permutation_in _ (Permutation_sym (sortPostOps_perm postOps))) in Hr.
    rewrite Hpost in Hr. apply List.filter_In in Hr. destruct Hr as [Hin Hd].
    unfold isDeferred in Hd. apply andb_true_iff in Hd.
    exists r. simpl. tauto.
  - apply applyCandidates_trace; [|constructor].
    intros key cand winner best Hin Hsel.
    assert (Hin' : In (key, cand) (fst (partitionRules ctxScope indexed)))
      by (rewrite Epart; exact Hin).
    destruct (partition_entry _ _ _ _ Hin') as [Hcand Hne].
    destruct (selectWinner_spec _ Hne) as (w & b & Hsel' & Hb & _).
    rewrite Hsel in Hsel'. injection Hsel' as <- <-.
    pose proof (selectWinner_In _ _ _ Hsel) as Hw.
    rewrite Hcand in Hw. apply List.filter_In in Hw. destruct Hw as [Hw Hc].
    unfold isCandidate in Hc.
    apply andb_true_iff in Hc. destruct Hc as [Hc Hk].
    apply andb_true_iff in Hc. destruct Hc as [Hm _].
    apply String.eqb_eq in Hk.
    exists winner. simpl in *. unfold spec in Hb. subst best. tauto.
Qed.

End TraceOrigin.

(** X4. Every entry of the trace of a resolution comes from a rule that
    matches the context: what [explain] returns for a path is the packed
    trace of a matching rule whose key is that path, with the specificity
    of that rule's scope; and [explain] returns nothing for a path that
    is the key of no matching rule. *)
Theorem X4_explain_reports_matching_rules_only :
  forall rules dims o ws n indexed res n',
    Resolver.indexRules dims rules = Resolver.Ok indexed ->
    Resolver.resolveRules rules dims o ws n = (Resolver.Ok res, n') ->
    (forall p t,
        Resolver.explainByPath (Resolver.trace res) p = Some t ->
        exists r,
          In r indexed
          /\ Resolver.matches (Resolver.scope r)
               (Resolver.ctxScopeOf dims (Strings.ctx o)) = true
          /\ Resolver.keyPathStr r = p
          /\ t = Resolver.packTrace r
                   (Resolver.specificity (Resolver.scope r)))
    /\ (forall p,
           (forall r, In r indexed ->
                      Resolver.matches (Resolver.scope r)
                        (Resolver.ctxScopeOf dims (Strings.ctx o)) = true ->
                      Resolver.keyPathStr r <> p) ->
           Resolver.explainByPath (Resolver.trace res) p = None).
Proof.
  intros rules dims o ws n indexed res n' Hidx Hres.
  pose proof (resolveRules_trace _ _ _ _ _ _ _ _ Hidx Hres) as Ht.
  assert (Hfirst : forall p t,
             Resolver.explainByPath (Resolver.trace res) p = Some t ->
             exists r,
               In r indexed
               /\ Resolver.matches (Resolver.scope r)
                    (Resolver.ctxScopeOf dims (Strings.ctx o)) = true
               /\ Resolver.keyPathStr r = p
               /\ t = Resolver.packTrace r
                        (Resolver.specificity (Resolver.scope r))).
  { intros p t Hp. unfold Resolver.explainByPath, Resolver.traceGet in Hp.
    apply mapGet_Some_In in Hp.
    rewrite List.Forall_forall in Ht. exact (Ht _ Hp). }
  split; [exact Hfirst|].
  intros p Hnone.
  destruct (Resolver.explainByPath (Resolver.trace res) p) as [t|] eqn:E;
    [|reflexivity].
  destruct (Hfirst _ _ E) as (r & Hin & Hm & Hk & _).
  exfalso. exact (Hnone r Hin Hm Hk).
Qed.

(** ** Paths and merging *)

Section PathFacts.
Import Value Util Resolver Terms.

Lemma noneOf_app c a b :
  noneOf c (a +:+ b) = noneOf c a && noneOf c b.
Proof.
  induction a as [|x a IH]; [reflexivity|].
  rewrite append_cons. unfold noneOf in *. simpl. rewrite IH.
  now rewrite andb_assoc.
Qed.

Lemma splitOn_free sep a : forall cur s,
  noneOf sep a = true ->
  Js.splitOn sep cur (a +:+ s) = Js.splitOn sep (cur +:+ a) s.
Proof.
  induction a as [|c a IH]; intros cur s H.
  - now rewrite append_nil_l, append_nil_r.
  - unfold noneOf in H. simpl in H. apply andb_true_iff in H.
    destruct H as [Hc Ha]. apply negb_true_iff in Hc.
    rewrite append_cons. simpl. rewrite Hc. rewrite (IH _ _ Ha).
    now rewrite append_assoc, append_cons, append_nil_l.
Qed.

Lemma splitOn_sep sep cur s :
  Js.splitOn sep cur (String sep s) = cur :: Js.splitOn sep "" s.
Proof. simpl. now rewrite Ascii.eqb_refl. Qed.

Lemma splitOn_join sep segs : forall cur,
  Forall (fun s => noneOf sep s = true) segs -> segs <> [] ->
  Js.splitOn sep cur (Js.join (String sep "") segs)
  = (cur +:+ hd "" segs) :: tl segs.
Proof.
  induction segs as [|p rest IH]; intros cur Hall Hne; [contradiction|].
  inversion Hall as [|? ? Hp Hrest]; subst.
  destruct rest as [|q rest].
  - simpl. rewrite <- (append_nil_r p) at 1.
    now rewrite (splitOn_free _ _ _ _ Hp).
  - change (Js.join (String sep "") (p :: q :: rest))
      with (p +:+ String sep "" +:+ Js.join (String sep "") (q :: rest)).
    rewrite (splitOn_free _ _ _ _ Hp). rewrite append_cons, append_nil_l.
    rewrite splitOn_sep.
    rewrite (IH "" Hrest ltac:(discriminate)). now rewrite append_nil_l.
Qed.

Lemma splitOn_pieces sep s : forall cur,
  noneOf sep cur = true ->
  Forall (fun p => noneOf sep p = true) (Js.splitOn sep cur s).
Proof.
  induction s as [|c s IH]; intros cur Hcur; simpl.
  - constructor; [exact Hcur|constructor].
  - destruct (Ascii.eqb c sep) eqn:E.
    + constructor; [exact Hcur|]. apply IH. reflexivity.
    + apply IH. rewrite noneOf_app, Hcur. unfold noneOf. simpl.
      now rewrite E.
Qed.

Lemma filter_all {A} (f : A -> bool) l :
  Forall (fun x => f x = true) l -> List.filter f l = l.
Proof.
  induction 1 as [|x l Hx _ IH]; simpl; [reflexivity|].
  now rewrite Hx, IH.
Qed.

End PathFacts.

(** X5. [cfg.get] of the dotted form of a key path follows that key
    path, when no segment is empty or holds a dot; the empty path gives
    the whole configuration.  The path [cfg.get] follows never has an
    empty segment or a segment with a dot, so a property whose own key
    holds a dot (an escaped dot of a rule key) is not reached through
    it. *)
Theorem X5_get_follows_the_dotted_path :
  (forall obj segs,
      Forall (fun s => s <> "" /\ Terms.noneOf "." s = true) segs ->
      Resolver.getByPath obj (Js.join "." segs) = Util.getDeep obj segs)
  /\ (forall obj, Resolver.getByPath obj "" = Some obj)
  /\ (forall obj p,
         exists segs,
           Resolver.getByPath obj p = Util.getDeep obj segs
           /\ Forall (fun s => s <> "" /\ Terms.noneOf "." s = true) segs).
Proof.
  split; [|split].
  - intros obj segs Hall. unfold Resolver.getByPath.
    destruct segs as [|p rest]; [reflexivity|].
    change "."%string with (String "."%char "").
    rewrite splitOn_join.
    + rewrite append_nil_l. simpl hd. simpl tl.
      rewrite filter_all; [reflexivity|].
      eapply List.Forall_impl; [|exact Hall].
      intros s [Hs _]. apply negb_true_iff. now apply String.eqb_neq.
    + eapply List.Forall_impl; [|exact Hall]. now intros s [_ Hs].
    + discriminate.
  - reflexivity.
  - intros obj p. eexists. split; [reflexivity|].
    pose proof (splitOn_pieces "."%char p "" eq_refl) as Hp.
    induction Hp as [|s l Hs _ IH]; simpl; [constructor|].
    destruct (String.eqb s "") eqn:E; simpl; [exact IH|].
    constructor; [|exact IH]. split; [|exact Hs].
    now apply String.eqb_neq.
Qed.

Section SetDeepFacts.
Import Heap Value Util.

Lemma setProps_shape ps k rest v n :
  exists w, fst (setProps ps (k :: rest) v n) = propSet ps k w
            /\ (rest = [] -> w = v)
            /\ (forall k2 r, rest = k2 :: r ->
                  match propGet ps k with
                  | Some (VObj id sub) =>
                      w = VObj id (fst (setProps sub rest v n))
                  | _ => w = VObj n (fst (setProps [] rest v (S n)))
                  end).
Proof.
  destruct rest as [|k2 r].
  - exists v. simpl. split; [reflexivity|]. split; [reflexivity|discriminate].
  - rewrite setProps_step.
    destruct (propGet ps k) as [[| | | | |id sub]|] eqn:E;
      rewrite !bind_run; simpl;
      eexists; (split; [reflexivity|]); (split; [discriminate|]);
      intros ? ? _; reflexivity.
Qed.

Lemma setProps_keys ps k rest v n :
  map fst (fst (setProps ps (k :: rest) v n))
  = if Js.mapHas ps k then map fst ps else map fst ps ++ [k].
Proof.
  destruct (setProps_shape ps k rest v n) as (w & -> & _).
  unfold propSet, Js.mapHas.
  destruct (Js.mapGet ps k) eqn:E.
  - apply mapSet_keys_in. congruence.
  - apply mapSet_keys_new. exact E.
Qed.

End SetDeepFacts.

(** X6. For a path without the segment __proto__ (an assignment to
    that name sets or ignores the prototype of the object, which the
    properties modelled here do not hold): [setDeep] then [getDeep] on a
    non-empty path of a plain object
    gives the value set, and paths that start with another key read what
    they read before.  The empty path changes nothing.  The object keeps
    its identity and the order of its keys, a new key that is not an
    array index coming last.  Where
    the path goes through a property that is not a plain object (a scalar
    or an array), that property is replaced by a new object holding the
    rest of the path only. *)
Theorem X6_setDeep_getDeep :
  (forall out path v n,
      Terms.plainPath path = true ->
      Value.isPlainObject out = true -> path <> [] ->
      Util.getDeep (fst (Util.setDeep out path v n)) path = Some v)
  /\ (forall out k rest k' rest' v n,
         Terms.plainPath (k :: rest) = true ->
         Value.isPlainObject out = true -> k <> k' ->
         Util.getDeep (fst (Util.setDeep out (k :: rest) v n)) (k' :: rest')
         = Util.getDeep out (k' :: rest'))
  /\ (forall out v n, Util.setDeep out [] v n = (out, n))
  /\ (forall id ps k rest v n,
         Terms.plainPath (k :: rest) = true ->
         Value.arrayIndex k = None ->
         exists ps',
           fst (Util.setDeep (Value.VObj id ps) (k :: rest) v n)
           = Value.VObj id ps'
           /\ map fst ps'
              = if Js.mapHas ps k then map fst ps else map fst ps ++ [k])
  /\ (forall id ps k k2 rest e v n,
         Terms.plainPath (k :: k2 :: rest) = true ->
         Value.propGet ps k = Some e ->
         Value.isPlainObject e = false ->
         exists sub,
           Util.getDeep
             (fst (Util.setDeep (Value.VObj id ps) (k :: k2 :: rest) v n)) [k]
           = Some (Value.VObj n sub)
           /\ map fst sub = [k2]).
Proof.
  split; [|split; [|split; [|split]]].
  - intros out path v n _ Hobj Hne. now apply setDeep_get.
  - intros out k rest k' rest' v n _ Hobj Hne.
    destruct out as [| | | | |id ps]; try discriminate.
    unfold Util.setDeep. rewrite bind_run. unfold Heap.ret. cbn [fst].
    destruct (setProps_shape ps k rest v n) as (w & -> & _).
    cbn [Util.getDeep]. unfold Value.propGet, Value.propSet.
    now rewrite (mapGet_mapSet_ne _ _ _ _ Hne).
  - intros out v n. destruct out; reflexivity.
  - intros id ps k rest v n _ _. eexists.
    unfold Util.setDeep. rewrite bind_run. unfold Heap.ret. cbn [fst].
    split; [reflexivity|]. apply setProps_keys.
  - intros id ps k k2 rest e v n _ He Hobj.
    unfold Util.setDeep. rewrite bind_run. unfold Heap.ret. cbn [fst].
    destruct (setProps_shape ps k (k2 :: rest) v n) as (w & -> & _ & Hw).
    specialize (Hw k2 rest eq_refl). rewrite He in Hw.
    cbn [Util.getDeep]. unfold Value.propGet at 1, Value.propSet.
    rewrite mapGet_mapSet_eq.
    exists (fst (Util.setProps [] (k2 :: rest) v (S n))).
    split.
    + destruct e; try discriminate; now rewrite Hw.
    + now rewrite setProps_keys.
Qed.

Section MergeFacts.
Import Heap Value Util.









End MergeFacts.


(** ** Placeholders *)

Section ShapeFacts.
Import Heap Value Warn Strings Terms.

Lemma mapMS_cons {A B S} (f : A -> S -> M (B * S)) x r s :
  mapMS f (x :: r) s
  = (let* y := f x s in
     let* ys := mapMS f r (snd y) in
     ret (fst y :: fst ys, snd ys)).
Proof. reflexivity. Qed.








End ShapeFacts.


Section EnvFacts.
Import Heap Value Warn Strings Terms.

Variables (names : list string) (o o' : options).
Hypothesis Hsame : sameButEnv names o o'.

Lemma replacePlaceholder_env m e ws :
  replacePlaceholder o m e ws = replacePlaceholder o' m e ws.
Proof.
  destruct Hsame as (Hctx & Hvars & Hav & Hae & Hae' & Henv).
  unfold replacePlaceholder. rewrite Hctx, Hvars, Hav, Hae, Hae'.
  destruct (Js.startsWith "ENV:" (Js.trim e)); [|reflexivity].
  unfold blocked.
  destruct (existsb (String.eqb (Js.trim (Js.drop 4 (Js.trim e)))) names)
    eqn:E; cbn [negb]; [|reflexivity].
  apply List.existsb_exists in E. destruct E as (k & Hin & Hk).
  apply String.eqb_eq in Hk. subst k. now rewrite (Henv _ Hin).
Qed.

Lemma interpolate_env s ws : interpolate o s ws = interpolate o' s ws.
Proof.
  unfold interpolate. generalize ("", ws).
  induction (Js.scan placeholderAt 0 s) as [|p ps IH]; intros acc;
    [reflexivity|].
  simpl. rewrite <- IH. f_equal.
  destruct p as [c|m e]; simpl; [reflexivity|].
  now rewrite replacePlaceholder_env.
Qed.

Lemma mapMS_ext {A B S} (f g : A -> S -> M (B * S)) l :
  Forall (fun x => forall s n, f x s n = g x s n) l ->
  forall s n, mapMS f l s n = mapMS g l s n.
Proof.
  induction 1 as [|x r Hx _ IH]; intros s n; [reflexivity|].
  rewrite !mapMS_cons, !bind_run. rewrite Hx, IH. reflexivity.
Qed.

Lemma applyInterpolationDeep_env v : forall ws n,
  applyInterpolationDeep o v ws n = applyInterpolationDeep o' v ws n.
Proof.
  induction v as [|b|z|s|id items IH|id ps IH] using value_induction;
    intros ws n; try reflexivity.
  - simpl. now rewrite interpolate_env.
  - simpl. rewrite !bind_run. simpl.
    now rewrite (mapMS_ext _ _ items IH).
  - simpl. rewrite !bind_run. simpl.
    rewrite (mapMS_ext
               (fun (kv : string * value) ws =>
                  let* r := applyInterpolationDeep o (snd kv) ws in
                  ret ((fst kv, fst r), snd r))
               (fun (kv : string * value) ws =>
                  let* r := applyInterpolationDeep o' (snd kv) ws in
                  ret ((fst kv, fst r), snd r)) ps); [reflexivity|].
    eapply List.Forall_impl; [|exact IH]. intros kv Hkv s m.
    rewrite !bind_run. now rewrite Hkv.
Qed.

End EnvFacts.

(** X10. With an allow list of environment variables, the result of
    placeholder substitution (the tree and the warnings) depends on the
    environment through the allowed variables only: two environments
    that agree on the allowed names give the same result, whatever else
    they hold. *)
Theorem X10_blocked_environment_variables_do_not_leak :
  forall names o o',
    Terms.sameButEnv names o o' ->
    (forall s ws, Strings.interpolate o s ws = Strings.interpolate o' s ws)
    /\ (forall v ws n,
           Strings.applyInterpolationDeep o v ws n
           = Strings.applyInterpolationDeep o' v ws n).
Proof.
  intros names o o' H. split.
  - intros. eapply interpolate_env; eassumption.
  - intros. eapply applyInterpolationDeep_env; eassumption.
Qed.

Section SpanFacts.
Import Heap Value Warn Strings Terms Spec.

Lemma scan_skip {G} (rx : Js.matcher G) a : forall rest,
  Js.scan rx (String.length a) (a +:+ rest) = Js.scan rx 0 rest.
Proof.
  induction a as [|c a IH]; intros rest; [now rewrite append_nil_l|].
  rewrite append_cons. simpl. apply IH.
Qed.

Lemma placeholderAt_other c s :
  Ascii.eqb c dollar = false -> placeholderAt (String c s) = None.
Proof.
  intros H. unfold placeholderAt. destruct s as [|b r]; [reflexivity|].
  replace (Js.code c =? 36)%nat with false; [reflexivity|].
  symmetry. apply Nat.eqb_neq. intros E. apply Ascii.eqb_neq in H. apply H.
  unfold Js.code in E. rewrite <- (ascii_nat_embedding c), E. reflexivity.
Qed.

Lemma scan_literal lit : forall rest,
  noneOf dollar lit = true ->
  Js.scan placeholderAt 0 (lit +:+ rest)
  = literals lit ++ Js.scan placeholderAt 0 rest.
Proof.
  induction lit as [|c lit IH]; intros rest H; [now rewrite append_nil_l|].
  unfold noneOf in H. simpl in H. apply andb_true_iff in H.
  destruct H as [Hc Hlit]. apply negb_true_iff in Hc.
  rewrite append_cons. cbn [Js.scan].
  rewrite (placeholderAt_other _ _ Hc). unfold literals. simpl.
  f_equal. now apply IH.
Qed.

Lemma span_free (p : ascii -> bool) a : forall c rest,
  forallb p (list_ascii_of_string a) = true -> p c = false ->
  Js.span p (a +:+ String c rest) = (a, String c rest).
Proof.
  induction a as [|x a IH]; intros c rest Ha Hc.
  - rewrite append_nil_l. simpl. now rewrite Hc.
  - simpl in Ha. apply andb_true_iff in Ha. destruct Ha as [Hx Ha].
    rewrite append_cons. simpl. rewrite Hx, (IH _ _ Ha Hc). reflexivity.
Qed.

Lemma forallb_same {A} (f g : A -> bool) l :
  (forall x, f x = g x) -> forallb f l = forallb g l.
Proof. intros H. induction l as [|x l IH]; simpl; [|rewrite H, IH]; reflexivity. Qed.

Lemma isCloseBrace_eqb c : isCloseBrace c = Ascii.eqb c closeBrace.
Proof. destruct c as [[] [] [] [] [] [] [] []]; reflexivity. Qed.

Lemma placeholderAt_span e rest :
  e <> "" -> noneOf closeBrace e = true ->
  placeholderAt (spanText e +:+ rest)
  = Some (e, S (S (S (String.length e)))).
Proof.
  intros Hne He. unfold spanText. rewrite !append_cons.
  unfold placeholderAt. simpl Nat.eqb. cbn [andb].
  rewrite append_assoc, append_cons, append_nil_l.
  rewrite span_free.
  - destruct e; [contradiction|]. f_equal. f_equal. simpl. f_equal. lia.
  - unfold noneOf in He. rewrite <- He. apply forallb_same.
    intros c. now rewrite isCloseBrace_eqb.
  - reflexivity.
Qed.

Lemma scan_span e rest :
  e <> "" -> noneOf closeBrace e = true ->
  Js.scan placeholderAt 0 (spanText e +:+ rest)
  = Js.Match (spanText e) e :: Js.scan placeholderAt 0 rest.
Proof.
  intros Hne He.
  pose proof (placeholderAt_span e rest Hne He) as Hat.
  assert (Hlen : String.length (spanText e) = S (S (S (String.length e)))).
  { unfold spanText. simpl. rewrite length_append. simpl. lia. }
  remember (spanText e +:+ rest) as s eqn:Es.
  assert (Hs : exists c s', s = String c s'
                            /\ s' = Js.drop 1 (spanText e) +:+ rest).
  { subst s. unfold spanText. rewrite append_cons. eexists _, _.
    split; reflexivity. }
  destruct Hs as (c & s' & Hs & Hs'). rewrite Hs. cbn [Js.scan].
  rewrite <- Hs, Hat. f_equal.
  - f_equal. rewrite Es, <- Hlen. apply substring_prefix.
  - rewrite Hs'.
    replace (S (S (String.length e)))
      with (String.length (Js.drop 1 (spanText e))).
    + apply scan_skip.
    + unfold spanText. simpl. rewrite length_append. simpl. lia.
Qed.

Lemma concat_literals o lit :
  concat (map (pieceOut o) (literals lit)) = lit.
Proof.
  induction lit as [|c lit IH]; [reflexivity|].
  unfold literals in *. simpl. rewrite IH. reflexivity.
Qed.

Lemma warn_literals o lit : flat_map (pieceWarn o) (literals lit) = [].
Proof.
  induction lit as [|c lit IH]; [reflexivity|].
  unfold literals in *. simpl. exact IH.
Qed.

Lemma concat_app l1 l2 : concat (l1 ++ l2) = concat l1 +:+ concat l2.
Proof.
  induction l1 as [|x l1 IH]; simpl; [now rewrite append_nil_l|].
  now rewrite IH, append_assoc.
Qed.

Lemma interpolate_span o lit e rest ws :
  noneOf dollar lit = true -> e <> "" -> noneOf closeBrace e = true ->
  interpolate o (lit +:+ spanText e +:+ rest) ws
  = (lit +:+ fst (replacePlaceholder o (spanText e) e [])
         +:+ fst (interpolate o rest []),
     ws ++ snd (replacePlaceholder o (spanText e) e [])
        ++ snd (interpolate o rest [])).
Proof.
  intros Hlit Hne He.
  rewrite !interpolate_pieces. unfold placeholders.
  rewrite (scan_literal _ _ Hlit), (scan_span _ _ Hne He).
  rewrite List.map_app, concat_app, concat_literals.
  rewrite List.flat_map_app, warn_literals. simpl. reflexivity.
Qed.

Lemma interpolate_literal o lit ws :
  noneOf dollar lit = true -> interpolate o lit ws = (lit, ws).
Proof.
  intros Hlit. rewrite interpolate_pieces. unfold placeholders.
  rewrite <- (append_nil_r lit) at 1 2.
  rewrite (scan_literal _ _ Hlit). simpl. rewrite List.app_nil_r.
  rewrite concat_literals, warn_literals. now rewrite List.app_nil_r.
Qed.

End SpanFacts.

(** X11. [interpolate] works span by span, left to right: text with no
    dollar sign is copied, and a span is replaced by what the callback
    gives for it, whatever surrounds it; its warnings come after the
    ones before and before the ones of the rest.  For an [ENV:] span
    that the allow list lets through, and whose name is not one of the
    members every object inherits (toString, constructor and the like,
    which the lookup would find), the value is the one of the [env]
    option when it has the name, else the one of the process
    environment, else the empty string, with no warning; a span of no
    known form gives the empty string and an [unknown_interpolation]
    warning. *)
Theorem X11_interpolation_span_by_span :
  (forall o lit ws,
      Terms.noneOf Spec.dollar lit = true ->
      Strings.interpolate o lit ws = (lit, ws))
  /\ (forall o lit e rest ws,
         Terms.noneOf Spec.dollar lit = true ->
         e <> "" ->
         Terms.noneOf Spec.closeBrace e = true ->
         Strings.interpolate o (lit +:+ Spec.spanText e +:+ rest) ws
         = (lit +:+ fst (Strings.replacePlaceholder o (Spec.spanText e) e [])
                +:+ fst (Strings.interpolate o rest []),
            ws ++ snd (Strings.replacePlaceholder o (Spec.spanText e) e [])
               ++ snd (Strings.interpolate o rest [])))
  /\ (forall o m e,
         Js.startsWith "ENV:" (Js.trim e) = true ->
         Strings.blocked (Strings.allowedEnvVars o)
           (Js.trim (Js.drop 4 (Js.trim e))) = false ->
         Terms.inherited (Js.trim (Js.drop 4 (Js.trim e))) = false ->
         Strings.replacePlaceholder o m e []
         = (match Strings.env o with
            | Some given =>
                match given !! Js.trim (Js.drop 4 (Js.trim e)) with
                | Some v => v
                | None =>
                    default ""
                      (Strings.processEnv o !! Js.trim (Js.drop 4 (Js.trim e)))
                end
            | None =>
                default ""
                  (Strings.processEnv o !! Js.trim (Js.drop 4 (Js.trim e)))
            end, []))
  /\ (forall o m e,
         Js.startsWith "ENV:" (Js.trim e) = false ->
         Js.startsWith "VAR:" (Js.trim e) = false ->
         Js.startsWith "ctx." (Js.trim e) = false ->
         Strings.RX_SECRET_PROVIDER (Js.trim e) = false ->
         Strings.replacePlaceholder o m e []
         = ("", [Warn.unknown_interpolation m])).
Proof.
  split; [intros; now apply interpolate_literal|].
  split; [intros; now apply interpolate_span|].
  split.
  - intros o m e Henv Hb _. unfold Strings.replacePlaceholder.
    rewrite Henv, Hb. unfold Strings.envSource.
    destruct (Strings.env o) as [given|]; [|reflexivity].
    rewrite lookup_union.
    destruct (given !! _); destruct (Strings.processEnv o !! _); reflexivity.
  - intros o m e H1 H2 H3 H4. unfold Strings.replacePlaceholder.
    now rewrite H1, H2, H3, H4.
Qed.

(** ** The secret cache, allow lists and the visit of the references *)

Section CacheMore.
Import Secrets Spec Terms.

Lemma mapDelete_keys_subset {V} (m : Js.omap V) k x :
  In x (map fst (Js.mapDelete m k)) -> In x (map fst m).
Proof.
  induction m as [|[k' v'] r IH]; simpl; [tauto|].
  destruct (String.eqb k' k); simpl; tauto.
Qed.

Lemma mapDelete_NoDup {V} (m : Js.omap V) k :
  List.NoDup (map fst m) -> List.NoDup (map fst (Js.mapDelete m k)).
Proof.
  induction m as [|[k' v'] r IH]; simpl; intros H; [exact H|].
  apply List.NoDup_cons_iff in H. destruct H as [Hk Hr].
  destruct (String.eqb k' k); [exact Hr|]. simpl.
  apply List.NoDup_cons_iff. split; [|now apply IH].
  intros Hin. apply Hk. eapply mapDelete_keys_subset. exact Hin.
Qed.

Lemma mapDelete_length {V} (m : Js.omap V) k :
  length (Js.mapDelete m k)
  = if Js.mapHas m k then length m - 1 else length m.
Proof.
  unfold Js.mapHas. induction m as [|[k' v'] r IH]; simpl; [reflexivity|].
  destruct (String.eqb k' k); simpl; [lia|].
  rewrite IH. destruct (Js.mapGet r k) eqn:E; [|reflexivity].
  destruct r; [discriminate|]. simpl. lia.
Qed.

Lemma mapSet_length {V} (m : Js.omap V) k v :
  length (Js.mapSet m k v)
  = if Js.mapHas m k then length m else S (length m).
Proof.
  unfold Js.mapHas. induction m as [|[k' v'] r IH]; simpl; [reflexivity|].
  destruct (String.eqb k' k); simpl; [reflexivity|].
  rewrite IH. destruct (Js.mapGet r k); reflexivity.
Qed.

Lemma mapHas_mapDelete {V} (m : Js.omap V) k :
  List.NoDup (map fst m) -> Js.mapHas (Js.mapDelete m k) k = false.
Proof.
  intros H. unfold Js.mapHas. now rewrite (mapGet_mapDelete_eq _ _ H).
Qed.

Lemma get_set c now k v ttl now' :
  fst (get (set c now k v ttl) now' k)
  = if (now + ttl <? now')%Z then None else Some v.
Proof.
  unfold get, set. cbn [cache maxSize]. rewrite mapGet_mapSet_eq.
  cbn [e_expires e_value]. destruct (now + ttl <? now')%Z; reflexivity.
Qed.

Lemma get_absent c now k :
  Js.mapGet (cache c) k = None -> get c now k = (None, c).
Proof. intros H. unfold get. now rewrite H. Qed.

Lemma get_expired c now k e :
  List.NoDup (cacheKeys c) ->
  Js.mapGet (cache c) k = Some e -> (e_expires e < now)%Z ->
  fst (get c now k) = None
  /\ Js.mapGet (cache (snd (get c now k))) k = None
  /\ (forall k', k' <> k ->
                 Js.mapGet (cache (snd (get c now k))) k'
                 = Js.mapGet (cache c) k').
Proof.
  intros Hnd He Hlt. unfold get. rewrite He.
  replace (e_expires e <? now)%Z with true by (symmetry; now apply Z.ltb_lt).
  cbn [fst snd cache]. split; [reflexivity|].
  split; [now apply mapGet_mapDelete_eq|].
  intros k' Hk'. apply mapGet_mapDelete_ne. congruence.
Qed.

Lemma set_ok c now k v ttl :
  1 <= maxSize c -> cacheOk c -> cacheOk (set c now k v ttl).
Proof.
  intros Hmax [Hnd Hlen]. unfold cacheOk, cacheKeys, set in *.
  cbn [cache maxSize].
  destruct (maxSize c <=? length (cache c))%nat eqn:Efull.
  - apply Nat.leb_le in Efull.
    destruct (cache c) as [|[k0 e0] rest] eqn:Ec; [simpl in Efull; lia|].
    cbn [firstKey]. simpl Js.mapDelete. rewrite String.eqb_refl.
    simpl in Hnd. apply List.NoDup_cons_iff in Hnd. destruct Hnd as [_ Hnd].
    split; [now apply mapSet_NoDup|].
    rewrite mapSet_length. simpl in Hlen.
    destruct (Js.mapHas rest k); lia.
  - apply Nat.leb_gt in Efull.
    split; [now apply mapSet_NoDup|].
    rewrite mapSet_length. destruct (Js.mapHas (cache c) k); lia.
Qed.

Lemma get_ok c now k : cacheOk c -> cacheOk (snd (get c now k)).
Proof.
  intros [Hnd Hlen]. unfold cacheOk, cacheKeys, get in *.
  destruct (Js.mapGet (cache c) k) as [e|] eqn:E; [|split; assumption].
  assert (Hhas : Js.mapHas (cache c) k = true)
    by (unfold Js.mapHas; now rewrite E).
  pose proof (mapDelete_length (cache c) k) as Hdel. rewrite Hhas in Hdel.
  assert (Hpos : 1 <= length (cache c))
    by (destruct (cache c); [discriminate|simpl; lia]).
  destruct (e_expires e <? now)%Z; cbn [snd cache maxSize].
  - split; [now apply mapDelete_NoDup|lia].
  - split; [apply mapSet_NoDup; now apply mapDelete_NoDup|].
    rewrite mapSet_length, (mapHas_mapDelete _ _ Hnd). lia.
Qed.

Lemma filter_NoDup_keys {V} (f : string * V -> bool) (m : Js.omap V) :
  List.NoDup (map fst m) -> List.NoDup (map fst (List.filter f m)).
Proof.
  induction m as [|kv r IH]; simpl; intros H; [exact H|].
  apply List.NoDup_cons_iff in H. destruct H as [Hk Hr].
  destruct (f kv); [|now apply IH]. simpl.
  apply List.NoDup_cons_iff. split; [|now apply IH].
  intros Hin. apply Hk. apply List.in_map_iff in Hin.
  destruct Hin as (x & Hx & Hin). apply List.filter_In in Hin.
  apply List.in_map_iff. exists x. tauto.
Qed.

Lemma invalidate_ok c pattern : cacheOk c -> cacheOk (invalidate c pattern).
Proof.
  intros [Hnd Hlen]. unfold cacheOk, cacheKeys, invalidate in *.
  destruct pattern as [[|a p]|]; cbn [cache maxSize];
    try (split; [constructor|simpl; lia]).
  split; [now apply filter_NoDup_keys|].
  pose proof (List.filter_length_le
                (fun kv => negb (globTest (String a p) (fst kv))) (cache c)).
  lia.
Qed.

Lemma set_existing_in_full_cache c now k v ttl k0 e0 rest :
  cache c = (k0, e0) :: rest ->
  maxSize c <= length (cache c) ->
  In k (map fst rest) ->
  cacheKeys (set c now k v ttl) = map fst rest.
Proof.
  intros Hc Hfull Hk. unfold cacheKeys, set. cbn [cache].
  replace (maxSize c <=? length (cache c))%nat with true
    by (symmetry; now apply Nat.leb_le).
  rewrite Hc. cbn [firstKey]. simpl Js.mapDelete. rewrite String.eqb_refl.
  apply mapSet_keys_in. intros E. exact (mapGet_None_notin _ _ E Hk).
Qed.

End CacheMore.

(** X12. A value set with a time to live is read back until the time
    to live has elapsed, the instant of expiry included, and no longer
    afterwards, whatever the cache held.  A read of an absent key gives
    nothing and leaves the cache as it is; a read of an expired entry
    gives nothing and removes that entry, and no other. *)
Theorem X12_cache_entries_live_for_their_ttl :
  (forall c now k v ttl now',
      fst (Secrets.get (Secrets.set c now k v ttl) now' k)
      = if (now + ttl <? now')%Z then None else Some v)
  /\ (forall c now k,
         Js.mapGet (Secrets.cache c) k = None ->
         Secrets.get c now k = (None, c))
  /\ (forall c now k e,
         List.NoDup (Spec.cacheKeys c) ->
         Js.mapGet (Secrets.cache c) k = Some e ->
         (Secrets.e_expires e < now)%Z ->
         fst (Secrets.get c now k) = None
         /\ Js.mapGet (Secrets.cache (snd (Secrets.get c now k))) k = None
         /\ (forall k', k' <> k ->
                Js.mapGet (Secrets.cache (snd (Secrets.get c now k))) k'
                = Js.mapGet (Secrets.cache c) k')).
Proof.
  split; [exact get_set|]. split; [exact get_absent|exact get_expired].
Qed.

(** X13. A cache of capacity at least one holds every key once and
    never more entries than its capacity: a new cache does, and [set],
    [get] and [invalidate] keep it so.  Setting a key that the full
    cache already holds still evicts the first entry, so the cache
    shrinks by one entry. *)
Theorem X13_cache_stays_within_capacity :
  (forall maxSize, Terms.cacheOk (Secrets.newCache maxSize))
  /\ (forall c now k v ttl,
         1 <= Secrets.maxSize c -> Terms.cacheOk c ->
         Terms.cacheOk (Secrets.set c now k v ttl))
  /\ (forall c now k,
         Terms.cacheOk c -> Terms.cacheOk (snd (Secrets.get c now k)))
  /\ (forall c pattern,
         Terms.cacheOk c -> Terms.cacheOk (Secrets.invalidate c pattern))
  /\ (forall c now k v ttl k0 e0 rest,
         Secrets.cache c = (k0, e0) :: rest ->
         Secrets.maxSize c <= length (Secrets.cache c) ->
         In k (map fst rest) ->
         Spec.cacheKeys (Secrets.set c now k v ttl) = map fst rest).
Proof.
  split; [intros; split; [constructor|simpl; lia]|].
  split; [exact set_ok|]. split; [exact get_ok|].
  split; [exact invalidate_ok|exact set_existing_in_full_cache].
Qed.

Section GlobFacts.
Import Secrets Spec Terms.

Lemma isStar_eqb c : isStar c = Ascii.eqb c star.
Proof. destruct c as [[] [] [] [] [] [] [] []]; reflexivity. Qed.

Lemma globTest_nil s : globTest "" s = true <-> s = "".
Proof. destruct s; simpl; split; intros H; try reflexivity; discriminate. Qed.

Lemma globTest_char c p s :
  isStar c = false ->
  globTest (String c p) s
  = match s with
    | String d s' => Ascii.eqb c d && globTest p s'
    | EmptyString => false
    end.
Proof. intros H. simpl. rewrite H. reflexivity. Qed.

Lemma globTest_star c p s :
  isStar c = true ->
  globTest (String c p) s
  = globTest p s
    || match s with
       | String d s' =>
           negb (Js.isLineTerminator d) && globTest (String c p) s'
       | EmptyString => false
       end.
Proof. intros H. simpl. rewrite H. destruct s; reflexivity. Qed.

Lemma globTest_literal p : forall s,
  noneOf star p = true -> (globTest p s = true <-> s = p).
Proof.
  induction p as [|c p IH]; intros s Hp; [apply globTest_nil|].
  unfold noneOf in Hp. simpl in Hp. apply andb_true_iff in Hp.
  destruct Hp as [Hc Hp]. apply negb_true_iff in Hc.
  rewrite globTest_char by (now rewrite isStar_eqb).
  destruct s as [|d s]; [split; discriminate|].
  rewrite andb_true_iff, (IH s Hp). split.
  - intros [E ->]. apply Ascii.eqb_eq in E. now subst d.
  - intros E. injection E as -> ->. split; [apply Ascii.eqb_refl|reflexivity].
Qed.

Lemma globTest_any s : globTest (String star "") s = oneLine s.
Proof.
  induction s as [|d s IH]; [reflexivity|].
  rewrite globTest_star by reflexivity.
  rewrite IH. unfold oneLine. simpl. reflexivity.
Qed.

Lemma globTest_prefix p : forall s,
  noneOf star p = true ->
  (globTest (p +:+ String star "") s = true
   <-> exists rest, s = p +:+ rest /\ oneLine rest = true).
Proof.
  induction p as [|c p IH]; intros s Hp.
  - rewrite append_nil_l, globTest_any. split.
    + intros H. exists s. now rewrite append_nil_l.
    + intros (rest & -> & H). now rewrite append_nil_l.
  - unfold noneOf in Hp. simpl in Hp. apply andb_true_iff in Hp.
    destruct Hp as [Hc Hp]. apply negb_true_iff in Hc.
    rewrite append_cons, globTest_char by (now rewrite isStar_eqb).
    destruct s as [|d s].
    + split; [discriminate|]. intros (rest & E & _).
      rewrite append_cons in E. discriminate.
    + rewrite andb_true_iff, (IH s Hp). split.
      * intros [E (rest & -> & H)]. apply Ascii.eqb_eq in E. subst d.
        exists rest. now rewrite append_cons.
      * intros (rest & E & H). rewrite append_cons in E.
        injection E as -> ->. split; [apply Ascii.eqb_refl|].
        now exists rest.
Qed.

Lemma mapGet_filter_keys {V} (f : string -> bool) (m : Js.omap V) k :
  Js.mapGet (List.filter (fun kv => f (fst kv)) m) k
  = if f k then Js.mapGet m k else None.
Proof.
  induction m as [|[k' v'] r IH]; simpl; [now destruct (f k)|].
  destruct (String.eqb k' k) eqn:E.
  - apply String.eqb_eq in E. subst k'.
    destruct (f k) eqn:Ef; simpl.
    + now rewrite String.eqb_refl.
    + exact IH.
  - destruct (f k'); simpl; [rewrite E|]; exact IH.
Qed.

End GlobFacts.

(** X14. A glob pattern is literal but for its stars: a pattern with no
    star matches itself and nothing else, the pattern of one star
    matches every string with no line terminator, and a star-free prefix
    followed by a star matches the strings that start with the prefix
    and go on with no line terminator.  [invalidate] with no pattern or
    the empty pattern empties the cache; with a pattern it removes the
    entries whose key the pattern matches and leaves the others as they
    are. *)
Theorem X14_invalidate_by_glob_pattern :
  (forall p s,
      Terms.noneOf Terms.star p = true ->
      (Secrets.globTest p s = true <-> s = p))
  /\ (forall s, Secrets.globTest "*" s = Terms.oneLine s)
  /\ (forall p s,
         Terms.noneOf Terms.star p = true ->
         (Secrets.globTest (p +:+ "*") s = true
          <-> exists rest, s = p +:+ rest /\ Terms.oneLine rest = true))
  /\ (forall c,
         Secrets.invalidate c None = Secrets.newCache (Secrets.maxSize c)
         /\ Secrets.invalidate c (Some "")
            = Secrets.newCache (Secrets.maxSize c))
  /\ (forall c p k,
         p <> "" ->
         Js.mapGet (Secrets.cache (Secrets.invalidate c (Some p))) k
         = if Secrets.globTest p k then None
           else Js.mapGet (Secrets.cache c) k).
Proof.
  split; [exact globTest_literal|]. split; [exact globTest_any|].
  split; [exact globTest_prefix|]. split; [intros c; split; reflexivity|].
  intros c p k Hp. destruct p as [|a p]; [contradiction|].
  unfold Secrets.invalidate. cbn [Secrets.cache].
  rewrite (mapGet_filter_keys
             (fun key => negb (Secrets.globTest (String a p) key))).
  now destruct (Secrets.globTest (String a p) k).
Qed.


Section AllowFacts.
Import Secrets Spec Terms.

Lemma includes_colon s : Js.includes ":" s = negb (noneOf colon s).
Proof.
  induction s as [|c s IH]; [reflexivity|].
  cbn [Js.includes]. rewrite IH. unfold noneOf. cbn [list_ascii_of_string forallb].
  rewrite negb_andb, negb_involutive. f_equal.
  cbn [String.prefix]. destruct (ascii_dec ":" c) as [E|E].
  - subst c. now destruct s.
  - symmetry. apply Ascii.eqb_neq. intros E'. apply E. now rewrite E'.
Qed.

Lemma splitOn_whole sep a cur :
  noneOf sep a = true -> Js.splitOn sep cur a = [cur +:+ a].
Proof.
  intros H. rewrite <- (append_nil_r a) at 1.
  now rewrite (splitOn_free _ _ _ _ H).
Qed.

Lemma keyOnly_key provider key :
  noneOf colon provider = true -> noneOf colon key = true ->
  keyOnly (provider +:+ ":" +:+ key) = key.
Proof.
  intros Hp Hk. unfold keyOnly.
  change ":"%string with (String colon "").
  rewrite (splitOn_free _ _ _ _ Hp), append_nil_l, append_cons, append_nil_l.
  rewrite splitOn_sep, (splitOn_whole _ _ _ Hk). now rewrite append_nil_l.
Qed.

Lemma keyOnly_first provider key more :
  noneOf colon provider = true -> noneOf colon key = true ->
  keyOnly (provider +:+ ":" +:+ key +:+ ":" +:+ more) = key.
Proof.
  intros Hp Hk. unfold keyOnly.
  change ":"%string with (String colon "").
  rewrite (splitOn_free _ _ _ _ Hp), append_nil_l, append_cons, append_nil_l.
  rewrite splitOn_sep, (splitOn_free _ _ _ _ Hk), append_nil_l.
  rewrite append_cons, append_nil_l, splitOn_sep. reflexivity.
Qed.

Lemma isAllowed_iff fullKey patterns :
  isAllowed fullKey (Some patterns) = true
  <-> exists pattern,
        In pattern patterns
        /\ (pattern = fullKey
            \/ globTest pattern fullKey = true
            \/ (noneOf colon pattern = true
                /\ globTest pattern (keyOnly fullKey) = true)).
Proof.
  unfold isAllowed. rewrite List.existsb_exists.
  split; intros (pattern & Hin & H); exists pattern; (split; [exact Hin|]).
  - apply orb_true_iff in H. destruct H as [H|H].
    + apply orb_true_iff in H. destruct H as [H|H]; [|tauto].
      left. now apply String.eqb_eq.
    + apply andb_true_iff in H. destruct H as [Hc Hg].
      rewrite includes_colon, negb_involutive in Hc. tauto.
  - destruct H as [->|[H|[Hc Hg]]].
    + now rewrite String.eqb_refl.
    + rewrite H. now rewrite orb_true_r.
    + rewrite includes_colon, Hc, Hg. simpl. apply orb_true_r.
Qed.

End AllowFacts.

(** X15. With no allow list every secret is allowed, with an empty one
    none.  A secret is allowed exactly when some pattern of the list is
    its full key, matches its full key as a glob, or has no colon and
    matches, as a glob, the part of the full key between its first and
    its second colon.  So a longer list allows at least as much, and a
    pattern with no colon that matches [key] allows [provider:key] and
    also every [provider:key:more]. *)
Theorem X15_allow_list_of_secrets :
  (forall fullKey, Secrets.isAllowed fullKey None = true)
  /\ (forall fullKey, Secrets.isAllowed fullKey (Some []) = false)
  /\ (forall fullKey patterns,
         Secrets.isAllowed fullKey (Some patterns) = true
         <-> exists pattern,
               In pattern patterns
               /\ (pattern = fullKey
                   \/ Secrets.globTest pattern fullKey = true
                   \/ (Terms.noneOf Terms.colon pattern = true
                       /\ Secrets.globTest pattern (Secrets.keyOnly fullKey)
                          = true)))
  /\ (forall fullKey patterns more,
         Secrets.isAllowed fullKey (Some patterns) = true ->
         (forall p, In p patterns -> In p more) ->
         Secrets.isAllowed fullKey (Some more) = true)
  /\ (forall provider key more pattern,
         Terms.noneOf Terms.colon provider = true ->
         Terms.noneOf Terms.colon key = true ->
         Terms.noneOf Terms.colon pattern = true ->
         Secrets.globTest pattern key = true ->
         Secrets.isAllowed (provider +:+ ":" +:+ key) (Some [pattern]) = true
         /\ Secrets.isAllowed (provider +:+ ":" +:+ key +:+ ":" +:+ more)
              (Some [pattern]) = true).
Proof.
  split; [reflexivity|]. split; [reflexivity|].
  split; [exact isAllowed_iff|]. split.
  - intros fullKey patterns more H Hincl.
    apply isAllowed_iff in H. destruct H as (pattern & Hin & H).
    apply isAllowed_iff. exists pattern. split; [now apply Hincl|exact H].
  - intros provider key more pattern Hp Hk Hpat Hg.
    split; apply isAllowed_iff; exists pattern;
      (split; [now left|]); right; right; (split; [exact Hpat|]).
    + now rewrite keyOnly_key.
    + now rewrite keyOnly_first.
Qed.

Section VisitFacts.
Import Secrets Spec Terms Warn.

Variable o : options.
Variable now : Z.
Variables provider key : string.

#[local] Abbreviation fullKey := (provider +:+ ":" +:+ key).

Lemma visitRef_blocked st count res :
  isAllowed fullKey (allowedSecrets o) = false ->
  untouched fullKey provider key st count res ->
  untouched fullKey provider key
    (visitRef o now st (fullKey, (provider, key))) count (Some "")
  /\ In (blocked_secret provider key)
        (st_warnings (visitRef o now st (fullKey, (provider, key)))).
Proof.
  intros Hb (Hc & Hr & Hp). unfold visitRef. rewrite Hb. cbn [negb].
  split; [split; [|split]|]; cbn [st_warnings st_resolved st_pending].
  - rewrite count_app. cbn [isUnknownProvider]. lia.
  - apply lookup_insert_eq.
  - exact Hp.
  - apply List.in_or_app. right. now left.
Qed.

Lemma get_other_hit c fk value :
  fk <> fullKey -> cacheHit (Some c) now fullKey value ->
  cacheHit (Some (snd (get c now fk))) now fullKey value.
Proof.
  intros Hne H. unfold cacheHit, get in *.
  destruct (Js.mapGet (cache c) fk) as [e|]; [|exact H].
  destruct (e_expires e <? now)%Z; cbn [snd cache].
  - now rewrite (mapGet_mapDelete_ne _ _ _ Hne).
  - now rewrite (mapGet_mapSet_ne _ _ _ _ Hne), (mapGet_mapDelete_ne _ _ _ Hne).
Qed.

Lemma visitRef_other_hit st e value :
  fst e <> fullKey ->
  cacheHit (st_cache st) now fullKey value ->
  cacheHit (st_cache (visitRef o now st e)) now fullKey value.
Proof.
  destruct e as [fk [p k]]. cbn [fst]. intros Hne H. unfold visitRef.
  destruct (negb (isAllowed fk (allowedSecrets o))); [exact H|].
  destruct (st_cache st) as [c|] eqn:Ec; [|contradiction].
  pose proof (get_other_hit c fk value Hne H) as H'.
  destruct (get c now fk) as [[v|] c']; cbn [snd] in H'.
  - exact H'.
  - destruct (registryOf o !! p); exact H'.
Qed.

Lemma visitRef_others_hit l : forall st value,
  Forall (fun e => fst e <> fullKey) l ->
  cacheHit (st_cache st) now fullKey value ->
  cacheHit (st_cache (fold_left (visitRef o now) l st)) now fullKey value.
Proof.
  induction l as [|e l IH]; intros st value Hl H; [exact H|].
  inversion Hl as [|? ? He Hl']; subst. simpl.
  apply IH; [exact Hl'|]. now apply visitRef_other_hit.
Qed.

Lemma visitRef_hit st count res value :
  isAllowed fullKey (allowedSecrets o) = true ->
  cacheHit (st_cache st) now fullKey value ->
  untouched fullKey provider key st count res ->
  untouched fullKey provider key
    (visitRef o now st (fullKey, (provider, key))) count (Some value).
Proof.
  intros Ha Hhit (Hc & Hr & Hp). unfold visitRef. rewrite Ha. cbn [negb].
  unfold cacheHit in Hhit.
  destruct (st_cache st) as [c|]; [|contradiction].
  unfold get. destruct (Js.mapGet (cache c) fullKey) as [e|]; [|contradiction].
  destruct Hhit as [Hlive <-].
  replace (e_expires e <? now)%Z with false
    by (symmetry; apply Z.ltb_ge; exact Hlive).
  split; [|split]; cbn [st_warnings st_resolved st_pending].
  - exact Hc.
  - apply lookup_insert_eq.
  - exact Hp.
Qed.

Lemma visitRef_keeps_warnings st e w :
  In w (st_warnings st) -> In w (st_warnings (visitRef o now st e)).
Proof.
  destruct e as [fk [p k]]. intros H. unfold visitRef.
  destruct (negb (isAllowed fk (allowedSecrets o)));
    [cbn [st_warnings]; apply List.in_or_app; now left|].
  destruct (match st_cache st with
            | Some c => let '(r, c') := get c now fk in (r, Some c')
            | None => (None, None)
            end) as [[v|] c']; [exact H|].
  destruct (registryOf o !! p); cbn [st_warnings]; [exact H|].
  apply List.in_or_app. now left.
Qed.

Lemma visited_keeps_warnings l : forall st w,
  In w (st_warnings st) ->
  In w (st_warnings (fold_left (visitRef o now) l st)).
Proof.
  induction l as [|e l IH]; intros st w H; [exact H|].
  simpl. apply IH. now apply visitRef_keeps_warnings.
Qed.

Lemma settle_keeps_warnings st f st' w :
  settle o now st f = inl st' ->
  In w (st_warnings st) -> In w (st_warnings st').
Proof.
  destruct f as [[[fk p] k] outcome]. unfold settle. intros Hs H.
  destruct outcome as [val|err].
  - injection Hs as <-. exact H.
  - destruct (isNotFound err); destruct (onNotFound o); try discriminate;
      injection Hs as <-; cbn [st_warnings]; apply List.in_or_app; now left.
Qed.

Lemma settleAll_keeps_warnings fs : forall st w,
  In w (st_warnings st) ->
  In w (st_warnings (fst (settleAll o now st fs))).
Proof.
  induction fs as [|f fs IH]; intros st w H; [exact H|].
  simpl. destruct (settle o now st f) as [st'|e] eqn:E; [|exact H].
  apply IH. eapply settle_keeps_warnings; eassumption.
Qed.

End VisitFacts.

Section SettleFacts.
Import Secrets Spec Terms Warn.

Lemma refs_split v fullKey provider key :
  In (fullKey, (provider, key)) (collectSecretRefs v []) ->
  fullKey = provider +:+ ":" +:+ key
  /\ RESERVED provider = false
  /\ exists before after,
       collectSecretRefs v [] = before ++ (fullKey, (provider, key)) :: after
       /\ Forall (fun e => fst e <> fullKey
                           /\ fst e = fst (snd e) +:+ ":" +:+ snd (snd e))
            before
       /\ Forall (fun e => fst e <> fullKey
                           /\ fst e = fst (snd e) +:+ ":" +:+ snd (snd e))
            after.
Proof.
  intros Hin.
  pose proof (collectSecretRefs_ok v []
                (conj (List.NoDup_nil _) (@List.Forall_nil _ _))) as [Hnd Hok].
  assert (Hentry : fullKey = provider +:+ ":" +:+ key
                   /\ RESERVED provider = false).
  { rewrite List.Forall_forall in Hok. exact (Hok _ Hin). }
  destruct Hentry as [Hk Hres]. split; [exact Hk|]. split; [exact Hres|].
  destruct (in_split _ _ Hin) as (before & after & Hrefs).
  exists before, after. split; [exact Hrefs|].
  rewrite Hrefs in Hnd, Hok.
  destruct (NoDup_split_keys _ _ _ _ Hnd) as [Hb Ha].
  apply List.Forall_app in Hok. destruct Hok as [Hokb Hoka].
  apply List.Forall_cons_iff in Hoka. destruct Hoka as [_ Hoka].
  split; rewrite List.Forall_forall in *; intros e He; split; auto;
    [now apply Hokb|now apply Hoka].
Qed.

Lemma applySecretsDeep_settled v o ws now n provider key count res :
  collectSecretRefs v [] <> [] ->
  untouched (provider +:+ ":" +:+ key) provider key (visited v o ws now)
    count res ->
  countUnknownProvider provider key
    (out_warnings (fst (applySecretsDeep v o ws now n))) = count
  /\ (forall w,
         In w (st_warnings (visited v o ws now)) ->
         In w (out_warnings (fst (applySecretsDeep v o ws now n))))
  /\ (forall v',
         returned (fst (applySecretsDeep v o ws now n)) = inl v' ->
         exists resolved,
           resolved !! (provider +:+ ":" +:+ key) = res
           /\ v' = fst (replaceSecrets resolved v n)).
Proof.
  intros Hne Hst1.
  pose proof (settleAll_others o now provider key
                (st_pending (visited v o ws now)) (visited v o ws now) _ _
                (proj2 (proj2 Hst1)) Hst1) as (Hc & Hr & _).
  pose proof (settleAll_keeps_warnings o now
                (st_pending (visited v o ws now)) (visited v o ws now)) as Hw.
  unfold applySecretsDeep.
  replace (length (collectSecretRefs v []) =? 0)%nat with false
    by (symmetry; apply Nat.eqb_neq; destruct (collectSecretRefs v []);
        [contradiction|discriminate]).
  fold (visited v o ws now).
  destruct (settleAll o now (visited v o ws now)
              (st_pending (visited v o ws now))) as [st2 [e|]];
    cbn [fst snd] in *.
  - cbn [Heap.ret fst out_warnings returned].
    split; [exact Hc|]. split; [exact Hw|]. intros v' Hv'. discriminate.
  - rewrite bind_run. cbn [Heap.ret fst out_warnings returned].
    split; [exact Hc|]. split; [exact Hw|].
    intros v' Hv'. injection Hv' as <-.
    exists (st_resolved st2). split; [exact Hr|reflexivity].
Qed.

End SettleFacts.

(** X16. A reference that the allow list does not let through never
    reaches a provider: no fetch is queued for it, whatever is
    registered; a [blocked_secret] warning for it is among the warnings
    of the call; and when the call returns a tree, every span of the
    reference is replaced by the empty string in it. *)
Theorem X16_blocked_secrets_are_never_fetched :
  forall v o ws now n fullKey provider key,
    In (fullKey, (provider, key)) (Secrets.collectSecretRefs v []) ->
    Secrets.isAllowed fullKey (Secrets.allowedSecrets o) = false ->
    Forall (fun f => Spec.pendingKey f <> fullKey)
      (Secrets.st_pending (Terms.visited v o ws now))
    /\ In (Warn.blocked_secret provider key)
          (Secrets.out_warnings (fst (Secrets.applySecretsDeep v o ws now n)))
    /\ (forall v',
           Secrets.returned (fst (Secrets.applySecretsDeep v o ws now n))
           = inl v' ->
           exists resolved,
             resolved !! fullKey = Some ""
             /\ v' = fst (Secrets.replaceSecrets resolved v n)
             /\ (forall m key',
                    Js.trim key' = key ->
                    Secrets.replaceSecret resolved (Js.Match m (provider, key'))
                    = "")).
Proof.
  intros v o ws now n fullKey provider key Hin Hblocked.
  destruct (refs_split _ _ _ _ Hin)
    as (HfullKey & Hres & before & after & Hrefs & Hb & Ha).
  subst fullKey.
  set (st0 := {| Secrets.st_warnings := ws;
                 Secrets.st_cache := Secrets.cacheOpt o;
                 Secrets.st_resolved := ∅; Secrets.st_pending := [] |}).
  assert (H0 : Spec.untouched (provider +:+ ":" +:+ key) provider key st0
                 (Spec.countUnknownProvider provider key ws) None).
  { repeat split; try constructor. }
  destruct (visitRef_others o now provider key before st0 _ _ Hb H0) as [H1 _].
  destruct (visitRef_blocked o now provider key _ _ _ Hblocked H1) as [H2 Hw].
  destruct (visitRef_others o now provider key after _ _ _ Ha H2) as [H3 _].
  assert (Hst1 : Spec.untouched (provider +:+ ":" +:+ key) provider key
                   (Terms.visited v o ws now)
                   (Spec.countUnknownProvider provider key ws) (Some "")).
  { unfold Terms.visited. rewrite Hrefs, fold_left_app. exact H3. }
  assert (Hw1 : In (Warn.blocked_secret provider key)
                   (Secrets.st_warnings (Terms.visited v o ws now))).
  { unfold Terms.visited. rewrite Hrefs, fold_left_app. cbn [fold_left].
    apply visited_keeps_warnings. exact Hw. }
  assert (Hne : Secrets.collectSecretRefs v [] <> []).
  { rewrite Hrefs. now destruct before. }
  destruct (applySecretsDeep_settled v o ws now n provider key _ _ Hne Hst1)
    as (_ & Hkeep & Hret).
  split; [exact (proj2 (proj2 Hst1))|]. split; [now apply Hkeep|].
  intros v' Hv'. destruct (Hret v' Hv') as (resolved & Hr & ->).
  exists resolved. split; [exact Hr|]. split; [reflexivity|].
  intros m key' Hk. now apply (replaceSecret_resolved_empty provider key).
Qed.

(** X17. A reference that the allow list lets through and the cache
    holds, not expired, is served from the cache: no fetch is queued for
    it and no [unknown_provider] warning is recorded for it, whether or
    not a provider is registered for its prefix; and when the call
    returns a tree, the reference is resolved to the cached value. *)
Theorem X17_cached_secrets_are_not_fetched_again :
  forall v o ws now n fullKey provider key value,
    In (fullKey, (provider, key)) (Secrets.collectSecretRefs v []) ->
    Secrets.isAllowed fullKey (Secrets.allowedSecrets o) = true ->
    Terms.cacheHit (Secrets.cacheOpt o) now fullKey value ->
    Forall (fun f => Spec.pendingKey f <> fullKey)
      (Secrets.st_pending (Terms.visited v o ws now))
    /\ Spec.countUnknownProvider provider key
         (Secrets.out_warnings (fst (Secrets.applySecretsDeep v o ws now n)))
       = Spec.countUnknownProvider provider key ws
    /\ (forall v',
           Secrets.returned (fst (Secrets.applySecretsDeep v o ws now n))
           = inl v' ->
           exists resolved,
             resolved !! fullKey = Some value
             /\ v' = fst (Secrets.replaceSecrets resolved v n)).
Proof.
  intros v o ws now n fullKey provider key value Hin Hallow Hhit.
  destruct (refs_split _ _ _ _ Hin)
    as (HfullKey & Hres & before & after & Hrefs & Hb & Ha).
  subst fullKey.
  set (st0 := {| Secrets.st_warnings := ws;
                 Secrets.st_cache := Secrets.cacheOpt o;
                 Secrets.st_resolved := ∅; Secrets.st_pending := [] |}).
  assert (H0 : Spec.untouched (provider +:+ ":" +:+ key) provider key st0
                 (Spec.countUnknownProvider provider key ws) None).
  { repeat split; try constructor. }
  destruct (visitRef_others o now provider key before st0 _ _ Hb H0) as [H1 _].
  assert (Hhit1 : Terms.cacheHit
                    (Secrets.st_cache (fold_left (Secrets.visitRef o now) before st0))
                    now (provider +:+ ":" +:+ key) value).
  { apply visitRef_others_hit; [|exact Hhit].
    eapply List.Forall_impl; [|exact Hb]. now intros e [He _]. }
  pose proof (visitRef_hit o now provider key _ _ _ _ Hallow Hhit1 H1) as H2.
  destruct (visitRef_others o now provider key after _ _ _ Ha H2) as [H3 _].
  assert (Hst1 : Spec.untouched (provider +:+ ":" +:+ key) provider key
                   (Terms.visited v o ws now)
                   (Spec.countUnknownProvider provider key ws) (Some value)).
  { unfold Terms.visited. rewrite Hrefs, fold_left_app. exact H3. }
  assert (Hne : Secrets.collectSecretRefs v [] <> []).
  { rewrite Hrefs. now destruct before. }
  destruct (applySecretsDeep_settled v o ws now n provider key _ _ Hne Hst1)
    as (Hc & _ & Hret).
  split; [exact (proj2 (proj2 Hst1))|]. split; [exact Hc|exact Hret].
Qed.

(** ** Comments, key paths and statements *)

Section TrimFacts.
Import Terms.

Lemma allSpace_app a b : allSpace (a +:+ b) = allSpace a && allSpace b.
Proof.
  induction a as [|c a IH]; [reflexivity|].
  rewrite append_cons. unfold allSpace in *. simpl. rewrite IH.
  now rewrite andb_assoc.
Qed.

Lemma allSpace_rev s : allSpace (Js.rev s) = allSpace s.
Proof.
  induction s as [|c s IH]; [reflexivity|].
  simpl. rewrite allSpace_app, IH. unfold allSpace. simpl.
  rewrite andb_true_r. apply andb_comm.
Qed.

Lemma rev_empty s : Js.rev s = "" -> s = "".
Proof.
  destruct s as [|c s]; [reflexivity|]. simpl. intros H.
  apply (f_equal String.length) in H. rewrite length_append in H.
  simpl in H. lia.
Qed.

Lemma trimStart_empty s : Js.trimStart s = "" <-> allSpace s = true.
Proof.
  induction s as [|c s IH]; [split; reflexivity|].
  unfold allSpace in *. simpl. destruct (Js.isSpace c); simpl.
  - exact IH.
  - split; discriminate.
Qed.

Lemma trimStart_allSpace s : allSpace (Js.trimStart s) = allSpace s.
Proof.
  induction s as [|c s IH]; [reflexivity|].
  simpl. destruct (Js.isSpace c) eqn:E; [|reflexivity].
  rewrite IH. unfold allSpace. simpl. now rewrite E.
Qed.

Lemma trim_empty s : Js.trim s = "" <-> allSpace s = true.
Proof.
  unfold Js.trim, Js.trimEnd. split.
  - intros H. apply rev_empty in H. apply trimStart_empty in H.
    now rewrite allSpace_rev, trimStart_allSpace in H.
  - intros H. replace (Js.trimStart (Js.rev (Js.trimStart s))) with "";
      [reflexivity|].
    symmetry. apply trimStart_empty.
    now rewrite allSpace_rev, trimStart_allSpace.
Qed.

Lemma trim_app_nonempty a b : Js.trim a <> "" -> Js.trim (a +:+ b) <> "".
Proof.
  intros Ha Hab. apply Ha. apply trim_empty. apply trim_empty in Hab.
  rewrite allSpace_app in Hab. now apply andb_true_iff in Hab.
Qed.

End TrimFacts.

Section StripFacts.
Import Parser Terms.

Lemma string_length_ind (P : string -> Prop) :
  (forall s, (forall t, String.length t < String.length s -> P t) -> P s) ->
  forall s, P s.
Proof.
  intros H s.
  assert (Hn : forall n t, String.length t < n -> P t).
  { induction n as [|n IH]; intros t Ht; [lia|].
    apply H. intros u Hu. apply IH. lia. }
  apply (Hn (S (String.length s))). lia.
Qed.

Lemma isSlash_eqb c : isSlash c = Ascii.eqb "/" c.
Proof. destruct c as [[] [] [] [] [] [] [] []]; reflexivity. Qed.

Lemma isStar_eqb' c : Secrets.isStar c = Ascii.eqb "*" c.
Proof. destruct c as [[] [] [] [] [] [] [] []]; reflexivity. Qed.

Lemma prefix_two a b c c' s :
  String.prefix (String a (String b "")) (String c (String c' s))
  = Ascii.eqb a c && Ascii.eqb b c'.
Proof.
  cbn [String.prefix].
  destruct (ascii_dec a c) as [E|E].
  - subst c. rewrite Ascii.eqb_refl. cbn [andb].
    destruct (ascii_dec b c') as [E'|E'].
    + subst c'. rewrite Ascii.eqb_refl. now destruct s.
    + symmetry. now apply Ascii.eqb_neq.
  - replace (Ascii.eqb a c) with false; [reflexivity|].
    symmetry. now apply Ascii.eqb_neq.
Qed.

Lemma includes_cons p c s :
  Js.includes p (String c s) = false ->
  String.prefix p (String c s) = false /\ Js.includes p s = false.
Proof. cbn [Js.includes]. intros H. now apply orb_false_iff in H. Qed.

Lemma stripLines_length lines : forall inComment depth,
  length (stripLines lines inComment depth) = length lines.
Proof.
  induction lines as [|l rest IH]; intros inComment depth; [reflexivity|].
  simpl. destruct (stripLine l "" inComment depth) as [[cleanLine b] d].
  simpl. now rewrite IH.
Qed.

Lemma stripLine_clean s : forall cleanLine depth,
  Js.includes "/*" s = false ->
  stripLine s cleanLine false depth = (cleanLine +:+ s, false, depth).
Proof.
  induction s as [|c s IH]; intros cleanLine depth H.
  - now rewrite append_nil_r.
  - apply includes_cons in H. destruct H as [Hp Hs].
    cbn [stripLine]. destruct s as [|c' s''].
    + simpl. reflexivity.
    + rewrite prefix_two in Hp. rewrite isSlash_eqb, isStar_eqb', Hp.
      rewrite (IH _ _ Hs). now rewrite append_assoc, append_cons, append_nil_l.
Qed.

Lemma stripLine_opens a : forall b cleanLine depth,
  Js.includes "/*" a = false ->
  stripLine (a +:+ "/*" +:+ b) cleanLine false depth
  = stripLine b (cleanLine +:+ a) true 1.
Proof.
  induction a as [|c a IH]; intros b cleanLine depth H.
  - rewrite append_nil_l, append_nil_r. reflexivity.
  - apply includes_cons in H. destruct H as [Hp Ha].
    rewrite append_cons. cbn [stripLine].
    destruct a as [|c' a'].
    + rewrite append_nil_l, !append_cons, append_nil_l.
      replace (isSlash c && Secrets.isStar "/") with false
        by (now rewrite andb_false_r).
      reflexivity.
    + rewrite append_cons. rewrite prefix_two in Hp.
      rewrite isSlash_eqb, isStar_eqb', Hp.
      rewrite <- append_cons. rewrite (IH _ _ _ Ha).
      now rewrite append_assoc, append_cons, append_nil_l.
Qed.

Lemma stripLine_swallows s : forall cleanLine depth,
  Js.includes "*/" s = false ->
  exists depth',
    stripLine s cleanLine true depth = (cleanLine, true, depth')
    /\ depth <= depth'.
Proof.
  induction s as [s IH] using string_length_ind. intros cleanLine depth H.
  destruct s as [|c s]; [exists depth; split; [reflexivity|lia]|].
  apply includes_cons in H. destruct H as [Hp Hs].
  cbn [stripLine]. destruct s as [|c' s''].
  - simpl. exists depth. split; [reflexivity|lia].
  - rewrite prefix_two in Hp.
    destruct (isSlash c && Secrets.isStar c') eqn:E1.
    + apply includes_cons in Hs. destruct Hs as [_ Hs].
      destruct (IH s'' ltac:(simpl; lia) cleanLine (S depth) Hs)
        as (d' & -> & Hd).
      exists d'. split; [reflexivity|lia].
    + rewrite isStar_eqb', isSlash_eqb, Hp.
      apply (IH (String c' s'') ltac:(simpl; lia) cleanLine depth Hs).
Qed.

Lemma stripLines_clean lines : forall depth,
  Forall (fun l => Js.includes "/*" l = false) lines ->
  stripLines lines false depth = lines.
Proof.
  induction lines as [|l rest IH]; intros depth H; [reflexivity|].
  inversion H as [|? ? Hl Hrest]; subst. simpl.
  rewrite (stripLine_clean _ _ _ Hl), append_nil_l. now rewrite IH.
Qed.

Lemma stripLines_swallowed lines : forall depth,
  Forall (fun l => Js.includes "*/" l = false) lines ->
  stripLines lines true depth = map (fun _ => "") lines.
Proof.
  induction lines as [|l rest IH]; intros depth H; [reflexivity|].
  inversion H as [|? ? Hl Hrest]; subst. simpl.
  destruct (stripLine_swallows l "" depth Hl) as (d' & -> & _).
  now rewrite IH.
Qed.

End StripFacts.

Section LineFacts.
Import Parser Terms Spec.

Lemma lineFeeds_app a b : lineFeeds (a +:+ b) = lineFeeds a + lineFeeds b.
Proof.
  induction a as [|c a IH]; [reflexivity|].
  rewrite append_cons. simpl. rewrite IH. lia.
Qed.

Lemma splitLines_count s : forall cur,
  length (Js.splitLines cur s) = S (lineFeeds s).
Proof.
  induction s as [s IH] using string_length_ind. intros cur.
  destruct s as [|c s]; [reflexivity|].
  cbn [Js.splitLines lineFeeds].
  destruct (Ascii.eqb c Js.LF) eqn:Ec.
  - cbn [length]. rewrite IH by (simpl; lia). lia.
  - destruct s as [|c' s''].
    + rewrite IH by (simpl; lia). reflexivity.
    + destruct (Ascii.eqb c Js.CR && Ascii.eqb c' Js.LF) eqn:E.
      * apply andb_true_iff in E. destruct E as [_ E].
        cbn [length lineFeeds]. rewrite E, IH by (simpl; lia). lia.
      * rewrite IH by (simpl; lia). reflexivity.
Qed.

Lemma splitLines_oneLine s : forall cur,
  lineFeeds cur = 0 ->
  Forall (fun l => lineFeeds l = 0) (Js.splitLines cur s).
Proof.
  induction s as [s IH] using string_length_ind. intros cur Hcur.
  destruct s as [|c s]; [constructor; [exact Hcur|constructor]|].
  cbn [Js.splitLines].
  destruct (Ascii.eqb c Js.LF) eqn:Ec.
  - constructor; [exact Hcur|]. apply IH; [simpl; lia|reflexivity].
  - assert (Hnext : lineFeeds (cur +:+ String c "") = 0)
      by (rewrite lineFeeds_app, Hcur; simpl; now rewrite Ec).
    destruct s as [|c' s''].
    + apply IH; [simpl; lia|exact Hnext].
    + destruct (Ascii.eqb c Js.CR && Ascii.eqb c' Js.LF).
      * constructor; [exact Hcur|]. apply IH; [simpl; lia|reflexivity].
      * apply IH; [simpl; lia|exact Hnext].
Qed.

Lemma lineFeeds_tail c s : lineFeeds (String c s) = 0 -> lineFeeds s = 0.
Proof. simpl. lia. Qed.

Lemma stripLine_oneLine s : forall cleanLine inComment depth,
  lineFeeds s = 0 -> lineFeeds cleanLine = 0 ->
  lineFeeds (fst (fst (stripLine s cleanLine inComment depth))) = 0.
Proof.
  induction s as [s IH] using string_length_ind.
  intros cleanLine inComment depth Hs Hc.
  destruct s as [|c s]; [exact Hc|].
  assert (Hnext : lineFeeds (cleanLine +:+ String c "") = 0).
  { rewrite lineFeeds_app, Hc. simpl in *. lia. }
  pose proof (lineFeeds_tail _ _ Hs) as Hs'.
  cbn [stripLine]. destruct inComment; destruct s as [|c' s''];
    try (apply IH; [simpl; lia|assumption|assumption]).
  - pose proof (lineFeeds_tail _ _ Hs') as Hs''.
    destruct (isSlash c && Secrets.isStar c');
      [|destruct (Secrets.isStar c && isSlash c')];
      apply IH; try assumption; simpl; lia.
  - pose proof (lineFeeds_tail _ _ Hs') as Hs''.
    destruct (isSlash c && Secrets.isStar c');
      apply IH; try assumption; simpl; lia.
Qed.

Lemma stripLines_oneLine lines : forall inComment depth,
  Forall (fun l => lineFeeds l = 0) lines ->
  Forall (fun l => lineFeeds l = 0) (stripLines lines inComment depth).
Proof.
  induction lines as [|l rest IH]; intros inComment depth H; [constructor|].
  inversion H as [|? ? Hl Hrest]; subst. simpl.
  pose proof (stripLine_oneLine l "" inComment depth Hl eq_refl) as Hc.
  destruct (stripLine l "" inComment depth) as [[cleanLine b] d].
  constructor; [exact Hc|]. now apply IH.
Qed.

Lemma lineFeeds_join lines :
  Forall (fun l => lineFeeds l = 0) lines ->
  lineFeeds (Js.join (String Js.LF "") lines) = length lines - 1.
Proof.
  induction 1 as [|p rest Hp Hrest IH]; [reflexivity|].
  destruct rest as [|q rest]; [simpl; lia|].
  change (Js.join (String Js.LF "") (p :: q :: rest))
    with (p +:+ String Js.LF "" +:+ Js.join (String Js.LF "") (q :: rest)).
  rewrite !lineFeeds_app, Hp, IH. simpl. lia.
Qed.

Lemma cleanedLines_length text :
  length (cleanedLines text) = length (Js.splitLines "" text).
Proof.
  unfold cleanedLines, stripBlockComments. cbn [fst].
  rewrite splitLines_count.
  rewrite lineFeeds_join
    by (apply stripLines_oneLine; now apply splitLines_oneLine).
  rewrite stripLines_length, splitLines_count. lia.
Qed.

Lemma stripLines_after_clean pre : forall lines depth,
  Forall (fun l => Js.includes "/*" l = false) pre ->
  stripLines (pre ++ lines) false depth = pre ++ stripLines lines false depth.
Proof.
  induction pre as [|l pre IH]; intros lines depth H; [reflexivity|].
  inversion H as [|? ? Hl Hpre]; subst. simpl.
  rewrite (stripLine_clean _ _ _ Hl), append_nil_l. now rewrite IH.
Qed.

End LineFacts.

(** X18. Stripping the block comments keeps one line per line of the
    text, so the cleaned text has as many lines as the original and the
    line numbers reported are those of the original.  A text with no
    comment opener keeps its lines as they are.  A comment that is never
    closed swallows the rest of the text without an error: its line is
    cut at the opener and every later line is empty.  Comments nest. *)
Theorem X18_block_comments_keep_the_lines :
  (forall text,
      length (Spec.cleanedLines text) = length (Js.splitLines "" text)
      /\ length (snd (Parser.stripBlockComments text))
         = length (Js.splitLines "" text)
      /\ forall lineNo,
           Parser.getOriginalLine (snd (Parser.stripBlockComments text)) lineNo
           = lineNo)
  /\ (forall text,
         Forall (fun l => Js.includes "/*" l = false) (Js.splitLines "" text) ->
         fst (Parser.stripBlockComments text)
         = Js.join (String Js.LF "") (Js.splitLines "" text))
  /\ (forall pre a b rest depth,
         Forall (fun l => Js.includes "/*" l = false) pre ->
         Js.includes "/*" a = false ->
         Js.includes "*/" b = false ->
         Forall (fun l => Js.includes "*/" l = false) rest ->
         Parser.stripLines (pre ++ (a +:+ "/*" +:+ b) :: rest) false depth
         = pre ++ a :: map (fun _ => "") rest)
  /\ Parser.stripLine "a /* b /* c */ d */ e" "" false 0 = ("a  e", false, 0).
Proof.
  split; [|split; [|split]].
  - intros text. split; [apply cleanedLines_length|].
    split; [|apply getOriginalLine_id].
    unfold Parser.stripBlockComments. cbn [snd].
    now rewrite List.length_map, List.length_seq.
  - intros text H. unfold Parser.stripBlockComments. cbn [fst].
    now rewrite stripLines_clean.
  - intros pre a b rest depth Hpre Ha Hb Hrest.
    rewrite (stripLines_after_clean _ _ _ Hpre). f_equal.
    cbn [Parser.stripLines]. rewrite (stripLine_opens _ _ _ _ Ha).
    rewrite append_nil_l.
    destruct (stripLine_swallows b a 1 Hb) as (d' & -> & _).
    f_equal. now apply stripLines_swallowed.
  - vm_compute. reflexivity.
Qed.

Section KeyFacts.
Import Parser Terms.

Lemma isDot_eqb c : isDot c = Ascii.eqb c dot.
Proof. destruct c as [[] [] [] [] [] [] [] []]; reflexivity. Qed.

Lemma isBackslash_eqb c : isBackslash c = Ascii.eqb c backslash.
Proof. destruct c as [[] [] [] [] [] [] [] []]; reflexivity. Qed.

Lemma parseKeyPathFrom_end current segments :
  parseKeyPathFrom "" current segments = pushSegment segments current.
Proof. reflexivity. Qed.

Lemma parseKeyPathFrom_plain_char c s current segments :
  Ascii.eqb c dot = false -> Ascii.eqb c backslash = false ->
  parseKeyPathFrom (String c s) current segments
  = parseKeyPathFrom s (current +:+ String c "") segments.
Proof.
  intros Hd Hb. cbn [parseKeyPathFrom].
  rewrite isDot_eqb, isBackslash_eqb, Hd, Hb. now destruct s.
Qed.

Lemma parseKeyPathFrom_dot s current segments :
  parseKeyPathFrom (String dot s) current segments
  = parseKeyPathFrom s "" (pushSegment segments current).
Proof. cbn [parseKeyPathFrom]. now destruct s. Qed.

Lemma parseKeyPathFrom_escaped s current segments :
  parseKeyPathFrom (String "\"%char (String "."%char s)) current segments
  = parseKeyPathFrom s (current +:+ ".") segments.
Proof. reflexivity. Qed.

Lemma parseKeyPathFrom_plain a : forall s current segments,
  plainKey a = true ->
  parseKeyPathFrom (a +:+ s) current segments
  = parseKeyPathFrom s (current +:+ a) segments.
Proof.
  induction a as [|c a IH]; intros s current segments H.
  - now rewrite append_nil_l, append_nil_r.
  - unfold plainKey, noneOf in H. simpl in H.
    apply andb_true_iff in H. destruct H as [H1 H2].
    apply andb_true_iff in H1. destruct H1 as [Hd Ha1].
    apply andb_true_iff in H2. destruct H2 as [Hb Ha2].
    apply negb_true_iff in Hd. apply negb_true_iff in Hb.
    rewrite append_cons, (parseKeyPathFrom_plain_char _ _ _ _ Hd Hb).
    rewrite IH by (unfold plainKey, noneOf; now rewrite Ha1, Ha2).
    now rewrite append_assoc, append_cons, append_nil_l.
Qed.

Lemma pushSegment_filter segments cur :
  pushSegment segments cur
  = segments ++ List.filter (fun s => negb (String.eqb s "")) [Js.trim cur].
Proof.
  unfold pushSegment. simpl.
  destruct (Js.trim cur); simpl; [now rewrite List.app_nil_r|reflexivity].
Qed.

Lemma parseKeyPathFrom_join segs : forall current segments,
  Forall (fun s => plainKey s = true) segs -> segs <> [] ->
  parseKeyPathFrom (Js.join "." segs) current segments
  = segments
    ++ List.filter (fun s => negb (String.eqb s ""))
         (Js.trim (current +:+ hd "" segs) :: map Js.trim (tl segs)).
Proof.
  induction segs as [|p rest IH]; intros current segments Hall Hne;
    [contradiction|].
  inversion Hall as [|? ? Hp Hrest]; subst.
  destruct rest as [|q rest].
  - cbn [Js.join hd tl map].
    rewrite <- (append_nil_r p) at 1.
    rewrite (parseKeyPathFrom_plain _ _ _ _ Hp), parseKeyPathFrom_end.
    apply pushSegment_filter.
  - change (Js.join "." (p :: q :: rest))
      with (p +:+ String dot (Js.join "." (q :: rest))).
    rewrite (parseKeyPathFrom_plain _ _ _ _ Hp), parseKeyPathFrom_dot.
    rewrite (IH "" _ Hrest ltac:(discriminate)).
    rewrite pushSegment_filter, append_nil_l. cbn [hd tl map].
    rewrite <- List.app_assoc. f_equal.
    change (Js.trim (current +:+ p) :: Js.trim q :: map Js.trim rest)
      with ([Js.trim (current +:+ p)] ++ Js.trim q :: map Js.trim rest).
    now rewrite List.filter_app.
Qed.

Lemma parseKeyPathFrom_nonempty s : forall current segments,
  Forall (fun seg => seg <> "") segments ->
  Forall (fun seg => seg <> "") (parseKeyPathFrom s current segments).
Proof.
  assert (Hpush : forall segments cur,
             Forall (fun seg => seg <> "") segments ->
             Forall (fun seg => seg <> "") (pushSegment segments cur)).
  { intros segments cur H. unfold pushSegment.
    destruct (Js.trim cur) eqn:E; [exact H|].
    apply List.Forall_app. split; [exact H|].
    constructor; [discriminate|constructor]. }
  induction s as [s IH] using string_length_ind.
  intros current segments H.
  destruct s as [|c s]; [now apply Hpush|].
  cbn [parseKeyPathFrom]. fold (pushSegment segments current).
  destruct s as [|c' s''].
  - destruct (isDot c); apply IH; simpl; try lia; auto.
  - destruct (isBackslash c && isDot c'); [|destruct (isDot c)];
      apply IH; simpl; try lia; auto.
Qed.

End KeyFacts.

(** X19. [parseKeyPath] cuts a key at its dots, trims every piece and
    drops the empty ones: the dotted form of pieces with no dot and no
    backslash parses back to the trimmed non-empty pieces, so to the
    pieces themselves when they are trimmed and not empty.  A dot after a
    backslash is kept as a dot of the segment and does not cut.  No
    segment of the result is ever empty. *)
Theorem X19_key_paths_split_at_dots :
  (forall segs,
      Forall (fun s => Terms.plainKey s = true) segs ->
      Parser.parseKeyPath (Js.join "." segs)
      = List.filter (fun s => negb (String.eqb s "")) (map Js.trim segs))
  /\ (forall segs,
         Forall (fun s => Terms.plainKey s = true
                          /\ Js.trim s = s /\ s <> "") segs ->
         Parser.parseKeyPath (Js.join "." segs) = segs)
  /\ (forall a b,
         Terms.plainKey a = true -> Terms.plainKey b = true ->
         Parser.parseKeyPath (a +:+ "\." +:+ b)
         = List.filter (fun s => negb (String.eqb s ""))
             [Js.trim (a +:+ "." +:+ b)])
  /\ (forall keyRaw,
         Forall (fun seg => seg <> "") (Parser.parseKeyPath keyRaw)).
Proof.
  assert (Hjoin : forall segs,
             Forall (fun s => Terms.plainKey s = true) segs ->
             Parser.parseKeyPath (Js.join "." segs)
             = List.filter (fun s => negb (String.eqb s ""))
                 (map Js.trim segs)).
  { intros segs H. unfold Parser.parseKeyPath.
    destruct segs as [|p rest]; [reflexivity|].
    rewrite (parseKeyPathFrom_join _ _ _ H) by discriminate.
    now rewrite append_nil_l. }
  split; [exact Hjoin|]. split; [|split].
  - intros segs H. rewrite Hjoin.
    + induction H as [|s rest (_ & Ht & Hs) _ IH]; [reflexivity|].
      simpl. rewrite Ht, IH.
      replace (String.eqb s "") with false; [reflexivity|].
      symmetry. now apply String.eqb_neq.
    + eapply List.Forall_impl; [|exact H]. now intros s [Hs _].
  - intros a b Ha Hb. unfold Parser.parseKeyPath.
    rewrite (parseKeyPathFrom_plain _ _ _ _ Ha).
    rewrite append_cons, append_cons, append_nil_l.
    rewrite (parseKeyPathFrom_escaped b ("" +:+ a) []).
    rewrite <- (append_nil_r b) at 1.
    rewrite (parseKeyPathFrom_plain _ _ _ _ Hb), parseKeyPathFrom_end.
    rewrite pushSegment_filter, append_nil_l, append_assoc. reflexivity.
  - intros keyRaw. apply parseKeyPathFrom_nonempty. constructor.
Qed.

Section StatementFacts.
Import Value Resolver Parser Spec Terms.

Variable statement : string -> nat -> parsed -> presult parsed.
Variable filePath : string.
Variable lineMap : list nat.
Hypothesis lineMap_id : forall n, getOriginalLine lineMap n = n.

Lemma trim_nonempty s : Js.trim s <> "" -> s <> "".
Proof. intros H E. apply H. now rewrite E. Qed.

Lemma step_first st lineNo line :
  inHeredoc st = false -> buf st = "" ->
  Js.trim line <> "" ->
  Js.startsWith "#" (Js.trim line) = false ->
  Js.startsWith "//" (Js.trim line) = false ->
  heredocMatch (Js.trim line) = None ->
  step statement filePath lineMap st lineNo line
  = if Js.endsWith ";" (Js.trim line)
    then flush statement (buffered st lineNo line)
    else Parsed (buffered st lineNo line).
Proof.
  intros Hin Hbuf Hblank Hhash Hslash Hmatch.
  unfold step. rewrite Hin, Hhash, Hslash, Hmatch, lineMap_id.
  replace (String.eqb (Js.trim line) "") with false
    by (symmetry; now apply String.eqb_neq).
  cbn [orb]. rewrite Hbuf, !append_nil_l. reflexivity.
Qed.

Lemma step_next st start body lineNo line :
  body <> "" ->
  Js.trim line <> "" ->
  Js.startsWith "#" (Js.trim line) = false ->
  Js.startsWith "//" (Js.trim line) = false ->
  heredocMatch (Js.trim line) = None ->
  step statement filePath lineMap (buffered st start body) lineNo line
  = if Js.endsWith ";" (Js.trim line)
    then flush statement
           (buffered st start (body +:+ String Js.LF "" +:+ line))
    else Parsed (buffered st start (body +:+ String Js.LF "" +:+ line)).
Proof.
  intros Hbody Hblank Hhash Hslash Hmatch.
  unfold step. cbn [buffered inHeredoc buf].
  rewrite Hhash, Hslash, Hmatch.
  replace (String.eqb (Js.trim line) "") with false
    by (symmetry; now apply String.eqb_neq).
  cbn [orb]. destruct body as [|c body]; [contradiction|]. reflexivity.
Qed.

Lemma gather_step body line :
  body <> "" ->
  gather body [line] = body +:+ String Js.LF "" +:+ line.
Proof. intros H. destruct body; [contradiction|reflexivity]. Qed.

Lemma gather_first l more : gather "" (l :: more) = gather l more.
Proof. unfold gather. cbn [fold_left]. now rewrite !append_nil_l. Qed.

Lemma gather_snoc sofar lines line :
  gather sofar (lines ++ [line]) = gather (gather sofar lines) [line].
Proof. unfold gather. now rewrite fold_left_app. Qed.

Lemma gather_keeps sofar lines : sofar <> "" -> gather sofar lines <> "".
Proof.
  intros H. rewrite (gather_nonempty _ _ H).
  destruct sofar; [contradiction|]. rewrite append_cons. discriminate.
Qed.

Lemma run_statement_lines more : forall st start body lineNo,
  body <> "" ->
  Forall statementLine more ->
  run statement filePath lineMap (buffered st start body) lineNo more
  = Parsed (buffered st start (gather body more)).
Proof.
  induction more as [|l more IH]; intros st start body lineNo Hbody Hall;
    [reflexivity|].
  inversion Hall as [|? ? (Hb & Hh & Hs & Hm & He) Hmore]; subst.
  cbn [run]. rewrite (step_next _ _ _ _ _ Hbody Hb Hh Hs Hm), He.
  destruct body as [|c body]; [contradiction|].
  rewrite IH; [reflexivity| |exact Hmore].
  rewrite append_cons. discriminate.
Qed.

Lemma run_statement body : forall st lineNo l more,
  inHeredoc st = false -> buf st = "" ->
  body = l :: more -> Forall statementLine body ->
  run statement filePath lineMap st lineNo body
  = Parsed (buffered st lineNo (gather l more)).
Proof.
  intros st lineNo l more Hin Hbuf -> Hall.
  inversion Hall as [|? ? (Hb & Hh & Hs & Hm & He) Hmore]; subst.
  cbn [run]. rewrite (step_first _ _ _ Hin Hbuf Hb Hh Hs Hm), He.
  apply run_statement_lines; [now apply trim_nonempty|exact Hmore].
Qed.

Lemma finish_buffered st start body :
  Js.trim body <> "" ->
  finish filePath (buffered st start body)
  = Failed {| pe_message := "Unterminated statement (missing ';')";
              pe_line := start;
              pe_col := None;
              pe_filePath := filePath |}.
Proof.
  intros H. unfold finish. cbn [buffered inHeredoc buf bufStartOriginalLine].
  destruct (Js.trim body); [contradiction|reflexivity].
Qed.

Lemma flush_buffered st start body :
  Js.trim body <> "" ->
  match flush statement (buffered st start body) with
  | Parsed st' => finish filePath st'
  | Failed e => Failed e
  end
  = statement (Js.trim body) start (out st).
Proof.
  intros H. unfold flush. cbn [buffered inHeredoc buf bufStartOriginalLine out].
  destruct (Js.trim body) as [|c t] eqn:E; [contradiction|].
  destruct (statement (String c t) start (out st)); reflexivity.
Qed.

End StatementFacts.

(** X20. A statement may span several lines: blank and comment lines
    apart, the lines up to the one that ends with a semicolon are joined
    with line feeds.  When the text ends before such a line, parsing
    fails with the error of an unterminated statement at the line where
    the statement begins.  When the statement is complete and ends the
    text, the result is what the statement interpreter gives for the
    trimmed joined lines, the line where the statement begins and the
    result so far. *)
Theorem X20_statements_span_lines :
  (forall statement filePath text pre body st1,
      Spec.cleanedLines text = pre ++ body ->
      Parser.run statement filePath (snd (Parser.stripBlockComments text))
        Parser.initial 1 pre = Parser.Parsed st1 ->
      Parser.inHeredoc st1 = false ->
      Parser.buf st1 = "" ->
      body <> [] ->
      Forall Terms.statementLine body ->
      Parser.parseColony statement filePath text
      = Parser.Failed
          {| Parser.pe_message := "Unterminated statement (missing ';')";
             Parser.pe_line := S (length pre);
             Parser.pe_col := None;
             Parser.pe_filePath := filePath |})
  /\ (forall statement filePath text pre body last st1,
         Spec.cleanedLines text = pre ++ body ++ [last] ->
         Parser.run statement filePath (snd (Parser.stripBlockComments text))
           Parser.initial 1 pre = Parser.Parsed st1 ->
         Parser.inHeredoc st1 = false ->
         Parser.buf st1 = "" ->
         Forall Terms.statementLine body ->
         Terms.lastLine last ->
         Parser.parseColony statement filePath text
         = statement (Js.trim (Js.join (String Js.LF "") (body ++ [last])))
             (S (length pre)) (Parser.out st1)).
Proof.
  split.
  - intros statement filePath text pre body st1 Hlines Hpre Hin Hbuf Hne Hall.
    unfold Parser.parseColony.
    pose proof (getOriginalLine_id text) as Hid.
    unfold Spec.cleanedLines in Hlines.
    destruct (Parser.stripBlockComments text) as [cleaned lm].
    cbn [fst snd] in *. rewrite Hlines, run_app, Hpre.
    destruct body as [|l more]; [contradiction|].
    rewrite (run_statement statement filePath lm Hid _ _ _ l more Hin Hbuf
               eq_refl Hall).
    inversion Hall as [|? ? (Hb & _) _]; subst.
    apply finish_buffered.
    rewrite (gather_nonempty _ _ (trim_nonempty _ Hb)).
    now apply trim_app_nonempty.
  - intros statement filePath text pre body last st1 Hlines Hpre Hin Hbuf
      Hall (Hb & Hh & Hs & Hm & He).
    unfold Parser.parseColony.
    pose proof (getOriginalLine_id text) as Hid.
    unfold Spec.cleanedLines in Hlines.
    destruct (Parser.stripBlockComments text) as [cleaned lm].
    cbn [fst snd] in *. rewrite Hlines, run_app, Hpre, run_app.
    assert (Hstart : Spec.startsNonEmpty (body ++ [last])).
    { destruct body as [|l more]; cbn.
      - now apply trim_nonempty.
      - inversion Hall as [|? ? (Hl & _) _]; subst. now apply trim_nonempty. }
    rewrite <- (gather_join _ Hstart).
    assert (Hraw : Js.trim (Spec.gather "" (body ++ [last])) <> "").
    { destruct body as [|l more]; cbn [app]; rewrite gather_first.
      - exact Hb.
      - inversion Hall as [|? ? (Hl & _) _]; subst.
        rewrite (gather_nonempty _ _ (trim_nonempty _ Hl)).
        now apply trim_app_nonempty. }
    destruct body as [|l more].
    + cbn [Parser.run app length]. rewrite Nat.add_0_r.
      rewrite (step_first statement filePath lm Hid _ _ _ Hin Hbuf Hb Hh Hs Hm).
      rewrite He.
      assert (Hg : Spec.gather "" [last] = last) by apply gather_first.
      rewrite Hg in *.
      pose proof (flush_buffered statement filePath st1 (1 + length pre) last
                    Hraw) as Hf.
      destruct (Parser.flush statement (Terms.buffered st1 (1 + length pre) last));
        exact Hf.
    + rewrite (run_statement statement filePath lm Hid _ _ _ l more Hin Hbuf
                 eq_refl Hall).
      inversion Hall as [|? ? (Hl & _) _]; subst.
      cbn [Parser.run].
      rewrite (step_next statement filePath lm _ _ _ _ _
                 (gather_keeps _ more (trim_nonempty _ Hl)) Hb Hh Hs Hm), He.
      assert (Hg : Spec.gather "" ((l :: more) ++ [last])
                   = Spec.gather l more +:+ String Js.LF "" +:+ last).
      { cbn [app]. rewrite gather_first, gather_snoc.
        apply gather_step. apply gather_keeps. now apply trim_nonempty. }
      rewrite Hg in *.
      pose proof (flush_buffered statement filePath st1 (1 + length pre) _
                    Hraw) as Hf.
      destruct (Parser.flush statement
                  (Terms.buffered st1 (1 + length pre)
                     (Spec.gather l more +:+ String Js.LF "" +:+ last)));
        exact Hf.
Qed.

(** ** dotenv files *)

Section DotenvFacts.
Import Dotenv Terms.

Lemma rev_app a b : Js.rev (a +:+ b) = Js.rev b +:+ Js.rev a.
Proof.
  induction a as [|c a IH]; [now rewrite append_nil_l, append_nil_r|].
  rewrite append_cons. simpl. now rewrite IH, append_assoc.
Qed.

Lemma rev_involutive s : Js.rev (Js.rev s) = s.
Proof.
  induction s as [|c s IH]; [reflexivity|].
  simpl. rewrite rev_app, IH. reflexivity.
Qed.

Lemma isEquals_eqb c : isEquals c = Ascii.eqb c equals.
Proof. destruct c as [[] [] [] [] [] [] [] []]; reflexivity. Qed.

Lemma prefix_one c d s :
  String.prefix (String c "") (String d s) = Ascii.eqb c d.
Proof.
  cbn [String.prefix]. destruct (ascii_dec c d) as [E|E].
  - subst d. rewrite Ascii.eqb_refl. now destruct s.
  - symmetry. now apply Ascii.eqb_neq.
Qed.

Lemma startsWith_one c k s :
  k <> "" ->
  Js.startsWith (String c "") (k +:+ s) = Js.startsWith (String c "") k.
Proof.
  intros Hk. destruct k as [|d k]; [contradiction|].
  rewrite append_cons. unfold Js.startsWith. now rewrite !prefix_one.
Qed.

Lemma span_all (p : ascii -> bool) s :
  forallb p (list_ascii_of_string s) = true -> Js.span p s = (s, "").
Proof.
  induction s as [|c s IH]; [reflexivity|].
  simpl. intros H. apply andb_true_iff in H. destruct H as [Hc Hs].
  now rewrite Hc, (IH Hs).
Qed.

Lemma parseLine_blank raw : allSpace raw = true -> parseLine raw = None.
Proof.
  intros H. unfold parseLine. apply trim_empty in H. now rewrite H.
Qed.

Lemma parseLine_comment raw :
  Js.startsWith "#" (Js.trim raw) = true -> parseLine raw = None.
Proof. intros H. unfold parseLine. rewrite H. now rewrite orb_true_r. Qed.

Lemma parseLine_no_equals raw :
  noneOf equals (Js.trim raw) = true -> parseLine raw = None.
Proof.
  intros H. unfold parseLine.
  destruct (String.eqb (Js.trim raw) "" || Js.startsWith "#" (Js.trim raw));
    [reflexivity|].
  unfold assignmentAt. rewrite span_all.
  - now destruct (Js.trim raw).
  - rewrite <- H. apply forallb_same. intros c. now rewrite isEquals_eqb.
Qed.

Lemma parseLine_assignment raw k v :
  Js.trim raw = k +:+ "=" +:+ v ->
  k <> "" ->
  noneOf equals k = true ->
  Js.startsWith "#" k = false ->
  oneLine (Js.trimStart v) = true ->
  parseLine raw = Some (Js.trim k, unquote (Js.trim (Js.trimStart v))).
Proof.
  intros Hraw Hk Hne Hhash Hone. unfold parseLine. rewrite Hraw.
  replace (String.eqb (k +:+ "=" +:+ v) "") with false
    by (symmetry; apply String.eqb_neq; destruct k;
        [contradiction|rewrite append_cons; discriminate]).
  rewrite (startsWith_one _ _ _ Hk), Hhash. cbn [orb].
  unfold assignmentAt. rewrite append_cons, append_nil_l.
  rewrite span_free.
  - destruct k as [|c k]; [contradiction|].
    unfold oneLine in Hone. now rewrite Hone.
  - rewrite <- Hne. apply forallb_same. intros c. now rewrite isEquals_eqb.
  - reflexivity.
Qed.

Lemma before_none pat s :
  Js.includes pat s = false -> before pat s = None.
Proof.
  induction s as [|c s IH]; cbn [Js.includes before]; intros H.
  - rewrite orb_false_r in H. now rewrite H.
  - apply orb_false_iff in H. destruct H as [Hp Hs].
    rewrite Hp, (IH Hs). reflexivity.
Qed.

Lemma before_comment v : forall c,
  Js.includes " #" v = false -> before " #" (v +:+ " #" +:+ c) = Some v.
Proof.
  induction v as [|x v IH]; intros c H.
  - rewrite append_nil_l, !append_cons, append_nil_l. cbn [before].
    rewrite prefix_two. reflexivity.
  - apply includes_cons in H. destruct H as [Hp Hv].
    rewrite append_cons. cbn [before].
    replace (String.prefix " #" (String x (v +:+ " #" +:+ c))) with false.
    + now rewrite (IH _ Hv).
    + destruct v as [|y v].
      * rewrite append_nil_l, append_cons. rewrite prefix_two.
        now rewrite andb_false_r.
      * rewrite append_cons. rewrite prefix_two in *. now rewrite Hp.
Qed.

Lemma unquote_plain v :
  unquoted v = true -> Js.includes " #" v = false -> unquote v = v.
Proof.
  intros Hq Hc. unfold unquote. unfold unquoted in Hq.
  apply negb_true_iff in Hq. rewrite Hq. now rewrite (before_none _ _ Hc).
Qed.

Lemma unquote_comment v c :
  unquoted (v +:+ " #" +:+ c) = true -> Js.includes " #" v = false ->
  unquote (v +:+ " #" +:+ c) = Js.trim v.
Proof.
  intros Hq Hc. unfold unquote. unfold unquoted in Hq.
  apply negb_true_iff in Hq. rewrite Hq. now rewrite (before_comment _ _ Hc).
Qed.

Lemma quoted_between q inner :
  quotedBy (String q "") (String q "" +:+ inner +:+ String q "") = true
  /\ slice1 (String q "" +:+ inner +:+ String q "") = inner.
Proof.
  split.
  - unfold quotedBy, Js.startsWith, Js.endsWith.
    rewrite append_cons, append_nil_l, prefix_one, Ascii.eqb_refl.
    cbn [andb]. rewrite <- append_cons. rewrite <- (append_nil_l (String q inner +:+ String q "")).
    rewrite append_nil_l. change (String q inner) with (String q "" +:+ inner) at 1.
    rewrite !rev_app. cbn [Js.rev]. rewrite append_nil_l, append_cons.
    rewrite prefix_one. apply Ascii.eqb_refl.
  - unfold slice1. rewrite append_cons, append_nil_l. cbn [Js.drop].
    rewrite rev_app. cbn [Js.rev]. rewrite append_nil_l, append_cons.
    cbn [Js.drop]. rewrite append_nil_l. apply rev_involutive.
Qed.

Lemma unquote_quoted q inner :
  String q "" = doubleQuote \/ String q "" = singleQuote ->
  Js.startsWith doubleQuote inner = false ->
  unquote (String q "" +:+ inner +:+ String q "") = inner.
Proof.
  intros Hq Hinner. unfold unquote.
  destruct (quoted_between q inner) as [Hb Hs].
  replace (quotedBy doubleQuote (String q "" +:+ inner +:+ String q "")
           || quotedBy singleQuote (String q "" +:+ inner +:+ String q ""))
    with true.
  - now rewrite Hs, Hinner.
  - symmetry. destruct Hq as [<-|<-]; rewrite Hb; [reflexivity|apply orb_true_r].
Qed.

End DotenvFacts.

(** X21. What [parseDotenv] makes of one line.  A blank line, a line
    whose trimmed text starts with a hash, and a line with no equals
    sign assign nothing.  A line whose trimmed text is [k=v], with [k]
    not empty, free of equals signs and not starting with a hash, and
    with no line terminator in [v] past its leading white space, assigns
    to the trimmed [k] the trimmed [v], unquoted.  Unquoting leaves a
    value as it is when it is not between quotes and holds no space
    followed by a hash; it cuts an unquoted value at the first space
    followed by a hash and trims it; it takes what is between two double
    or two single quotes as it is, escape sequences included, unless that
    text starts with a double quote, the one case where the escape
    sequences are decoded. *)
Theorem X21_dotenv_lines :
  (forall raw, Terms.allSpace raw = true -> Dotenv.parseLine raw = None)
  /\ (forall raw,
         Js.startsWith "#" (Js.trim raw) = true -> Dotenv.parseLine raw = None)
  /\ (forall raw,
         Terms.noneOf Terms.equals (Js.trim raw) = true ->
         Dotenv.parseLine raw = None)
  /\ (forall raw k v,
         Js.trim raw = k +:+ "=" +:+ v ->
         k <> "" ->
         Terms.noneOf Terms.equals k = true ->
         Js.startsWith "#" k = false ->
         Terms.oneLine (Js.trimStart v) = true ->
         Dotenv.parseLine raw
         = Some (Js.trim k, Dotenv.unquote (Js.trim (Js.trimStart v))))
  /\ (forall v,
         Terms.unquoted v = true -> Js.includes " #" v = false ->
         Dotenv.unquote v = v)
  /\ (forall v c,
         Terms.unquoted (v +:+ " #" +:+ c) = true ->
         Js.includes " #" v = false ->
         Dotenv.unquote (v +:+ " #" +:+ c) = Js.trim v)
  /\ (forall q inner,
         String q "" = Dotenv.doubleQuote \/ String q "" = Dotenv.singleQuote ->
         Js.startsWith Dotenv.doubleQuote inner = false ->
         Dotenv.unquote (String q "" +:+ inner +:+ String q "") = inner)
  /\ Dotenv.unquote
       (Dotenv.doubleQuote +:+ Dotenv.doubleQuote +:+ "a\nb"
        +:+ Dotenv.doubleQuote)
     = Dotenv.doubleQuote +:+ "a" +:+ String Js.LF "" +:+ "b".
Proof.
  split; [exact parseLine_blank|]. split; [exact parseLine_comment|].
  split; [exact parseLine_no_equals|]. split; [exact parseLine_assignment|].
  split; [exact unquote_plain|]. split; [exact unquote_comment|].
  split; [exact unquote_quoted|]. vm_compute. reflexivity.
Qed.

Section DotenvFiles.
Import Dotenv Terms.

Lemma find_last_app {A} (f : A -> bool) l x :
  List.find f (rev (l ++ [x]))
  = if f x then Some x else List.find f (rev l).
Proof. rewrite List.rev_app_distr. reflexivity. Qed.

Lemma fold_addLine lines : forall result key,
  Js.mapGet (fold_left addLine lines result) key
  = if String.eqb key "__proto__" then Js.mapGet result key
    else match lastOf (flat_map (fun raw => match parseLine raw with
                                            | Some kv => [kv]
                                            | None => []
                                            end) lines) key with
         | Some v => Some v
         | None => Js.mapGet result key
         end.
Proof.
  induction lines as [|raw lines IH] using List.rev_ind; intros result key.
  - cbn [fold_left flat_map]. now destruct (String.eqb key "__proto__").
  - rewrite fold_left_app, List.flat_map_app. cbn [fold_left flat_map].
    rewrite List.app_nil_r. unfold addLine at 1.
    destruct (parseLine raw) as [[k v]|].
    + unfold lastOf. rewrite find_last_app. cbn [fst].
      unfold setProperty.
      destruct (String.eqb k key) eqn:E.
      * apply String.eqb_eq in E. subst k. cbn [option_map snd].
        destruct (String.eqb key "__proto__") eqn:P.
        -- rewrite IH, P. reflexivity.
        -- apply mapGet_mapSet_eq.
      * destruct (String.eqb k "__proto__") eqn:P.
        -- rewrite IH. reflexivity.
        -- apply String.eqb_neq in E. rewrite (mapGet_mapSet_ne _ _ _ _ E).
           rewrite IH. reflexivity.
    + rewrite List.app_nil_r. apply IH.
Qed.

Lemma fold_addLine_NoDup lines : forall result,
  List.NoDup (map fst result) ->
  List.NoDup (map fst (fold_left addLine lines result)).
Proof.
  induction lines as [|raw lines IH]; intros result H; [exact H|].
  simpl. apply IH. unfold addLine, setProperty.
  destruct (parseLine raw) as [[k v]|]; [|exact H].
  destruct (String.eqb k "__proto__"); [exact H|now apply mapSet_NoDup].
Qed.

Lemma assign_get vars : forall result key,
  List.NoDup (map fst vars) ->
  Js.mapGet vars "__proto__" = None ->
  Js.mapGet (assign result vars) key
  = match Js.mapGet vars key with
    | Some v => Some v
    | None => Js.mapGet result key
    end.
Proof.
  unfold assign.
  induction vars as [|[k v] vars IH]; intros result key Hnd Hp; [reflexivity|].
  simpl in Hnd. apply List.NoDup_cons_iff in Hnd. destruct Hnd as [Hk Hnd].
  cbn [Js.mapGet] in Hp. cbn [fold_left fst snd Js.mapGet].
  unfold setProperty at 2.
  destruct (String.eqb k "__proto__") eqn:P; [discriminate|].
  rewrite (IH _ _ Hnd Hp).
  destruct (String.eqb k key) eqn:E.
  - apply String.eqb_eq in E. subst k.
    rewrite (mapGet_notin_None _ _ Hk). apply mapGet_mapSet_eq.
  - apply String.eqb_neq in E. now rewrite (mapGet_mapSet_ne _ _ _ _ E).
Qed.

End DotenvFiles.

(** X22. In the result of [parseDotenv] a key has the value of the last
    line that assigns it, and every key occurs once; the key [__proto__]
    alone is never a property of the result, whatever the lines assign
    to it.  [loadDotenvFiles] lets every file override the files before
    it key by key, skips a file that does not exist, and stops with the
    error of any other failed read. *)
Theorem X22_dotenv_last_assignment_wins :
  (forall content key,
      Js.mapGet (Dotenv.parseDotenv content) key
      = if String.eqb key "__proto__" then None
        else Terms.lastOf (Terms.assignments content) key)
  /\ (forall content, List.NoDup (map fst (Dotenv.parseDotenv content)))
  /\ (forall text rest result,
         exists merged,
           Dotenv.loadDotenvFiles (Dotenv.Content text :: rest) result
           = Dotenv.loadDotenvFiles rest merged
           /\ forall key,
                Js.mapGet merged key
                = match Js.mapGet (Dotenv.parseDotenv text) key with
                  | Some v => Some v
                  | None => Js.mapGet result key
                  end)
  /\ (forall rest result,
         Dotenv.loadDotenvFiles (Dotenv.Missing :: rest) result
         = Dotenv.loadDotenvFiles rest result)
  /\ (forall message rest result,
         Dotenv.loadDotenvFiles (Dotenv.ReadError message :: rest) result
         = inr message).
Proof.
  split; [|split; [|split; [|split; reflexivity]]].
  - intros content key. unfold Dotenv.parseDotenv, Terms.assignments.
    rewrite fold_addLine.
    destruct (String.eqb key "__proto__"); [reflexivity|].
    now destruct (Terms.lastOf _ key).
  - intros content. apply fold_addLine_NoDup. constructor.
  - intros text rest result.
    exists (Dotenv.assign result (Dotenv.parseDotenv text)).
    split; [reflexivity|]. intros key. apply assign_get.
    + apply fold_addLine_NoDup. constructor.
    + unfold Dotenv.parseDotenv. now rewrite fold_addLine.
Qed.

(** ** Equality, keys and differences of configurations *)

Section EqualFacts.
Import Value Util Resolver Config Terms Spec.

Lemma strictEquals_refl x :
  x <> VNum NaN -> strictEquals x x = true.
Proof.
  destruct x as [|b|[z|]|s|id items|id ps]; simpl; intros H;
    try reflexivity.
  - now destruct b.
  - apply Z.eqb_refl.
  - contradiction.
  - apply String.eqb_refl.
  - apply Nat.eqb_refl.
  - apply Nat.eqb_refl.
Qed.

Lemma strictEquals_scalar x y :
  isScalar x = true -> strictEquals x y = true -> x = y /\ x <> VNum NaN.
Proof.
  destruct x as [|b|[z|]|s|id items|id ps]; destruct y as [|b'|[z'|]|s'|id' items'|id' ps'];
    simpl; intros Hs H; try discriminate.
  - split; [reflexivity|discriminate].
  - apply Bool.eqb_prop in H. subst. split; [reflexivity|discriminate].
  - apply Z.eqb_eq in H. subst. split; [reflexivity|discriminate].
  - apply String.eqb_eq in H. subst. split; [reflexivity|discriminate].
Qed.

Lemma deepEqual_scalar x y :
  isScalar x = true ->
  (deepEqual x y = true <-> x = y /\ x <> VNum NaN).
Proof.
  intros Hs. split.
  - intros H. apply strictEquals_scalar; [exact Hs|].
    destruct x; try discriminate; cbn [deepEqual] in H;
      now rewrite orb_false_r in H.
  - intros [<- Hn]. destruct x; try discriminate; cbn [deepEqual];
      rewrite orb_false_r; now apply (strictEquals_refl _ Hn).
Qed.

Lemma deepEqual_same x : x <> VNum NaN -> deepEqual x x = true.
Proof.
  intros H. destruct x; cbn [deepEqual]; apply orb_true_iff; left;
    now apply (strictEquals_refl _ H).
Qed.

Lemma distinct_NoDup keys : distinct keys = true -> List.NoDup keys.
Proof.
  induction keys as [|k rest IH]; simpl; intros H; [constructor|].
  apply andb_true_iff in H. destruct H as [Hk Hrest].
  constructor; [|now apply IH].
  intros Hin. apply negb_true_iff in Hk.
  assert (existsb (String.eqb k) rest = true); [|congruence].
  apply List.existsb_exists. exists k. split; [exact Hin|apply String.eqb_refl].
Qed.

Lemma deepEqual_arrays id xs id' ys :
  length xs = length ys ->
  Forall2 (fun x y => deepEqual x y = true) xs ys ->
  deepEqual (VArr id xs) (VArr id' ys) = true.
Proof.
  intros Hlen H. cbn [deepEqual]. apply orb_true_iff. right.
  apply andb_true_iff. split; [now apply Nat.eqb_eq|].
  clear Hlen. induction H as [|x y xs ys Hxy _ IH]; [reflexivity|].
  now rewrite Hxy, IH.
Qed.

Lemma deepEqual_objects id pa b :
  isScalar b = false ->
  length pa = length (keysOf b) ->
  Forall (fun kv => exists y, member b (fst kv) = Some y
                              /\ deepEqual (snd kv) y = true) pa ->
  deepEqual (VObj id pa) b = true.
Proof.
  intros Hb Hlen H.
  assert (Hevery :
            (fix every (ps : list (string * Value.value)) : bool :=
               match ps with
               | [] => true
               | kv :: ps' =>
                   match member b (fst kv) with
                   | Some y => deepEqual (snd kv) y
                   | None => false
                   end && every ps'
               end) pa = true).
  { clear Hlen. induction H as [|kv ps (y & Hy & Hd) _ IH]; [reflexivity|].
    now rewrite Hy, Hd, IH. }
  destruct b; try discriminate; cbn [deepEqual]; apply orb_true_iff; right;
    apply andb_true_iff; (split; [now apply Nat.eqb_eq|exact Hevery]).
Qed.

Lemma erase_props_get (pa pb : list (string * Value.value)) :
  map (fun kv => (fst kv, erase (snd kv))) pa
  = map (fun kv => (fst kv, erase (snd kv))) pb ->
  List.NoDup (map fst pa) ->
  Forall (fun kv => exists y, propGet pb (fst kv) = Some y
                              /\ erase (snd kv) = erase y) pa.
Proof.
  intros He Hnd.
  assert (Hkeys : map fst pa = map fst pb).
  { apply (f_equal (map fst)) in He. rewrite !List.map_map in He. exact He. }
  assert (Hnd' : List.NoDup (map fst pb)) by (now rewrite <- Hkeys).
  apply List.Forall_forall. intros [k v] Hin. cbn [fst snd].
  assert (Hin' : In (k, erase v) (map (fun kv => (fst kv, erase (snd kv))) pb)).
  { rewrite <- He. apply List.in_map_iff. exists (k, v). now split. }
  apply List.in_map_iff in Hin'. destruct Hin' as ([k' y] & Hy & Hiny).
  cbn [fst snd] in Hy. injection Hy as -> Hy.
  exists y. split; [|now symmetry].
  unfold propGet. now apply mapGet_In.
Qed.

Lemma deepEqual_erase a : forall b,
  regular a = true -> erase a = erase b -> deepEqual a b = true.
Proof.
  induction a as [|x|n|s|id items IH|id ps IH] using value_induction;
    intros b Hr He.
  - destruct b; try discriminate. reflexivity.
  - destruct b; try discriminate. injection He as <-.
    apply deepEqual_same. discriminate.
  - destruct b; try discriminate. injection He as <-.
    apply deepEqual_same. intros E. injection E as ->. discriminate.
  - destruct b; try discriminate. injection He as <-.
    apply deepEqual_same. discriminate.
  - destruct b as [| | | |id' ys|]; try discriminate.
    cbn [erase] in He. injection He as He. cbn [regular] in Hr.
    assert (H2 : Forall2 (fun x y => deepEqual x y = true) items ys).
    { revert ys He. induction IH as [|x xs Hx _ IHxs]; intros ys He.
      - destruct ys; [constructor|discriminate].
      - destruct ys as [|y ys]; [discriminate|].
        cbn [map] in He. injection He as Hxy Hrest.
        cbn [forallb] in Hr. apply andb_true_iff in Hr.
        destruct Hr as [Hrx Hrxs].
        constructor; [now apply Hx|now apply IHxs]. }
    apply deepEqual_arrays; [|exact H2].
    eapply List.Forall2_length. exact H2.
  - destruct b as [| | | | |id' pb]; try discriminate.
    cbn [erase] in He. injection He as He. cbn [regular] in Hr.
    apply andb_true_iff in Hr. destruct Hr as [Hd Hr].
    apply deepEqual_objects; [reflexivity| |].
    + cbn [keysOf]. apply (f_equal (@length _)) in He.
      now rewrite !List.length_map in *.
    + pose proof (erase_props_get _ _ He (distinct_NoDup _ Hd)) as Hget.
      rewrite List.Forall_forall in *. intros kv Hin.
      destruct (Hget kv Hin) as (y & Hy & Hey).
      exists y. split; [exact Hy|]. apply IH; [exact Hin| |exact Hey].
      rewrite List.forallb_forall in Hr. now apply Hr.
Qed.

Lemma deepEqual_permuted id ps id' ps' :
  regular (VObj id ps) = true ->
  Permutation ps ps' ->
  deepEqual (VObj id ps) (VObj id' ps') = true.
Proof.
  intros Hr Hperm. cbn [regular] in Hr.
  apply andb_true_iff in Hr. destruct Hr as [Hd Hr].
  apply deepEqual_objects; [reflexivity| |].
  - cbn [keysOf]. rewrite List.length_map. now apply Permutation_length.
  - assert (Hnd : List.NoDup (map fst ps'))
      by (eapply Permutation_NoDup;
          [apply Permutation_map; exact Hperm|now apply distinct_NoDup]).
    apply List.Forall_forall. intros [k v] Hin. cbn [fst snd member].
    exists v. split.
    + unfold propGet. apply mapGet_In; [exact Hnd|].
      eapply Permutation_in; eassumption.
    + apply deepEqual_erase; [|reflexivity].
      rewrite List.forallb_forall in Hr. now apply (Hr (k, v)).
Qed.

End EqualFacts.

(** X23. [deepEqual] on strings, numbers, booleans and null is equality,
    except that NaN differs from itself.  A value other than NaN equals
    itself.  Two trees of the same structure are equal when the first has
    no NaN and none of its objects holds a key twice, whatever the
    identities of their arrays and objects; and so are two objects with
    the same properties in another order.  An array and an object are
    equal when the object has the array's indices as keys, with equal
    values. *)
Theorem X23_deepEqual_is_structural :
  (forall x y,
      Spec.isScalar x = true ->
      (Config.deepEqual x y = true <-> x = y /\ x <> Value.VNum Value.NaN))
  /\ (forall x, x <> Value.VNum Value.NaN -> Config.deepEqual x x = true)
  /\ (forall a b,
         Terms.regular a = true -> Spec.erase a = Spec.erase b ->
         Config.deepEqual a b = true)
  /\ (forall id ps id' ps',
         Terms.regular (Value.VObj id ps) = true ->
         Permutation ps ps' ->
         Config.deepEqual (Value.VObj id ps) (Value.VObj id' ps') = true)
  /\ Config.deepEqual
       (Value.VArr 0 [Value.VStr "a"; Value.VStr "b"])
       (Value.VObj 1 [("1", Value.VStr "b"); ("0", Value.VStr "a")]) = true
  /\ Config.deepEqual
       (Value.VArr 0 [Value.VNum Value.NaN])
       (Value.VArr 1 [Value.VNum Value.NaN]) = false.
Proof.
  split; [exact deepEqual_scalar|]. split; [exact deepEqual_same|].
  split; [exact deepEqual_erase|]. split; [exact deepEqual_permuted|].
  split; vm_compute; reflexivity.
Qed.

Section DiffFacts.
Import Value Util Resolver Config Terms Spec.

Lemma In_insertSorted k l x : In x (insertSorted k l) <-> x = k \/ In x l.
Proof.
  induction l as [|y l IH]; simpl; [intuition|].
  destruct (String.leb k y); simpl; [intuition|].
  rewrite IH. intuition.
Qed.

Lemma In_sortStrings l x : In x (sortStrings l) <-> In x l.
Proof.
  induction l as [|k l IH]; simpl; [tauto|].
  rewrite In_insertSorted, IH. intuition.
Qed.

Lemma insertSorted_sorted k l :
  Sorted (fun x y => String.leb x y = true) l ->
  Sorted (fun x y => String.leb x y = true) (insertSorted k l).
Proof.
  induction 1 as [|y l Hl IH Hhd]; simpl.
  - constructor; constructor.
  - destruct (String.leb k y) eqn:E.
    + constructor; [constructor; assumption|constructor; exact E].
    + constructor; [exact IH|].
      assert (Hyk : String.leb y k = true).
      { destruct (String.leb_total k y) as [H|H]; [congruence|exact H]. }
      destruct l as [|z l]; simpl.
      * constructor. exact Hyk.
      * inversion Hhd; subst.
        destruct (String.leb k z); constructor; assumption.
Qed.

Lemma sortStrings_sorted l :
  Sorted (fun x y => String.leb x y = true) (sortStrings l).
Proof.
  induction l as [|k l IH]; simpl; [constructor|].
  now apply insertSorted_sorted.
Qed.

Lemma has_In set k : has set k = true <-> In k set.
Proof.
  unfold has. rewrite List.existsb_exists. split.
  - intros (x & Hin & E). apply String.eqb_eq in E. now subst.
  - intros H. exists k. split; [exact H|apply String.eqb_refl].
Qed.

Lemma In_setOf_from keys : forall acc x,
  In x (fold_left (fun acc k => if existsb (String.eqb k) acc then acc
                                else acc ++ [k]) keys acc)
  <-> In x acc \/ In x keys.
Proof.
  induction keys as [|k keys IH]; intros acc x; simpl; [tauto|].
  rewrite IH. destruct (existsb (String.eqb k) acc) eqn:E.
  - fold (has acc k) in E. apply has_In in E. split; [tauto|].
    intros [H|[<-|H]]; tauto.
  - rewrite List.in_app_iff. simpl. tauto.
Qed.

Lemma In_setOf keys x : In x (setOf keys) <-> In x keys.
Proof. unfold setOf. rewrite In_setOf_from. simpl. tauto. Qed.

Lemma In_insertChange le c l x : In x (insertChange le c l) <-> x = c \/ In x l.
Proof.
  induction l as [|y l IH]; simpl; [intuition|].
  destruct (le (key y) (key c)); simpl; [|intuition].
  rewrite IH. intuition.
Qed.

Lemma In_sortChanges_from le l : forall acc x,
  In x (fold_left (fun sorted c => insertChange le c sorted) l acc)
  <-> In x acc \/ In x l.
Proof.
  induction l as [|c l IH]; intros acc x; simpl; [tauto|].
  rewrite IH, In_insertChange. intuition.
Qed.

Lemma In_sortChanges le l x : In x (sortChanges le l) <-> In x l.
Proof. unfold sortChanges. rewrite In_sortChanges_from. simpl. tauto. Qed.

Lemma In_added le a b k :
  In k (added (diffConfigs le a b))
  <-> In k (keysOfConfig b) /\ ~ In k (keysOfConfig a).
Proof.
  unfold diffConfigs, keysOfConfig. cbn [added].
  rewrite In_sortStrings, List.filter_In, In_setOf, negb_true_iff.
  rewrite <- Bool.not_true_iff_false, has_In, In_setOf. tauto.
Qed.

Lemma In_changed le a b c :
  In c (changed (diffConfigs le a b))
  <-> In (key c) (keysOfConfig a) /\ In (key c) (keysOfConfig b)
      /\ from c = getByPath a (key c) /\ to c = getByPath b (key c)
      /\ deepEqualOpt (from c) (to c) = false.
Proof.
  unfold diffConfigs, keysOfConfig. cbn [changed].
  rewrite In_sortChanges, List.in_flat_map. split.
  - intros (k & Hk & Hc). apply (proj1 (In_setOf _ _)) in Hk.
    destruct (has _ k) eqn:Eh; [|contradiction].
    apply (proj1 (has_In _ _)) in Eh. apply (proj1 (In_setOf _ _)) in Eh.
    destruct (deepEqualOpt (getByPath a k) (getByPath b k)) eqn:Ed;
      [contradiction|].
    destruct Hc as [<-|[]]. cbn [key from to]. repeat split; assumption.
  - intros (Ha & Hb & Hf & Ht & Hd). exists (key c).
    split; [now apply In_setOf|].
    replace (has _ (key c)) with true
      by (symmetry; now apply has_In, In_setOf).
    rewrite <- Hf, <- Ht, Hd. left. now destruct c.
Qed.

Lemma deepEqualOpt_same x :
  deepEqualOpt x x = false -> x = Some (VNum NaN).
Proof.
  destruct x as [v|]; [|discriminate]. simpl. intros H.
  destruct v as [|b|[z|]|s|id items|id ps]; try reflexivity;
    rewrite deepEqual_same in H; discriminate.
Qed.

Lemma filter_none {A} (f : A -> bool) l :
  (forall x, In x l -> f x = false) -> List.filter f l = [].
Proof.
  induction l as [|x l IH]; intros H; [reflexivity|].
  simpl. rewrite (H x (or_introl eq_refl)). apply IH.
  intros y Hy. apply H. now right.
Qed.

End DiffFacts.

(** X24. The keys of a configuration are listed in ascending order of
    their code units; a property that is not a plain object gives its
    path, and an empty object gives no key at all.  In the difference of
    two configurations, [added] holds the keys of the second that the
    first has not and [removed] the keys of the first that the second has
    not, both in ascending order, so [added] of one direction is
    [removed] of the other; [changed] holds the keys of both whose values
    [deepEqual] tells apart, with the two values.  A configuration differs
    from itself by nothing added or removed, and only at the keys whose
    value is NaN. *)
Theorem X24_keys_and_differences :
  (forall ps prefix,
      Sorted (fun x y => String.leb x y = true) (Config.collectKeys ps prefix))
  /\ (forall v path,
         Value.isPlainObject v = false -> Config.collectKeysOf v path = [path])
  /\ (forall id path, Config.collectKeysOf (Value.VObj id []) path = [])
  /\ (forall le a b k,
         (In k (Config.added (Config.diffConfigs le a b))
          <-> In k (Terms.keysOfConfig b) /\ ~ In k (Terms.keysOfConfig a))
         /\ (In k (Config.removed (Config.diffConfigs le a b))
             <-> In k (Terms.keysOfConfig a) /\ ~ In k (Terms.keysOfConfig b)))
  /\ (forall le a b,
         Sorted (fun x y => String.leb x y = true)
           (Config.added (Config.diffConfigs le a b))
         /\ Sorted (fun x y => String.leb x y = true)
              (Config.removed (Config.diffConfigs le a b))
         /\ Config.added (Config.diffConfigs le a b)
            = Config.removed (Config.diffConfigs le b a))
  /\ (forall le a b c,
         In c (Config.changed (Config.diffConfigs le a b))
         <-> In (Config.key c) (Terms.keysOfConfig a)
             /\ In (Config.key c) (Terms.keysOfConfig b)
             /\ Config.from c = Resolver.getByPath a (Config.key c)
             /\ Config.to c = Resolver.getByPath b (Config.key c)
             /\ Config.deepEqualOpt (Config.from c) (Config.to c) = false)
  /\ (forall le a,
         Config.added (Config.diffConfigs le a a) = []
         /\ Config.removed (Config.diffConfigs le a a) = []
         /\ Forall (fun c => Config.from c = Some (Value.VNum Value.NaN))
              (Config.changed (Config.diffConfigs le a a))).
Proof.
  split; [intros; apply sortStrings_sorted|].
  split; [intros v path H; destruct v; try reflexivity; discriminate|].
  split; [reflexivity|].
  split; [intros le a b k; split;
          [apply (In_added le a b k)|apply (In_added le b a k)]|].
  split; [intros le a b; split; [apply sortStrings_sorted|];
          split; [apply sortStrings_sorted|reflexivity]|].
  split; [exact In_changed|].
  intros le a.
  assert (Hnone : List.filter
                    (fun k => negb (Config.has
                                      (Config.setOf (Terms.keysOfConfig a)) k))
                    (Config.setOf (Terms.keysOfConfig a)) = []).
  { apply filter_none. intros k Hk. apply negb_false_iff. now apply has_In. }
  split; [|split].
  - unfold Config.diffConfigs. cbn [Config.added].
    fold (Terms.keysOfConfig a). now rewrite Hnone.
  - unfold Config.diffConfigs. cbn [Config.removed].
    fold (Terms.keysOfConfig a). now rewrite Hnone.
  - apply List.Forall_forall. intros c Hc.
    apply (proj1 (In_changed le a a c)) in Hc.
    destruct Hc as (_ & _ & Hf & Ht & Hd).
    rewrite Ht, <- Hf in Hd. now apply deepEqualOpt_same.
Qed.


Section JsonFacts.
Import Heap Value Util Resolver Config Terms Spec.

Lemma cloneProps_copy ps : forall n,
  map (fun kv => (fst kv, erase (snd kv)))
    (fst (mapM (fun kv : string * Value.value =>
                  let* v := clone (snd kv) in ret (fst kv, v)) ps n))
  = map (fun kv => (fst kv, erase (snd kv))) ps
  /\ forallb (fun kv => fresh n (snd kv))
       (fst (mapM (fun kv : string * Value.value =>
                     let* v := clone (snd kv) in ret (fst kv, v)) ps n))
     = true
  /\ n <= snd (mapM (fun kv : string * Value.value =>
                       let* v := clone (snd kv) in ret (fst kv, v)) ps n).
Proof.
  induction ps as [|[k v] ps IH]; intros n.
  - simpl. repeat split. lia.
  - cbn [mapM]. rewrite !bind_run. cbn [ret fst snd].
    destruct (clone_post v n) as (Hle & (_ & He & _) & Hf & _).
    destruct (IH (snd (clone v n))) as (He' & Hf' & Hle').
    cbn [map fst snd forallb]. rewrite He, He', Hf.
    split; [reflexivity|]. split; [|lia]. cbn [andb].
    rewrite List.forallb_forall in *. intros kv Hkv.
    eapply fresh_mono; [exact Hle|]. now apply Hf'.
Qed.

End JsonFacts.

(** X8. [clone] is a deep copy: the value it returns has the structure
    of the original, every array and object of it is newly allocated (so
    it shares none with the original or with anything made before), and
    a string, number, boolean or null is returned as it is, with nothing
    allocated.  [toJSON] returns a new object with the keys of the
    configuration in their order and a deep copy of every property. *)
Theorem X8_clone_is_a_deep_copy :
  (forall v n,
      Spec.erase (fst (Resolver.clone v n)) = Spec.erase v
      /\ Spec.fresh n (fst (Resolver.clone v n)) = true
      /\ Spec.below (snd (Resolver.clone v n)) (fst (Resolver.clone v n)) = true
      /\ n <= snd (Resolver.clone v n)
      /\ (Spec.isScalar v = true -> Resolver.clone v n = (v, n)))
  /\ (forall id ps n,
         Spec.erase (fst (Config.toJSON (Value.VObj id ps) n))
         = Spec.erase (Value.VObj id ps)
         /\ Spec.fresh n (fst (Config.toJSON (Value.VObj id ps) n)) = true).
Proof.
  split.
  - intros v n.
    destruct (clone_post v n) as (Hle & (_ & He & _) & Hf & Hb).
    split; [exact He|]. split; [exact Hf|]. split; [exact Hb|].
    split; [exact Hle|].
    destruct v; simpl; intros H; try reflexivity; discriminate.
  - intros id ps n. unfold Config.toJSON. rewrite !bind_run.
    cbn [Heap.alloc Heap.ret fst snd Config.entriesOf].
    destruct (cloneProps_copy ps (S n)) as (He & Hf & _).
    split.
    + cbn [Spec.erase]. now rewrite He.
    + cbn [Spec.fresh]. rewrite Nat.leb_refl. cbn [andb].
      rewrite List.forallb_forall in *. intros kv Hkv.
      eapply fresh_mono; [|now apply Hf]. lia.
Qed.

(** ** Rule statements and directives *)

Section SpaceFacts.
Import Terms.

Lemma trimStart_app_space a : forall b,
  allSpace a = true -> Js.trimStart (a +:+ b) = Js.trimStart b.
Proof.
  induction a as [|c a IH]; intros b H.
  - now rewrite append_nil_l.
  - unfold allSpace in H. cbn [list_ascii_of_string forallb] in H.
    apply andb_true_iff in H. destruct H as [Hc Ha].
    rewrite append_cons. cbn [Js.trimStart]. rewrite Hc. now apply IH.
Qed.

Lemma trimStart_app_text a : forall b,
  allSpace a = false -> Js.trimStart (a +:+ b) = Js.trimStart a +:+ b.
Proof.
  induction a as [|c a IH]; intros b H; [discriminate|].
  unfold allSpace in H. cbn [list_ascii_of_string forallb] in H.
  rewrite append_cons. cbn [Js.trimStart].
  destruct (Js.isSpace c); [apply IH; exact H|].
  now rewrite append_cons.
Qed.

Lemma trimStart_idem s : Js.trimStart (Js.trimStart s) = Js.trimStart s.
Proof.
  induction s as [|c s IH]; [reflexivity|].
  cbn [Js.trimStart]. destruct (Js.isSpace c) eqn:E; [exact IH|].
  cbn [Js.trimStart]. now rewrite E.
Qed.

Lemma trimEnd_app_space a sp :
  allSpace sp = true -> Js.trimEnd (a +:+ sp) = Js.trimEnd a.
Proof.
  intros H. unfold Js.trimEnd. rewrite rev_app.
  rewrite trimStart_app_space; [reflexivity|]. now rewrite allSpace_rev.
Qed.

Lemma trim_app_space a sp :
  allSpace sp = true -> Js.trim (a +:+ sp) = Js.trim a.
Proof.
  intros H. unfold Js.trim.
  destruct (allSpace a) eqn:Ha.
  - rewrite (trimStart_app_space a sp Ha).
    rewrite (proj2 (trimStart_empty sp) H).
    now rewrite (proj2 (trimStart_empty a) Ha).
  - rewrite (trimStart_app_text a sp Ha). now apply trimEnd_app_space.
Qed.

Lemma trim_trimStart s : Js.trim (Js.trimStart s) = Js.trim s.
Proof. unfold Js.trim. now rewrite trimStart_idem. Qed.

Lemma trim_space_app sp a :
  allSpace sp = true -> Js.trim (sp +:+ a) = Js.trim a.
Proof. intros H. unfold Js.trim. now rewrite trimStart_app_space. Qed.

Lemma span_space s :
  Js.span Js.isSpace s = (fst (Js.span Js.isSpace s), Js.trimStart s)
  /\ allSpace (fst (Js.span Js.isSpace s)) = true.
Proof.
  induction s as [|c s [IH1 IH2]]; [now split|].
  cbn [Js.span Js.trimStart].
  destruct (Js.isSpace c) eqn:E.
  - rewrite IH1. cbn [fst]. split; [reflexivity|].
    unfold allSpace. cbn [list_ascii_of_string forallb]. rewrite E. exact IH2.
  - now split.
Qed.

Lemma span_space_app sp s :
  allSpace sp = true ->
  fst (Js.span Js.isSpace (sp +:+ s)) = sp +:+ fst (Js.span Js.isSpace s).
Proof.
  induction sp as [|c sp IH]; intros H.
  - now rewrite !append_nil_l.
  - unfold allSpace in H. cbn [list_ascii_of_string forallb] in H.
    apply andb_true_iff in H. destruct H as [Hc Hsp].
    rewrite !append_cons. cbn [Js.span]. rewrite Hc.
    specialize (IH Hsp).
    destruct (Js.span Js.isSpace (sp +:+ s)) as [a b]. cbn [fst] in *.
    now rewrite IH.
Qed.

Lemma lastChar_app a c : Statement.lastChar (a +:+ String c "") = Some c.
Proof.
  induction a as [|d a IH]; [reflexivity|].
  rewrite append_cons. cbn [Statement.lastChar]. rewrite IH.
  destruct (a +:+ String c "") eqn:E; [|reflexivity].
  destruct a; discriminate.
Qed.

Lemma dropLast_app a c : Statement.dropLast (a +:+ String c "") = a.
Proof.
  induction a as [|d a IH]; [reflexivity|].
  rewrite append_cons. cbn [Statement.dropLast]. rewrite IH.
  destruct (a +:+ String c "") eqn:E; [|reflexivity].
  destruct a; discriminate.
Qed.

Lemma endsWith_app a c : Js.endsWith (String c "") (a +:+ String c "") = true.
Proof.
  unfold Js.endsWith. rewrite rev_app. cbn [Js.rev]. rewrite append_nil_l.
  rewrite append_cons, append_nil_l. cbn [String.prefix].
  destruct (ascii_dec c c) as [_|N]; [|now elim N]. now destruct (Js.rev a).
Qed.

End SpaceFacts.

Section RuleFacts.
Import Value Resolver Parser Statement Terms.

Lemma code_equals c : (Js.code c =? 61)%nat = Ascii.eqb c equals.
Proof. destruct c as [[] [] [] [] [] [] [] []]; reflexivity. Qed.

Lemma operatorAt_text o rest : operatorAt (opText o +:+ rest) = Some (o, rest).
Proof.
  destruct o; cbn [opText]; rewrite ?append_cons, append_nil_l;
    try reflexivity.
  destruct rest as [|e r]; [reflexivity|].
  cbn [operatorAt]. now destruct (Js.code e =? 61)%nat.
Qed.

Lemma operatorAt_plain d r :
  (Js.code d =? 61)%nat = false ->
  match r with
  | String e _ => (Js.code e =? 61)%nat = false
  | EmptyString => True
  end ->
  operatorAt (String d r) = None.
Proof.
  intros Hd Hr. cbn [operatorAt]. destruct r as [|e r]; rewrite ?Hr, Hd;
    reflexivity.
Qed.

Lemma operatorAt_ends d r :
  (Js.code d =? 61)%nat = false ->
  endsPlain (String d "") = true ->
  operatorAt (String d r) = None.
Proof.
  intros Hd He. unfold endsPlain in He. cbn [lastChar] in He.
  apply negb_true_iff in He.
  apply orb_false_iff in He. destruct He as [He H45].
  apply orb_false_iff in He. destruct He as [He H43].
  apply orb_false_iff in He. destruct He as [H58 H124].
  cbn [operatorAt]. destruct r as [|e r]; rewrite ?Hd; [reflexivity|].
  rewrite H58, H124, H43, H45. now destruct (Js.code e =? 61)%nat.
Qed.

Lemma noneOf_cons c d s :
  noneOf c (String d s) = negb (Ascii.eqb d c) && noneOf c s.
Proof. reflexivity. Qed.

Lemma allSpace_cons d s : allSpace (String d s) = Js.isSpace d && allSpace s.
Proof. reflexivity. Qed.

Lemma key_rest_no_operator k : forall T,
  allSpace k = false -> noneOf equals k = true -> endsPlain k = true ->
  operatorAt (Js.trimStart (k +:+ T)) = None.
Proof.
  induction k as [|d r IH]; intros T Hs Hn He; [discriminate|].
  rewrite noneOf_cons in Hn. apply andb_true_iff in Hn.
  destruct Hn as [Hd Hn]. apply negb_true_iff in Hd.
  rewrite <- code_equals in Hd.
  rewrite allSpace_cons in Hs. rewrite append_cons. cbn [Js.trimStart].
  destruct (Js.isSpace d) eqn:E.
  - cbn [andb] in Hs. apply IH; [exact Hs|exact Hn|].
    destruct r; [discriminate|exact He].
  - destruct r as [|e r'].
    + rewrite append_nil_l. now apply operatorAt_ends.
    + rewrite append_cons. apply operatorAt_plain; [exact Hd|].
      rewrite noneOf_cons in Hn. apply andb_true_iff in Hn.
      destruct Hn as [Hn _]. apply negb_true_iff in Hn.
      now rewrite code_equals.
Qed.

Lemma ruleFrom_key o g T k : forall acc,
  ruleTail T = Some (o, g) ->
  k <> "" -> noneOf equals k = true -> oneLine k = true ->
  endsPlain k = true ->
  exists k' sp,
    k = k' +:+ sp /\ allSpace sp = true
    /\ ruleFrom acc (k +:+ T) = Some (acc +:+ k', o, g).
Proof.
  intros acc HT. revert acc.
  induction k as [|c k2 IH]; intros acc Hk Hn Hl He; [now elim Hk|].
  rewrite noneOf_cons in Hn. apply andb_true_iff in Hn.
  destruct Hn as [_ Hn].
  unfold oneLine in Hl. cbn [list_ascii_of_string forallb] in Hl.
  apply andb_true_iff in Hl. destruct Hl as [Hc Hl].
  apply negb_true_iff in Hc.
  rewrite append_cons. cbn [ruleFrom]. rewrite Hc.
  destruct (allSpace k2) eqn:Hs.
  - exists (String c ""), k2.
    split; [now rewrite append_cons, append_nil_l|]. split; [exact Hs|].
    unfold ruleTail. rewrite (trimStart_app_space k2 T Hs).
    unfold ruleTail in HT. now rewrite HT.
  - assert (Hk2 : k2 <> "") by (intros ->; discriminate).
    assert (He2 : endsPlain k2 = true) by (destruct k2; [now elim Hk2|exact He]).
    unfold ruleTail at 1.
    rewrite (key_rest_no_operator k2 T Hs Hn He2).
    destruct (IH (acc +:+ String c "") Hk2 Hn Hl He2) as (k' & sp & -> & Hsp & ->).
    exists (String c k'), sp.
    split; [now rewrite append_cons|]. split; [exact Hsp|].
    now rewrite append_assoc, append_cons, append_nil_l.
Qed.

Lemma valueGroup_text ws v :
  allSpace ws = true -> allSpace v = false ->
  exists g, valueGroup (ws +:+ v +:+ ";") = Some g /\ Js.trim g = Js.trim v.
Proof.
  intros Hws Hv. exists (Js.trimStart v). split; [|apply trim_trimStart].
  unfold valueGroup.
  rewrite (proj1 (span_space _)).
  rewrite (trimStart_app_space ws _ Hws), (trimStart_app_text v _ Hv).
  rewrite endsWith_app, dropLast_app.
  destruct (Js.trimStart v) eqn:E; [|reflexivity].
  apply trimStart_empty in E. congruence.
Qed.

Lemma ruleTail_text ws1 o ws2 v :
  allSpace ws1 = true -> allSpace ws2 = true -> allSpace v = false ->
  exists g,
    ruleTail (ws1 +:+ opText o +:+ ws2 +:+ v +:+ ";") = Some (o, g)
    /\ Js.trim g = Js.trim v.
Proof.
  intros H1 H2 Hv.
  destruct (valueGroup_text ws2 v H2 Hv) as (g & Hg & Ht).
  exists g. split; [|exact Ht].
  unfold ruleTail. rewrite (trimStart_app_space ws1 _ H1).
  assert (Hop : forall rest,
             Js.trimStart (opText o +:+ rest) = opText o +:+ rest)
    by (intros rest; destruct o; reflexivity).
  rewrite Hop, operatorAt_text, Hg. reflexivity.
Qed.

Lemma noneOf_trimStart c s :
  noneOf c s = true -> noneOf c (Js.trimStart s) = true.
Proof.
  induction s as [|d s IH]; intros H; [reflexivity|].
  cbn [Js.trimStart]. destruct (Js.isSpace d); [|exact H].
  rewrite noneOf_cons in H. apply andb_true_iff in H. now apply IH.
Qed.

Lemma operatorAt_free s : noneOf equals s = true -> operatorAt s = None.
Proof.
  intros H. destruct s as [|d r]; [reflexivity|].
  rewrite noneOf_cons in H. apply andb_true_iff in H. destruct H as [Hd Hr].
  apply negb_true_iff in Hd. rewrite <- code_equals in Hd.
  apply operatorAt_plain; [exact Hd|].
  destruct r as [|e r]; [exact I|].
  rewrite noneOf_cons in Hr. apply andb_true_iff in Hr. destruct Hr as [He _].
  apply negb_true_iff in He. now rewrite code_equals.
Qed.

Lemma ruleFrom_free s : forall acc,
  noneOf equals s = true -> ruleFrom acc s = None.
Proof.
  induction s as [|c s IH]; intros acc H; [reflexivity|].
  rewrite noneOf_cons in H. apply andb_true_iff in H. destruct H as [_ H].
  cbn [ruleFrom]. destruct (Js.isLineTerminator c); [reflexivity|].
  unfold ruleTail. rewrite (operatorAt_free _ (noneOf_trimStart _ _ H)).
  now apply IH.
Qed.

Lemma startsWith_at name raw :
  Js.startsWith "@" raw = false ->
  Js.startsWith (String "@" name) raw = false.
Proof.
  unfold Js.startsWith. destruct raw as [|c r]; [reflexivity|].
  cbn [String.prefix]. destruct (ascii_dec "@" c); [|reflexivity].
  now destruct r.
Qed.

Lemma directiveGroup_other name raw :
  Js.startsWith "@" raw = false ->
  directiveGroup (String "@" name) raw = None.
Proof.
  intros H. unfold directiveGroup. now rewrite (startsWith_at name raw H).
Qed.

Lemma includeGroup_other raw :
  Js.startsWith "@" raw = false -> includeGroup raw = None.
Proof.
  intros H. unfold includeGroup.
  now rewrite (startsWith_at "include" raw H).
Qed.

End RuleFacts.

(** X25. A rule statement [key op value;], with white space or none
    around the operator, gives one more rule: its key is the trimmed key
    text, its operator the first one of the statement, and its value
    what [parseValue] makes of the trimmed value text, which may itself
    hold operators, semicolons and line breaks.  The error of
    [parseValue] is the error of the statement, and a key with no
    segment (dots only) gives the error [Empty key].  A statement with
    no equals sign that does not start with an at sign is an
    [Invalid statement].  A value that is not [true], [false] or [null],
    not a decimal numeral and not between braces, brackets or quotes is
    the trimmed text itself, as a string. *)
Theorem X25_rule_statements :
  (forall numberOf JSON5_parse filePath k ws1 o ws2 v line p,
      Terms.keyText k = true ->
      Js.startsWith "@" k = false ->
      Terms.allSpace ws1 = true -> Terms.allSpace ws2 = true ->
      Terms.allSpace v = false ->
      Statement.interpret numberOf JSON5_parse false filePath
        (k +:+ ws1 +:+ Terms.opText o +:+ ws2 +:+ v +:+ ";") line p
      = match Parser.parseKeyPath (Js.trim k) with
        | [] =>
            Parser.Failed {| Parser.pe_message := "Empty key";
                             Parser.pe_line := line;
                             Parser.pe_col := Some 0;
                             Parser.pe_filePath := filePath |}
        | keySegments =>
            match Statement.parseValue numberOf JSON5_parse filePath
                    (Js.trim v) line with
            | Parser.Parsed value =>
                Parser.Parsed
                  (Parser.pushRule p
                     {| Resolver.filePath := filePath;
                        Resolver.line := line;
                        Resolver.col := 0;
                        Resolver.keyRaw := Js.trim k;
                        Resolver.keySegments := keySegments;
                        Resolver.op := o;
                        Resolver.value := value |})
            | Parser.Failed e => Parser.Failed e
            end
        end)
  /\ (forall numberOf JSON5_parse filePath raw line p,
         Terms.noneOf Terms.equals raw = true ->
         Js.startsWith "@" raw = false ->
         Statement.interpret numberOf JSON5_parse false filePath raw line p
         = Parser.Failed {| Parser.pe_message := "Invalid statement";
                            Parser.pe_line := line;
                            Parser.pe_col := None;
                            Parser.pe_filePath := filePath |})
  /\ (forall numberOf JSON5_parse filePath raw line,
         ~ In (Js.trim raw) ["true"; "false"; "null"] ->
         Statement.isNumeral (Js.trim raw) = false ->
         Statement.looksJsonish (Js.trim raw) = false ->
         Statement.parseValue numberOf JSON5_parse filePath raw line
         = Parser.Parsed (Value.VStr (Js.trim raw))).
Proof.
  split; [|split].
  - intros numberOf JSON5_parse filePath k ws1 o ws2 v line p Hk Hat H1 H2 Hv.
    unfold Terms.keyText in Hk.
    apply andb_true_iff in Hk. destruct Hk as [Hk He].
    apply andb_true_iff in Hk. destruct Hk as [Hk Hl].
    apply andb_true_iff in Hk. destruct Hk as [Hk Hn].
    apply negb_true_iff, String.eqb_neq in Hk.
    destruct (ruleTail_text ws1 o ws2 v H1 H2 Hv) as (g & HT & Hg).
    destruct (ruleFrom_key o g _ k "" HT Hk Hn Hl He)
      as (k' & sp & Hsplit & Hsp & Hrule).
    rewrite append_nil_l in Hrule.
    assert (Hraw : Js.startsWith "@"
                     (k +:+ ws1 +:+ Terms.opText o +:+ ws2 +:+ v +:+ ";")
                   = false)
      by (rewrite (startsWith_one _ _ _ Hk); exact Hat).
    unfold Statement.interpret.
    rewrite (directiveGroup_other "dims" _ Hraw).
    rewrite (includeGroup_other _ Hraw).
    rewrite (directiveGroup_other "require" _ Hraw).
    rewrite (directiveGroup_other "envDefaults" _ Hraw).
    unfold Statement.ruleMatch. rewrite Hrule.
    assert (Hkey : Js.trim k' = Js.trim k)
      by (rewrite Hsplit; symmetry; now apply trim_app_space).
    rewrite Hkey, Hg. reflexivity.
  - intros numberOf JSON5_parse filePath raw line p Hn Hat.
    unfold Statement.interpret.
    rewrite (directiveGroup_other "dims" _ Hat).
    rewrite (includeGroup_other _ Hat).
    rewrite (directiveGroup_other "require" _ Hat).
    rewrite (directiveGroup_other "envDefaults" _ Hat).
    unfold Statement.ruleMatch. now rewrite (ruleFrom_free raw "" Hn).
  - intros numberOf JSON5_parse filePath raw line Hkw Hnum Hjson.
    unfold Statement.parseValue. rewrite Hnum, Hjson.
    destruct (String.eqb (Js.trim raw) "true") eqn:E1;
      [apply String.eqb_eq in E1; elim Hkw; rewrite E1; simpl; tauto|].
    destruct (String.eqb (Js.trim raw) "false") eqn:E2;
      [apply String.eqb_eq in E2; elim Hkw; rewrite E2; simpl; tauto|].
    destruct (String.eqb (Js.trim raw) "null") eqn:E3;
      [apply String.eqb_eq in E3; elim Hkw; rewrite E3; simpl; tauto|].
    reflexivity.
Qed.

Section DirectiveFacts.
Import Value Resolver Parser Statement Terms.

Lemma prefix_app a b : String.prefix a (a +:+ b) = true.
Proof.
  induction a as [|c a IH]; [now destruct b|].
  rewrite append_cons. cbn [String.prefix].
  destruct (ascii_dec c c) as [_|N]; [exact IH|now elim N].
Qed.

Lemma drop_app a b : Js.drop (String.length a) (a +:+ b) = b.
Proof.
  induction a as [|c a IH]; [now rewrite append_nil_l|].
  rewrite append_cons. exact IH.
Qed.

Lemma isSemicolon_eqb c : isSemicolon c = Ascii.eqb c semicolon.
Proof. destruct c as [[] [] [] [] [] [] [] []]; reflexivity. Qed.

Lemma space_not_comma c : Js.isSpace c = true -> Ascii.eqb c "," = false.
Proof. destruct c as [[] [] [] [] [] [] [] []]; intros H; now try discriminate. Qed.

Lemma allSpace_no_comma s : allSpace s = true -> noneOf "," s = true.
Proof.
  induction s as [|c s IH]; intros H; [reflexivity|].
  rewrite allSpace_cons in H. apply andb_true_iff in H. destruct H as [Hc Hs].
  rewrite noneOf_cons, (space_not_comma c Hc). now apply IH.
Qed.

Lemma splitOn_cur sep s : forall cur,
  Js.splitOn sep cur s
  = match Js.splitOn sep "" s with
    | x :: xs => (cur +:+ x) :: xs
    | [] => []
    end.
Proof.
  induction s as [|c s IH]; intros cur.
  - cbn [Js.splitOn]. now rewrite append_nil_r.
  - cbn [Js.splitOn]. destruct (Ascii.eqb c sep).
    + now rewrite append_nil_r.
    + rewrite (IH (cur +:+ String c "")), (IH ("" +:+ String c "")).
      destruct (Js.splitOn sep "" s) as [|x xs]; [reflexivity|].
      now rewrite append_nil_l, append_assoc.
Qed.

Lemma names_space g : allSpace g = true -> names g = [].
Proof.
  intros H. unfold names.
  pose proof (splitOn_free "," g "" "" (allSpace_no_comma g H)) as E.
  rewrite append_nil_r, append_nil_l in E. rewrite E.
  cbn [Js.splitOn map List.filter].
  now rewrite (proj2 (trim_empty g) H).
Qed.

Lemma names_trimStart g : names (Js.trimStart g) = names g.
Proof.
  unfold names.
  pose proof (span_app Js.isSpace g) as E.
  destruct (span_space g) as [Hpair Hlead].
  rewrite Hpair in E. cbn [fst snd] in E.
  rewrite <- E at 2.
  rewrite (splitOn_free "," _ "" _ (allSpace_no_comma _ Hlead)).
  rewrite append_nil_l.
  rewrite (splitOn_cur "," (Js.trimStart g) (fst (Js.span Js.isSpace g))).
  destruct (Js.splitOn "," "" (Js.trimStart g)) as [|x xs]; [reflexivity|].
  cbn [map]. now rewrite (trim_space_app _ x Hlead).
Qed.

Lemma span_no_semicolon g tail :
  noneOf semicolon g = true ->
  Js.span (fun c => negb (isSemicolon c)) (g +:+ ";" +:+ tail)
  = (g, ";" +:+ tail).
Proof.
  intros H. rewrite append_cons, append_nil_l. apply span_free; [|reflexivity].
  unfold noneOf in H. rewrite <- H. apply forallb_same.
  intros c. now rewrite isSemicolon_eqb.
Qed.

Lemma lastChar_space s :
  s <> "" -> allSpace s = true ->
  exists c, lastChar s = Some c /\ Js.isSpace c = true.
Proof.
  induction s as [|d s IH]; intros Hne H; [now elim Hne|].
  rewrite allSpace_cons in H. apply andb_true_iff in H. destruct H as [Hd Hs].
  destruct s as [|d' s'].
  - exists d. now split.
  - destruct (IH ltac:(discriminate) Hs) as (c & L & Hc).
    exists c. now split.
Qed.

Lemma directiveGroup_text name ws g tail :
  ws <> "" -> allSpace ws = true ->
  g <> "" -> noneOf semicolon g = true ->
  exists g',
    directiveGroup name (name +:+ ws +:+ g +:+ ";" +:+ tail) = Some g'
    /\ names g' = names g.
Proof.
  intros Hws Hsp Hg Hn. unfold directiveGroup, Js.startsWith.
  rewrite prefix_app, drop_app.
  pose proof (span_space_app ws (g +:+ ";" +:+ tail) Hsp) as Hfst.
  rewrite (proj1 (span_space _)). rewrite Hfst.
  rewrite (trimStart_app_space ws _ Hsp).
  destruct (allSpace g) eqn:Hs.
  - rewrite (trimStart_app_space g _ Hs).
    rewrite (span_space_app g _ Hs).
    rewrite append_cons, append_nil_l.
    cbn [Js.trimStart Js.isSpace Js.span fst]. cbn.
    rewrite append_nil_r.
    assert (Hall : allSpace (ws +:+ g) = true)
      by (rewrite allSpace_app, Hsp, Hs; reflexivity).
    assert (Hne : ws +:+ g <> "") by (destruct ws; [now elim Hws|discriminate]).
    destruct (lastChar_space _ Hne Hall) as (c & L & Hc).
    exists (String c ""). rewrite L.
    split.
    + destruct ws as [|a ws']; [now elim Hws|].
      destruct g as [|b g']; [now elim Hg|].
      rewrite append_cons.
      destruct (ws' +:+ String b g') eqn:E; [destruct ws'; discriminate|].
      reflexivity.
    + rewrite (names_space _ Hs). apply names_space.
      unfold allSpace. cbn. now rewrite Hc.
  - rewrite (trimStart_app_text g _ Hs).
    rewrite (span_no_semicolon _ tail (noneOf_trimStart _ _ Hn)).
    exists (Js.trimStart g). split; [|apply names_trimStart].
    destruct ws as [|a ws']; [now elim Hws|]. rewrite append_cons.
    rewrite append_cons, append_nil_l.
    destruct (Js.trimStart g) eqn:E; [|reflexivity].
    apply trimStart_empty in E. congruence.
Qed.

End DirectiveFacts.

Section IncludeFacts.
Import Value Resolver Parser Statement Terms.

Lemma oneLine_app a b : oneLine (a +:+ b) = oneLine a && oneLine b.
Proof.
  induction a as [|c a IH]; [now rewrite append_nil_l|].
  rewrite append_cons. unfold oneLine in *.
  cbn [list_ascii_of_string forallb]. now rewrite IH, andb_assoc.
Qed.

Lemma oneLine_trimStart s : oneLine s = true -> oneLine (Js.trimStart s) = true.
Proof.
  induction s as [|d s IH]; intros H; [reflexivity|].
  cbn [Js.trimStart]. destruct (Js.isSpace d); [|exact H].
  unfold oneLine in H. cbn [list_ascii_of_string forallb] in H.
  apply andb_true_iff in H. now apply IH.
Qed.

Lemma beforeLast_app s : beforeLast (s +:+ ";") = Some s.
Proof.
  induction s as [|c s IH]; [reflexivity|].
  rewrite append_cons. cbn [beforeLast]. now rewrite IH.
Qed.

Lemma includeGroup_text ws path :
  ws <> "" -> allSpace ws = true ->
  oneLine path = true -> allSpace path = false ->
  exists g,
    includeGroup ("@include" +:+ ws +:+ path +:+ ";") = Some g
    /\ Js.trim g = Js.trim path.
Proof.
  intros Hws Hsp Hl Hp. exists (Js.trimStart path).
  split; [|apply trim_trimStart].
  unfold includeGroup, Js.startsWith. rewrite prefix_app.
  change 8 with (String.length "@include"). rewrite drop_app.
  pose proof (span_space_app ws (path +:+ ";") Hsp) as Hfst.
  rewrite (proj1 (span_space _)). rewrite Hfst.
  rewrite (trimStart_app_space ws _ Hsp), (trimStart_app_text path _ Hp).
  rewrite span_all
    by (fold (oneLine (Js.trimStart path +:+ ";"));
        rewrite oneLine_app, (oneLine_trimStart _ Hl); reflexivity).
  destruct ws as [|a ws']; [now elim Hws|]. rewrite append_cons.
  rewrite beforeLast_app.
  destruct (Js.trimStart path) eqn:E; [|reflexivity].
  apply trimStart_empty in E. congruence.
Qed.

Lemma stripQuotes_quoted q inner :
  String q "" = doubleQuote \/ String q "" = singleQuote ->
  stripQuotes (String q "" +:+ inner +:+ String q "") = inner.
Proof.
  intros Hq. unfold stripQuotes.
  assert (Hb : (Js.startsWith doubleQuote
                  (String q "" +:+ inner +:+ String q "")
                && Js.endsWith doubleQuote
                     (String q "" +:+ inner +:+ String q "")
                || Js.startsWith singleQuote
                     (String q "" +:+ inner +:+ String q "")
                   && Js.endsWith singleQuote
                        (String q "" +:+ inner +:+ String q "")) = true).
  { destruct Hq as [<-|<-].
    - unfold Js.startsWith. rewrite prefix_app.
      rewrite <- append_assoc, endsWith_app. reflexivity.
    - unfold Js.startsWith at 2. rewrite prefix_app.
      rewrite <- append_assoc, endsWith_app. apply orb_true_r. }
  rewrite Hb. rewrite append_cons, append_nil_l. cbn [Js.drop].
  apply dropLast_app.
Qed.

End IncludeFacts.

(** X26. The directives.  [@dims] sets the dimensions, and [@require]
    adds to the required keys, the names between the directive and the
    first semicolon after it: the pieces between the commas, trimmed,
    the empty ones dropped; whatever follows that semicolon in the
    statement is ignored.  [@include] adds the path that stands before
    the last semicolon of its line, trimmed and without its quotes.
    When only directives are parsed, a statement that does not start
    with an at sign is skipped without an error. *)
Theorem X26_directives :
  (forall numberOf JSON5_parse only filePath ws g tail line p,
      ws <> "" -> Terms.allSpace ws = true ->
      g <> "" -> Terms.noneOf Terms.semicolon g = true ->
      Statement.interpret numberOf JSON5_parse only filePath
        ("@dims" +:+ ws +:+ g +:+ ";" +:+ tail) line p
      = Parser.Parsed
          {| Parser.dims := Some (Statement.names g);
             Parser.includes := Parser.includes p;
             Parser.requires := Parser.requires p;
             Parser.envDefaults := Parser.envDefaults p;
             Parser.rules := Parser.rules p |})
  /\ (forall numberOf JSON5_parse only filePath ws g tail line p,
         ws <> "" -> Terms.allSpace ws = true ->
         g <> "" -> Terms.noneOf Terms.semicolon g = true ->
         Statement.interpret numberOf JSON5_parse only filePath
           ("@require" +:+ ws +:+ g +:+ ";" +:+ tail) line p
         = Parser.Parsed
             {| Parser.dims := Parser.dims p;
                Parser.includes := Parser.includes p;
                Parser.requires := Parser.requires p ++ Statement.names g;
                Parser.envDefaults := Parser.envDefaults p;
                Parser.rules := Parser.rules p |})
  /\ (forall numberOf JSON5_parse only filePath ws path line p,
         ws <> "" -> Terms.allSpace ws = true ->
         Terms.oneLine path = true -> Terms.allSpace path = false ->
         Statement.interpret numberOf JSON5_parse only filePath
           ("@include" +:+ ws +:+ path +:+ ";") line p
         = Parser.Parsed
             {| Parser.dims := Parser.dims p;
                Parser.includes :=
                  Parser.includes p
                  ++ [Statement.stripQuotes (Js.trim path)];
                Parser.requires := Parser.requires p;
                Parser.envDefaults := Parser.envDefaults p;
                Parser.rules := Parser.rules p |})
  /\ (forall q inner,
         String q "" = Statement.doubleQuote
         \/ String q "" = Statement.singleQuote ->
         Statement.stripQuotes (String q "" +:+ inner +:+ String q "")
         = inner)
  /\ (forall numberOf JSON5_parse filePath raw line p,
         Js.startsWith "@" raw = false ->
         Statement.interpret numberOf JSON5_parse true filePath raw line p
         = Parser.Parsed p).
Proof.
  split; [|split; [|split; [|split]]].
  - intros numberOf JSON5_parse only filePath ws g tail line p
      Hws Hsp Hg Hn.
    destruct (directiveGroup_text "@dims" ws g tail Hws Hsp Hg Hn)
      as (g' & Hd & Hnames).
    unfold Statement.interpret. rewrite Hd, Hnames. reflexivity.
  - intros numberOf JSON5_parse only filePath ws g tail line p
      Hws Hsp Hg Hn.
    destruct (directiveGroup_text "@require" ws g tail Hws Hsp Hg Hn)
      as (g' & Hd & Hnames).
    unfold Statement.interpret.
    change (Statement.directiveGroup "@dims"
              ("@require" +:+ ws +:+ g +:+ ";" +:+ tail)) with (@None string).
    change (Statement.includeGroup
              ("@require" +:+ ws +:+ g +:+ ";" +:+ tail)) with (@None string).
    rewrite Hd, Hnames. reflexivity.
  - intros numberOf JSON5_parse only filePath ws path line p
      Hws Hsp Hl Hp.
    destruct (includeGroup_text ws path Hws Hsp Hl Hp) as (g & Hi & Hg).
    unfold Statement.interpret.
    change (Statement.directiveGroup "@dims"
              ("@include" +:+ ws +:+ path +:+ ";")) with (@None string).
    rewrite Hi, Hg. reflexivity.
  - exact stripQuotes_quoted.
  - intros numberOf JSON5_parse filePath raw line p Hat.
    unfold Statement.interpret.
    rewrite (directiveGroup_other "dims" _ Hat).
    rewrite (includeGroup_other _ Hat).
    rewrite (directiveGroup_other "require" _ Hat).
    rewrite (directiveGroup_other "envDefaults" _ Hat).
    reflexivity.
Qed.

Section DefaultsFacts.
Import Value Resolver Parser Statement Terms.

Lemma span_equals part :
  match Js.span (fun c => negb (isEquals c)) part with
  | (_, EmptyString) => noneOf equals part = true
  | (_, String _ _) => noneOf equals part = false
  end.
Proof.
  induction part as [|c s IH]; [reflexivity|].
  cbn [Js.span]. rewrite noneOf_cons. unfold isEquals at 1.
  rewrite code_equals.
  destruct (Ascii.eqb c equals); [reflexivity|]. cbn [negb andb].
  destruct (Js.span (fun c => negb (isEquals c)) s) as [a [|d b]]; exact IH.
Qed.

Lemma find_app {A} (f : A -> bool) l1 l2 :
  List.find f (l1 ++ l2)
  = match List.find f l1 with
    | Some x => Some x
    | None => List.find f l2
    end.
Proof.
  induction l1 as [|x l1 IH]; [reflexivity|].
  cbn [app List.find]. now destruct (f x).
Qed.

Lemma lastOf_cons kv l key :
  lastOf (kv :: l) key
  = match lastOf l key with
    | Some v => Some v
    | None => if String.eqb (fst kv) key then Some (snd kv) else None
    end.
Proof.
  unfold lastOf. cbn [rev]. rewrite find_app.
  destruct (List.find _ (rev l)); [reflexivity|].
  cbn [List.find]. now destruct (String.eqb (fst kv) key).
Qed.

Lemma envEntries_good parts : forall d,
  Forall (fun part => noneOf equals part = false) parts ->
  exists m,
    envEntries parts d = inr m
    /\ forall key,
         Js.mapGet m key
         = if String.eqb key "__proto__" then Js.mapGet d key
           else match lastOf (entries parts) key with
                | Some v => Some v
                | None => Js.mapGet d key
                end.
Proof.
  induction parts as [|part parts IH]; intros d H.
  - exists d. split; [reflexivity|]. intros key.
    now destruct (String.eqb key "__proto__").
  - apply List.Forall_cons_iff in H. destruct H as [Hp H].
    cbn [envEntries].
    change (entries (part :: parts))
      with (match entryOf part with
            | Some kv => [kv]
            | None => []
            end ++ entries parts).
    unfold entryOf. pose proof (span_equals part) as Hs.
    destruct (Js.span (fun c => negb (isEquals c)) part) as [k [|e vRaw]];
      [congruence|].
    destruct (IH (setDefault d (Js.trim k) (stripQuotes (Js.trim vRaw))) H)
      as (m & -> & Hm).
    exists m. split; [reflexivity|]. intros key. rewrite (Hm key).
    destruct (String.eqb key "__proto__") eqn:P.
    + unfold setDefault.
      destruct (String.eqb (Js.trim k) "__proto__") eqn:Q; [reflexivity|].
      apply String.eqb_eq in P. apply String.eqb_neq in Q.
      apply mapGet_mapSet_ne. congruence.
    + cbn [app]. rewrite lastOf_cons.
      destruct (lastOf (entries parts) key); [reflexivity|].
      cbn [fst snd]. unfold setDefault.
      destruct (String.eqb (Js.trim k) key) eqn:E.
      * apply String.eqb_eq in E. subst key. rewrite P.
        apply mapGet_mapSet_eq.
      * apply String.eqb_neq in E.
        destruct (String.eqb (Js.trim k) "__proto__"); [reflexivity|].
        now apply mapGet_mapSet_ne.
Qed.

Lemma envEntries_bad good : forall bad rest d,
  Forall (fun part => noneOf equals part = false) good ->
  noneOf equals bad = true ->
  envEntries (good ++ bad :: rest) d = inl bad.
Proof.
  induction good as [|part good IH]; intros bad rest d H Hb.
  - cbn [app envEntries]. pose proof (span_equals bad) as Hs.
    destruct (Js.span (fun c => negb (isEquals c)) bad) as [k [|e v]];
      [reflexivity|congruence].
  - apply List.Forall_cons_iff in H. destruct H as [Hp H].
    cbn [app envEntries]. pose proof (span_equals part) as Hs.
    destruct (Js.span (fun c => negb (isEquals c)) part) as [k [|e v]];
      [congruence|].
    now apply IH.
Qed.

End DefaultsFacts.

(** X27. [@envDefaults] takes the entries between the directive and the
    first semicolon after it, the pieces between the commas, trimmed,
    the empty ones dropped.  When every entry has an equals sign, each
    assigns to the trimmed text before its first equals sign the trimmed
    text after it, without its quotes: a key then has the value of the
    last entry that assigns it, else the default it had, and the key
    [__proto__] is never assigned.  The first entry with no equals sign
    stops the parsing with the error [Bad @envDefaults entry]. *)
Theorem X27_environment_defaults :
  (forall numberOf JSON5_parse only filePath ws g tail line p,
      ws <> "" -> Terms.allSpace ws = true ->
      g <> "" -> Terms.noneOf Terms.semicolon g = true ->
      Statement.interpret numberOf JSON5_parse only filePath
        ("@envDefaults" +:+ ws +:+ g +:+ ";" +:+ tail) line p
      = match Statement.envEntries (Statement.names g)
                (Parser.envDefaults p) with
        | inr defaults =>
            Parser.Parsed
              {| Parser.dims := Parser.dims p;
                 Parser.includes := Parser.includes p;
                 Parser.requires := Parser.requires p;
                 Parser.envDefaults := defaults;
                 Parser.rules := Parser.rules p |}
        | inl entry =>
            Parser.Failed
              {| Parser.pe_message := "Bad @envDefaults entry: " +:+ entry;
                 Parser.pe_line := line;
                 Parser.pe_col := None;
                 Parser.pe_filePath := filePath |}
        end)
  /\ (forall parts defaults,
         Forall (fun part => Terms.noneOf Terms.equals part = false) parts ->
         exists assigned,
           Statement.envEntries parts defaults = inr assigned
           /\ forall key,
                Js.mapGet assigned key
                = if String.eqb key "__proto__"
                  then Js.mapGet defaults key
                  else match Terms.lastOf (Terms.entries parts) key with
                       | Some v => Some v
                       | None => Js.mapGet defaults key
                       end)
  /\ (forall good bad rest defaults,
         Forall (fun part => Terms.noneOf Terms.equals part = false) good ->
         Terms.noneOf Terms.equals bad = true ->
         Statement.envEntries (good ++ bad :: rest) defaults = inl bad).
Proof.
  split; [|split].
  - intros numberOf JSON5_parse only filePath ws g tail line p
      Hws Hsp Hg Hn.
    destruct (directiveGroup_text "@envDefaults" ws g tail Hws Hsp Hg Hn)
      as (g' & Hd & Hnames).
    unfold Statement.interpret.
    change (Statement.directiveGroup "@dims"
              ("@envDefaults" +:+ ws +:+ g +:+ ";" +:+ tail))
      with (@None string).
    change (Statement.includeGroup
              ("@envDefaults" +:+ ws +:+ g +:+ ";" +:+ tail))
      with (@None string).
    change (Statement.directiveGroup "@require"
              ("@envDefaults" +:+ ws +:+ g +:+ ";" +:+ tail))
      with (@None string).
    rewrite Hd, Hnames. reflexivity.
  - exact envEntries_good.
  - exact envEntries_bad.
Qed.

(** ** The loader and the registry of providers *)

Section ContextFacts.
Import Index Terms.

Lemma lastOf_app a b key :
  lastOf (a ++ b) key
  = match lastOf b key with
    | Some v => Some v
    | None => lastOf a key
    end.
Proof.
  unfold lastOf. rewrite List.rev_app_distr, find_app.
  now destruct (List.find _ (rev b)).
Qed.

Lemma merge_unit m : forall (out : gmap string string) d,
  d <> "__proto__" ->
  fold_left (fun out kv =>
               if String.eqb (fst kv) "__proto__" then out
               else <[fst kv := snd kv]> out) m out !! d
  = match lastOf m d with
    | Some v => Some v
    | None => out !! d
    end.
Proof.
  induction m as [|kv m IH]; intros out d Hd; [reflexivity|].
  cbn [fold_left]. rewrite (IH _ d Hd), lastOf_cons.
  destruct (lastOf m d); [reflexivity|].
  destruct (String.eqb (fst kv) d) eqn:E.
  - apply String.eqb_eq in E. subst d.
    apply String.eqb_neq in Hd. rewrite Hd. apply lookup_insert_eq.
  - apply String.eqb_neq in E.
    destruct (String.eqb (fst kv) "__proto__"); [reflexivity|].
    now apply lookup_insert_ne.
Qed.

Lemma merge_units l : forall (out : gmap string string) d,
  d <> "__proto__" ->
  fold_left
    (fun out m =>
       fold_left (fun out kv =>
                    if String.eqb (fst kv) "__proto__" then out
                    else <[fst kv := snd kv]> out) m out)
    l out !! d
  = match lastOf (concat l) d with
    | Some v => Some v
    | None => out !! d
    end.
Proof.
  induction l as [|m l IH]; intros out d Hd; [reflexivity|].
  cbn [fold_left concat]. rewrite (IH _ d Hd), lastOf_app.
  destruct (lastOf (concat l) d); [reflexivity|].
  now apply merge_unit.
Qed.

Lemma mergeEnvDefaults_lookup l d :
  d <> "__proto__" -> mergeEnvDefaults l !! d = lastOf (concat l) d.
Proof.
  intros Hd. unfold mergeEnvDefaults. rewrite (merge_units l ∅ d Hd).
  now destruct (lastOf (concat l) d).
Qed.

Lemma find_first {A} (f : A -> bool) before x after :
  Forall (fun y => f y = false) before -> f x = true ->
  List.find f (before ++ x :: after) = Some x.
Proof.
  induction 1 as [|y before Hy _ IH]; intros Hx; cbn [app List.find].
  - now rewrite Hx.
  - rewrite Hy. now apply IH.
Qed.

Lemma find_none {A} (f : A -> bool) l :
  Forall (fun y => f y = false) l -> List.find f l = None.
Proof.
  induction 1 as [|y l Hy _ IH]; [reflexivity|].
  cbn [List.find]. now rewrite Hy.
Qed.

End ContextFacts.

(** X28. What a load resolves with.  The dimensions are [opts.dims]
    when that is a non-empty array, else the dimensions of the first
    unit that declares some, else [env] alone; they are never empty.
    The context value of [env] is the one of [opts.ctx] when it has one,
    else [NODE_ENV], else [dev], whatever the [@envDefaults] of the
    units say; for another dimension it is the one of [opts.ctx], else
    the default of the last unit that declares one.  The variable [ROOT]
    is the working directory unless [opts.vars] has it. *)
Theorem X28_context_of_a_load :
  (forall opts parsed, Index.dimsOf opts parsed <> [])
  /\ (forall opts parsed d ds,
         Index.dims opts = Some (d :: ds) ->
         Index.dimsOf opts parsed = d :: ds)
  /\ (forall opts before p after,
         Index.dims opts = None \/ Index.dims opts = Some [] ->
         Forall (fun u => Index.hasDims u = false) before ->
         Index.hasDims p = true ->
         Some (Index.dimsOf opts (before ++ p :: after)) = Parser.dims p)
  /\ (forall opts parsed,
         Index.dims opts = None \/ Index.dims opts = Some [] ->
         Forall (fun u => Index.hasDims u = false) parsed ->
         Index.dimsOf opts parsed = ["env"])
  /\ (forall w opts parsed,
         Index.ctxOf w opts parsed !! "env"
         = Some (match Index.ctx opts !! "env" with
                 | Some e => e
                 | None => default "dev" (Index.processEnv w !! "NODE_ENV")
                 end))
  /\ (forall w opts parsed d,
         d <> "env" -> d <> "__proto__" ->
         Index.ctxOf w opts parsed !! d
         = match Index.ctx opts !! d with
           | Some v => Some v
           | None =>
               Terms.lastOf (concat (map Parser.envDefaults parsed)) d
           end)
  /\ (forall w opts k,
         Index.varsOf w opts !! k
         = match Index.vars opts !! k with
           | Some v => Some v
           | None => if String.eqb k "ROOT" then Some (Index.cwd w) else None
           end).
Proof.
  split; [|split; [|split; [|split; [|split; [|split]]]]].
  - intros opts parsed. unfold Index.dimsOf.
    destruct (Index.dims opts) as [[|d ds]|]; try discriminate;
      (destruct (List.find Index.hasDims parsed) as [p|] eqn:E;
       [|discriminate];
       apply List.find_some in E; destruct E as [_ E];
       unfold Index.hasDims in E;
       destruct (Parser.dims p) as [[|x xs]|]; discriminate).
  - intros opts parsed d ds H. unfold Index.dimsOf. now rewrite H.
  - intros opts before p after H Hb Hp. unfold Index.dimsOf.
    rewrite (find_first _ _ _ after Hb Hp).
    unfold Index.hasDims in Hp.
    destruct H as [-> | ->];
      destruct (Parser.dims p) as [[|x xs]|]; try discriminate; reflexivity.
  - intros opts parsed H Hn. unfold Index.dimsOf.
    rewrite (find_none _ _ Hn). now destruct H as [-> | ->].
  - intros w opts parsed. unfold Index.ctxOf.
    rewrite lookup_union, lookup_insert_eq.
    now destruct (Index.ctx opts !! "env").
  - intros w opts parsed d Hd Hp. unfold Index.ctxOf.
    rewrite lookup_union, lookup_insert_ne by congruence.
    rewrite (mergeEnvDefaults_lookup _ d Hp).
    destruct (Index.ctx opts !! d);
      now destruct (Terms.lastOf _ d).
  - intros w opts k. unfold Index.varsOf. rewrite lookup_union.
    destruct (String.eqb k "ROOT") eqn:E.
    + apply String.eqb_eq in E. subst k. rewrite lookup_singleton_eq.
      now destruct (Index.vars opts !! "ROOT").
    + apply String.eqb_neq in E.
      rewrite lookup_singleton_ne by congruence.
      now destruct (Index.vars opts !! k).
Qed.

Section RequireFacts.
Import Heap Value Resolver Index Terms.

Lemma missingKeys_in c requires k :
  In k (missingKeys c requires) <-> In k requires /\ get c k = None.
Proof.
  unfold missingKeys. rewrite List.filter_In.
  destruct (get c k); split; intros [H1 H2]; try discriminate; now split.
Qed.

Lemma enforce_loaded c requires c' :
  enforce c requires = Loaded c' ->
  c' = c /\ forall k, In k requires -> get c k <> None.
Proof.
  unfold enforce. destruct (missingKeys c requires) as [|m ms] eqn:E;
    [|discriminate].
  intros [= <-]. split; [reflexivity|]. intros k Hk Hnone.
  assert (Hin : In k (missingKeys c requires))
    by (apply missingKeys_in; now split).
  rewrite E in Hin. destruct Hin.
Qed.

Lemma enforce_missing c requires k :
  In k requires -> get c k = None ->
  enforce c requires
  = Failed (Message (requireError (missingKeys c requires))).
Proof.
  intros Hk Hnone. unfold enforce.
  destruct (missingKeys c requires) as [|m ms] eqn:E; [|reflexivity].
  assert (Hin : In k (missingKeys c requires))
    by (apply missingKeys_in; now split).
  rewrite E in Hin. destruct Hin.
Qed.

Lemma loadParsed_run w opts parsed ws n :
  loadParsed w opts parsed ws n
  = let r := resolveRules (Loader.allRules parsed) (dimsOf opts parsed)
               (resolveOptions w opts parsed) ws n in
    match fst r with
    | Throw message => (Failed (Message message), snd r)
    | Ok res =>
        if appliesSecrets w opts then
          let s := Secrets.applySecretsDeep (cfg res) (secretOptions w opts)
                     (Resolver.warnings res) (now w) (snd r) in
          match Secrets.returned (fst s) with
          | inr e => (Failed (Thrown e), snd s)
          | inl secretified =>
              (enforce {| tree := secretified;
                          source := cfg res;
                          trace := Resolver.trace res;
                          warnings := Secrets.out_warnings (fst s) |}
                 (flat_map Parser.requires parsed), snd s)
          end
        else
          (enforce {| tree := cfg res;
                      source := cfg res;
                      trace := Resolver.trace res;
                      warnings := Resolver.warnings res |}
             (flat_map Parser.requires parsed), snd r)
    end.
Proof.
  unfold loadParsed. rewrite bind_run. cbv zeta.
  destruct (fst (resolveRules _ _ _ ws n)) as [res|m]; [|reflexivity].
  destruct (appliesSecrets w opts); [|reflexivity].
  rewrite bind_run.
  now destruct (Secrets.returned (fst (Secrets.applySecretsDeep _ _ _ _ _))).
Qed.

End RequireFacts.

(** X29. For required keys that [get] looks up in the data of the
    tree (no segment names a method of the configuration, as get or
    keys at the top, or a member every object inherits, as toString,
    and an array is entered by an index or by length): [@require] is
    enforced on the tree that [resolveRules] made,
    before any secret is substituted, since that is the tree [get]
    reads: a load returns a configuration only if [get] finds every
    required key of every unit there, and secret substitution can
    neither supply a missing key nor take one away; the tree returned
    is the substituted one, while [get] goes on reading the tree before
    the substitution.  When the
    resolution succeeds and a required key is missing, the load fails;
    unless the substitution of the secrets throws first, its error lists
    the required keys that [get] does not find, in the order of the
    [@require] directives. *)
Theorem X29_required_keys :
  (forall w opts parsed ws n c n',
      Index.loadParsed w opts parsed ws n = (Index.Loaded c, n') ->
      Forall (fun k => Terms.ownKey (Index.source c) k = true)
        (flat_map Parser.requires parsed) ->
      (forall k, In k (flat_map Parser.requires parsed) ->
                 Index.get c k <> None)
      /\ exists res,
           fst (Resolver.resolveRules (Loader.allRules parsed)
                  (Index.dimsOf opts parsed)
                  (Index.resolveOptions w opts parsed) ws n)
           = Resolver.Ok res
           /\ Index.source c = Resolver.cfg res
           /\ Index.trace c = Resolver.trace res
           /\ (Index.appliesSecrets w opts = false ->
               Index.tree c = Resolver.cfg res
               /\ Index.warnings c = Resolver.warnings res)
           /\ (Index.appliesSecrets w opts = true ->
               Secrets.returned
                 (fst (Secrets.applySecretsDeep (Resolver.cfg res)
                         (Index.secretOptions w opts)
                         (Resolver.warnings res) (Index.now w)
                         (snd (Resolver.resolveRules
                                 (Loader.allRules parsed)
                                 (Index.dimsOf opts parsed)
                                 (Index.resolveOptions w opts parsed)
                                 ws n))))
               = inl (Index.tree c)))
  /\ (forall w opts parsed ws n res n1 k,
         Resolver.resolveRules (Loader.allRules parsed)
           (Index.dimsOf opts parsed)
           (Index.resolveOptions w opts parsed) ws n
         = (Resolver.Ok res, n1) ->
         Forall (fun k => Terms.ownKey (Resolver.cfg res) k = true)
           (flat_map Parser.requires parsed) ->
         In k (flat_map Parser.requires parsed) ->
         Resolver.getByPath (Resolver.cfg res) k = None ->
         (exists e, fst (Index.loadParsed w opts parsed ws n) = Index.Failed e)
         /\ (Index.appliesSecrets w opts = false ->
             fst (Index.loadParsed w opts parsed ws n)
             = Index.Failed
                 (Index.Message
                    (Index.requireError
                       (List.filter
                          (fun reqKey =>
                             match Resolver.getByPath (Resolver.cfg res)
                                     reqKey with
                             | None => true
                             | Some _ => false
                             end)
                          (flat_map Parser.requires parsed))))))
  /\ (forall c requires k,
         Terms.ownKey (Index.source c) k = true ->
         In k (Index.missingKeys c requires)
         <-> In k requires /\ Index.get c k = None).
Proof.
  split; [|split].
  - intros w opts parsed ws n c n' H _. rewrite loadParsed_run in H.
    cbv zeta in H.
    destruct (fst (Resolver.resolveRules _ _ _ ws n)) as [res|m] eqn:R;
      [|discriminate].
    destruct (Index.appliesSecrets w opts).
    + destruct (Secrets.returned _) as [secretified|e] eqn:S; [|discriminate].
      injection H as H _. apply enforce_loaded in H. destruct H as [-> H].
      split; [exact H|]. exists res.
      split; [reflexivity|]. split; [reflexivity|]. split; [reflexivity|].
      split; [discriminate|]. intros _. exact S.
    + injection H as H _. apply enforce_loaded in H. destruct H as [-> H].
      split; [exact H|]. exists res.
      split; [reflexivity|]. split; [reflexivity|]. split; [reflexivity|].
      split; [intros _; now split|discriminate].
  - intros w opts parsed ws n res n1 k R _ Hk Hnone.
    rewrite loadParsed_run. cbv zeta. rewrite R. cbn [fst snd].
    destruct (Index.appliesSecrets w opts).
    + split; [|discriminate].
      destruct (Secrets.returned _) as [secretified|e];
        [|now eexists].
      cbn [fst]. erewrite enforce_missing; [now eexists|exact Hk|exact Hnone].
    + split; [|intros _]; cbn [fst];
        erewrite enforce_missing; try eassumption; [now eexists|].
      reflexivity.
  - intros c requires k _. apply missingKeys_in.
Qed.

Section RegistryFacts.
Import Secrets Registry Terms.

Lemma upperChar_idem c : Js.upperChar (Js.upperChar c) = Js.upperChar c.
Proof. destruct c as [[] [] [] [] [] [] [] []]; reflexivity. Qed.

Lemma toUpperCase_idem s : Js.toUpperCase (Js.toUpperCase s) = Js.toUpperCase s.
Proof.
  induction s as [|c s IH]; [reflexivity|].
  cbn [Js.toUpperCase]. now rewrite upperChar_idem, IH.
Qed.

Lemma registryOf_lookup providers : forall (global : gmap string provider) P,
  fold_left (fun reg p => <[Js.toUpperCase (prefix p) := p]> reg)
    providers global !! P
  = match localProvider providers P with
    | Some p => Some p
    | None => global !! P
    end.
Proof.
  induction providers as [|p providers IH] using List.rev_ind;
    intros global P; [reflexivity|].
  rewrite fold_left_app. cbn [fold_left].
  unfold localProvider. rewrite find_last_app.
  destruct (String.eqb (Js.toUpperCase (prefix p)) P) eqn:E.
  - apply String.eqb_eq in E. subst P. apply lookup_insert_eq.
  - apply String.eqb_neq in E. rewrite lookup_insert_ne by exact E.
    apply IH.
Qed.

End RegistryFacts.

(** X30. Providers are registered and looked up under their prefix in
    upper case.  A provider with an empty prefix is refused; another one
    is registered under its upper-cased prefix, replacing the provider
    that was there and no other, and the registry is not empty
    afterwards.  [unregisterSecretProvider] removes, whatever the case
    of the name it is given, the provider under the upper-cased name,
    says whether there was one, and leaves the others.  For a load, the
    provider of a prefix is the last local provider with that prefix in
    upper case, else the one of the global registry. *)
Theorem X30_provider_registry :
  (forall globalRegistry p,
      Secrets.prefix p = "" ->
      Registry.registerSecretProvider globalRegistry p
      = Resolver.Throw "Invalid provider: must have prefix and fetch()")
  /\ (forall globalRegistry p,
         Secrets.prefix p <> "" ->
         Terms.asciiText (Secrets.prefix p) = true ->
         exists registry,
           Registry.registerSecretProvider globalRegistry p
           = Resolver.Ok registry
           /\ registry !! Js.toUpperCase (Secrets.prefix p) = Some p
           /\ (forall P, P <> Js.toUpperCase (Secrets.prefix p) ->
                         registry !! P = globalRegistry !! P)
           /\ Registry.hasGlobalProviders registry = true)
  /\ (forall globalRegistry name,
         Terms.asciiText name = true ->
         (fst (Registry.unregisterSecretProvider globalRegistry name) = true
          <-> globalRegistry !! Js.toUpperCase name <> None)
         /\ snd (Registry.unregisterSecretProvider globalRegistry name)
            !! Js.toUpperCase name = None
         /\ (forall P, P <> Js.toUpperCase name ->
                snd (Registry.unregisterSecretProvider globalRegistry name)
                !! P
                = globalRegistry !! P))
  /\ (forall globalRegistry p name registry,
         Terms.asciiText name = true ->
         Terms.asciiText (Secrets.prefix p) = true ->
         Js.toUpperCase name = Js.toUpperCase (Secrets.prefix p) ->
         Registry.registerSecretProvider globalRegistry p
         = Resolver.Ok registry ->
         fst (Registry.unregisterSecretProvider registry name) = true
         /\ snd (Registry.unregisterSecretProvider registry name)
            !! Js.toUpperCase (Secrets.prefix p) = None)
  /\ (forall o P,
         Forall (fun p => Terms.asciiText (Secrets.prefix p) = true)
           (Secrets.providers o) ->
         Secrets.registryOf o !! P
         = match Terms.localProvider (Secrets.providers o) P with
           | Some p => Some p
           | None => Secrets.globalRegistry o !! P
           end)
  /\ (forall globalRegistry,
         Registry.hasGlobalProviders
           (Registry.clearSecretProviders globalRegistry) = false).
Proof.
  split; [|split; [|split; [|split; [|split]]]].
  - intros globalRegistry p H. unfold Registry.registerSecretProvider.
    now rewrite H.
  - intros globalRegistry p H _. eexists.
    unfold Registry.registerSecretProvider.
    destruct (Secrets.prefix p) eqn:E; [now elim H|]. rewrite <- E.
    split; [reflexivity|]. split; [apply lookup_insert_eq|].
    split; [intros P HP; now apply lookup_insert_ne|].
    unfold Registry.hasGlobalProviders.
    apply negb_true_iff, Nat.eqb_neq, map_size_non_empty_iff.
    apply insert_non_empty.
  - intros globalRegistry name _. unfold Registry.unregisterSecretProvider.
    cbn [fst snd]. split; [|split].
    + destruct (globalRegistry !! Js.toUpperCase name);
        split; intros H; try discriminate; try reflexivity; now elim H.
    + apply lookup_delete_eq.
    + intros P HP. now apply lookup_delete_ne.
  - intros globalRegistry p name registry _ _ Hname H.
    unfold Registry.registerSecretProvider in H.
    destruct (Secrets.prefix p) eqn:E; [discriminate|]. rewrite <- E in *.
    injection H as <-. unfold Registry.unregisterSecretProvider.
    cbn [fst snd]. rewrite Hname, lookup_insert_eq.
    split; [reflexivity|apply lookup_delete_eq].
  - intros o P _. apply registryOf_lookup.
  - intros globalRegistry. reflexivity.
Qed.

(* ===================================================================== *)
(** * Part V: the further properties at concrete inputs *)
(* ===================================================================== *)

Lemma X1_rules_need_scope_and_key_witness :
  (Forall (Terms.wellScoped ["env"; "region"]) Examples.timeout_rules_scoped
   /\ exists indexed,
        Resolver.indexRules ["env"; "region"] Examples.timeout_rules_scoped
        = Resolver.Ok indexed)
  /\ (Resolver.indexRules ["env"; "region"] Examples.timeout_rules_scoped
      = Resolver.Ok (map (Examples.indexed 2) Examples.timeout_rules_scoped)
      /\ Forall2 (fun r i =>
                    Resolver.base i = r
                    /\ Resolver.scope i ++ Resolver.keyPath i
                       = Resolver.keySegments r
                    /\ length (Resolver.scope i) = length ["env"; "region"]
                    /\ Resolver.keyPath i <> []
                    /\ Resolver.keyPathStr i
                       = Js.join "." (Resolver.keyPath i))
           Examples.timeout_rules_scoped
           (map (Examples.indexed 2) Examples.timeout_rules_scoped))
  /\ (length (Resolver.keySegments
                (Examples.statement 1 "*.timeout" Resolver.OpSet
                   (Value.VNum (Value.Num 1000)))) <= 2
      /\ Resolver.resolveRules
           ([] ++ Examples.statement 1 "*.timeout" Resolver.OpSet
                    (Value.VNum (Value.Num 1000))
               :: tl Examples.timeout_rules)
           ["env"; "region"]
           (Examples.under (Examples.env_region "prod" "eu")) [] 0
         = (Resolver.Throw
              (Terms.scopeError ["env"; "region"]
                 (Examples.statement 1 "*.timeout" Resolver.OpSet
                    (Value.VNum (Value.Num 1000)))), 0)).
Proof.
  destruct X1_rules_need_scope_and_key as (Hiff & Hsplit & Hthrow).
  assert (Hw : Forall (Terms.wellScoped ["env"; "region"])
                 Examples.timeout_rules_scoped)
    by (repeat constructor; unfold Terms.wellScoped; vm_compute; lia).
  assert (Hidx : Resolver.indexRules ["env"; "region"]
                   Examples.timeout_rules_scoped
                 = Resolver.Ok (map (Examples.indexed 2)
                                  Examples.timeout_rules_scoped))
    by (vm_compute; reflexivity).
  split; [split; [exact Hw|exact (proj2 (Hiff _ _) Hw)]|].
  split; [split; [exact Hidx|exact (Hsplit _ _ _ Hidx)]|].
  assert (Hshort : length (Resolver.keySegments
                             (Examples.statement 1 "*.timeout" Resolver.OpSet
                                (Value.VNum (Value.Num 1000)))) <= 2)
    by (vm_compute; lia).
  split; [exact Hshort|].
  apply Hthrow; [constructor|exact Hshort].
Defined.

Lemma X2_scope_matching_witness :
  (length ["prod"; "*"] = length ["prod"; "eu"]
   /\ (Resolver.matches ["prod"; "*"] ["prod"; "eu"] = true
       <-> Forall2 (fun r c => r = "*" \/ r = c) ["prod"; "*"] ["prod"; "eu"]))
  /\ (Resolver.specificity ["*"; "*"] = 0
      /\ Resolver.matches ["*"; "*"] ["dev"; "eu"] = true)
  /\ (Resolver.specificity ["prod"; "us"] = length ["prod"; "us"]
      /\ Resolver.matches ["prod"; "us"] ["prod"; "us"] = true
      /\ ["prod"; "us"] = ["prod"; "us"])
  /\ (nth_error ["env"; "region"] 1 = Some "region"
      /\ Examples.prod !! "region" = None
      /\ Resolver.matches ["prod"; "*"]
           (Resolver.ctxScopeOf ["env"; "region"] Examples.prod) = true
      /\ (nth_error ["prod"; "*"] 1 = Some "*"
          \/ nth_error ["prod"; "*"] 1 = Some "")).
Proof.
  destruct X2_scope_matching as (Hiff & _ & Hwild & Hspec & Hmiss).
  split; [split; [reflexivity|exact (Hiff ["prod"; "*"] ["prod"; "eu"] eq_refl)]|].
  split; [split; [reflexivity|exact (Hwild ["*"; "*"] ["dev"; "eu"] eq_refl)]|].
  split; [split; [reflexivity|split; [reflexivity|]];
          exact (Hspec ["prod"; "us"] ["prod"; "us"] eq_refl eq_refl eq_refl)|].
  assert (H1 : nth_error ["env"; "region"] 1 = Some "region") by reflexivity.
  assert (H2 : Examples.prod !! "region" = None) by (vm_compute; reflexivity).
  assert (H3 : Resolver.matches ["prod"; "*"]
                 (Resolver.ctxScopeOf ["env"; "region"] Examples.prod) = true)
    by (vm_compute; reflexivity).
  split; [exact H1|]. split; [exact H2|]. split; [exact H3|].
  exact (Hmiss ["env"; "region"] Examples.prod ["prod"; "*"] 1 "region"
           H1 H2 eq_refl H3).
Defined.

Lemma X3_rules_out_of_context_are_ignored_witness :
  (Forall (Terms.wellScoped ["env"; "region"]) Examples.timeout_rules_scoped
   /\ Resolver.resolveRules Examples.timeout_rules_scoped ["env"; "region"]
        (Examples.under (Examples.env_region "prod" "eu")) [] 0
      = Resolver.resolveRules
          (List.filter
             (Terms.inContext ["env"; "region"]
                (Resolver.ctxScopeOf ["env"; "region"]
                   (Strings.ctx (Examples.under (Examples.env_region "prod" "eu")))))
             Examples.timeout_rules_scoped)
          ["env"; "region"]
          (Examples.under (Examples.env_region "prod" "eu")) [] 0)
  /\ (Forall (fun r =>
                Terms.inContext ["env"; "region"]
                  (Resolver.ctxScopeOf ["env"; "region"]
                     (Strings.ctx (Examples.under (Examples.env_region "dev" "eu"))))
                  r = false)
        (tl Examples.timeout_rules_scoped)
      /\ Resolver.resolveRules (tl Examples.timeout_rules_scoped)
           ["env"; "region"]
           (Examples.under (Examples.env_region "dev" "eu")) [] 0
         = (Resolver.Ok {| Resolver.cfg := Value.VObj 1 [];
                           Resolver.trace := [];
                           Resolver.warnings := [] |}, 2)).
Proof.
  destruct X3_rules_out_of_context_are_ignored as (Hsame & Hnone).
  assert (Hw : Forall (Terms.wellScoped ["env"; "region"])
                 Examples.timeout_rules_scoped)
    by (repeat constructor; unfold Terms.wellScoped; vm_compute; lia).
  split; [split; [exact Hw|exact (Hsame _ _ _ [] 0 Hw)]|].
  assert (Hout : Forall (fun r =>
                Terms.inContext ["env"; "region"]
                  (Resolver.ctxScopeOf ["env"; "region"]
                     (Strings.ctx (Examples.under (Examples.env_region "dev" "eu"))))
                  r = false)
        (tl Examples.timeout_rules_scoped))
    by (repeat constructor).
  split; [exact Hout|].
  apply Hnone; [|exact Hout].
  inversion Hw; assumption.
Defined.

Lemma X4_explain_reports_matching_rules_only_witness :
  Resolver.indexRules ["env"] (Examples.list_rules 0)
  = Resolver.Ok (map (Examples.indexed 1) (Examples.list_rules 0))
  /\ match fst (Resolver.resolveRules (Examples.list_rules 0) ["env"]
                  (Examples.under Examples.prod) [] 1) with
     | Resolver.Ok res =>
         (forall p t,
             Resolver.explainByPath (Resolver.trace res) p = Some t ->
             exists r,
               In r (map (Examples.indexed 1) (Examples.list_rules 0))
               /\ Resolver.matches (Resolver.scope r)
                    (Resolver.ctxScopeOf ["env"]
                       (Strings.ctx (Examples.under Examples.prod))) = true
               /\ Resolver.keyPathStr r = p
               /\ t = Resolver.packTrace r
                        (Resolver.specificity (Resolver.scope r)))
         /\ (forall p,
                (forall r,
                    In r (map (Examples.indexed 1) (Examples.list_rules 0)) ->
                    Resolver.matches (Resolver.scope r)
                      (Resolver.ctxScopeOf ["env"]
                         (Strings.ctx (Examples.under Examples.prod))) = true ->
                    Resolver.keyPathStr r <> p) ->
                Resolver.explainByPath (Resolver.trace res) p = None)
     | Resolver.Throw _ => False
     end.
Proof.
  assert (Hidx : Resolver.indexRules ["env"] (Examples.list_rules 0)
                 = Resolver.Ok (map (Examples.indexed 1) (Examples.list_rules 0)))
    by (vm_compute; reflexivity).
  split; [exact Hidx|].
  destruct (Resolver.resolveRules (Examples.list_rules 0) ["env"]
              (Examples.under Examples.prod) [] 1) as [[res|m] n'] eqn:E.
  - exact (X4_explain_reports_matching_rules_only _ _ _ _ _ _ _ _ Hidx E).
  - vm_compute in E. discriminate.
Defined.

Lemma X5_get_follows_the_dotted_path_witness :
  Forall (fun s => s <> "" /\ Terms.noneOf "." s = true) ["db"; "host"]
  /\ Resolver.getByPath
       (Value.VObj 0 [("db", Value.VObj 1 [("host", Value.VStr "h")])])
       (Js.join "." ["db"; "host"])
     = Util.getDeep
         (Value.VObj 0 [("db", Value.VObj 1 [("host", Value.VStr "h")])])
         ["db"; "host"].
Proof.
  assert (H : Forall (fun s => s <> "" /\ Terms.noneOf "." s = true)
                ["db"; "host"])
    by (repeat constructor; discriminate).
  split; [exact H|].
  exact (proj1 X5_get_follows_the_dotted_path _ _ H).
Defined.

Lemma X6_setDeep_getDeep_witness :
  Terms.plainPath ["a"; "b"] = true
  /\ Terms.plainPath ["b"] = true
  /\ (Value.isPlainObject (Value.VObj 0 []) = true
   /\ ["a"; "b"] <> []
   /\ Util.getDeep
        (fst (Util.setDeep (Value.VObj 0 []) ["a"; "b"] (Value.VStr "v") 1))
        ["a"; "b"]
      = Some (Value.VStr "v"))
  /\ ("a" <> "c"
      /\ Util.getDeep
           (fst (Util.setDeep (Value.VObj 0 [("c", Value.VNull)]) ["a"; "b"]
                   (Value.VStr "v") 1))
           ["c"]
         = Util.getDeep (Value.VObj 0 [("c", Value.VNull)]) ["c"])
  /\ (Value.propGet [("a", Value.VStr "x")] "a" = Some (Value.VStr "x")
      /\ Value.isPlainObject (Value.VStr "x") = false
      /\ exists sub,
           Util.getDeep
             (fst (Util.setDeep (Value.VObj 0 [("a", Value.VStr "x")])
                     ["a"; "b"] (Value.VStr "v") 1))
             ["a"]
           = Some (Value.VObj 1 sub)
           /\ map fst sub = ["b"])
  /\ (Value.arrayIndex "b" = None
      /\ exists ps',
           fst (Util.setDeep (Value.VObj 0 [("a", Value.VNull)]) ["b"]
                  (Value.VStr "v") 1)
           = Value.VObj 0 ps'
           /\ map fst ps'
              = if Js.mapHas [("a", Value.VNull)] "b"
                then map fst [("a", Value.VNull)]
                else map fst [("a", Value.VNull)] ++ ["b"]).
Proof.
  destruct X6_setDeep_getDeep as (Hround & Hframe & _ & Horder & Hover).
  assert (Hab : Terms.plainPath ["a"; "b"] = true) by reflexivity.
  assert (Hb : Terms.plainPath ["b"] = true) by reflexivity.
  split; [exact Hab|]. split; [exact Hb|].
  split.
  { split; [reflexivity|]. split; [discriminate|].
    apply Hround; [exact Hab|reflexivity|discriminate]. }
  split.
  { assert (Hne : "a" <> "c") by discriminate.
    split; [exact Hne|].
    exact (Hframe (Value.VObj 0 [("c", Value.VNull)]) "a" ["b"] "c" []
             (Value.VStr "v") 1 Hab eq_refl Hne). }
  split.
  { split; [reflexivity|]. split; [reflexivity|].
    exact (Hover 0 [("a", Value.VStr "x")] "a" "b" [] (Value.VStr "x")
             (Value.VStr "v") 1 Hab eq_refl eq_refl). }
  split; [reflexivity|].
  exact (Horder 0 [("a", Value.VNull)] "b" [] (Value.VStr "v") 1 Hb eq_refl).
Defined.


Lemma X8_clone_is_a_deep_copy_witness :
  Spec.isScalar (Value.VStr "s") = true
  /\ Resolver.clone (Value.VStr "s") 3 = (Value.VStr "s", 3).
Proof.
  split; [reflexivity|].
  exact (proj2 (proj2 (proj2 (proj2
           (proj1 X8_clone_is_a_deep_copy (Value.VStr "s") 3)))) eq_refl).
Defined.

Lemma X10_blocked_environment_variables_do_not_leak_witness :
  Terms.sameButEnv ["HOME"]
    {| Strings.ctx := ∅; Strings.vars := ∅; Strings.env := None;
       Strings.processEnv := <["HOME" := "/root"]> (<["TOKEN" := "one"]> ∅);
       Strings.allowedEnvVars := Some ["HOME"];
       Strings.allowedVars := None |}
    {| Strings.ctx := ∅; Strings.vars := ∅; Strings.env := None;
       Strings.processEnv := <["HOME" := "/root"]> (<["TOKEN" := "two"]> ∅);
       Strings.allowedEnvVars := Some ["HOME"];
       Strings.allowedVars := None |}
  /\ Strings.interpolate
       {| Strings.ctx := ∅; Strings.vars := ∅; Strings.env := None;
          Strings.processEnv := <["HOME" := "/root"]> (<["TOKEN" := "one"]> ∅);
          Strings.allowedEnvVars := Some ["HOME"];
          Strings.allowedVars := None |}
       "${ENV:HOME} ${ENV:TOKEN}" []
     = Strings.interpolate
         {| Strings.ctx := ∅; Strings.vars := ∅; Strings.env := None;
            Strings.processEnv := <["HOME" := "/root"]> (<["TOKEN" := "two"]> ∅);
            Strings.allowedEnvVars := Some ["HOME"];
            Strings.allowedVars := None |}
         "${ENV:HOME} ${ENV:TOKEN}" [].
Proof.
  assert (H : Terms.sameButEnv ["HOME"]
    {| Strings.ctx := ∅; Strings.vars := ∅; Strings.env := None;
       Strings.processEnv := <["HOME" := "/root"]> (<["TOKEN" := "one"]> ∅);
       Strings.allowedEnvVars := Some ["HOME"];
       Strings.allowedVars := None |}
    {| Strings.ctx := ∅; Strings.vars := ∅; Strings.env := None;
       Strings.processEnv := <["HOME" := "/root"]> (<["TOKEN" := "two"]> ∅);
       Strings.allowedEnvVars := Some ["HOME"];
       Strings.allowedVars := None |}).
  { repeat split. intros k [<-|[]]. vm_compute. reflexivity. }
  split; [exact H|].
  exact (proj1 (X10_blocked_environment_variables_do_not_leak _ _ _ H) _ _).
Defined.

Lemma X11_interpolation_span_by_span_witness :
  (Terms.noneOf Spec.dollar "host=" = true
   /\ "ctx.env" <> ""
   /\ Terms.noneOf Spec.closeBrace "ctx.env" = true
   /\ Strings.interpolate (Examples.under Examples.prod)
        ("host=" +:+ Spec.spanText "ctx.env" +:+ ".db") []
      = ("host=" +:+ "prod" +:+ ".db", []))
  /\ (Js.startsWith "ENV:" (Js.trim " ENV: HOME ") = true
      /\ Strings.blocked None (Js.trim (Js.drop 4 (Js.trim " ENV: HOME ")))
         = false
      /\ Terms.inherited (Js.trim (Js.drop 4 (Js.trim " ENV: HOME "))) = false
      /\ Strings.replacePlaceholder
           {| Strings.ctx := ∅; Strings.vars := ∅;
              Strings.env := Some (<["HOME" := "/given"]> ∅);
              Strings.processEnv := <["HOME" := "/root"]> ∅;
              Strings.allowedEnvVars := None;
              Strings.allowedVars := None |}
           "${ ENV: HOME }" " ENV: HOME " []
         = ("/given", []))
  /\ (Strings.RX_SECRET_PROVIDER (Js.trim "oops") = false
      /\ Strings.replacePlaceholder (Examples.under Examples.prod)
           "${oops}" "oops" []
         = ("", [Warn.unknown_interpolation "${oops}"])).
Proof.
  destruct X11_interpolation_span_by_span as (_ & Hspan & Henv & Hunknown).
  split.
  { split; [reflexivity|]. split; [discriminate|]. split; [reflexivity|].
    rewrite (Hspan (Examples.under Examples.prod) "host=" "ctx.env" ".db" []
               eq_refl ltac:(discriminate) eq_refl).
    vm_compute. reflexivity. }
  split.
  { split; [reflexivity|]. split; [reflexivity|]. split; [reflexivity|].
    rewrite Henv by reflexivity.
    vm_compute. reflexivity. }
  split; [reflexivity|].
  apply Hunknown; reflexivity.
Defined.

Lemma X12_cache_entries_live_for_their_ttl_witness :
  (Js.mapGet (Secrets.cache (Secrets.newCache 2)) "k" = None
   /\ Secrets.get (Secrets.newCache 2) 5 "k" = (None, Secrets.newCache 2))
  /\ (List.NoDup (Spec.cacheKeys (Secrets.set (Secrets.newCache 2) 0 "k" "v" 10))
      /\ Js.mapGet (Secrets.cache (Secrets.set (Secrets.newCache 2) 0 "k" "v" 10))
           "k"
         = Some {| Secrets.e_value := "v"; Secrets.e_expires := 10 |}
      /\ (10 < 11)%Z
      /\ fst (Secrets.get (Secrets.set (Secrets.newCache 2) 0 "k" "v" 10) 11 "k")
         = None
      /\ Js.mapGet
           (Secrets.cache
              (snd (Secrets.get (Secrets.set (Secrets.newCache 2) 0 "k" "v" 10)
                      11 "k"))) "k"
         = None).
Proof.
  destruct X12_cache_entries_live_for_their_ttl as (_ & Habsent & Hexpired).
  split; [split; [reflexivity|exact (Habsent (Secrets.newCache 2) 5%Z "k" eq_refl)]|].
  assert (Hnd : List.NoDup
                  (Spec.cacheKeys (Secrets.set (Secrets.newCache 2) 0 "k" "v" 10)))
    by (repeat constructor; simpl; tauto).
  assert (Hlt : (10 < 11)%Z) by lia.
  split; [exact Hnd|]. split; [reflexivity|]. split; [exact Hlt|].
  destruct (Hexpired (Secrets.set (Secrets.newCache 2) 0 "k" "v" 10) 11%Z "k"
              {| Secrets.e_value := "v"; Secrets.e_expires := 10%Z |}
              Hnd eq_refl Hlt) as (H1 & H2 & _).
  split; [exact H1|exact H2].
Defined.

Lemma X13_cache_stays_within_capacity_witness :
  (1 <= Secrets.maxSize (Secrets.newCache 1)
   /\ Terms.cacheOk (Secrets.newCache 1)
   /\ Terms.cacheOk (Secrets.set (Secrets.newCache 1) 0 "k" "v" 10)
   /\ Terms.cacheOk
        (snd (Secrets.get (Secrets.set (Secrets.newCache 1) 0 "k" "v" 10) 5 "k"))
   /\ Terms.cacheOk
        (Secrets.invalidate (Secrets.set (Secrets.newCache 1) 0 "k" "v" 10)
           (Some "k*")))
  /\ (In "b" (map fst [("b", {| Secrets.e_value := "2"; Secrets.e_expires := 9 |})])
      /\ Spec.cacheKeys
           (Secrets.set
              {| Secrets.maxSize := 2;
                 Secrets.cache :=
                   [("a", {| Secrets.e_value := "1"; Secrets.e_expires := 9 |});
                    ("b", {| Secrets.e_value := "2"; Secrets.e_expires := 9 |})] |}
              0 "b" "3" 10)
         = map fst [("b", {| Secrets.e_value := "2"; Secrets.e_expires := 9 |})]).
Proof.
  destruct X13_cache_stays_within_capacity
    as (Hnew & Hset & Hget & Hinv & Hquirk).
  assert (H1 : 1 <= Secrets.maxSize (Secrets.newCache 1)) by (simpl; lia).
  pose proof (Hset (Secrets.newCache 1) 0%Z "k" "v" 10%Z H1 (Hnew 1)) as H2.
  split.
  { split; [exact H1|]. split; [exact (Hnew 1)|]. split; [exact H2|].
    split; [exact (Hget _ 5%Z "k" H2)|exact (Hinv _ (Some "k*") H2)]. }
  assert (Hin : In "b" (map fst [("b", {| Secrets.e_value := "2";
                                          Secrets.e_expires := 9%Z |})]))
    by (simpl; tauto).
  split; [exact Hin|].
  apply (Hquirk _ 0%Z "b" "3" 10%Z "a"
           {| Secrets.e_value := "1"; Secrets.e_expires := 9%Z |});
    [reflexivity|simpl; lia|exact Hin].
Defined.

Lemma X14_invalidate_by_glob_pattern_witness :
  (Terms.noneOf Terms.star "AWS:db" = true
   /\ (Secrets.globTest "AWS:db" "AWS:db" = true <-> "AWS:db" = "AWS:db"))
  /\ (Terms.noneOf Terms.star "AWS:" = true
      /\ Secrets.globTest ("AWS:" +:+ "*") ("AWS:" +:+ "db/password") = true)
  /\ ("AWS:*" <> ""
      /\ Js.mapGet
           (Secrets.cache
              (Secrets.invalidate
                 (Secrets.set (Secrets.newCache 4) 0 "AWS:db" "v" 10)
                 (Some "AWS:*"))) "AWS:db"
         = None).
Proof.
  destruct X14_invalidate_by_glob_pattern as (Hlit & _ & Hpre & _ & Hinv).
  split; [split; [reflexivity|exact (Hlit "AWS:db" "AWS:db" eq_refl)]|].
  split.
  { split; [reflexivity|].
    apply (proj2 (Hpre "AWS:" ("AWS:" +:+ "db/password") eq_refl)).
    exists "db/password". split; reflexivity. }
  split; [discriminate|].
  rewrite (Hinv (Secrets.set (Secrets.newCache 4) 0 "AWS:db" "v" 10)
             "AWS:*" "AWS:db" ltac:(discriminate)).
  reflexivity.
Defined.

Lemma X15_allow_list_of_secrets_witness :
  (Secrets.isAllowed "AWS:db" (Some ["VAULT:*"; "AWS:d*"]) = true
   /\ (forall p, In p ["VAULT:*"; "AWS:d*"] -> In p ["AWS:d*"; "x"; "VAULT:*"])
   /\ Secrets.isAllowed "AWS:db" (Some ["AWS:d*"; "x"; "VAULT:*"]) = true)
  /\ (Terms.noneOf Terms.colon "AWS" = true
      /\ Terms.noneOf Terms.colon "db" = true
      /\ Terms.noneOf Terms.colon "d*" = true
      /\ Secrets.globTest "d*" "db" = true
      /\ Secrets.isAllowed ("AWS" +:+ ":" +:+ "db") (Some ["d*"]) = true
      /\ Secrets.isAllowed ("AWS" +:+ ":" +:+ "db" +:+ ":" +:+ "other")
           (Some ["d*"]) = true).
Proof.
  destruct X15_allow_list_of_secrets as (_ & _ & _ & Hmono & Hkey).
  assert (Hsub : forall p, In p ["VAULT:*"; "AWS:d*"] ->
                           In p ["AWS:d*"; "x"; "VAULT:*"])
    by (simpl; intuition).
  split.
  { split; [reflexivity|]. split; [exact Hsub|].
    exact (Hmono "AWS:db" ["VAULT:*"; "AWS:d*"] ["AWS:d*"; "x"; "VAULT:*"]
             eq_refl Hsub). }
  do 4 (split; [reflexivity|]).
  exact (Hkey "AWS" "db" "other" "d*" eq_refl eq_refl eq_refl eq_refl).
Defined.

Lemma X16_blocked_secrets_are_never_fetched_witness :
  In ("AWS:db", ("AWS", "db"))
     (Secrets.collectSecretRefs (Value.VStr "${AWS:db}") [])
  /\ Secrets.isAllowed "AWS:db"
       (Secrets.allowedSecrets
          {| Secrets.providers := [Examples.missingSecretProvider];
             Secrets.allowedSecrets := Some ["VAULT:*"];
             Secrets.cacheOpt := None;
             Secrets.cacheTtl := 300000;
             Secrets.onNotFound := Secrets.OnWarn;
             Secrets.globalRegistry := ∅ |}) = false
  /\ Forall (fun f => Spec.pendingKey f <> "AWS:db")
       (Secrets.st_pending
          (Terms.visited (Value.VStr "${AWS:db}")
             {| Secrets.providers := [Examples.missingSecretProvider];
                Secrets.allowedSecrets := Some ["VAULT:*"];
                Secrets.cacheOpt := None;
                Secrets.cacheTtl := 300000;
                Secrets.onNotFound := Secrets.OnWarn;
                Secrets.globalRegistry := ∅ |} [] 0))
  /\ In (Warn.blocked_secret "AWS" "db")
        (Secrets.out_warnings
           (fst (Secrets.applySecretsDeep (Value.VStr "${AWS:db}")
                   {| Secrets.providers := [Examples.missingSecretProvider];
                      Secrets.allowedSecrets := Some ["VAULT:*"];
                      Secrets.cacheOpt := None;
                      Secrets.cacheTtl := 300000;
                      Secrets.onNotFound := Secrets.OnWarn;
                      Secrets.globalRegistry := ∅ |} [] 0 1))).
Proof.
  assert (Hin : In ("AWS:db", ("AWS", "db"))
                  (Secrets.collectSecretRefs (Value.VStr "${AWS:db}") []))
    by (vm_compute; left; reflexivity).
  split; [exact Hin|]. split; [reflexivity|].
  destruct (X16_blocked_secrets_are_never_fetched
              (Value.VStr "${AWS:db}")
              {| Secrets.providers := [Examples.missingSecretProvider];
                 Secrets.allowedSecrets := Some ["VAULT:*"];
                 Secrets.cacheOpt := None;
                 Secrets.cacheTtl := 300000;
                 Secrets.onNotFound := Secrets.OnWarn;
                 Secrets.globalRegistry := ∅ |} [] 0%Z 1
              "AWS:db" "AWS" "db" Hin eq_refl) as (H1 & H2 & _).
  split; [exact H1|exact H2].
Defined.

Lemma X17_cached_secrets_are_not_fetched_again_witness :
  In ("AWS:db", ("AWS", "db"))
     (Secrets.collectSecretRefs (Value.VStr "${AWS:db}") [])
  /\ Secrets.isAllowed "AWS:db"
       (Secrets.allowedSecrets
          {| Secrets.providers := [Examples.missingSecretProvider];
             Secrets.allowedSecrets := None;
             Secrets.cacheOpt :=
               Some (Secrets.set (Secrets.newCache 4) 0 "AWS:db" "s3cret" 100);
             Secrets.cacheTtl := 300000;
             Secrets.onNotFound := Secrets.OnWarn;
             Secrets.globalRegistry := ∅ |}) = true
  /\ Terms.cacheHit
       (Some (Secrets.set (Secrets.newCache 4) 0 "AWS:db" "s3cret" 100))
       50 "AWS:db" "s3cret"
  /\ Forall (fun f => Spec.pendingKey f <> "AWS:db")
       (Secrets.st_pending
          (Terms.visited (Value.VStr "${AWS:db}")
             {| Secrets.providers := [Examples.missingSecretProvider];
                Secrets.allowedSecrets := None;
                Secrets.cacheOpt :=
                  Some (Secrets.set (Secrets.newCache 4) 0 "AWS:db" "s3cret" 100);
                Secrets.cacheTtl := 300000;
                Secrets.onNotFound := Secrets.OnWarn;
                Secrets.globalRegistry := ∅ |} [] 50)).
Proof.
  assert (Hin : In ("AWS:db", ("AWS", "db"))
                  (Secrets.collectSecretRefs (Value.VStr "${AWS:db}") []))
    by (vm_compute; left; reflexivity).
  assert (Hhit : Terms.cacheHit
                   (Some (Secrets.set (Secrets.newCache 4) 0 "AWS:db" "s3cret" 100))
                   50 "AWS:db" "s3cret")
    by (cbv; split; [discriminate|reflexivity]).
  split; [exact Hin|]. split; [reflexivity|]. split; [exact Hhit|].
  exact (proj1 (X17_cached_secrets_are_not_fetched_again
                  (Value.VStr "${AWS:db}")
                  {| Secrets.providers := [Examples.missingSecretProvider];
                     Secrets.allowedSecrets := None;
                     Secrets.cacheOpt :=
                       Some (Secrets.set (Secrets.newCache 4) 0 "AWS:db"
                               "s3cret" 100);
                     Secrets.cacheTtl := 300000;
                     Secrets.onNotFound := Secrets.OnWarn;
                     Secrets.globalRegistry := ∅ |} [] 50%Z 1
                  "AWS:db" "AWS" "db" "s3cret" Hin eq_refl Hhit)).
Defined.

Lemma X18_block_comments_keep_the_lines_witness :
  (Forall (fun l => Js.includes "/*" l = false)
     (Js.splitLines "" ("a = 1;" +:+ Examples.newline +:+ "b = 2;"))
   /\ fst (Parser.stripBlockComments
             ("a = 1;" +:+ Examples.newline +:+ "b = 2;"))
      = Js.join (String Js.LF "")
          (Js.splitLines "" ("a = 1;" +:+ Examples.newline +:+ "b = 2;")))
  /\ (Forall (fun l => Js.includes "/*" l = false) ["a = 1;"]
      /\ Js.includes "/*" "b = 2; " = false
      /\ Js.includes "*/" " never closed" = false
      /\ Forall (fun l => Js.includes "*/" l = false) ["c = 3;"; "d = 4;"]
      /\ Parser.stripLines
           (["a = 1;"] ++ ("b = 2; " +:+ "/*" +:+ " never closed")
              :: ["c = 3;"; "d = 4;"]) false 0
         = ["a = 1;"] ++ "b = 2; " :: map (fun _ => "") ["c = 3;"; "d = 4;"]).
Proof.
  destruct X18_block_comments_keep_the_lines as (_ & Hclean & Hopen & _).
  assert (H1 : Forall (fun l => Js.includes "/*" l = false)
                 (Js.splitLines "" ("a = 1;" +:+ Examples.newline +:+ "b = 2;")))
    by (vm_compute; repeat constructor).
  split; [split; [exact H1|exact (Hclean _ H1)]|].
  assert (H2 : Forall (fun l => Js.includes "/*" l = false) ["a = 1;"])
    by repeat constructor.
  assert (H3 : Forall (fun l => Js.includes "*/" l = false) ["c = 3;"; "d = 4;"])
    by repeat constructor.
  split; [exact H2|]. split; [reflexivity|]. split; [reflexivity|].
  split; [exact H3|].
  exact (Hopen ["a = 1;"] "b = 2; " " never closed" ["c = 3;"; "d = 4;"] 0
           H2 eq_refl eq_refl H3).
Defined.

Lemma X19_key_paths_split_at_dots_witness :
  (Forall (fun s => Terms.plainKey s = true) [" db "; ""; "host"]
   /\ Parser.parseKeyPath (Js.join "." [" db "; ""; "host"])
      = List.filter (fun s => negb (String.eqb s ""))
          (map Js.trim [" db "; ""; "host"]))
  /\ (Forall (fun s => Terms.plainKey s = true /\ Js.trim s = s /\ s <> "")
        ["db"; "host"]
      /\ Parser.parseKeyPath (Js.join "." ["db"; "host"]) = ["db"; "host"])
  /\ (Terms.plainKey "a" = true /\ Terms.plainKey "b" = true
      /\ Parser.parseKeyPath ("a" +:+ "\." +:+ "b")
         = List.filter (fun s => negb (String.eqb s ""))
             [Js.trim ("a" +:+ "." +:+ "b")]).
Proof.
  destruct X19_key_paths_split_at_dots as (Hsplit & Hback & Hesc & _).
  assert (H1 : Forall (fun s => Terms.plainKey s = true) [" db "; ""; "host"])
    by repeat constructor.
  assert (H2 : Forall (fun s => Terms.plainKey s = true
                                /\ Js.trim s = s /\ s <> "") ["db"; "host"])
    by (repeat first [constructor | discriminate]).
  split; [split; [exact H1|exact (Hsplit _ H1)]|].
  split; [split; [exact H2|exact (Hback _ H2)]|].
  split; [reflexivity|]. split; [reflexivity|].
  exact (Hesc "a" "b" eq_refl eq_refl).
Defined.

Lemma X20_statements_span_lines_witness :
  (Spec.cleanedLines ("# note" +:+ Examples.newline +:+ "*.a ="
                      +:+ Examples.newline +:+ "  1")
   = ["# note"] ++ ["*.a ="; "  1"]
   /\ Forall Terms.statementLine ["*.a ="; "  1"]
   /\ Parser.parseColony (Examples.invalidStatement "<memory>") "<memory>"
        ("# note" +:+ Examples.newline +:+ "*.a ="
         +:+ Examples.newline +:+ "  1")
      = Parser.Failed
          {| Parser.pe_message := "Unterminated statement (missing ';')";
             Parser.pe_line := 2;
             Parser.pe_col := None;
             Parser.pe_filePath := "<memory>" |})
  /\ (Spec.cleanedLines ("# note" +:+ Examples.newline +:+ "*.a ="
                         +:+ Examples.newline +:+ "  1;")
      = ["# note"] ++ ["*.a ="] ++ ["  1;"]
      /\ Forall Terms.statementLine ["*.a ="]
      /\ Terms.lastLine "  1;"
      /\ Parser.parseColony (Examples.invalidStatement "<memory>") "<memory>"
           ("# note" +:+ Examples.newline +:+ "*.a ="
            +:+ Examples.newline +:+ "  1;")
         = Examples.invalidStatement "<memory>"
             (Js.trim (Js.join (String Js.LF "") (["*.a ="] ++ ["  1;"])))
             2 (Parser.out Parser.initial)).
Proof.
  destruct X20_statements_span_lines as (Hopen & Hdone).
  assert (Hline : forall l,
             Js.trim l <> "" ->
             Js.startsWith "#" (Js.trim l) = false ->
             Js.startsWith "//" (Js.trim l) = false ->
             Parser.heredocMatch (Js.trim l) = None ->
             Js.endsWith ";" (Js.trim l) = false ->
             Terms.statementLine l)
    by (intros l; unfold Terms.statementLine; tauto).
  assert (H1 : Forall Terms.statementLine ["*.a ="; "  1"]).
  { repeat constructor; apply Hline; solve [discriminate | reflexivity]. }
  assert (H2 : Forall Terms.statementLine ["*.a ="]).
  { repeat constructor; apply Hline; solve [discriminate | reflexivity]. }
  assert (H3 : Terms.lastLine "  1;").
  { unfold Terms.lastLine.
    repeat split; solve [discriminate | reflexivity]. }
  split.
  { split; [reflexivity|]. split; [exact H1|].
    exact (Hopen (Examples.invalidStatement "<memory>") "<memory>"
             ("# note" +:+ Examples.newline +:+ "*.a ="
              +:+ Examples.newline +:+ "  1")
             ["# note"] ["*.a ="; "  1"] Parser.initial
             eq_refl eq_refl eq_refl eq_refl ltac:(discriminate) H1). }
  split; [reflexivity|]. split; [exact H2|]. split; [exact H3|].
  exact (Hdone (Examples.invalidStatement "<memory>") "<memory>"
           ("# note" +:+ Examples.newline +:+ "*.a ="
            +:+ Examples.newline +:+ "  1;")
           ["# note"] ["*.a ="] "  1;" Parser.initial
           eq_refl eq_refl eq_refl eq_refl H2 H3).
Defined.

Lemma X21_dotenv_lines_witness :
  (Js.trim "  PORT = 8080  " = "PORT " +:+ "=" +:+ " 8080"
   /\ "PORT " <> ""
   /\ Terms.noneOf Terms.equals "PORT " = true
   /\ Js.startsWith "#" "PORT " = false
   /\ Terms.oneLine (Js.trimStart " 8080") = true
   /\ Dotenv.parseLine "  PORT = 8080  "
      = Some (Js.trim "PORT ", Dotenv.unquote (Js.trim (Js.trimStart " 8080"))))
  /\ (Terms.unquoted ("8080" +:+ " #" +:+ " the port") = true
      /\ Js.includes " #" "8080" = false
      /\ Dotenv.unquote ("8080" +:+ " #" +:+ " the port") = Js.trim "8080")
  /\ (Terms.allSpace "   " = true /\ Dotenv.parseLine "   " = None)
  /\ (Js.startsWith "#" (Js.trim " # PORT=1") = true
      /\ Dotenv.parseLine " # PORT=1" = None)
  /\ (Js.startsWith Dotenv.doubleQuote "a\nb" = false
      /\ Dotenv.unquote (Dotenv.doubleQuote +:+ "a\nb" +:+ Dotenv.doubleQuote)
         = "a\nb").
Proof.
  destruct X21_dotenv_lines
    as (Hblank & Hhash & _ & Hline & _ & Hcut & Hquote & _).
  split.
  { split; [reflexivity|]. split; [discriminate|].
    do 3 (split; [reflexivity|]).
    exact (Hline "  PORT = 8080  " "PORT " " 8080" eq_refl
             ltac:(discriminate) eq_refl eq_refl eq_refl). }
  split.
  { split; [reflexivity|]. split; [reflexivity|].
    exact (Hcut "8080" " the port" eq_refl eq_refl). }
  split; [split; [reflexivity|exact (Hblank "   " eq_refl)]|].
  split; [split; [reflexivity|exact (Hhash " # PORT=1" eq_refl)]|].
  split; [reflexivity|].
  exact (Hquote (ascii_of_nat 34) "a\nb" (or_introl eq_refl) eq_refl).
Defined.

Lemma X23_deepEqual_is_structural_witness :
  (Spec.isScalar (Value.VNum (Value.Num 1)) = true
   /\ (Config.deepEqual (Value.VNum (Value.Num 1)) (Value.VStr "1") = true
       <-> Value.VNum (Value.Num 1) = Value.VStr "1"
           /\ Value.VNum (Value.Num 1) <> Value.VNum Value.NaN))
  /\ (Terms.regular
        (Value.VObj 0 [("k", Value.VArr 1 [Value.VNull]); ("j", Value.VStr "s")])
      = true
      /\ Spec.erase
           (Value.VObj 0 [("k", Value.VArr 1 [Value.VNull]); ("j", Value.VStr "s")])
         = Spec.erase
             (Value.VObj 5 [("k", Value.VArr 7 [Value.VNull]); ("j", Value.VStr "s")])
      /\ Config.deepEqual
           (Value.VObj 0 [("k", Value.VArr 1 [Value.VNull]); ("j", Value.VStr "s")])
           (Value.VObj 5 [("k", Value.VArr 7 [Value.VNull]); ("j", Value.VStr "s")])
         = true)
  /\ (Permutation
        [("k", Value.VArr 1 [Value.VNull]); ("j", Value.VStr "s")]
        [("j", Value.VStr "s"); ("k", Value.VArr 1 [Value.VNull])]
      /\ Config.deepEqual
           (Value.VObj 0 [("k", Value.VArr 1 [Value.VNull]); ("j", Value.VStr "s")])
           (Value.VObj 5 [("j", Value.VStr "s"); ("k", Value.VArr 1 [Value.VNull])])
         = true).
Proof.
  destruct X23_deepEqual_is_structural as (Hscalar & _ & Herase & Hperm & _).
  split.
  { split; [reflexivity|].
    exact (Hscalar (Value.VNum (Value.Num 1)) (Value.VStr "1") eq_refl). }
  split.
  { split; [reflexivity|]. split; [reflexivity|].
    exact (Herase
             (Value.VObj 0 [("k", Value.VArr 1 [Value.VNull]);
                            ("j", Value.VStr "s")])
             (Value.VObj 5 [("k", Value.VArr 7 [Value.VNull]);
                            ("j", Value.VStr "s")]) eq_refl eq_refl). }
  assert (Hp : Permutation
                 [("k", Value.VArr 1 [Value.VNull]); ("j", Value.VStr "s")]
                 [("j", Value.VStr "s"); ("k", Value.VArr 1 [Value.VNull])])
    by apply perm_swap.
  split; [exact Hp|].
  apply Hperm; [reflexivity|exact Hp].
Defined.

Lemma X24_keys_and_differences_witness :
  (Value.isPlainObject (Value.VArr 0 []) = false
   /\ Config.collectKeysOf (Value.VArr 0 []) "list" = ["list"])
  /\ (In "b" (Terms.keysOfConfig
                (Value.VObj 1 [("a", Value.VNull); ("b", Value.VNull)]))
      /\ ~ In "b" (Terms.keysOfConfig (Value.VObj 0 [("a", Value.VNull)]))
      /\ In "b" (Config.added
                   (Config.diffConfigs String.leb
                      (Value.VObj 0 [("a", Value.VNull)])
                      (Value.VObj 1 [("a", Value.VNull); ("b", Value.VNull)])))).
Proof.
  destruct X24_keys_and_differences as (_ & Hleaf & _ & Hdiff & _).
  split; [split; [reflexivity|exact (Hleaf (Value.VArr 0 []) "list" eq_refl)]|].
  assert (H1 : In "b" (Terms.keysOfConfig
                         (Value.VObj 1 [("a", Value.VNull); ("b", Value.VNull)])))
    by (vm_compute; tauto).
  assert (H2 : ~ In "b" (Terms.keysOfConfig (Value.VObj 0 [("a", Value.VNull)])))
    by (vm_compute; intuition discriminate).
  split; [exact H1|]. split; [exact H2|].
  exact (proj2 (proj1 (Hdiff String.leb (Value.VObj 0 [("a", Value.VNull)])
                         (Value.VObj 1 [("a", Value.VNull); ("b", Value.VNull)])
                         "b")) (conj H1 H2)).
Defined.

Lemma X25_rule_statements_witness :
  (Terms.keyText "*.db.host" = true
   /\ Js.startsWith "@" "*.db.host" = false
   /\ Terms.allSpace " " = true /\ Terms.allSpace "" = true
   /\ Terms.allSpace "local host " = false
   /\ Statement.interpret (fun _ => Value.NaN) (fun _ => inl "no") false
        "<memory>"
        ("*.db.host" +:+ " " +:+ Terms.opText Resolver.OpSetIfMissing
         +:+ "" +:+ "local host " +:+ ";")
        3 (Parser.out Parser.initial)
      = Parser.Parsed
          (Parser.pushRule (Parser.out Parser.initial)
             {| Resolver.filePath := "<memory>";
                Resolver.line := 3;
                Resolver.col := 0;
                Resolver.keyRaw := "*.db.host";
                Resolver.keySegments := ["*"; "db"; "host"];
                Resolver.op := Resolver.OpSetIfMissing;
                Resolver.value := Value.VStr "local host" |}))
  /\ (Terms.noneOf Terms.equals "no operator here;" = true
      /\ Js.startsWith "@" "no operator here;" = false
      /\ Statement.interpret (fun _ => Value.NaN) (fun _ => inl "no") false
           "<memory>" "no operator here;" 3 (Parser.out Parser.initial)
         = Parser.Failed {| Parser.pe_message := "Invalid statement";
                            Parser.pe_line := 3;
                            Parser.pe_col := None;
                            Parser.pe_filePath := "<memory>" |})
  /\ (~ In (Js.trim " 1e5 ") ["true"; "false"; "null"]
      /\ Statement.isNumeral (Js.trim " 1e5 ") = false
      /\ Statement.looksJsonish (Js.trim " 1e5 ") = false
      /\ Statement.parseValue (fun _ => Value.NaN) (fun _ => inl "no")
           "<memory>" " 1e5 " 3
         = Parser.Parsed (Value.VStr (Js.trim " 1e5 "))).
Proof.
  destruct X25_rule_statements as (Hrule & Hbad & Hword).
  split.
  { do 5 (split; [reflexivity|]).
    rewrite (Hrule (fun _ => Value.NaN) (fun _ => inl "no") "<memory>"
               "*.db.host" " " Resolver.OpSetIfMissing "" "local host "
               3 (Parser.out Parser.initial)
               eq_refl eq_refl eq_refl eq_refl eq_refl).
    reflexivity. }
  split.
  { split; [reflexivity|]. split; [reflexivity|].
    exact (Hbad (fun _ => Value.NaN) (fun _ => inl "no") "<memory>"
             "no operator here;" 3 (Parser.out Parser.initial)
             eq_refl eq_refl). }
  assert (Hkw : ~ In (Js.trim " 1e5 ") ["true"; "false"; "null"])
    by (vm_compute; intuition discriminate).
  split; [exact Hkw|]. split; [reflexivity|]. split; [reflexivity|].
  exact (Hword (fun _ => Value.NaN) (fun _ => inl "no") "<memory>" " 1e5 " 3
           Hkw eq_refl eq_refl).
Defined.

Lemma X26_directives_witness :
  (" " <> "" /\ Terms.allSpace " " = true
   /\ "env, region " <> ""
   /\ Terms.noneOf Terms.semicolon "env, region " = true
   /\ Statement.interpret (fun _ => Value.NaN) (fun _ => inl "no") false
        "<memory>" ("@dims" +:+ " " +:+ "env, region " +:+ ";" +:+ " *.a = 1;")
        1 (Parser.out Parser.initial)
      = Parser.Parsed
          {| Parser.dims := Some (Statement.names "env, region ");
             Parser.includes := [];
             Parser.requires := [];
             Parser.envDefaults := [];
             Parser.rules := [] |})
  /\ (Terms.oneLine "'./base.colony'" = true
      /\ Terms.allSpace "'./base.colony'" = false
      /\ Statement.interpret (fun _ => Value.NaN) (fun _ => inl "no") true
           "<memory>" ("@include" +:+ " " +:+ "'./base.colony'" +:+ ";")
           1 (Parser.out Parser.initial)
         = Parser.Parsed
             {| Parser.dims := None;
                Parser.includes := ["./base.colony"];
                Parser.requires := [];
                Parser.envDefaults := [];
                Parser.rules := [] |})
  /\ (Js.startsWith "@" "not a rule;" = false
      /\ Statement.interpret (fun _ => Value.NaN) (fun _ => inl "no") true
           "<memory>" "not a rule;" 1 (Parser.out Parser.initial)
         = Parser.Parsed (Parser.out Parser.initial)).
Proof.
  destruct X26_directives as (Hdims & _ & Hinc & _ & Honly).
  assert (Hws : " " <> "") by discriminate.
  assert (Hg : "env, region " <> "") by discriminate.
  split.
  { split; [exact Hws|]. split; [reflexivity|]. split; [exact Hg|].
    split; [reflexivity|].
    exact (Hdims (fun _ => Value.NaN) (fun _ => inl "no") false "<memory>"
             " " "env, region " " *.a = 1;" 1 (Parser.out Parser.initial)
             Hws eq_refl Hg eq_refl). }
  split.
  { split; [reflexivity|]. split; [reflexivity|].
    rewrite (Hinc (fun _ => Value.NaN) (fun _ => inl "no") true "<memory>"
               " " "'./base.colony'" 1 (Parser.out Parser.initial)
               Hws eq_refl eq_refl eq_refl).
    reflexivity. }
  split; [reflexivity|].
  exact (Honly (fun _ => Value.NaN) (fun _ => inl "no") "<memory>"
           "not a rule;" 1 (Parser.out Parser.initial) eq_refl).
Defined.

Lemma X27_environment_defaults_witness :
  (Forall (fun part => Terms.noneOf Terms.equals part = false)
     ["env=dev"; "region = 'us'"; "env=prod"]
   /\ exists assigned,
        Statement.envEntries ["env=dev"; "region = 'us'"; "env=prod"]
          [("tier", "one")]
        = inr assigned
        /\ Js.mapGet assigned "env" = Some "prod"
        /\ Js.mapGet assigned "region" = Some "us"
        /\ Js.mapGet assigned "tier" = Some "one")
  /\ (Forall (fun part => Terms.noneOf Terms.equals part = false) ["env=dev"]
      /\ Terms.noneOf Terms.equals "region" = true
      /\ Statement.envEntries (["env=dev"] ++ "region" :: ["tier=1"]) []
         = inl "region").
Proof.
  destruct X27_environment_defaults as (_ & Hgood & Hbad).
  assert (H1 : Forall (fun part => Terms.noneOf Terms.equals part = false)
                 ["env=dev"; "region = 'us'"; "env=prod"])
    by repeat constructor.
  assert (H2 : Forall (fun part => Terms.noneOf Terms.equals part = false)
                 ["env=dev"])
    by repeat constructor.
  split.
  { split; [exact H1|].
    destruct (Hgood _ [("tier", "one")] H1) as (assigned & E & Hget).
    exists assigned. split; [exact E|].
    split; [rewrite (Hget "env"); reflexivity|].
    split; [rewrite (Hget "region"); reflexivity|].
    rewrite (Hget "tier"). reflexivity. }
  split; [exact H2|]. split; [reflexivity|].
  exact (Hbad ["env=dev"] "region" ["tier=1"] [] H2 eq_refl).
Defined.

Lemma X28_context_of_a_load_witness :
  ((Index.dims (Samples.options ∅) = None
    \/ Index.dims (Samples.options ∅) = Some [])
   /\ Forall (fun u => Index.hasDims u = false) [Parser.out Parser.initial]
   /\ Index.hasDims (Samples.unit "db.host") = true
   /\ Some (Index.dimsOf (Samples.options ∅)
              ([Parser.out Parser.initial] ++ Samples.unit "db.host" :: []))
      = Parser.dims (Samples.unit "db.host"))
  /\ Index.ctxOf Samples.world (Samples.options ∅) [Samples.unit "db.host"]
     !! "env" = Some "test"
  /\ ("region" <> "env" /\ "region" <> "__proto__"
      /\ Index.ctxOf Samples.world (Samples.options ∅)
           [Samples.unit "db.host"] !! "region"
         = Some "eu").
Proof.
  destruct X28_context_of_a_load as (_ & _ & Hfirst & _ & Henv & Hdim & _).
  assert (H0 : Index.dims (Samples.options ∅) = None
               \/ Index.dims (Samples.options ∅) = Some [])
    by (left; reflexivity).
  assert (H1 : Forall (fun u => Index.hasDims u = false)
                 [Parser.out Parser.initial])
    by repeat constructor.
  split.
  { split; [exact H0|]. split; [exact H1|]. split; [reflexivity|].
    exact (Hfirst (Samples.options ∅) [Parser.out Parser.initial]
             (Samples.unit "db.host") [] H0 H1 eq_refl). }
  split.
  { rewrite (Henv Samples.world (Samples.options ∅) [Samples.unit "db.host"]).
    reflexivity. }
  assert (H2 : "region" <> "env") by discriminate.
  assert (H3 : "region" <> "__proto__") by discriminate.
  split; [exact H2|]. split; [exact H3|].
  rewrite (Hdim Samples.world (Samples.options ∅) [Samples.unit "db.host"]
             "region" H2 H3).
  reflexivity.
Defined.

Lemma X29_required_keys_witness :
  match Index.loadParsed Samples.world (Samples.options ∅)
          [Samples.unit "db.host"] [] 0 with
  | (Index.Loaded c, _) =>
      Forall (fun k => Terms.ownKey (Index.source c) k = true)
        (flat_map Parser.requires [Samples.unit "db.host"])
      /\ forall k, In k (flat_map Parser.requires [Samples.unit "db.host"]) ->
                   Index.get c k <> None
  | (Index.Failed _, _) => False
  end
  /\ match Resolver.resolveRules
            (Loader.allRules [Samples.unit "db.port"])
            (Index.dimsOf (Samples.options ∅) [Samples.unit "db.port"])
            (Index.resolveOptions Samples.world (Samples.options ∅)
               [Samples.unit "db.port"]) [] 0 with
     | (Resolver.Ok res, _) =>
         Forall (fun k => Terms.ownKey (Resolver.cfg res) k = true)
           (flat_map Parser.requires [Samples.unit "db.port"])
         /\ In "db.port" (flat_map Parser.requires [Samples.unit "db.port"])
         /\ Resolver.getByPath (Resolver.cfg res) "db.port" = None
         /\ exists e,
              fst (Index.loadParsed Samples.world (Samples.options ∅)
                     [Samples.unit "db.port"] [] 0)
              = Index.Failed e
     | (Resolver.Throw _, _) => False
     end.
Proof.
  destruct X29_required_keys as (Hloaded & Hmissing & _).
  split.
  - destruct (Index.loadParsed Samples.world (Samples.options ∅)
                [Samples.unit "db.host"] [] 0) as [[c|e] n'] eqn:E.
    + assert (Hown : Forall (fun k => Terms.ownKey (Index.source c) k = true)
                       (flat_map Parser.requires [Samples.unit "db.host"])).
      { pose proof E as E'. vm_compute in E'. injection E' as <- _.
        repeat constructor. }
      split; [exact Hown|].
      exact (proj1 (Hloaded Samples.world (Samples.options ∅)
                      [Samples.unit "db.host"] [] 0 c n' E Hown)).
    + vm_compute in E. discriminate.
  - destruct (Resolver.resolveRules
                (Loader.allRules [Samples.unit "db.port"])
                (Index.dimsOf (Samples.options ∅) [Samples.unit "db.port"])
                (Index.resolveOptions Samples.world (Samples.options ∅)
                   [Samples.unit "db.port"]) [] 0) as [[res|m] n1] eqn:E.
    + assert (Hin : In "db.port"
                      (flat_map Parser.requires [Samples.unit "db.port"]))
        by (simpl; tauto).
      assert (Hnone : Resolver.getByPath (Resolver.cfg res) "db.port" = None)
        by (pose proof E as E'; vm_compute in E'; injection E' as <- _;
            reflexivity).
      assert (Hown : Forall (fun k => Terms.ownKey (Resolver.cfg res) k = true)
                       (flat_map Parser.requires [Samples.unit "db.port"])).
      { pose proof E as E'. vm_compute in E'. injection E' as <- _.
        repeat constructor. }
      split; [exact Hown|]. split; [exact Hin|]. split; [exact Hnone|].
      exact (proj1 (Hmissing Samples.world (Samples.options ∅)
                      [Samples.unit "db.port"] [] 0 res n1 "db.port"
                      E Hown Hin Hnone)).
    + vm_compute in E. discriminate.
Defined.

Lemma X30_provider_registry_witness :
  (Secrets.prefix Examples.missingSecretProvider <> ""
   /\ Terms.asciiText (Secrets.prefix Examples.missingSecretProvider) = true
   /\ exists registry,
        Registry.registerSecretProvider ∅ Examples.missingSecretProvider
        = Resolver.Ok registry
        /\ registry !! "AWS" = Some Examples.missingSecretProvider
        /\ Registry.hasGlobalProviders registry = true)
  /\ (Terms.asciiText "aws" = true
      /\ snd (Registry.unregisterSecretProvider
                (<["AWS" := Examples.missingSecretProvider]> ∅) "aws")
         !! Js.toUpperCase "aws" = None).
Proof.
  destruct X30_provider_registry as (_ & Hreg & Hun & _).
  assert (H1 : Secrets.prefix Examples.missingSecretProvider <> "")
    by discriminate.
  split.
  { split; [exact H1|]. split; [reflexivity|].
    destruct (Hreg ∅ Examples.missingSecretProvider H1 eq_refl)
      as (registry & E & Hget & _ & Hhas).
    exists registry. split; [exact E|]. split; [exact Hget|exact Hhas]. }
  split; [reflexivity|].
  exact (proj1 (proj2 (Hun (<["AWS" := Examples.missingSecretProvider]> ∅)
                         "aws" eq_refl))).
Defined.
